(* ===== verification/_CoqProject ===== *)
-Q . S2P
Prelude.v
CLib.v
SecureMemory.v
AuthProtocol.v
AuthSys.v
BackendCredential.v
BackendRequest.v
BackendPrivileges.v
Transfer.v
BackendServer.v
BackendMain.v
Frontend.v
FrontendMain.v
AuthSystem.v
SandboxSys.v
Logger.v
SandboxOptions.v
MonitorState.v
History.v
NetworkFilter.v
ProcStat.v
ProcessTree.v
Cgroup.v
Trouble.v
Hardening.v
SandboxChild.v
Monitors.v
Supervisor.v
Supervision.v
SandboxMain.v
ControllerHistory.v
Grounds.v
Deadline.v
SandboxRun.v
Termination.v
Threads.v
