(* ===== verification/Prelude.v ===== *)
(** * Verification of the ST5039CMD authentication service and sandbox

    The repository holds two C programs for Linux systems.  The authentication
    service ([src/Authentication/]) is a backend that drops its privileges,
    listens on a Unix socket and checks one username and password against a
    credential file, and a frontend that asks the user for both and shows the
    answer.  The sandbox ([src/Sandbox/]) runs an untrusted program under
    resource limits: a controller forks and hardens the child, three monitor
    threads watch its time, memory and processor use, and the controller ends
    everything the child started when a limit is reached.

    ** Programs in this development

    A C function is a [prog E G A]: it gets a kernel and a world, and returns
    an outcome and a world.  [E] is a signature of calls to the environment,
    one constructor per call and type of its answer; the world holds [G], the
    objects of the program that outlive a function call, and the trace of all
    calls so far with their answers, newest first.  The [kernel] answers each
    call, from the whole trace, in any way: theorems quantify over all kernels
    unless they name what they need of them, as a class of documented laws
    ([IOLaws], [CredentialLaws], [BPF], [Locking], [responsive], [obliging],
    [timekeeping], [clock_monotonic], [mortal]) that a witness shows to be met.  An [Err] answer carries [errno].

    Local variables are bound by [let*], out-parameters are passed in and
    returned, [goto cleanup] is a call of a function for the code after the
    label.  A loop without a bound in C is [loop fuel body]; [OutOfFuel] is
    the only way in which the model stops where the C code goes on.  Besides,
    [_exit] and a successful [execve] halt.  Integers are [Z] with the
    wrap-around of the C type written out where the code can reach it; bytes
    are [Byte.byte]; a buffer is the list of all its bytes, a C string the part
    before its first NUL.

    A signal handler runs at the points where the program looks at the flag
    the handler sets: [Pending_signals] lists the signals since the last look.
    The threads of the sandbox meet only in the critical sections of one mutex.
    Each is a program of its own.  [Publish] marks that it changed the shared
    state, and the answer to [Mutex_lock] lists the changes of the others
    since it last held the mutex; so a theorem on one thread holds whatever the
    others do, and [Threads] considers the four together.

    ** The files

    - [Prelude]: outcomes, programs, loops, weakest preconditions, and the
      classes that describe programs as a whole: [Emits] (which calls),
      [Keeps] and [Moves] (what becomes of the memory), [Returns], [Fueled]
      (how they end), [Within] (calls under an invariant).  Each has rules for
      every construct and a tactic ([solve_emits], ...).
    - [CLib]: machine widths, the string functions, [snprintf], [strtol] and
      [strtoul], [fgets] and [fgetc] over a file.

    The authentication service:
    - [SecureMemory]: [secure_memory.c].
    - [AuthProtocol]: [auth_protocol.h]; structures and their bytes.
    - [AuthSys]: the calls of both programs.
    - [BackendCredential], [BackendRequest], [BackendPrivileges],
      [BackendServer], [BackendMain]: [Backend.c] in five parts, each
      [Definition] named after its function: loading the credential file;
      validating and deciding a request; the privilege drop; socket, peer
      check, transfers and [handle_client]; [main].
    - [Transfer]: what the two transfer loops of either program have in common.
    - [Frontend], [FrontendMain]: [Frontend.c]; the latter has the properties
      of the exchange and of [main].
    - [AuthSystem]: a frontend and a backend at the two ends of a connection.

    The sandbox:
    - [SandboxSys]: the calls of the controller and of its child, and concrete
      kernels ([scenario]) for witnesses.
    - [Logger]: [logger.c].
    - [SandboxOptions]: the command line ([Sandbox.c]).
    - [MonitorState]: the shared state ([monitor.c], [monitor.h]) with its
      operations as critical sections; [History]: what a thread's trace says
      of the state it has.
    - [NetworkFilter]: the seccomp program ([security.c]).
    - [ProcStat], [ProcessTree]: [process_tree.c]; reading one process, and
      the workload with its totals.
    - [Cgroup]: the cgroup of the workload ([security.c]).
    - [Trouble]: the calls that fail and the files that are not what the kernel
      writes; the parts that report an error met one of them.
    - [Hardening]: the hardening of the child ([security.c]).
    - [SandboxChild]: the child from [fork] to [execve] ([Sandbox.c]).
    - [Monitors]: the three monitor threads ([monitor.c]).
    - [Supervisor]: reaping, polling, signalling, terminating, supervising
      ([Sandbox.c]); [Supervision]: how long it takes and that it ends.
    - [SandboxMain]: [main] ([Sandbox.c]), with both sides of [fork];
      [SandboxRun]: what a run of it guarantees; [ControllerHistory]: its part
      in the history of the shared state; [Grounds]: what each reason for a
      termination rests on, said of traces alone; [Deadline]: how long it
      supervises, and that the workload ends; [Termination]: that [main] ends.
    - [Threads]: [main] and the monitors together.

    ** What is shown

    Authentication.  [login_end_to_end] composes the two programs: a login is
    reported only for the username and password of the credential file.  It
    rests on what each [main] does in every run ([main_authenticates],
    [main_replies]; [main_success_is_granted], [main_sends_only_logins]), and
    these on the decision ([process_request_success_iff],
    [secure_string_equal_correct]), the credential file against a reference
    parser ([load_demo_credential_parses]), the exchange
    ([handle_client_exchange]); that a structure is recovered from its bytes is
    a lemma of [AuthProtocol].  Secrets: they are cleared on every path
    ([main_cleans_up], [main_clears_request], [load_demo_credential_outcome]), not shown
    ([read_password_restores_echo]) and not given away by the answers
    ([process_request_hides_passwords]).  Privileges: they are gone before the
    first use of a socket ([main_privileges_dropped_first]), for good
    ([drop_privileges_irreversible]), and nothing is read but from an accepted
    descriptor whose peer was attested, on that descriptor, to be the invoking
    user ([main_reads_attested_peer]).  A path that was bound is unlinked, or
    the kernel refused and that was logged ([main_cleans_up]).

    Sandbox, containment.  The target runs only fully hardened
    ([run_sandbox_child_hardens]); what the two filters allow and deny is said
    bit by bit, apart from the code ([network_filter_correct], for every number
    and architecture, x32 included; [restrict_filesystem_grants], for the rights
    of each Landlock version); limits are read
    right ([parse_options_bounds], [parse_options_round_trip]) and enforced
    ([sandbox_cgroup_prepare_enforces]).  Sandbox, supervision.  The workload
    is exactly what one whole reading of [/proc] shows, in which nobody listed
    is left out who was not found gone ([process_tree_sample_spec],
    [read_process_stat_line]); signals reach only it
    ([sandbox_main_signals_only_workload]); a request is acted upon in bounded
    time, with [SIGTERM] and then [SIGKILL], and a workload that dies of
    [SIGKILL] is gone then
    ([supervise_workload_acts], [supervise_workload_ends]), for terminating ends ([terminate_workload_ends],
    [wait_for_workload_exit_result]); success means a clean run
    ([sandbox_main_success]); what was taken is kept
    only where the kernel refused its release ([sandbox_main_gives_back]).  Sandbox, threads.  The shared state is a
    state machine all threads respect ([sandbox_state_invariant],
    [request_termination_first_wins]); limits do fire
    ([timeout_monitor_fires]); monitors end ([monitors_stop]).  In every
    interleaving of the threads a reason that is given is true of the clock,
    the kernel's files, the signals and the failed calls
    ([reported_reason_true]), and the controller's [main] returns within the
    timeout of its command line, the lag of the timeout monitor behind it and
    the time of two terminations ([timeout_ends_sandbox]).

    ** Fuel

    Safety theorems hold for any fuel and also speak of runs that use it up.
    Theorems that a program returns say how much is enough:
    [load_demo_credential] one more than the bytes of the file; the transfers
    one round per byte and per interruption; [timeout_monitor_thread] one
    round per polling interval of the limit and one more;
    [terminate_workload] 101 rounds, which is the longer wait of 5000 ms in
    steps of 50 ms, where the loops inside it, over children, directory
    entries and interruptions, end ([responsive]).  The controller's loop over
    a workload that goes on and nobody ends has no bound, as in C; once the
    others ask for the end by its [n]th sleep, [n + 1] rounds are enough; with
    a timeout of [t] milliseconds and a lag of [l], [(t + l) / 50 + 1].  Where
    trouble is the reason for an error, the fuel is at most [2 ^ 50]: the
    arithmetic of the table of processes does not overflow before that.

    ** What is not modelled

    - The text [printf] makes of a format and its arguments: a line of output is
      the format with the arguments.  [fputs] and [perror] are such lines.
      [snprintf] into buffers is modelled.
    - The percentage the processor monitor logs, a [double]: a parameter of
      [cpu_monitor_thread].
    - Releasing memory ([free], [process_tree_sample_destroy]), and
      [sigemptyset] and the other set-up of arguments of a call.
    - Threads interleave at critical sections only: log lines of different
      threads are serialised by the logger's mutex, and nothing else is shared.
      A failure of a mutex is an answer of the kernel.
    - The branches of the preprocessor for Windows ([Frontend.c],
      [secure_memory.c] has both of its branches) and for AArch64
      ([security.c]).
    - The programs under [src/Sandbox/test/], which are workloads to try the
      sandbox on, the scripts and the Makefile.

    ** What modelling showed

    Four points at which code and intention differ, each with the
    input or the run that shows it: a child that exits cleanly between reaping and
    reading the cgroup is reported as a failure
    ([SandboxRun.clean_exit_reported_as_failure]); a timeout recorded just
    before the workload is found gone is reported as success
    ([SandboxRun.timeout_reported_as_success]); system calls of the x32 ABI
    pass the network filter ([NetworkFilter.network_filter_correct]); and a
    negative limit on the command line wraps
    ([SandboxOptions.wrapped_timeout_accepted]). *)

From stdpp Require Export prelude strings.
From Stdlib Require Export Strings.Byte.

Create HintDb wp.
Create HintDb trace.

(** ** Outcomes of a program fragment *)

(** Why a program fragment did not return to its caller. *)
Inductive halt : Type :=
  | OutOfFuel                     (**r a loop used up the fuel of the model *)
  | Exited (code : Z)             (**r [_exit(code)] *)
  | Replaced.                     (**r [execve()] replaced the process image *)

Inductive outcome (A : Type) : Type :=
  | Ret (a : A)
  | Halt (h : halt).
Arguments Ret {A} a.
Arguments Halt {A} h.

(** ** Programs over an abstract kernel

    [E] is the signature of the calls the program makes to its environment,
    [E T] being a call answered by a [T]; [G] is the program's own memory.
    The environment is a [kernel]: its answer to a call may depend on
    everything that happened before. *)

Inductive event (E : Type → Type) : Type :=
  | Ev {T : Type} (c : E T) (r : T).
Arguments Ev {E T} c r.

Definition kernel (E : Type → Type) : Type :=
  ∀ T, list (event E) → E T → T.

Record world (E : Type → Type) (G : Type) : Type := World {
  globals : G;
  trace : list (event E)          (**r newest event first *)
}.
Arguments World {E G} _ _.
Arguments globals {E G} _.
Arguments trace {E G} _.

Definition prog (E : Type → Type) (G A : Type) : Type :=
  kernel E → world E G → outcome A * world E G.

Definition ret {E G A} (a : A) : prog E G A := λ _ w, (Ret a, w).

Definition halting {E G A} (h : halt) : prog E G A := λ _ w, (Halt h, w).

Definition bind {E G A B} (m : prog E G A) (k : A → prog E G B) : prog E G B :=
  λ K w, match m K w with
         | (Ret a, w') => k a K w'
         | (Halt h, w') => (Halt h, w')
         end.

Definition call {E G T} (c : E T) : prog E G T :=
  λ K w, let r := K T (trace w) c in
         (Ret r, World (globals w) (Ev c r :: trace w)).

Definition get {E G A} (f : G → A) : prog E G A :=
  λ _ w, (Ret (f (globals w)), w).

Definition modify {E G} (f : G → G) : prog E G unit :=
  λ _ w, (Ret tt, World (f (globals w)) (trace w)).

(** A C loop: [body s] either continues with a new loop state ([inl]) or
    leaves the loop with a result ([inr]). *)
Fixpoint loop {E G S A} (fuel : nat) (body : S → prog E G (S + A)) (s : S)
    : prog E G A :=
  match fuel with
  | O => halting OutOfFuel
  | Datatypes.S n =>
      bind (body s) (λ x, match x with
                          | inl s' => loop n body s'
                          | inr a => ret a
                          end)
  end.

(** Instance search is by the head of a program, never by its definition. *)
#[export] Typeclasses Opaque ret halting bind call get modify loop.

Declare Scope prog_scope.
Delimit Scope prog_scope with prog.
Notation "'let*' x := m 'in' k" := (bind m (fun x => k))
  (at level 10, x pattern, m at level 100, k at level 200,
   format "'[v' 'let*'  x  :=  m  'in' '/' k ']'") : prog_scope.
Notation "m ;;; k" := (bind m (fun _ => k))
  (at level 199, right associativity,
   format "'[v' m  ;;; '/' k ']'") : prog_scope.
#[global] Open Scope prog_scope.

(** ** Weakest preconditions *)

Definition wp {E G A} (K : kernel E) (m : prog E G A)
    (Q : outcome A → world E G → Prop) (w : world E G) : Prop :=
  Q (m K w).1 (m K w).2.

(** A postcondition on normal returns, with one on halting. *)
Definition post {E G A} (Q : A → world E G → Prop)
    (X : halt → world E G → Prop) : outcome A → world E G → Prop :=
  λ o w, match o with Ret a => Q a w | Halt h => X h w end.

(** ** Properties of traces *)

(** [guarded_by act needs tr]: when an event satisfying [act] happened,
    the trace before it satisfied [needs]. *)
Fixpoint guarded_by {E} (act : event E → bool)
    (needs : list (event E) → Prop) (tr : list (event E)) : Prop :=
  match tr with
  | [] => True
  | e :: before => (act e = true → needs before) ∧ guarded_by act needs before
  end.

(** How often an event satisfying [p] happened. *)
Definition count_events {E} (p : event E → bool) (tr : list (event E)) : nat :=
  length (filter (λ e, p e = true) tr).
Arguments count_events : simpl never.

(** The events of [tr] since [tr0]. *)
Definition extends {E} (tr0 tr : list (event E)) : Prop :=
  ∃ new, tr = new ++ tr0.

(** [m] only adds events satisfying [P] to the trace, however it ends. *)
Class Emits {E G A} (P : event E → Prop) (m : prog E G A) : Prop :=
  emits : ∀ K w, ∃ new, trace (m K w).2 = new ++ trace w ∧ Forall P new.

(** [m] leaves the part [f] of the memory alone, however it ends. *)
Class Keeps {E G A B} (f : G → B) (m : prog E G A) : Prop :=
  keeps : ∀ K w, f (globals (m K w).2) = f (globals w).

Section rules.
Context {E : Type → Type} {G : Type} (K : kernel E).

Lemma wp_ret {A} (a : A) (Q : outcome A → world E G → Prop) w :
  wp K (ret a) Q w = Q (Ret a) w.
Proof. reflexivity. Qed.

Lemma wp_halting {A} h (Q : outcome A → world E G → Prop) w :
  wp K (halting h) Q w = Q (Halt h) w.
Proof. reflexivity. Qed.

Lemma wp_bind {A B} (m : prog E G A) (k : A → prog E G B) Q w :
  wp K (bind m k) Q w =
  wp K m (λ o w', match o with
                  | Ret a => wp K (k a) Q w'
                  | Halt h => Q (Halt h) w'
                  end) w.
Proof. unfold wp, bind. by destruct (m K w) as [[a|h] w']. Qed.

Lemma wp_call {T} (c : E T) (Q : outcome T → world E G → Prop) w :
  wp K (call c) Q w =
  Q (Ret (K T (trace w) c))
    (World (globals w) (Ev c (K T (trace w) c) :: trace w)).
Proof. reflexivity. Qed.

Lemma wp_get {A} (f : G → A) (Q : outcome A → world E G → Prop) w :
  wp K (get f) Q w = Q (Ret (f (globals w))) w.
Proof. reflexivity. Qed.

Lemma wp_modify (f : G → G) (Q : outcome unit → world E G → Prop) w :
  wp K (modify f) Q w = Q (Ret tt) (World (f (globals w)) (trace w)).
Proof. reflexivity. Qed.

(** What a proved postcondition says of a run that was computed. *)
Lemma wp_run {A} (m : prog E G A) (Q : A → world E G → Prop) X w a :
  wp K m (post Q X) w → (m K w).1 = Ret a → Q a (m K w).2.
Proof. unfold wp. intros H Ha. by rewrite Ha in H. Qed.

Lemma wp_mono {A} (m : prog E G A) (Q Q' : outcome A → world E G → Prop) w :
  wp K m Q' w → (∀ o w', Q' o w' → Q o w') → wp K m Q w.
Proof. unfold wp. auto. Qed.

Lemma wp_conj {A} (m : prog E G A) (Q Q' : outcome A → world E G → Prop) w :
  wp K m Q w → wp K m Q' w → wp K m (λ o w', Q o w' ∧ Q' o w') w.
Proof. unfold wp. auto. Qed.

(** The run itself. *)
Lemma wp_exactly {A} (m : prog E G A) w : wp K m (λ o w', m K w = (o, w')) w.
Proof. unfold wp. by destruct (m K w). Qed.

Lemma wp_conj_post {A} (m : prog E G A) (Q Q' : A → world E G → Prop) w :
  wp K m (post Q (λ _ _, True)) w → wp K m (post Q' (λ _ _, True)) w →
  wp K m (post (λ a w', Q a w' ∧ Q' a w') (λ _ _, True)) w.
Proof. unfold wp. by destruct (m K w).1. Qed.

(** The loop rule: an invariant indexed by the number of iterations. *)
Lemma wp_loop {S A} (Inv : nat → S → world E G → Prop)
    (Q : outcome A → world E G → Prop) (body : S → prog E G (S + A)) n s w :
  (∀ i s w, i < n → Inv i s w →
     wp K (body s) (λ o w', match o with
                            | Ret (inl s') => Inv (Datatypes.S i) s' w'
                            | Ret (inr a) => Q (Ret a) w'
                            | Halt h => Q (Halt h) w'
                            end) w) →
  (∀ s w, Inv n s w → Q (Halt OutOfFuel) w) →
  Inv 0 s w →
  wp K (loop n body s) Q w.
Proof.
  intros Hbody Hfuel.
  cut (∀ k i s w, i + k = n → Inv i s w → wp K (loop k body s) Q w).
  { intros Hcut Hinv. by apply (Hcut n 0 s w). }
  clear s w. intros k. induction k as [|k IH]; intros i s w Hik Hinv; simpl.
  - rewrite wp_halting. apply (Hfuel s). by replace n with i by lia.
  - rewrite wp_bind. eapply wp_mono; [by apply (Hbody i); [lia|]|].
    intros [[s'|a]|h] w'; simpl; [|by rewrite wp_ret|done].
    intros Hinv'. apply (IH (Datatypes.S i)); [lia|done].
Qed.

(** A loop whose invariant does not count iterations. *)
Lemma wp_loop_inv {S A} (Inv : S → world E G → Prop)
    (Q : outcome A → world E G → Prop) (body : S → prog E G (S + A)) n s w :
  (∀ s w, Inv s w →
     wp K (body s) (λ o w', match o with
                            | Ret (inl s') => Inv s' w'
                            | Ret (inr a) => Q (Ret a) w'
                            | Halt h => Q (Halt h) w'
                            end) w) →
  (∀ s w, Inv s w → Q (Halt OutOfFuel) w) →
  Inv s w →
  wp K (loop n body s) Q w.
Proof. intros Hb Hf Hi. apply (wp_loop (λ _, Inv)); eauto. Qed.

(** A loop that makes a measure smaller ends, its fuel being enough. *)
Lemma wp_loop_measure {S A} (measure : S → nat) (body : S → prog E G (S + A)) n s w :
  (∀ s w, wp K (body s) (post (λ x _, match x with
                                      | inl s' => measure s' < measure s
                                      | inr _ => True
                                      end) (λ _ _, False)) w) →
  measure s < n →
  wp K (loop n body s) (post (λ _ _, True) (λ _ _, False)) w.
Proof.
  intros Hbody. revert s w. induction n as [|n IH]; intros s w Hn; [lia|].
  simpl. rewrite wp_bind. eapply wp_mono; [apply Hbody|].
  intros [[s'|a]|h] w'; simpl; [|done..]. intros Hlt. apply IH. lia.
Qed.

End rules.

#[export] Hint Rewrite @wp_ret @wp_halting @wp_bind @wp_call @wp_get
  @wp_modify : wp.

(** Symbolic execution of straight-line code: the goal is a [wp].  Components
    add the equations of their own small operations to the database. *)
Ltac wp_step :=
  progress (autorewrite with wp; cbn [globals trace negb andb orb]).
Ltac wp_steps := repeat wp_step.

(** Case analysis on the condition of the conditional under a [wp]. *)
Ltac wp_decide H :=
  match goal with
  | |- wp _ (if bool_decide ?P then _ else _) _ _ =>
      destruct (bool_decide_reflect P) as [H|H]
  end.

(** ** The events a program can add *)

Section emits.
Context {E : Type → Type} {G : Type} (P : event E → Prop).

#[export] Instance emits_ret {A} (a : A) : Emits P (ret a : prog E G A).
Proof. intros K w. by exists []. Qed.

#[export] Instance emits_halting {A} h : Emits P (halting h : prog E G A).
Proof. intros K w. by exists []. Qed.

#[export] Instance emits_get {A} (f : G → A) : Emits P (get f).
Proof. intros K w. by exists []. Qed.

#[export] Instance emits_modify (f : G → G) : Emits (E := E) P (modify f).
Proof. intros K w. by exists []. Qed.

Lemma emits_call {T} (c : E T) : (∀ r, P (Ev c r)) → Emits P (call c : prog E G T).
Proof. intros H K w. eexists [_]. split; [done|]. by constructor. Qed.

Lemma emits_bind {A B} (m : prog E G A) (k : A → prog E G B) :
  Emits P m → (∀ a, Emits P (k a)) → Emits P (bind m k).
Proof.
  intros Hm Hk K w. destruct (Hm K w) as (new & Hnew & HP).
  unfold bind. destruct (m K w) as [[a|h] w']; simpl in Hnew; [|by exists new].
  destruct (Hk a K w') as (new' & Hnew' & HP').
  exists (new' ++ new). rewrite Hnew', Hnew, app_assoc. split; [done|].
  by apply Forall_app.
Qed.

Lemma emits_loop {S A} n (body : S → prog E G (S + A)) s :
  (∀ s, Emits P (body s)) → Emits P (loop n body s).
Proof.
  intros Hb. revert s. induction n as [|n IH]; intros s; [apply emits_halting|].
  apply emits_bind; [done|]. intros [s'|a]; [done|apply emits_ret].
Qed.

Lemma emits_wp {A} (m : prog E G A) K w :
  Emits P m → wp K m (λ _ w', ∃ new, trace w' = new ++ trace w ∧ Forall P new) w.
Proof. intros H. apply H. Qed.

End emits.

Lemma emits_weaken {E G A} (P Q : event E → Prop) (m : prog E G A) :
  Emits P m → (∀ e, P e → Q e) → Emits Q m.
Proof.
  intros Hm HPQ K w. destruct (Hm K w) as (new & Hnew & HP). exists new.
  split; [done|]. eapply Forall_impl; eauto.
Qed.

(** Walk through the structure of a program; named parts are found as
    instances, the events of single calls are left to the caller. *)
Ltac emits_step :=
  lazymatch goal with
  | |- Emits _ (bind _ _) => apply emits_bind; [|intros ?]
  | |- Emits _ (loop _ _ _) => apply emits_loop; intros ?
  | |- Emits _ (call _) => apply emits_call; intros ?; try done
  | |- Emits _ (if ?b then _ else _) => destruct b
  | |- Emits _ (match ?x with _ => _ end) => destruct x
  | |- Emits _ _ => apply _
  end.
Ltac solve_emits := repeat emits_step.

(** ** The memory a program leaves alone *)

Section keeps.
Context {E : Type → Type} {G B : Type} (f : G → B).

#[export] Instance keeps_ret {A} (a : A) : Keeps f (ret a : prog E G A).
Proof. by intros K w. Qed.

#[export] Instance keeps_halting {A} h : Keeps f (halting h : prog E G A).
Proof. by intros K w. Qed.

#[export] Instance keeps_get {A} (g : G → A) : Keeps f (get g : prog E G A).
Proof. by intros K w. Qed.

#[export] Instance keeps_call {T} (c : E T) : Keeps f (call c : prog E G T).
Proof. by intros K w. Qed.

Lemma keeps_modify (u : G → G) :
  (∀ g, f (u g) = f g) → Keeps f (modify u : prog E G unit).
Proof. intros H K w. apply H. Qed.

Lemma keeps_bind {A C} (m : prog E G A) (k : A → prog E G C) :
  Keeps f m → (∀ a, Keeps f (k a)) → Keeps f (bind m k).
Proof.
  intros Hm Hk K w. specialize (Hm K w). unfold bind.
  destruct (m K w) as [[a|h] w']; [|done]. simpl in Hm. rewrite <- Hm. apply Hk.
Qed.

Lemma keeps_loop {S A} n (body : S → prog E G (S + A)) s :
  (∀ s, Keeps f (body s)) → Keeps f (loop n body s).
Proof.
  intros Hb. revert s. induction n as [|n IH]; intros s; [apply keeps_halting|].
  apply keeps_bind; [done|]. intros [s'|a]; [done|apply keeps_ret].
Qed.

Lemma keeps_wp {A} (m : prog E G A) K w :
  Keeps f m → wp K m (λ _ w', f (globals w') = f (globals w)) w.
Proof. intros H. apply H. Qed.

End keeps.

(** A part of a memory that is left alone. *)
Lemma keeps_part {E G A B} (f : G → B) (m : prog E G A) : Keeps (λ g : G, g) m → Keeps f m.
Proof. intros Hm K w. specialize (Hm K w). simpl in Hm. by rewrite Hm. Qed.

Ltac keeps_step :=
  lazymatch goal with
  | |- Keeps _ (bind _ _) => apply keeps_bind; [|intros ?]
  | |- Keeps _ (loop _ _ _) => apply keeps_loop; intros ?
  | |- Keeps _ (modify _) => apply keeps_modify; intros ?; try done
  | |- Keeps _ (if ?b then _ else _) => destruct b
  | |- Keeps _ (match ?x with _ => _ end) => destruct x
  | |- Keeps _ _ => apply _
  end.
Ltac solve_keeps := repeat keeps_step.

(** What is proved of a program that adds events of one kind and leaves the
    memory alone can be used with that knowledge. *)
Lemma wp_framed {E G A} (P : event E → Prop) (m : prog E G A)
    (Q' Q : outcome A → world E G → Prop) K w :
  Emits P m → Keeps (λ g : G, g) m → wp K m Q' w →
  (∀ o new, Forall P new → Q' o (World (globals w) (new ++ trace w)) →
     Q o (World (globals w) (new ++ trace w))) →
  wp K m Q w.
Proof.
  intros He Hk HQ' HQ. unfold wp in *. destruct (He K w) as (new & Htr & HP).
  specialize (Hk K w). simpl in Hk. destruct (m K w) as [o [g t]]; simpl in *. subst.
  by apply HQ.
Qed.

(** ** How a program may change its memory *)

(** [m] moves the memory along the preorder [R], however it ends. *)
Class Moves {E G A} (R : relation G) (m : prog E G A) : Prop :=
  moves : ∀ K w, R (globals w) (globals (m K w).2).

Section moves.
Context {E : Type → Type} {G : Type} (R : relation G) `{!PreOrder R}.

#[export] Instance moves_ret {A} (a : A) : Moves R (ret a : prog E G A).
Proof. intros K w. simpl. reflexivity. Qed.

#[export] Instance moves_halting {A} h : Moves R (halting h : prog E G A).
Proof. intros K w. simpl. reflexivity. Qed.

#[export] Instance moves_get {A} (f : G → A) : Moves R (get f : prog E G A).
Proof. intros K w. simpl. reflexivity. Qed.

#[export] Instance moves_call {T} (c : E T) : Moves R (call c : prog E G T).
Proof. intros K w. simpl. reflexivity. Qed.

Lemma moves_modify (u : G → G) :
  (∀ g, R g (u g)) → Moves R (modify u : prog E G unit).
Proof. intros H K w. apply H. Qed.

Lemma moves_keeps {A} (m : prog E G A) : Keeps (λ g : G, g) m → Moves R m.
Proof. intros H K w. rewrite (H K w). reflexivity. Qed.

Lemma moves_bind {A C} (m : prog E G A) (k : A → prog E G C) :
  Moves R m → (∀ a, Moves R (k a)) → Moves R (bind m k).
Proof.
  intros Hm Hk K w. specialize (Hm K w). unfold bind.
  destruct (m K w) as [[a|h] w']; [|done]. simpl in Hm.
  etrans; [exact Hm|]. apply Hk.
Qed.

Lemma moves_loop {S A} n (body : S → prog E G (S + A)) s :
  (∀ s, Moves R (body s)) → Moves R (loop n body s).
Proof.
  intros Hb. revert s. induction n as [|n IH]; intros s; [apply moves_halting|].
  apply moves_bind; [done|]. intros [s'|a]; [done|apply moves_ret].
Qed.

Lemma wp_moves {A} (m : prog E G A) K w :
  Moves R m → wp K m (λ _ w', R (globals w) (globals w')) w.
Proof. intros H. apply H. Qed.

End moves.

Lemma wp_moves_post {E G A} (R : relation G) (m : prog E G A) K w :
  Moves R m → wp K m (post (λ _ w', R (globals w) (globals w')) (λ _ _, True)) w.
Proof. intros H. specialize (H K w). unfold wp. by destruct (m K w).1. Qed.

(** A part of which only the kind of its events matters. *)
Lemma wp_emitting {E G A} (P : event E → Prop) (m : prog E G A)
    (Q : outcome A → world E G → Prop) K w :
  Emits P m →
  (∀ o w' new, trace w' = new ++ trace w → Forall P new → Q o w') → wp K m Q w.
Proof. intros He HQ. destruct (He K w) as (new & Htr & HP). by eapply HQ. Qed.

Lemma wp_true {E G A} (m : prog E G A) K w : wp K m (λ _ _, True) w.
Proof. exact I. Qed.

Ltac moves_step :=
  lazymatch goal with
  | |- Moves _ (bind _ _) => apply moves_bind; [apply _| |intros ?]
  | |- Moves _ (loop _ _ _) => apply moves_loop; [apply _|]; intros ?
  | |- Moves _ (modify _) => apply moves_modify; intros ?
  | |- Moves _ (if ?b then _ else _) => destruct b
  | |- Moves _ (match ?x with _ => _ end) => destruct x
  | |- Moves _ _ => first [apply _ | apply moves_keeps; apply _]
  end.
Ltac solve_moves := repeat moves_step.

(** ** Programs that always return *)

(** [m] returns to its caller, whatever the environment answers. *)
Class Returns {E G A} (m : prog E G A) : Prop :=
  returns : ∀ K w, ∃ a, (m K w).1 = Ret a.

Section returns.
Context {E : Type → Type} {G : Type}.

#[export] Instance returns_ret {A} (a : A) : Returns (ret a : prog E G A).
Proof. intros K w. by exists a. Qed.

#[export] Instance returns_get {A} (f : G → A) : Returns (get f : prog E G A).
Proof. intros K w. by eexists. Qed.

#[export] Instance returns_modify (f : G → G) : Returns (modify f : prog E G unit).
Proof. intros K w. by eexists. Qed.

#[export] Instance returns_call {T} (c : E T) : Returns (call c : prog E G T).
Proof. intros K w. by eexists. Qed.

Lemma returns_bind {A B} (m : prog E G A) (k : A → prog E G B) :
  Returns m → (∀ a, Returns (k a)) → Returns (bind m k).
Proof.
  intros Hm Hk K w. unfold bind. destruct (Hm K w) as [a Ha].
  destruct (m K w) as [o w']; simpl in Ha; subst o. apply Hk.
Qed.

Lemma returns_loop {S A} (measure : S → nat) (body : S → prog E G (S + A)) n s :
  (∀ K s w, wp K (body s) (post (λ x _, match x with
                                        | inl s' => measure s' < measure s
                                        | inr _ => True
                                        end) (λ _ _, False)) w) →
  measure s < n → Returns (loop n body s).
Proof.
  intros Hbody Hn K w.
  pose proof (wp_loop_measure K measure body n s w (Hbody K) Hn) as H.
  unfold wp, post in H. destruct (loop n body s K w).1; [by eexists|done].
Qed.

(** A call of a program whose details do not matter: it returns, adds events
    of one kind and leaves the memory alone. *)
Lemma wp_quiet {A} (P : event E → Prop) (m : prog E G A) K Q w :
  Returns m → Emits P m → Keeps (λ g : G, g) m →
  (∀ a new, Forall P new → Q (Ret a) (World (globals w) (new ++ trace w))) →
  wp K m Q w.
Proof.
  intros Hr He Hk HQ. unfold wp. destruct (Hr K w) as [a ->].
  destruct (He K w) as (new & Htr & HP). specialize (Hk K w). simpl in Hk.
  destruct (m K w).2 as [g t]; simpl in *. subst. by apply HQ.
Qed.

End returns.

Ltac returns_step :=
  lazymatch goal with
  | |- Returns (bind _ _) => apply returns_bind; [|intros ?]
  | |- Returns (if ?b then _ else _) => destruct b
  | |- Returns (match ?x with _ => _ end) => destruct x
  | |- Returns _ => apply _
  end.
Ltac solve_returns := repeat returns_step.

(** ** Programs that stop only for lack of fuel *)

Class Fueled {E G A} (m : prog E G A) : Prop :=
  fueled : ∀ K w, (∃ a, (m K w).1 = Ret a) ∨ (m K w).1 = Halt OutOfFuel.

Section fueled.
Context {E : Type → Type} {G : Type}.

#[export] Instance fueled_ret {A} (a : A) : Fueled (ret a : prog E G A).
Proof. left. by exists a. Qed.

#[export] Instance fueled_get {A} (f : G → A) : Fueled (get f : prog E G A).
Proof. left. by eexists. Qed.

#[export] Instance fueled_modify (f : G → G) : Fueled (modify f : prog E G unit).
Proof. left. by eexists. Qed.

#[export] Instance fueled_call {T} (c : E T) : Fueled (call c : prog E G T).
Proof. left. by eexists. Qed.

Lemma fueled_bind {A B} (m : prog E G A) (k : A → prog E G B) :
  Fueled m → (∀ a, Fueled (k a)) → Fueled (bind m k).
Proof.
  intros Hm Hk K w. unfold bind. destruct (Hm K w) as [[a Ha]|Ha];
    destruct (m K w) as [o w']; simpl in Ha; subst o; [apply Hk|by right].
Qed.

Lemma fueled_loop {S A} n (body : S → prog E G (S + A)) s :
  (∀ s, Fueled (body s)) → Fueled (loop n body s).
Proof.
  intros Hb. revert s. induction n as [|n IH]; intros s; [by right|].
  apply fueled_bind; [done|]. intros [s'|a]; [done|apply fueled_ret].
Qed.

Lemma fueled_returns {A} (m : prog E G A) : Returns m → Fueled m.
Proof. intros H K w. left. apply H. Qed.

Lemma wp_fueled {A} K (m : prog E G A) (Q : A → world E G → Prop) w :
  Fueled m → wp K m (post Q (λ _ _, True)) w → wp K m (post Q (λ h _, h = OutOfFuel)) w.
Proof. intros Hm. unfold wp. by destruct (Hm K w) as [[a ->]| ->]. Qed.

End fueled.

Ltac fueled_step :=
  lazymatch goal with
  | |- Fueled (bind _ _) => apply fueled_bind; [|intros ?]
  | |- Fueled (loop _ _ _) => apply fueled_loop; intros ?
  | |- Fueled (if ?b then _ else _) => destruct b
  | |- Fueled (match ?x with _ => _ end) => destruct x
  | |- Fueled _ => first [apply _ | apply fueled_returns; apply _]
  end.
Ltac solve_fueled := repeat fueled_step.

(** ** What a program does while its memory satisfies an invariant *)

(** From a memory in [I], [m] only adds events satisfying [P] to the trace
    and stays in [I]. *)
Class Within {E G A} (K : kernel E) (I : G → Prop) (P : event E → Prop)
    (m : prog E G A) : Prop :=
  within : ∀ w, I (globals w) → I (globals (m K w).2) ∧
    ∃ new, trace (m K w).2 = new ++ trace w ∧ Forall P new.

Section within.
Context {E : Type → Type} {G : Type} (K : kernel E) (I : G → Prop) (P : event E → Prop).

(** Sequencing, with what is known of the first part's result. *)
Lemma within_bind_post {A B} (Q : A → Prop) (m : prog E G A) (k : A → prog E G B) :
  (∀ w, I (globals w) → wp K m (post (λ a _, Q a) (λ _ _, True)) w) →
  Within K I P m → (∀ a, Q a → Within K I P (k a)) → Within K I P (bind m k).
Proof.
  intros HQ Hm Hk w Hw. destruct (Hm w Hw) as (HI & new & Hnew & HP).
  specialize (HQ w Hw). unfold wp in HQ.
  unfold bind. destruct (m K w) as [[a|h] w']; simpl in *; [|by split; [|exists new]].
  destruct (Hk a HQ w' HI) as (HI' & new' & Hnew' & HP'). split; [done|].
  exists (new' ++ new). rewrite Hnew', Hnew, app_assoc. split; [done|]. by apply Forall_app.
Qed.

Lemma within_bind {A B} (m : prog E G A) (k : A → prog E G B) :
  Within K I P m → (∀ a, Within K I P (k a)) → Within K I P (bind m k).
Proof.
  intros Hm Hk. apply (within_bind_post (λ _, True)); [|done|auto].
  intros w _. unfold wp. by destruct (m K w).1.
Qed.

Lemma within_loop {S A} n (body : S → prog E G (S + A)) s :
  (∀ s, Within K I P (body s)) → Within K I P (loop n body s).
Proof.
  intros Hb. revert s. induction n as [|n IH]; intros s.
  { intros w Hw. split; [done|]. by exists []. }
  apply within_bind; [done|]. intros [s'|a]; [done|].
  intros w Hw. split; [done|]. by exists [].
Qed.

(** A program that moves its memory inside [I] and adds harmless events. *)
Lemma within_frame {A} (R : relation G) (P' : event E → Prop) (m : prog E G A) :
  Moves R m → Emits P' m → (∀ g g', R g g' → I g → I g') → (∀ e, P' e → P e) →
  Within K I P m.
Proof.
  intros HR HP' HI HPP w Hw. split; [eapply HI; [apply HR|exact Hw]|].
  destruct (HP' K w) as (new & Hnew & Hall). exists new. split; [done|].
  eapply Forall_impl; [exact Hall|]. auto.
Qed.

Lemma within_wp {A} (m : prog E G A) w :
  Within K I P m → I (globals w) →
  wp K m (λ _ w', I (globals w') ∧ ∃ new, trace w' = new ++ trace w ∧ Forall P new) w.
Proof. intros Hm Hw. by apply Hm. Qed.

End within.

(** ** Lemmas on traces *)

Lemma guarded_by_app {E} act needs (new tr : list (event E)) :
  Forall (λ e, act e = false) new → guarded_by act needs tr →
  guarded_by act needs (new ++ tr).
Proof.
  intros Hnew Htr. induction Hnew as [|e new He _ IH]; [done|].
  split; [congruence|done].
Qed.

(** Once [needs] holds it goes on holding, and any event is allowed. *)
Lemma guarded_by_unlocked {E} act (needs : list (event E) → Prop) new tr :
  (∀ e t, needs t → needs (e :: t)) → needs tr →
  guarded_by act needs tr → needs (new ++ tr) ∧ guarded_by act needs (new ++ tr).
Proof.
  intros Hmono Hn Hg. induction new as [|e new [IH1 IH2]]; [done|].
  split; [by apply Hmono|]. by split.
Qed.

Lemma guarded_by_cons {E} act needs (e : event E) tr :
  (act e = true → needs tr) → guarded_by act needs tr →
  guarded_by act needs (e :: tr).
Proof. done. Qed.

Lemma guarded_by_split {E} act needs (tr post pre : list (event E)) e :
  guarded_by act needs tr → tr = post ++ e :: pre → act e = true → needs pre.
Proof.
  intros Hg -> He. induction post as [|e' post IH]; simpl in Hg; [|tauto].
  by apply (proj1 Hg).
Qed.

Lemma count_events_cons {E} (p : event E → bool) e tr :
  count_events p (e :: tr) = ((if p e then 1 else 0) + count_events p tr)%nat.
Proof. unfold count_events. rewrite filter_cons. by destruct (p e). Qed.

Lemma count_events_app {E} (p : event E → bool) t1 t2 :
  count_events p (t1 ++ t2) = (count_events p t1 + count_events p t2)%nat.
Proof. unfold count_events. by rewrite filter_app, length_app. Qed.

Lemma count_events_none {E} (p : event E → bool) tr :
  Forall (λ e, p e = false) tr → count_events p tr = 0%nat.
Proof.
  induction 1 as [|e tr He _ IH]; [done|]. by rewrite count_events_cons, He, IH.
Qed.

Lemma extends_refl {E} (tr : list (event E)) : extends tr tr.
Proof. by exists []. Qed.

Lemma extends_trans {E} (t1 t2 t3 : list (event E)) :
  extends t1 t2 → extends t2 t3 → extends t1 t3.
Proof. intros [n1 ->] [n2 ->]. exists (n2 ++ n1). by rewrite app_assoc. Qed.

Lemma extends_cons {E} (e : event E) t1 t2 :
  extends t1 t2 → extends t1 (e :: t2).
Proof. intros [n ->]. by exists (e :: n). Qed.

(** The trace grew by events satisfying [P]. *)
Definition grown {E} (P : event E → Prop) (tr tr' : list (event E)) : Prop :=
  ∃ new, tr' = new ++ tr ∧ Forall P new.

#[export] Instance grown_preorder {E} (P : event E → Prop) : PreOrder (grown P).
Proof.
  split; [by intros tr; exists []|].
  intros t1 t2 t3 (n1 & -> & H1) (n2 & -> & H2). exists (n2 ++ n1).
  rewrite (assoc_L app). split; [done|]. by apply Forall_app.
Qed.

Lemma grown_cons {E} (P : event E → Prop) tr tr' e :
  P e → grown P tr tr' → grown P tr (e :: tr').
Proof. intros He (new & -> & H). exists (e :: new). split; [done|]. by constructor. Qed.

Lemma grown_app {E} (P : event E → Prop) tr tr' new :
  Forall P new → grown P tr tr' → grown P tr (new ++ tr').
Proof.
  intros Hnew (new' & -> & H). exists (new ++ new'). rewrite (assoc_L app).
  split; [done|]. by apply Forall_app.
Qed.

Lemma grown_extends {E} (P : event E → Prop) tr tr' : grown P tr tr' → extends tr tr'.
Proof. intros (new & -> & _). by exists new. Qed.

Lemma grown_weaken {E} (P Q : event E → Prop) tr tr' :
  (∀ e, P e → Q e) → grown P tr tr' → grown Q tr tr'.
Proof. intros HPQ (new & -> & H). exists new. split; [done|]. by eapply Forall_impl. Qed.

Lemma grown_refl {E} (P : event E → Prop) tr : grown P tr tr.
Proof. reflexivity. Qed.

#[export] Hint Resolve extends_refl extends_cons guarded_by_cons grown_refl grown_cons : trace.
