(* ===== verification/CLib.v ===== *)
(** * The part of C and of its library the programs use

    Bytes and machine widths (the LP64 Linux ABI), objects as byte lists of
    fixed length, the string functions ([memchr], [strlen], [strcspn],
    [strchr], [strrchr], [strcmp]), [snprintf], the [strtol] family in base
    10, and buffered input ([FILE], [fgets], [fgetc]).  A string argument is
    the whole object it lies in; a function that would run past the object in
    C stops at its end here, and the developments prove that the terminator
    is inside the object where the code relies on it. *)

From S2P Require Import Prelude.
From stdpp Require Import pretty.
Local Open Scope Z_scope.

#[export] Instance byte_eq_decision : EqDecision byte := Byte.byte_eq_dec.

Definition b2z (c : byte) : Z := Z.of_N (Byte.to_N c).

Definition z2b (z : Z) : byte :=
  default x00 (Byte.of_N (Z.to_N (z `mod` 256))).

Definition txt (s : string) : list byte := String.list_byte_of_string s.

(** ** Constants of the platform *)

Definition NUL : byte := x00.
Definition LF : byte := x0a.
Definition CR : byte := x0d.

Definition EPERM : Z := 1.
Definition ENOENT : Z := 2.
Definition ESRCH : Z := 3.
Definition EINTR : Z := 4.
Definition EIO : Z := 5.
Definition ECHILD : Z := 10.
Definition EACCES : Z := 13.
Definition EINVAL : Z := 22.
Definition ENAMETOOLONG : Z := 36.
Definition ENOSYS : Z := 38.
Definition EOVERFLOW : Z := 75.
Definition ENOTSUP : Z := 95.
Definition ECANCELED : Z := 125.

Definition SIGHUP : Z := 1.
Definition SIGINT : Z := 2.
Definition SIGKILL : Z := 9.
Definition SIGPIPE : Z := 13.
Definition SIGTERM : Z := 15.

Definition INT_MAX : Z := 2 ^ 31 - 1.
Definition UINT_MAX : Z := 2 ^ 32 - 1.
Definition LONG_MAX : Z := 2 ^ 63 - 1.
Definition LONG_MIN : Z := - 2 ^ 63.
Definition ULONG_MAX : Z := 2 ^ 64 - 1.
Definition PATH_MAX : nat := 4096.

(** The exit statuses of [main]. *)
Definition EXIT_SUCCESS : Z := 0.
Definition EXIT_FAILURE : Z := 1.

(** The standard streams. *)
Inductive stream : Type := Stdout | Stderr.

#[export] Instance stream_eq_dec : EqDecision stream.
Proof. solve_decision. Defined.

(** Results of calls that set [errno] when they fail. *)
Inductive res (A : Type) : Type :=
  | Ok (a : A)
  | Err (errno : Z).
Arguments Ok {A} a.
Arguments Err {A} errno.

(** ** Objects: byte lists of a fixed length *)

Definition zeros (n : nat) : list byte := replicate n NUL.

(** [l[i]] for an index inside the object. *)
Definition char_at (l : list byte) (i : nat) : byte := default NUL (l !! i).

(** [memcpy(&buf[off], data, length data)] *)
Definition store (off : nat) (data buf : list byte) : list byte :=
  take off buf ++ data ++ drop (off + length data) buf.

Fixpoint find_index (p : byte → bool) (l : list byte) : option nat :=
  match l with
  | [] => None
  | c :: l' => if p c then Some O else S <$> find_index p l'
  end.

Definition memchr (l : list byte) (c : byte) : option nat :=
  find_index (λ d, bool_decide (d = c)) l.

Definition strlen (l : list byte) : nat := default (length l) (memchr l NUL).

(** The characters of the string that starts an object. *)
Definition c_string (l : list byte) : list byte := take (strlen l) l.

Definition strcspn (l reject : list byte) : nat :=
  default (length l)
    (find_index (λ d, bool_decide (d = NUL) || bool_decide (d ∈ reject)) l).

Definition strchr (l : list byte) (c : byte) : option nat :=
  memchr (c_string l) c.

Fixpoint last_index (p : byte → bool) (l : list byte) : option nat :=
  match l with
  | [] => None
  | c :: l' => match last_index p l' with
               | Some i => Some (S i)
               | None => if p c then Some O else None
               end
  end.

Definition strrchr (l : list byte) (c : byte) : option nat :=
  last_index (λ d, bool_decide (d = c)) (c_string l).

(** [strcmp(a, s) == 0] against a literal. *)
Definition str_eqb (l : list byte) (s : string) : bool :=
  bool_decide (c_string l = txt s).

(** [strncmp(l, s, strlen(s)) == 0] for a literal [s]. *)
Definition has_prefix (s : string) (l : list byte) : bool :=
  bool_decide (take (length (txt s)) (c_string l) = txt s).

(** ** Formatted output *)

Inductive arg : Type :=
  | AInt (z : Z)
  | AStr (s : list byte)
  | AErrno (e : Z).               (**r [strerror(errno)] *)

(** The text of an argument; the message of an error number is opaque. *)
Definition arg_text (a : arg) : list byte :=
  match a with
  | AInt z => txt (pretty z)
  | AStr s => c_string s
  | AErrno e => txt "errno " ++ txt (pretty e)
  end.

(** [printf]-style formatting for the conversions in use:
    [%s], and [%d %u %ld %lu %zu %llu], whose length modifiers are skipped. *)
Fixpoint format_text (in_spec : bool) (fmt : list byte) (args : list arg)
    : list byte :=
  match fmt with
  | [] => []
  | c :: fmt' =>
      if in_spec then
        if bool_decide (c ∈ txt "lz") then format_text true fmt' args
        else if bool_decide (c = x25) then x25 :: format_text false fmt' args
        else match args with
             | a :: args' => arg_text a ++ format_text false fmt' args'
             | [] => format_text false fmt' []
             end
      else if bool_decide (c = x25) then format_text true fmt' args
      else c :: format_text false fmt' args
  end.

Definition sprintf (fmt : string) (args : list arg) : list byte :=
  format_text false (txt fmt) args.

(** [snprintf] into a whole object: its new content.  The return value of the
    call is the length of the untruncated text. *)
Definition snprintf_into (buf text : list byte) : list byte :=
  match length buf with
  | O => buf
  | S cap => store 0 (take cap text ++ [NUL]) buf
  end.

(** ** The [strtol] family, base 10 *)

Definition is_space (c : byte) : bool :=
  bool_decide (b2z c = 32 ∨ 9 ≤ b2z c ≤ 13).

Definition is_digit (c : byte) : bool :=
  bool_decide (48 ≤ b2z c ≤ 57).

Definition digit_value (c : byte) : Z := b2z c - 48.

Fixpoint span (p : byte → bool) (l : list byte) : list byte * list byte :=
  match l with
  | [] => ([], [])
  | c :: l' => if p c then let '(a, b) := span p l' in (c :: a, b) else ([], l)
  end.

Definition digits_value (ds : list byte) : Z :=
  foldl (λ acc c, acc * 10 + digit_value c) 0 ds.

(** Sign, magnitude and number of characters of the numeral that starts a
    string; [None] when there is no digit. *)
Definition numeral (s : list byte) : option (bool * Z * nat) :=
  let '(blank, r1) := span is_space s in
  let '(neg, r2, n_sign) :=
    match r1 with
    | c :: r => if bool_decide (c = x2d) then (true, r, 1%nat)
                else if bool_decide (c = x2b) then (false, r, 1%nat)
                else (false, r1, 0%nat)
    | [] => (false, r1, 0%nat)
    end in
  let '(ds, _) := span is_digit r2 in
  match ds with
  | [] => None
  | _ => Some (neg, digits_value ds, length blank + n_sign + length ds)%nat
  end.

(** The value, the offset stored through [endptr], and whether [errno] was
    set to [ERANGE]. *)
Record strto := Strto { st_value : Z; st_end : nat; st_erange : bool }.

(** [strtoul] and [strtoull] (both 64 bits wide): a minus sign negates the
    magnitude modulo [2^64]. *)
Definition strtoul (l : list byte) : strto :=
  match numeral (c_string l) with
  | None => Strto 0 0 false
  | Some (neg, m, n) =>
      if m >? ULONG_MAX then Strto ULONG_MAX n true
      else Strto (if neg : bool then (- m) `mod` 2 ^ 64 else m) n false
  end.

Definition strtol (l : list byte) : strto :=
  match numeral (c_string l) with
  | None => Strto 0 0 false
  | Some (neg, m, n) =>
      let v := if neg : bool then - m else m in
      if v >? LONG_MAX then Strto LONG_MAX n true
      else if v <? LONG_MIN then Strto LONG_MIN n true
      else Strto v n false
  end.

(** ** Buffered input *)

(** What is left to read, the [errno] of the read error that ends it if it is
    not the end of the file, and the two indicators of the stream. *)
Record FILE := File {
  f_rest : list byte;
  f_fails : option Z;
  f_feof : bool;
  f_ferror : bool
}.

Definition fopen_file (content : list byte) (fails : option Z) : FILE :=
  File content fails false false.

Definition ends_in_error (f : FILE) : bool := bool_decide (is_Some (f_fails f)).

(** [errno] after a failed read. *)
Definition f_errno (f : FILE) : Z := default 0 (f_fails f).

(** Up to [n] characters, through the first newline; the boolean tells that
    the end of the data was reached while more was wanted. *)
Fixpoint take_line (n : nat) (l : list byte) : list byte * list byte * bool :=
  match n with
  | O => ([], l, false)
  | S n' =>
      match l with
      | [] => ([], [], true)
      | c :: l' =>
          if bool_decide (c = LF) then ([c], l', false)
          else let '(a, b, e) := take_line n' l' in (c :: a, b, e)
      end
  end.

(** [fgets(buf, sizeof(buf), f)]: [None] is the null pointer. *)
Definition fgets (buf : list byte) (f : FILE) : option (list byte) * FILE :=
  let '(got, rest, hit_end) := take_line (length buf - 1) (f_rest f) in
  let feof := f_feof f || (hit_end && negb (ends_in_error f)) in
  let ferr := f_ferror f || (hit_end && ends_in_error f) in
  let f' := File rest (f_fails f) feof ferr in
  if hit_end && ends_in_error f then (None, f')
  else match got with
       | [] => (None, f')
       | _ => (Some (store 0 (got ++ [NUL]) buf), f')
       end.

(** Reading characters up to and including the next newline, or to the end:
    [while ((ch = fgetc(f)) != '\n' && ch != EOF) {}]. *)
Fixpoint skip_line (l : list byte) (f : FILE) : FILE :=
  match l with
  | [] => File [] (f_fails f) (f_feof f || negb (ends_in_error f))
               (f_ferror f || ends_in_error f)
  | c :: l' => if bool_decide (c = LF) then File l' (f_fails f) (f_feof f) (f_ferror f)
               else skip_line l' f
  end.

(** The text of lines that end in newlines, but for the last. *)
Definition text_of (lines : list (list byte)) (last : list byte) : list byte :=
  concat (map (λ l, l ++ [LF]) lines) ++ last.

(** ** Lemmas: bytes *)

Lemma b2z_range c : 0 ≤ b2z c < 256.
Proof.
  unfold b2z. split; [lia|].
  pose proof (Byte.to_N_bounded c). lia.
Qed.

Lemma b2z_inj c d : b2z c = b2z d → c = d.
Proof.
  unfold b2z. intros H%N2Z.inj.
  pose proof (Byte.of_to_N c) as E1. pose proof (Byte.of_to_N d) as E2.
  rewrite H in E1. congruence.
Qed.

Lemma b2z_z2b z : b2z (z2b z) = z `mod` 256.
Proof.
  unfold z2b, b2z. pose proof (Z.mod_pos_bound z 256 eq_refl).
  destruct (Byte.of_N (Z.to_N (z `mod` 256))) as [c|] eqn:E; simpl.
  - apply Byte.to_of_N in E. rewrite E. lia.
  - apply Byte.of_N_None_iff in E. lia.
Qed.

Lemma z2b_b2z c : z2b (b2z c) = c.
Proof.
  apply b2z_inj. rewrite b2z_z2b. pose proof (b2z_range c). by apply Z.mod_small.
Qed.

(** ** Lemmas: searching *)

Lemma find_index_Some p l i :
  find_index p l = Some i ↔
  (∃ c, l !! i = Some c ∧ p c = true) ∧
  ∀ j c, (j < i)%nat → l !! j = Some c → p c = false.
Proof.
  revert i. induction l as [|c l IH]; intros i; simpl.
  { split; [done|]. by intros [(? & ? & ?) _]. }
  destruct (p c) eqn:Hp.
  - split.
    + intros [= <-]. split; [by exists c|]. intros; lia.
    + intros [(d & Hd & Hpd) Hlt]. destruct i as [|i]; [done|].
      specialize (Hlt 0%nat c ltac:(lia) eq_refl). congruence.
  - destruct (find_index p l) as [k|] eqn:Hk; simpl.
    + destruct (IH k) as [IHk _]. specialize (IHk eq_refl) as [(d & Hd & Hpd) Hlt].
      split.
      * intros [= <-]. split; [by exists d|]. intros [|j] e ? He; simpl in *; [congruence|].
        apply (Hlt j); [lia|done].
      * intros [(e & He & Hpe) Hlt']. destruct i as [|i]; simpl in He; [congruence|].
        f_equal. destruct (lt_eq_lt_dec i k) as [[?| ->]|?]; [|done|].
        -- rewrite (Hlt i e) in Hpe; done.
        -- rewrite (Hlt' (S k) d) in Hpd; [done|lia|done].
    + split; [done|]. intros [(e & He & Hpe) Hlt']. destruct i as [|i]; simpl in He; [congruence|].
      destruct (IH i) as [_ IHi]. ospecialize (IHi _); [|done].
      split; [by exists e|]. intros j d ? Hd. apply (Hlt' (S j)); [lia|done].
Qed.

Lemma find_index_None p l :
  find_index p l = None ↔ ∀ c, c ∈ l → p c = false.
Proof.
  induction l as [|c l IH]; simpl.
  { split; [|done]. intros _ c Hc. by apply elem_of_nil in Hc. }
  destruct (p c) eqn:Hp.
  - split; [done|]. intros H. specialize (H c ltac:(left)). congruence.
  - rewrite fmap_None, IH. split.
    + intros H d [->|?]%elem_of_cons; auto.
    + intros H d ?. apply H. by right.
Qed.

Lemma find_index_app p l1 l2 :
  (∀ c, c ∈ l1 → p c = false) →
  find_index p (l1 ++ l2) = Nat.add (length l1) <$> find_index p l2.
Proof.
  induction l1 as [|c l1 IH]; intros H; simpl.
  { by rewrite option_fmap_id. }
  rewrite (H c) by left. rewrite IH by (intros; apply H; by right).
  by destruct (find_index p l2).
Qed.

Lemma find_index_lt p l i : find_index p l = Some i → (i < length l)%nat.
Proof.
  intros [(c & Hc & _) _]%find_index_Some. by eapply lookup_lt_Some.
Qed.

Lemma find_index_take p l i :
  find_index p l = Some i → ∀ c, c ∈ take i l → p c = false.
Proof.
  intros [_ H]%find_index_Some c (j & Hj)%list_elem_of_lookup.
  apply lookup_take_Some in Hj as [??]. eauto.
Qed.

Lemma memchr_Some l c i :
  memchr l c = Some i ↔ ∃ r, l = take i l ++ c :: r ∧ length (take i l) = i ∧ c ∉ take i l.
Proof.
  unfold memchr. split.
  - intros H. pose proof (find_index_take _ _ _ H) as Hno.
    pose proof (find_index_lt _ _ _ H).
    apply find_index_Some in H as [(d & Hd & Hp) _].
    apply bool_decide_eq_true in Hp as ->.
    exists (drop (S i) l). split_and!.
    + by rewrite take_drop_middle.
    + rewrite length_take. lia.
    + intros Hin. by apply Hno, bool_decide_eq_false in Hin.
  - intros (r & Hl & Hlen & Hno). rewrite Hl, find_index_app.
    + simpl. rewrite bool_decide_true by done. simpl. f_equal. lia.
    + intros d Hd. apply bool_decide_eq_false. by intros ->.
Qed.

Lemma memchr_None l c : memchr l c = None ↔ c ∉ l.
Proof.
  unfold memchr. rewrite find_index_None. split.
  - intros H Hc. by apply H, bool_decide_eq_false in Hc.
  - intros H d Hd. apply bool_decide_eq_false. by intros ->.
Qed.

Lemma memchr_app l r c : c ∉ l → memchr (l ++ c :: r) c = Some (length l).
Proof.
  intros H. apply memchr_Some. exists r.
  by rewrite take_app_length.
Qed.

Lemma strlen_le l : (strlen l ≤ length l)%nat.
Proof.
  unfold strlen. destruct (memchr l NUL) eqn:E; simpl; [|lia].
  apply find_index_lt in E. lia.
Qed.

Lemma strlen_app s r : NUL ∉ s → strlen (s ++ NUL :: r) = length s.
Proof. intros H. unfold strlen. by rewrite memchr_app. Qed.

Lemma c_string_app s r : NUL ∉ s → c_string (s ++ NUL :: r) = s.
Proof. intros H. unfold c_string. rewrite strlen_app by done. by rewrite take_app_length. Qed.

Lemma c_string_no_nul l : NUL ∉ c_string l.
Proof.
  unfold c_string, strlen. destruct (memchr l NUL) as [i|] eqn:E; simpl.
  - by apply memchr_Some in E as (? & _ & _ & ?).
  - rewrite take_ge by lia. by apply memchr_None.
Qed.

Lemma length_c_string l : length (c_string l) = strlen l.
Proof. unfold c_string. rewrite length_take. pose proof (strlen_le l). lia. Qed.

Lemma c_string_cases l :
  (∃ r, l = c_string l ++ NUL :: r ∧ memchr l NUL = Some (strlen l))
  ∨ (l = c_string l ∧ memchr l NUL = None).
Proof.
  unfold c_string, strlen. destruct (memchr l NUL) as [i|] eqn:E; simpl.
  - left. apply memchr_Some in E as (r & ? & _). by exists r.
  - right. by rewrite take_ge by lia.
Qed.

Lemma c_string_no_terminator l : NUL ∉ l → c_string l = l.
Proof.
  intros H. unfold c_string, strlen. apply memchr_None in H as ->. simpl.
  by rewrite take_ge.
Qed.

Lemma strlen_no_terminator l : NUL ∉ l → strlen l = length l.
Proof. intros H. unfold strlen. by apply memchr_None in H as ->. Qed.

(** ** Lemmas: objects *)

Lemma length_zeros n : length (zeros n) = n.
Proof. apply length_replicate. Qed.

Lemma length_store off data buf :
  (off + length data ≤ length buf)%nat → length (store off data buf) = length buf.
Proof. intros. unfold store. rewrite !length_app, length_take, length_drop. lia. Qed.

Lemma store_take cursor data buf :
  (cursor + length data ≤ length buf)%nat →
  take (cursor + length data) (store cursor data buf) = take cursor buf ++ data.
Proof.
  intros H. unfold store. rewrite app_assoc, take_app_length'; [done|].
  rewrite length_app, length_take. lia.
Qed.

Lemma take_store0 data buf : take (length data) (store 0 data buf) = data.
Proof. unfold store. simpl. by rewrite take_app_length. Qed.

Lemma strlen_store (u buf : list byte) :
  NUL ∉ u → (length u < length buf)%nat → strlen (store 0 (u ++ [NUL]) buf) = length u.
Proof.
  intros Hu Hlen. unfold store. simpl. rewrite <- app_assoc. simpl.
  by apply strlen_app.
Qed.

Lemma c_string_store (u buf : list byte) :
  NUL ∉ u → c_string (store 0 (u ++ [NUL]) buf) = u.
Proof.
  intros Hu. unfold store. simpl. rewrite <- app_assoc. by apply c_string_app.
Qed.

Lemma elem_of_store0 c data buf : c ∈ data → c ∈ store 0 data buf.
Proof. intros H. unfold store. simpl. apply elem_of_app. by left. Qed.

Lemma store0_whole data buf :
  length data = length buf → store 0 data buf = data.
Proof. intros H. unfold store. simpl. rewrite drop_ge by lia. by rewrite app_nil_r. Qed.

(** ** Lemmas: buffered input *)

Lemma take_line_parts n l got rest e :
  take_line n l = (got, rest, e) →
  l = got ++ rest ∧ (length got ≤ n)%nat ∧
  (e = true → rest = [] ∧ LF ∉ got ∧ (length got < n)%nat).
Proof.
  revert l got rest e. induction n as [|n IH]; intros [|c l] got rest e; simpl;
    [intros [= <- <- <-]; by repeat split; auto with lia..| |].
  { intros [= <- <- <-]. repeat split; [simpl; lia| |simpl; lia]. apply not_elem_of_nil. }
  case_bool_decide as Hc.
  { intros [= <- <- <-]. repeat split; simpl; [lia|done..]. }
  destruct (take_line n l) as [[a b] e'] eqn:E. intros [= <- <- <-].
  apply IH in E as (-> & ? & He). split_and!; [done|simpl; lia|].
  intros ->. destruct (He eq_refl) as (-> & ? & ?). split_and!; [done| |simpl; lia].
  by rewrite not_elem_of_cons.
Qed.

(** A complete line that fits is read whole. *)
Lemma take_line_whole n l r :
  LF ∉ l → (length l < n)%nat →
  take_line n (l ++ LF :: r) = (l ++ [LF], r, false).
Proof.
  revert n. induction l as [|c l IH]; intros [|n] Hl Hn; simpl in *; try lia.
  { done. }
  apply not_elem_of_cons in Hl as [Hc Hl].
  rewrite bool_decide_false by done. by rewrite IH by (done || lia).
Qed.

(** A line longer than the buffer is cut. *)
Lemma take_line_long n l r :
  LF ∉ l → length l = n → take_line n (l ++ r) = (l, r, false).
Proof.
  revert n. induction l as [|c l IH]; intros [|n] Hl Hn; simpl in *; try lia; [done|].
  apply not_elem_of_cons in Hl as [Hc Hl].
  rewrite bool_decide_false by done. by rewrite IH by (done || lia).
Qed.

(** The last line of a file may lack its newline. *)
Lemma take_line_end n l :
  LF ∉ l → (length l < n)%nat → take_line n l = (l, [], true).
Proof.
  revert n. induction l as [|c l IH]; intros [|n] Hl Hn; simpl in *; try lia; [done|].
  apply not_elem_of_cons in Hl as [Hc Hl].
  rewrite bool_decide_false by done. by rewrite IH by (done || lia).
Qed.

(** ** Lemmas: an object written [l ++ c :: r] *)

Lemma insert_middle (l r : list byte) c d :
  <[length l := d]> (l ++ c :: r) = l ++ d :: r.
Proof. induction l as [|e l IH]; simpl; [done|]. by rewrite IH. Qed.

Lemma char_at_middle (l r : list byte) c : char_at (l ++ c :: r) (length l) = c.
Proof. unfold char_at. by rewrite list_lookup_middle. Qed.

Lemma drop_middle (l r : list byte) c : drop (S (length l)) (l ++ c :: r) = r.
Proof.
  induction l as [|e l IH]; simpl; [by rewrite drop_0|]. exact IH.
Qed.

Lemma take_middle (l r : list byte) c : take (length l + 1) (l ++ c :: r) = l ++ [c].
Proof.
  change (c :: r) with ([c] ++ r). rewrite app_assoc. apply take_app_length'.
  by rewrite length_app.
Qed.

Lemma strcspn_app (l r reject : list byte) c :
  NUL ∉ l → (∀ d, d ∈ l → d ∉ reject) → c = NUL ∨ c ∈ reject →
  strcspn (l ++ c :: r) reject = length l.
Proof.
  intros Hnul Hrej Hc. unfold strcspn. rewrite find_index_app.
  - simpl. replace (_ || _) with true; [simpl; lia|].
    symmetry. apply orb_true_iff. rewrite !bool_decide_eq_true. done.
  - intros d Hd. apply orb_false_iff. rewrite !bool_decide_eq_false. split.
    + by intros ->.
    + by apply Hrej.
Qed.

(** Cutting an object at the first character of a set leaves a string. *)
Lemma strcspn_cut (l reject : list byte) :
  NUL ∈ l →
  ∃ s c r, l = s ++ c :: r ∧ strcspn l reject = length s ∧ NUL ∉ s ∧
           (c = NUL ∨ c ∈ reject).
Proof.
  intros Hin. unfold strcspn.
  destruct (find_index _ l) as [i|] eqn:E; simpl.
  - pose proof (find_index_take _ _ _ E) as Hno.
    apply find_index_Some in E as [(c & Hc & Hp) _].
    exists (take i l), c, (drop (S i) l). split_and!.
    + by rewrite take_drop_middle.
    + apply lookup_lt_Some in Hc. rewrite length_take. lia.
    + intros Hn. apply Hno in Hn. apply orb_false_iff in Hn as [Hn _].
      by apply bool_decide_eq_false in Hn.
    + apply orb_true_iff in Hp. by rewrite !bool_decide_eq_true in Hp.
  - rewrite find_index_None in E. apply E in Hin.
    apply orb_false_iff in Hin as [Hn _]. by apply bool_decide_eq_false in Hn.
Qed.

Lemma strchr_app (l r : list byte) c :
  NUL ∉ l → strchr (l ++ NUL :: r) c = memchr l c.
Proof. intros H. unfold strchr. by rewrite c_string_app. Qed.

Lemma is_Some_memchr l c : is_Some (memchr l c) ↔ c ∈ l.
Proof.
  destruct (memchr l c) as [i|] eqn:E.
  - apply memchr_Some in E as (r & -> & _). split; [set_solver|eauto].
  - rewrite memchr_None in E. split; [by intros [??]|done].
Qed.

(** What [fgets] does to its buffer. *)
Lemma fgets_Some buf f line f' :
  fgets buf f = (Some line, f') → (0 < length buf)%nat →
  ∃ got, line = store 0 (got ++ [NUL]) buf ∧ length line = length buf ∧
         f_rest f = got ++ f_rest f' ∧ got ≠ [] ∧ (length got < length buf)%nat ∧
         f_fails f' = f_fails f.
Proof.
  unfold fgets. destruct (take_line _ _) as [[got rest] e] eqn:E.
  apply take_line_parts in E as (Hrest & Hlen & _). intros H Hbuf.
  destruct (e && ends_in_error f); [done|].
  destruct got as [|c got]; [done|]. injection H as <- <-.
  exists (c :: got). split_and!; try done; [|lia].
  apply length_store. simpl in *. rewrite length_app. simpl. lia.
Qed.

Lemma fgets_shorter buf f line f' :
  fgets buf f = (Some line, f') → (0 < length buf)%nat →
  (length (f_rest f') < length (f_rest f))%nat.
Proof.
  intros H Hbuf. apply fgets_Some in H as (got & _ & _ & Hrest & Hne & _); [|done].
  rewrite Hrest, length_app. destruct got; [done|]. simpl. lia.
Qed.

Lemma fgets_None_rest buf f f' :
  fgets buf f = (None, f') → (1 < length buf)%nat → f_rest f' = [].
Proof.
  unfold fgets. destruct (take_line _ _) as [[got rest] e] eqn:E.
  intros H Hbuf.
  destruct e; simpl in H.
  - apply take_line_parts in E as (_ & _ & He). destruct (He eq_refl) as (-> & _ & _).
    destruct (ends_in_error f), got; naive_solver.
  - destruct got; [|done]. injection H as <-. simpl.
    destruct (length buf - 1)%nat eqn:?; [lia|]. destruct (f_rest f); [done|].
    simpl in E. case_bool_decide; [done|]. by destruct (take_line _ _) as [[??]?].
Qed.

(** A complete line that fits the buffer, its terminator included. *)
Lemma fgets_line buf f l rest :
  f_rest f = l ++ LF :: rest → LF ∉ l → (length l + 2 ≤ length buf)%nat →
  fgets buf f =
  (Some (store 0 (l ++ [LF; NUL]) buf), File rest (f_fails f) (f_feof f) (f_ferror f)).
Proof.
  intros Hf Hl Hlen. unfold fgets. rewrite Hf, take_line_whole by (done || lia).
  simpl. rewrite !orb_false_r. rewrite <- app_assoc.
  by destruct l.
Qed.

(** The last line, without a newline. *)
Lemma fgets_last buf f l :
  f_rest f = l → l ≠ [] → LF ∉ l → (length l + 2 ≤ length buf)%nat → f_fails f = None →
  fgets buf f =
  (Some (store 0 (l ++ [NUL]) buf), File [] None true (f_ferror f)).
Proof.
  intros Hf Hne Hl Hlen Hfail. unfold fgets, ends_in_error.
  rewrite Hf, take_line_end, Hfail by (done || lia).
  simpl. rewrite orb_false_r, orb_true_r. by destruct l.
Qed.

Lemma fgets_end buf f :
  f_rest f = [] → (1 < length buf)%nat → f_fails f = None →
  fgets buf f = (None, File [] None true (f_ferror f)).
Proof.
  intros Hf Hlen Hfail. unfold fgets, ends_in_error.
  destruct (length buf - 1)%nat eqn:?; [lia|]. rewrite Hf, Hfail. simpl.
  by rewrite orb_false_r, orb_true_r.
Qed.

(** ** Lemmas: numerals *)

Lemma is_digit_values c : is_digit c = true ↔ 48 ≤ b2z c ≤ 57.
Proof. unfold is_digit. by rewrite bool_decide_eq_true. Qed.

Lemma digits_value_snoc ds c :
  digits_value (ds ++ [c]) = digits_value ds * 10 + digit_value c.
Proof. unfold digits_value. by rewrite foldl_app. Qed.

Lemma digits_value_nonneg ds :
  Forall (λ c, is_digit c = true) ds → 0 ≤ digits_value ds.
Proof.
  induction ds as [|c ds IH] using rev_ind; [done|].
  rewrite Forall_app, Forall_singleton. intros [Hds Hc%is_digit_values].
  rewrite digits_value_snoc. unfold digit_value. specialize (IH Hds). lia.
Qed.

Lemma span_app p l r :
  Forall (λ c, p c = true) l → (∀ c, head r = Some c → p c = false) →
  span p (l ++ r) = (l, r).
Proof.
  intros Hl Hr. induction Hl as [|c l Hc _ IH]; simpl.
  - destruct r as [|c r]; simpl; [done|]. by rewrite (Hr c).
  - by rewrite Hc, IH.
Qed.

Lemma span_none p l : (∀ c, head l = Some c → p c = false) → span p l = ([], l).
Proof. intros H. by apply (span_app p []). Qed.

(** A digit is no blank, sign or terminator. *)
Lemma is_digit_plain c :
  is_digit c = true → is_space c = false ∧ c ≠ x2d ∧ c ≠ x2b ∧ c ≠ NUL ∧ c ≠ LF.
Proof.
  intros Hc. split_and!; [|by intros ->; vm_compute in Hc..].
  apply is_digit_values in Hc. unfold is_space. apply bool_decide_eq_false. lia.
Qed.

Lemma numeral_digits ds r :
  Forall (λ c, is_digit c = true) ds → ds ≠ [] →
  (∀ c, head r = Some c → is_digit c = false) →
  numeral (ds ++ r) = Some (false, digits_value ds, length ds).
Proof.
  intros Hds Hne Hr. destruct ds as [|d ds]; [done|]. clear Hne.
  pose proof Hds as [Hd _]%Forall_cons. apply is_digit_plain in Hd as (Hs & Hm & Hp & _).
  unfold numeral. rewrite (span_none is_space) by (intros c [= <-]; done).
  cbn [app]. rewrite !bool_decide_false by done.
  rewrite app_comm_cons, span_app by done. done.
Qed.

Lemma digits_no_nul ds : Forall (λ c, is_digit c = true) ds → NUL ∉ ds.
Proof.
  intros Hds Hin. rewrite Forall_forall in Hds. apply Hds in Hin.
  by apply is_digit_plain in Hin as (_ & _ & _ & ? & _).
Qed.

(** The decimal numeral [pretty] prints. *)
Lemma pretty_N_char_digit n :
  (n < 10)%N → ∃ c, txt (String (pretty_N_char n) "") = [c] ∧
                   is_digit c = true ∧ digit_value c = Z.of_N n.
Proof.
  intros Hn.
  assert (n = 0 ∨ n = 1 ∨ n = 2 ∨ n = 3 ∨ n = 4 ∨ n = 5 ∨ n = 6 ∨ n = 7 ∨ n = 8 ∨ n = 9)%N
    as Hcases by lia.
  repeat destruct Hcases as [->|Hcases]; try subst n; by eexists.
Qed.

Lemma txt_cons a s : txt (String a s) = txt (String a "") ++ txt s.
Proof. done. Qed.

Lemma pretty_N_go_digits x s :
  ∃ ds, txt (pretty_N_go x s) = ds ++ txt s ∧
        Forall (λ c, is_digit c = true) ds ∧ digits_value ds = Z.of_N x ∧
        (x ≠ 0%N → ds ≠ []).
Proof.
  revert s. induction (N.lt_wf_0 x) as [x _ IH]; intros s.
  destruct (decide (x = 0)%N) as [->|Hx].
  { exists []. rewrite pretty_N_go_0. by split_and!. }
  rewrite pretty_N_go_step by lia.
  destruct (IH (x `div` 10)%N ltac:(apply N.div_lt; lia)
    (String (pretty_N_char (x `mod` 10)%N) s)) as (ds & -> & Hds & Hv & _).
  pose proof (N.mod_lt x 10 ltac:(lia)) as Hlt.
  destruct (pretty_N_char_digit (x `mod` 10)%N) as (c & Hc & Hdig & Hval); [done|].
  exists (ds ++ [c]). rewrite txt_cons, Hc, <- app_assoc. split_and!; [done| | |].
  - apply Forall_app. by rewrite Forall_singleton.
  - rewrite digits_value_snoc, Hv, Hval.
    pose proof (N.div_mod x 10 ltac:(lia)). lia.
  - intros _. by destruct ds.
Qed.

Lemma pretty_digits (n : Z) :
  0 ≤ n →
  Forall (λ c, is_digit c = true) (txt (pretty n)) ∧
  digits_value (txt (pretty n)) = n ∧ txt (pretty n) ≠ [].
Proof.
  intros Hn. destruct n as [|p|p]; [by repeat constructor| |lia].
  change (pretty (Z.pos p)) with (pretty (N.pos p)). unfold pretty, pretty_N.
  rewrite decide_False by done.
  destruct (pretty_N_go_digits (N.pos p) "") as (ds & -> & ? & Hv & Hne).
  rewrite app_nil_r. split_and!; [done| |by apply Hne]. by rewrite Hv.
Qed.

(** A numeral, followed by the end of the string or by anything that is no
    digit. *)
Lemma numeral_pretty n r :
  0 ≤ n → (∀ c, head r = Some c → is_digit c = false) →
  numeral (c_string (txt (pretty n) ++ r)) = Some (false, n, length (txt (pretty n))).
Proof.
  intros Hn Hr. destruct (pretty_digits n) as (Hds & Hv & Hne); [done|].
  set (ds := txt (pretty n)) in *.
  assert (c_string (ds ++ r) = ds ++ c_string r) as ->.
  { unfold c_string, strlen, memchr. rewrite find_index_app.
    - destruct (find_index _ r) as [i|]; simpl.
      + by rewrite take_app_add.
      + rewrite length_app. by rewrite take_app_add.
    - intros c Hc. apply bool_decide_eq_false. intros ->.
      by apply (digits_no_nul ds) in Hc. }
  rewrite numeral_digits, Hv; try done. intros c Hc. apply Hr.
  destruct r as [|d r]; [done|].
  unfold c_string in Hc. by destruct (strlen (d :: r)).
Qed.

Lemma strtoul_pretty n r :
  0 ≤ n ≤ ULONG_MAX → (∀ c, head r = Some c → is_digit c = false) →
  strtoul (txt (pretty n) ++ r) = Strto n (length (txt (pretty n))) false.
Proof.
  intros Hn Hr. unfold strtoul. rewrite numeral_pretty by (done || lia).
  destruct (Z.gtb_spec n ULONG_MAX); [lia|done].
Qed.

Lemma strtol_pretty n r :
  0 ≤ n ≤ LONG_MAX → (∀ c, head r = Some c → is_digit c = false) →
  strtol (txt (pretty n) ++ r) = Strto n (length (txt (pretty n))) false.
Proof.
  intros Hn Hr. unfold strtol. rewrite numeral_pretty by (done || lia). cbv zeta iota.
  destruct (Z.gtb_spec n LONG_MAX); [lia|].
  by destruct (Z.ltb_spec n LONG_MIN); [unfold LONG_MIN in *; lia|].
Qed.

Lemma span_forall p l : Forall (λ c, p c = true) (span p l).1.
Proof.
  induction l as [|c l IH]; simpl; [constructor|].
  destruct (p c) eqn:Hc; [|constructor]. destruct (span p l) as [a b].
  by constructor.
Qed.

Lemma numeral_nonneg s neg m n : numeral s = Some (neg, m, n) → 0 ≤ m.
Proof.
  unfold numeral. destruct (span is_space s) as [b r1].
  destruct (match r1 with [] => _ | _ => _ end) as [[neg' r2] k].
  pose proof (span_forall is_digit r2) as Hds.
  destruct (span is_digit r2) as [ds r3]. simpl in Hds.
  destruct ds as [|d ds]; [done|]. intros [= <- <- <-].
  by apply digits_value_nonneg.
Qed.

Lemma strtoul_range l : 0 ≤ st_value (strtoul l) ≤ ULONG_MAX.
Proof.
  unfold strtoul, ULONG_MAX. destruct (numeral _) as [[[neg m] k]|] eqn:En; [|simpl; lia].
  apply numeral_nonneg in En.
  destruct (Z.gtb_spec m (2 ^ 64 - 1)); cbn [st_value]; [lia|].
  destruct neg; [|lia]. pose proof (Z.mod_pos_bound (- m) (2 ^ 64) eq_refl). lia.
Qed.

(** ** [strtok_r]

    [strtok delims s]: the next token of what the save pointer points at, and
    what it points at afterwards. *)
Definition strtok (delims s : list byte) : option (list byte * list byte) :=
  let '(_, s1) := span (λ c, bool_decide (c ∈ delims)) (c_string s) in
  let '(token, s2) := span (λ c, negb (bool_decide (c ∈ delims))) s1 in
  match token with
  | [] => None
  | _ => Some (token, drop 1 s2)
  end.

(** [sscanf(s, label " %lu %7s", &value, unit) == 2]: the two conversions. *)
Definition scan_value_unit (label : string) (s : list byte) : option (Z * list byte) :=
  let line := c_string s in
  if negb (has_prefix label line) then None else
  let rest := drop (length (txt label)) line in
  let v := strtoul rest in
  if bool_decide (st_end v = 0%nat) then None else
  let '(_, rest') := span is_space (drop (st_end v) rest) in
  match take 7 (span (λ c, negb (is_space c)) rest').1 with
  | [] => None
  | unit => Some (st_value v, unit)
  end.

(** [sscanf(s, label " %d", &value) == 1]: the value converted, an [int]; a
    numeral out of range converts to a [long] first, which is then cut. *)
Definition to_int (z : Z) : Z := (z + 2 ^ 31) `mod` 2 ^ 32 - 2 ^ 31.
Definition scan_int (label : string) (s : list byte) : option Z :=
  let line := c_string s in
  if negb (has_prefix label line) then None else
  let v := strtol (drop (length (txt label)) line) in
  if bool_decide (st_end v = 0%nat) then None else Some (to_int (st_value v)).

Lemma strtok_token (delims token rest : list byte) d :
  token ≠ [] → NUL ∉ token → (∀ c, c ∈ token → c ∉ delims) →
  d ∈ delims → d ≠ NUL →
  strtok delims (token ++ d :: rest) = Some (token, c_string rest).
Proof.
  intros Hne Hnul Hno Hd Hd0. unfold strtok.
  assert (c_string (token ++ d :: rest) = token ++ d :: c_string rest) as ->.
  { change (token ++ d :: rest) with (token ++ [d] ++ rest).
    change (token ++ d :: c_string rest) with (token ++ [d] ++ c_string rest).
    rewrite !(assoc_L app). unfold c_string, strlen, memchr. rewrite find_index_app.
    - destruct (find_index _ rest) as [i|]; simpl.
      + by rewrite take_app_add.
      + rewrite length_app. by rewrite take_app_add.
    - intros c [Hc| ->%list_elem_of_singleton]%elem_of_app; apply bool_decide_eq_false; [|done].
      by intros ->. }
  rewrite (span_none (λ c, bool_decide (c ∈ delims))).
  - rewrite span_app; [by destruct token| |].
    + apply Forall_forall. intros c Hc. by rewrite bool_decide_false by auto.
    + intros c [= <-]. by rewrite bool_decide_true.
  - intros c Hc. destruct token as [|c' token]; [done|]. injection Hc as ->.
    apply bool_decide_eq_false, Hno. left.
Qed.

Lemma c_string_c_string l : c_string (c_string l) = c_string l.
Proof. apply c_string_no_terminator, c_string_no_nul. Qed.

Lemma strtok_c_string delims l : strtok delims (c_string l) = strtok delims l.
Proof. unfold strtok. by rewrite c_string_c_string. Qed.

(** ** Lemmas: the last occurrence *)

Lemma last_index_app p l c r :
  p c = true → Forall (λ d, p d = false) r → last_index p (l ++ c :: r) = Some (length l).
Proof.
  intros Hc Hr. induction l as [|d l IH]; simpl; [|by rewrite IH].
  assert (last_index p r = None) as ->; [|by rewrite Hc].
  induction Hr as [|d r Hd _ IH]; [done|]. simpl. by rewrite IH, Hd.
Qed.

Lemma strrchr_app l r t c :
  NUL ∉ l ++ c :: r → c ∉ r → strrchr ((l ++ c :: r) ++ NUL :: t) c = Some (length l).
Proof.
  intros HN Hr. unfold strrchr. rewrite c_string_app by done. apply last_index_app.
  - by apply bool_decide_eq_true.
  - apply Forall_forall. intros d Hd. apply bool_decide_eq_false. by intros ->.
Qed.

(** ** Lemmas: the width of a numeral *)

Lemma pretty_N_go_length k x s :
  (x < 10 ^ N.of_nat k)%N →
  (length (txt (pretty_N_go x s)) ≤ k + length (txt s))%nat.
Proof.
  revert x s. induction k as [|k IH]; intros x s Hx.
  { assert (x = 0)%N as -> by (simpl in Hx; lia). by rewrite pretty_N_go_0. }
  destruct (decide (x = 0)%N) as [->|Hne]; [rewrite pretty_N_go_0; lia|].
  rewrite pretty_N_go_step by lia.
  rewrite Nat2N.inj_succ, N.pow_succ_r' in Hx.
  etrans; [apply IH|].
  - apply N.Div0.div_lt_upper_bound. lia.
  - rewrite txt_cons, length_app. simpl. lia.
Qed.

Lemma pretty_length k n :
  (0 < k)%nat → 0 ≤ n < 10 ^ Z.of_nat k → (length (txt (pretty n)) ≤ k)%nat.
Proof.
  intros Hk Hn. destruct n as [|p|p]; [simpl; lia| |lia].
  change (pretty (Z.pos p)) with (pretty (N.pos p)). unfold pretty, pretty_N.
  rewrite decide_False by done.
  etrans; [apply (pretty_N_go_length k)|simpl; lia].
  apply N2Z.inj_lt. rewrite N2Z.inj_pow. rewrite nat_N_Z. simpl. lia.
Qed.

(** ** Lemmas: formatting *)

Lemma format_plain lit fmt args :
  x25 ∉ lit → format_text false (lit ++ fmt) args = lit ++ format_text false fmt args.
Proof.
  induction lit as [|c lit IH]; [done|]. rewrite not_elem_of_cons. intros [Hc Hlit].
  cbn [app format_text]. rewrite bool_decide_false by auto. by rewrite IH.
Qed.

Lemma format_s fmt a args :
  format_text false (x25 :: x73 :: fmt) (a :: args) =
  arg_text a ++ format_text false fmt args.
Proof. reflexivity. Qed.

Lemma format_ld fmt a args :
  format_text false (x25 :: x6c :: x64 :: fmt) (a :: args) =
  arg_text a ++ format_text false fmt args.
Proof. reflexivity. Qed.

Lemma format_llu fmt a args :
  format_text false (x25 :: x6c :: x6c :: x75 :: fmt) (a :: args) =
  arg_text a ++ format_text false fmt args.
Proof. reflexivity. Qed.

(** A literal to its first conversion, or the last literal. *)
Lemma format_end lit args : x25 ∉ lit → format_text false lit args = lit.
Proof.
  intros H. rewrite <- (app_nil_r lit) at 1. by rewrite format_plain, app_nil_r.
Qed.
