(* ===== verification/SecureMemory.v ===== *)
(** * secure_memory.c: clearing of sensitive objects *)

From S2P Require Import Prelude.
From S2P Require Import CLib.

(** The byte-by-byte loop compiled where [explicit_bzero] is missing:
    [cursor] is the index of the next byte, [len] what is left. *)
Fixpoint clear_bytes (buffer : list byte) (cursor len : nat) : list byte :=
  match len with
  | O => buffer
  | S len' => clear_bytes (<[cursor := NUL]> buffer) (S cursor) len'
  end.

(** [explicit_bzero]: the first [len] bytes become zero. *)
Definition explicit_bzero (buffer : list byte) (len : nat) : list byte :=
  zeros (min len (length buffer)) ++ drop len buffer.

(** [secure_clear]; a null pointer is [None], [have_bzero] is the build's
    [SECURE_MEMORY_HAVE_EXPLICIT_BZERO]. *)
Definition secure_clear (have_bzero : bool) (buffer : option (list byte))
    (len : nat) : option (list byte) :=
  match buffer with
  | None => None
  | Some buf =>
      if bool_decide (len = 0) then Some buf
      else if have_bzero then Some (explicit_bzero buf len)
      else Some (clear_bytes buf 0 len)
  end.

(** [secure_clear(object, sizeof(object))] on a build with glibc. *)
Definition clear_object (buf : list byte) : list byte :=
  default buf (secure_clear true (Some buf) (length buf)).

Lemma clear_bytes_spec buf cursor len :
  cursor + len ≤ length buf →
  clear_bytes buf cursor len =
  take cursor buf ++ zeros len ++ drop (cursor + len) buf.
Proof.
  revert buf cursor. induction len as [|len IH]; intros buf cursor H; simpl.
  { by rewrite Nat.add_0_r, take_drop. }
  rewrite IH by (rewrite length_insert; lia).
  rewrite (take_S_r _ _ NUL) by (apply list_lookup_insert_eq; lia).
  rewrite take_insert_ge by lia. rewrite drop_insert_lt by lia.
  rewrite <- app_assoc. simpl. by rewrite Nat.add_succ_r.
Qed.

Lemma clear_object_zeros buf : clear_object buf = zeros (length buf).
Proof.
  unfold clear_object, secure_clear. case_bool_decide as H; simpl.
  - by destruct buf.
  - unfold explicit_bzero. rewrite drop_all, app_nil_r. f_equal. lia.
Qed.

(** ** Properties *)

(** The portable loop and [explicit_bzero] have the same effect: exactly the
    requested prefix of the object is zeroed and the rest kept, on every
    build; a null pointer is left alone. *)
Theorem secure_clear_zeroes have_bzero buf len :
  len ≤ length buf →
  secure_clear have_bzero (Some buf) len = Some (zeros len ++ drop len buf) ∧
  secure_clear have_bzero None len = None.
Proof.
  intros H. split; [|done]. unfold secure_clear. case_bool_decide as Hlen; [by subst|].
  destruct have_bzero.
  - unfold explicit_bzero. by rewrite Nat.min_l.
  - by rewrite clear_bytes_spec.
Qed.

Lemma secure_clear_zeroes_witness :
  secure_clear false (Some (txt "secret")) 3 = Some (zeros 3 ++ txt "ret") ∧
  secure_clear false None 3 = None.
Proof. apply (secure_clear_zeroes false (txt "secret") 3). vm_compute. lia. Defined.
