(* ===== verification/AuthProtocol.v ===== *)
(** * auth_protocol.h: the messages on the socket

    The two structures, their constants, and their memory representation,
    which is what the programs write to and read from the socket.  The
    layout is that of the LP64 little-endian ABI. *)

From S2P Require Import Prelude.
From S2P Require Import CLib.
Local Open Scope Z_scope.

Definition AUTH_SOCKET_PATH : string := "/tmp/st5039cmd_auth.sock".
Definition AUTH_PROTOCOL_VERSION : Z := 1.

Definition AUTH_USERNAME_MAX : nat := 64.
Definition AUTH_PASSWORD_MAX : nat := 128.
Definition AUTH_RESPONSE_MESSAGE_MAX : nat := 128.

Definition AUTH_REQUEST_VALIDATE : Z := 1.

Inductive AuthResult : Type :=
  | AUTH_RESULT_SUCCESS
  | AUTH_RESULT_INVALID_CREDENTIALS
  | AUTH_RESULT_REJECTED
  | AUTH_RESULT_ERROR.

Definition AuthResult_code (r : AuthResult) : Z :=
  match r with
  | AUTH_RESULT_SUCCESS => 0
  | AUTH_RESULT_INVALID_CREDENTIALS => 1
  | AUTH_RESULT_REJECTED => 2
  | AUTH_RESULT_ERROR => 3
  end.

Inductive AuthErrorCode : Type :=
  | AUTH_ERROR_NONE
  | AUTH_ERROR_BAD_REQUEST
  | AUTH_ERROR_UNSUPPORTED_VERSION
  | AUTH_ERROR_USERNAME_REQUIRED
  | AUTH_ERROR_USERNAME_TOO_LONG
  | AUTH_ERROR_PASSWORD_REQUIRED
  | AUTH_ERROR_PASSWORD_TOO_LONG
  | AUTH_ERROR_IPC_FAILURE
  | AUTH_ERROR_PRIVILEGE_DROP_FAILED
  | AUTH_ERROR_INTERNAL.

Definition AuthErrorCode_code (e : AuthErrorCode) : Z :=
  match e with
  | AUTH_ERROR_NONE => 0
  | AUTH_ERROR_BAD_REQUEST => 1
  | AUTH_ERROR_UNSUPPORTED_VERSION => 2
  | AUTH_ERROR_USERNAME_REQUIRED => 3
  | AUTH_ERROR_USERNAME_TOO_LONG => 4
  | AUTH_ERROR_PASSWORD_REQUIRED => 5
  | AUTH_ERROR_PASSWORD_TOO_LONG => 6
  | AUTH_ERROR_IPC_FAILURE => 7
  | AUTH_ERROR_PRIVILEGE_DROP_FAILED => 8
  | AUTH_ERROR_INTERNAL => 9
  end.

Record AuthRequest := MkAuthRequest {
  rq_version : Z;
  rq_type : Z;
  rq_username : list byte;
  rq_password : list byte
}.

Record AuthResponse := MkAuthResponse {
  rs_version : Z;
  rs_result : Z;
  rs_error_code : Z;
  rs_message : list byte
}.

Definition sizeof_username : nat := AUTH_USERNAME_MAX + 1.
Definition sizeof_password : nat := AUTH_PASSWORD_MAX + 1.
Definition sizeof_message : nat := AUTH_RESPONSE_MESSAGE_MAX + 1.

(** [sizeof(AuthRequest)] and [sizeof(AuthResponse)], tail padding included. *)
Definition sizeof_AuthRequest : nat := 204.
Definition sizeof_AuthResponse : nat := 144.

(** A [uint32_t] in memory. *)
Fixpoint le_bytes (n : nat) (z : Z) : list byte :=
  match n with
  | O => []
  | S n' => z2b z :: le_bytes n' (z / 256)
  end.

Fixpoint of_le_bytes (l : list byte) : Z :=
  match l with
  | [] => 0
  | c :: l' => b2z c + 256 * of_le_bytes l'
  end.

(** [n] bytes at offset [off] of an object. *)
Definition field (off n : nat) (mem : list byte) : list byte :=
  take n (drop off mem).

Definition encode_request (r : AuthRequest) : list byte :=
  le_bytes 4 (rq_version r) ++ le_bytes 4 (rq_type r)
  ++ rq_username r ++ rq_password r ++ zeros 2.

Definition decode_request (mem : list byte) : AuthRequest :=
  MkAuthRequest (of_le_bytes (field 0 4 mem)) (of_le_bytes (field 4 4 mem))
    (field 8 sizeof_username mem) (field 73 sizeof_password mem).

Definition encode_response (r : AuthResponse) : list byte :=
  le_bytes 4 (rs_version r) ++ le_bytes 4 (rs_result r)
  ++ le_bytes 4 (rs_error_code r) ++ rs_message r ++ zeros 3.

Definition decode_response (mem : list byte) : AuthResponse :=
  MkAuthResponse (of_le_bytes (field 0 4 mem)) (of_le_bytes (field 4 4 mem))
    (of_le_bytes (field 8 4 mem)) (field 12 sizeof_message mem).

(** Objects of the C types: 32-bit fields, arrays of their declared length. *)
Definition u32 (z : Z) : Prop := 0 ≤ z < 2 ^ 32.

Definition request_ok (r : AuthRequest) : Prop :=
  u32 (rq_version r) ∧ u32 (rq_type r) ∧
  length (rq_username r) = sizeof_username ∧
  length (rq_password r) = sizeof_password.

Definition response_ok (r : AuthResponse) : Prop :=
  u32 (rs_version r) ∧ u32 (rs_result r) ∧ u32 (rs_error_code r) ∧
  length (rs_message r) = sizeof_message.

(** A version-1 validation request whose two fields hold non-empty strings. *)
Definition well_formed_login (rq : AuthRequest) : Prop :=
  request_ok rq ∧ rq_version rq = AUTH_PROTOCOL_VERSION ∧
  rq_type rq = AUTH_REQUEST_VALIDATE ∧
  NUL ∈ rq_username rq ∧ c_string (rq_username rq) ≠ [] ∧
  NUL ∈ rq_password rq ∧ c_string (rq_password rq) ≠ [].

#[export] Instance AuthResult_eq_dec : EqDecision AuthResult.
Proof. solve_decision. Defined.
#[export] Instance AuthErrorCode_eq_dec : EqDecision AuthErrorCode.
Proof. solve_decision. Defined.

Lemma length_le_bytes n z : length (le_bytes n z) = n.
Proof. revert z. induction n as [|n IH]; intros z; simpl; auto. Qed.

Lemma of_le_bytes_le_bytes n z :
  0 ≤ z < 256 ^ Z.of_nat n → of_le_bytes (le_bytes n z) = z.
Proof.
  revert z. induction n as [|n IH]; intros z Hz; simpl.
  { change (256 ^ Z.of_nat 0) with 1 in Hz. lia. }
  rewrite b2z_z2b. rewrite IH.
  - pose proof (Z.div_mod z 256 ltac:(done)). lia.
  - rewrite Nat2Z.inj_succ, Z.pow_succ_r in Hz by lia.
    split; [by apply Z.div_pos; lia|]. apply Z.div_lt_upper_bound; lia.
Qed.

Lemma u32_round_trip z : u32 z → of_le_bytes (le_bytes 4 z) = z.
Proof. intros H. apply of_le_bytes_le_bytes. exact H. Qed.

Lemma of_le_bytes_range l : 0 ≤ of_le_bytes l < 256 ^ Z.of_nat (length l).
Proof.
  induction l as [|c l IH]; simpl of_le_bytes.
  { change (256 ^ Z.of_nat (length [])) with 1. lia. }
  pose proof (b2z_range c). cbn [length].
  rewrite Nat2Z.inj_succ, Z.pow_succ_r by lia. lia.
Qed.

Lemma field_app off n l1 l2 l3 :
  length l1 = off → length l2 = n → field off n (l1 ++ l2 ++ l3) = l2.
Proof.
  intros <- <-. unfold field. by rewrite drop_app_length, take_app_length.
Qed.

Lemma field_app0 n l2 l3 : length l2 = n → field 0 n (l2 ++ l3) = l2.
Proof. intros. by apply (field_app 0 n []). Qed.

Lemma length_field off n mem :
  (off + n ≤ length mem)%nat → length (field off n mem) = n.
Proof. intros. unfold field. rewrite length_take, length_drop. lia. Qed.

Lemma length_encode_request r :
  request_ok r → length (encode_request r) = sizeof_AuthRequest.
Proof.
  intros (_ & _ & Hu & Hp). unfold encode_request.
  by rewrite !length_app, !length_le_bytes, Hu, Hp, length_zeros.
Qed.

Lemma length_encode_response r :
  response_ok r → length (encode_response r) = sizeof_AuthResponse.
Proof.
  intros (_ & _ & _ & Hm). unfold encode_response.
  by rewrite !length_app, !length_le_bytes, Hm, length_zeros.
Qed.

Lemma decode_request_ok mem :
  length mem = sizeof_AuthRequest → request_ok (decode_request mem).
Proof.
  intros H. unfold sizeof_AuthRequest in H. unfold decode_request, request_ok; simpl.
  assert (∀ off, (off + 4 ≤ length mem)%nat → u32 (of_le_bytes (field off 4 mem))) as Hu.
  { intros off Hoff. pose proof (of_le_bytes_range (field off 4 mem)) as Hr.
    by rewrite length_field in Hr. }
  split_and!; [apply Hu; lia..| |]; apply length_field;
    unfold sizeof_username, sizeof_password, AUTH_USERNAME_MAX, AUTH_PASSWORD_MAX; lia.
Qed.

Lemma decode_encode_request r :
  request_ok r → decode_request (encode_request r) = r.
Proof.
  intros (Hv & Ht & Hu & Hp). destruct r as [v t u p]; simpl in *.
  unfold decode_request, encode_request; simpl rq_version; simpl rq_type;
    simpl rq_username; simpl rq_password.
  pose proof (length_le_bytes 4 v) as Lv. pose proof (length_le_bytes 4 t) as Lt.
  f_equal.
  - rewrite field_app0 by done. by apply u32_round_trip.
  - rewrite (field_app 4 4 (le_bytes 4 v)) by done. by apply u32_round_trip.
  - rewrite (app_assoc (le_bytes 4 v)). apply field_app; [|done].
    by rewrite length_app, Lv, Lt.
  - rewrite (app_assoc (le_bytes 4 v)), (app_assoc (_ ++ _)). apply field_app; [|done].
    by rewrite !length_app, Lv, Lt, Hu.
Qed.

Lemma decode_encode_response r :
  response_ok r → decode_response (encode_response r) = r.
Proof.
  intros (Hv & Hr & He & Hm). destruct r as [v t e m]; simpl in *.
  unfold decode_response, encode_response; simpl rs_version; simpl rs_result;
    simpl rs_error_code; simpl rs_message.
  pose proof (length_le_bytes 4 v) as Lv. pose proof (length_le_bytes 4 t) as Lt.
  pose proof (length_le_bytes 4 e) as Le.
  f_equal.
  - rewrite field_app0 by done. by apply u32_round_trip.
  - rewrite (field_app 4 4 (le_bytes 4 v)) by done. by apply u32_round_trip.
  - rewrite (app_assoc (le_bytes 4 v)).
    rewrite (field_app 8 4) by (done || by rewrite length_app, Lv, Lt).
    by apply u32_round_trip.
  - rewrite (app_assoc (le_bytes 4 v)), (app_assoc (_ ++ _)). apply field_app; [|done].
    by rewrite !length_app, Lv, Lt, Le.
Qed.
