(* ===== verification/AuthSys.v ===== *)
(** * The environment of the authentication programs

    The calls [Backend.c] and [Frontend.c] make to the kernel and to the
    terminal, as a signature for the program monad, and the documented
    behaviour of the kernel the proofs use as classes of laws. *)

From S2P Require Import Prelude.
From S2P Require Import CLib.
Local Open Scope Z_scope.

(** What a signal is set to: the program's handler or [SIG_IGN]. *)
Inductive disposition : Type := Handle | Ignore.

(** [struct ucred], and the part of [struct stat] and [struct termios] the
    programs look at. *)
Record ucred := Ucred { uc_pid : Z; uc_uid : Z; uc_gid : Z }.
Record file_stat := Stat { st_is_sock : bool; st_uid : Z }.
Record termios := Termios { c_lflag : Z; c_other : list Z }.

(** A descriptor is a [nat]; the C variable holding one or [-1] is an
    [option nat]. *)
Inductive sys : Type → Type :=
  | Fprintf (s : stream) (fmt : string) (args : list arg) : sys unit
  | Fflush (s : stream) : sys unit
  | Setvbuf_line (s : stream) : sys Z
  | Sigaction (signum : Z) (d : disposition) : sys (res unit)
  | Pending_signals : sys (list Z)
  | Getuid : sys Z
  | Geteuid : sys Z
  | Getgid : sys Z
  | Getresuid : sys (res (Z * Z * Z))
  | Setgroups_none : sys (res unit)
  | Setresgid (r e s : Z) : sys (res unit)
  | Setresuid (r e s : Z) : sys (res unit)
  | Seteuid (u : Z) : sys (res unit)
  | Readlink (path : list byte) (size : nat) : sys (res (list byte))
  | Fopen (path : list byte) : sys (res (list byte * option Z))
  | Fclose : sys (res unit)
  | Lstat (path : list byte) : sys (res file_stat)
  | Unlink (path : list byte) : sys (res unit)
  | Chmod (path : list byte) (mode : Z) : sys (res unit)
  | Socket : sys (res nat)
  | Bind (fd : nat) (path : list byte) : sys (res unit)
  | Listen (fd : nat) (backlog : Z) : sys (res unit)
  | Accept (fd : nat) : sys (res nat)
  | Connect (fd : nat) (path : list byte) : sys (res unit)
  | Getsockopt_peercred (fd : nat) : sys (res (ucred * nat))
  | Read (fd : nat) (n : nat) : sys (res (list byte))
  | Write (fd : nat) (data : list byte) : sys (res nat)
  | Close (fd : nat) : sys (res unit)
  | Isatty : sys bool
  | Tcgetattr : sys (res termios)
  | Tcsetattr_flush (t : termios) : sys (res unit).

Notation trace_t := (list (event sys)).

(** [sizeof(address.sun_path)]. *)
Definition SUN_PATH_MAX : nat := 108.

(** The laws of [read], [write] and [readlink]: no more bytes than asked for. *)
Class IOLaws (K : kernel sys) : Prop := {
  read_le tr fd n data : K _ tr (Read fd n) = Ok data → (length data ≤ n)%nat;
  write_le tr fd data k : K _ tr (Write fd data) = Ok k → (k ≤ length data)%nat;
  readlink_le tr path n link :
    K _ tr (Readlink path n) = Ok link → (length link ≤ n)%nat
}.

Definition fprintf {G} (s : stream) (fmt : string) (args : list arg)
    : prog sys G unit := call (Fprintf s fmt args).

(** [errno] of a failed call is [EINTR]. *)
Definition is_eintr (e : Z) : bool := bool_decide (e = EINTR).

(** Events that are calls interrupted by a signal. *)
Definition interrupted (e : event sys) : bool :=
  match e with
  | Ev (Read _ _) r => match r with Err e => is_eintr e | _ => false end
  | Ev (Write _ _) r => match r with Err e => is_eintr e | _ => false end
  | Ev (Accept _) r => match r with Err e => is_eintr e | _ => false end
  | _ => false
  end.

(** The descriptors a process obtained and did not close. *)
Definition open_step (e : event sys) (fds : list nat) : list nat :=
  match e with
  | Ev Socket r => match r with Ok fd => fd :: fds | Err _ => fds end
  | Ev (Accept _) r => match r with Ok fd => fd :: fds | Err _ => fds end
  | Ev (Close fd) _ => filter (λ f, f ≠ fd) fds
  | _ => fds
  end.
Definition open_fds (tr : trace_t) : list nat := foldr open_step [] tr.

Lemma wp_fprintf {G} K s fmt args (Q : outcome unit → world sys G → Prop) w :
  wp K (fprintf s fmt args) Q w =
  Q (Ret tt) (World (globals w) (Ev (Fprintf s fmt args) tt :: trace w)).
Proof. unfold fprintf. rewrite wp_call. by destruct (K _ _ _). Qed.

#[export] Hint Rewrite @wp_fprintf : wp.

(** ** A concrete environment

    Every call succeeds; [files] gives the content of files, [input] what a
    descriptor delivers, and a terminal is attached or not.  Used to show
    that hypotheses about the kernel can be met. *)
Definition easy_answer (files : list byte → option (list byte))
    (input : list byte) {T} (c : sys T) : T :=
  match c with
  | Fprintf _ _ _ => tt
  | Fflush _ => tt
  | Setvbuf_line _ => 0
  | Sigaction _ _ => Ok tt
  | Pending_signals => []
  | Getuid => 1000
  | Geteuid => 1000
  | Getgid => 1000
  | Getresuid => Ok (1000, 1000, 1000)
  | Setgroups_none => Ok tt
  | Setresgid _ _ _ => Ok tt
  | Setresuid _ _ _ => Ok tt
  | Seteuid _ => Err EPERM
  | Readlink _ n => Ok (take n (txt "/srv/Authentication/build/Backend"))
  | Fopen path => match files path with
                  | Some content => Ok (content, None)
                  | None => Err ENOENT
                  end
  | Fclose => Ok tt
  | Lstat _ => Err ENOENT
  | Unlink _ => Ok tt
  | Chmod _ _ => Ok tt
  | Socket => Ok 3%nat
  | Bind _ _ => Ok tt
  | Listen _ _ => Ok tt
  | Accept _ => Ok 4%nat
  | Connect _ _ => Ok tt
  | Getsockopt_peercred _ => Ok (Ucred 4242 1000 1000, 12%nat)
  | Read _ n => Ok (take n input)
  | Write _ data => Ok (length data)
  | Close _ => Ok tt
  | Isatty => true
  | Tcgetattr => Ok (Termios 8 [])
  | Tcsetattr_flush _ => Ok tt
  end.

Definition easy_kernel (files : list byte → option (list byte))
    (input : list byte) : kernel sys :=
  λ T _ c, easy_answer files input c.

#[export] Instance easy_kernel_io files input : IOLaws (easy_kernel files input).
Proof.
  split; cbn.
  - intros _ _ n data [= <-]. rewrite length_take. lia.
  - intros _ _ data k [= <-]. done.
  - intros _ _ n link [= <-]. rewrite length_take. lia.
Qed.
