(* ===== verification/BackendCredential.v ===== *)
(** * Backend.c: the backend's memory, and loading the demo credential

    [DemoCredential], the objects of the backend that hold sensitive data,
    the signal flag, [resolve_demo_credential_path] and
    [load_demo_credential]. *)

From S2P Require Import Prelude.
From S2P Require Import CLib.
From S2P Require Import SecureMemory.
From S2P Require Import AuthProtocol.
From S2P Require Import AuthSys.
Local Open Scope Z_scope.

Definition PROC_STATUS_PATH : string := "/proc/self/status".
Definition PROC_STATUS_LINE_MAX : nat := 256.
Definition BACKEND_LISTEN_BACKLOG : Z := 4.
Definition CREDENTIALS_FILE_NAME : string := "credentials.demo".
Definition CREDENTIAL_LINE_MAX : nat := AUTH_USERNAME_MAX + AUTH_PASSWORD_MAX + 4.

Record DemoCredential := MkDemoCredential {
  dc_username : list byte;        (**r [char\[AUTH_USERNAME_MAX + 1\]] *)
  dc_password : list byte         (**r [char\[AUTH_PASSWORD_MAX + 1\]] *)
}.

Definition empty_credential : DemoCredential :=
  MkDemoCredential (zeros sizeof_username) (zeros sizeof_password).

(** The objects of the process: the flag [stop_requested], [credential] and
    [credential_path] of [main], [line] of [load_demo_credential], [request]
    of [handle_client]. *)
Record backend := MkBackend {
  stop_requested : bool;
  credential : DemoCredential;
  credential_path : list byte;
  line : list byte;
  request : list byte
}.

Notation Backend := (prog sys backend).

Definition set_stop (b : bool) (g : backend) : backend :=
  MkBackend b (credential g) (credential_path g) (line g) (request g).
Definition set_credential (c : DemoCredential) (g : backend) : backend :=
  MkBackend (stop_requested g) c (credential_path g) (line g) (request g).
Definition set_credential_path (p : list byte) (g : backend) : backend :=
  MkBackend (stop_requested g) (credential g) p (line g) (request g).
Definition set_line (l : list byte) (g : backend) : backend :=
  MkBackend (stop_requested g) (credential g) (credential_path g) l (request g).
Definition set_request (r : list byte) (g : backend) : backend :=
  MkBackend (stop_requested g) (credential g) (credential_path g) (line g) r.

(** The handler installed for [SIGINT] and [SIGTERM]. *)
Definition request_stop (signal_number : Z) (g : backend) : backend :=
  set_stop true g.

(** A read of [stop_requested]: the handler ran for every signal delivered
    since the last one. *)
Definition read_stop_requested : Backend bool :=
  let* signals := call Pending_signals in
  modify (λ g, foldl (λ g s, request_stop s g) g signals) ;;;
  get stop_requested.

Definition log (fmt : string) (args : list arg) : Backend unit :=
  fprintf Stdout fmt args.

Definition secure_clear_credential (c : DemoCredential) : DemoCredential :=
  MkDemoCredential (clear_object (dc_username c)) (clear_object (dc_password c)).

Definition clear_line : Backend unit :=
  modify (λ g, set_line (clear_object (line g)) g).

Definition discard_remaining_file_line (f : FILE) : FILE := skip_line (f_rest f) f.

(** The code of [resolve_demo_credential_path] after [readlink] stored [link]:
    the array it leaves, and the error message if it fails. *)
Definition credential_path_of (path : list byte) (link : list byte)
    : list byte * option string :=
  let path_size := length path in
  let path_length := length link in
  let path := store 0 link path in
  if bool_decide (path_size - 1 ≤ path_length)%nat then
    (path, Some "[backend] backend executable path is too long\n"%string)
  else
  let path := <[path_length := NUL]> path in
  match strrchr path x2f with
  | None => (path, Some "[backend] invalid backend executable path\n"%string)
  | Some executable_separator =>
      let path := <[executable_separator := NUL]> path in
      match strrchr path x2f with
      | None =>
          (path, Some "[backend] unable to locate authentication directory\n"%string)
      | Some sep =>
          let build_separator := S sep in
          let remaining := (path_size - build_separator)%nat in
          let name := txt CREDENTIALS_FILE_NAME ++ [NUL] in
          if bool_decide (remaining < length name)%nat then
            (path, Some "[backend] demo credential path is too long\n"%string)
          else (store build_separator name path, None)
      end
  end.

Definition resolve_demo_credential_path : Backend Z :=
  let* path := get credential_path in
  let* r := call (Readlink (txt "/proc/self/exe") (length path - 1)) in
  match r with
  | Err e =>
      log "[backend] unable to resolve /proc/self/exe: %s\n" [AErrno e] ;;;
      ret (-1)
  | Ok link =>
      let (path', error) := credential_path_of path link in
      modify (set_credential_path path') ;;;
      match error with
      | Some message => log message [] ;;; ret (-1)
      | None => ret 0
      end
  end.

(** How the [while] loop of [load_demo_credential] is left: at the end of the
    input, or by [goto cleanup]. *)
Inductive load_exit : Type := EndOfInput | GotoCleanup.

(** A message followed by [goto cleanup]. *)
Definition load_stop (file : FILE) (found_credential : bool) (message : string)
    : Backend (FILE * bool + FILE * bool * load_exit) :=
  log message [] ;;; ret (inr (file, found_credential, GotoCleanup)).

(** The loop body from [line\[line_length\] = '\0'] on; [line2] is the line
    after that assignment. *)
Definition load_account (file : FILE) (found_credential : bool)
    (line2 : list byte) : Backend (FILE * bool + FILE * bool * load_exit) :=
  modify (set_line line2) ;;;
  if bool_decide (char_at line2 0 = NUL) || bool_decide (char_at line2 0 = x23)
  then clear_line ;;; ret (inl (file, found_credential))
  else
  if found_credential then
    load_stop file found_credential
      "[backend] demo credential file must contain one account\n"
  else
  match strchr line2 x3a with
  | None =>
      load_stop file found_credential "[backend] invalid demo credential format\n"
  | Some separator =>
      if bool_decide (is_Some (strchr (drop (S separator) line2) x3a)) then
        load_stop file found_credential "[backend] invalid demo credential format\n"
      else
      let line3 := <[separator := NUL]> line2 in
      modify (set_line line3) ;;;
      let username_length := strlen line3 in
      let password := drop (S separator) line3 in
      let password_length := strlen password in
      if bool_decide (username_length = 0
           ∨ AUTH_USERNAME_MAX < username_length
           ∨ password_length = 0
           ∨ AUTH_PASSWORD_MAX < password_length)%nat then
        load_stop file found_credential "[backend] invalid demo credential lengths\n"
      else
      modify (λ g, set_credential
        (MkDemoCredential
          (store 0 (take (username_length + 1) line3) (dc_username (credential g)))
          (store 0 (take (password_length + 1) password) (dc_password (credential g)))) g) ;;;
      clear_line ;;;
      ret (inl (file, true))
  end.

(** One iteration of [while (fgets(...))], on the state
    [(file, found_credential)]. *)
Definition load_step (s : FILE * bool)
    : Backend (FILE * bool + FILE * bool * load_exit) :=
  let (file, found_credential) := s in
  let* line0 := get line in
  match fgets line0 file with
  | (None, file) => ret (inr (file, found_credential, EndOfInput))
  | (Some line1, file) =>
      modify (set_line line1) ;;;
      let line_length := strcspn line1 [CR; LF] in
      if bool_decide (char_at line1 line_length = NUL) && negb (f_feof file) then
        load_stop (discard_remaining_file_line file) found_credential
          "[backend] demo credential line is too long\n"
      else load_account file found_credential (<[line_length := NUL]> line1)
  end.

(** The code after the [cleanup] label. *)
Definition load_cleanup (file_open : bool) (result : Z) : Backend Z :=
  let* result :=
    (if file_open then
       let* r := call Fclose in
       match r with
       | Ok _ => ret result
       | Err e =>
           log "[backend] error closing demo credential file: %s\n" [AErrno e] ;;;
           ret (-1)
       end
     else ret result) in
  clear_line ;;;
  (if bool_decide (result ≠ 0) then
     modify (λ g, set_credential (secure_clear_credential (credential g)) g)
   else ret tt) ;;;
  ret result.

Definition load_demo_credential (fuel : nat) (path : list byte) : Backend Z :=
  modify (set_credential empty_credential) ;;;
  modify (set_line (zeros CREDENTIAL_LINE_MAX)) ;;;
  let* r := call (Fopen (c_string path)) in
  match r with
  | Err e =>
      log "[backend] unable to open demo credential file %s: %s\n"
        [AStr path; AErrno e] ;;;
      load_cleanup false (-1)
  | Ok (content, fails) =>
      let* (file, found_credential, exit) :=
        loop fuel load_step (fopen_file content fails, false) in
      match exit with
      | GotoCleanup => load_cleanup true (-1)
      | EndOfInput =>
          if f_ferror file then
            log "[backend] error reading demo credential file: %s\n"
              [AErrno (f_errno file)] ;;;
            load_cleanup true (-1)
          else if negb found_credential then
            log "[backend] demo credential file contains no account\n" [] ;;;
            load_cleanup true (-1)
          else
            log "[backend] loaded demo credential account from %s\n" [AStr path] ;;;
            load_cleanup true 0
      end
  end.

(** ** Reference definitions *)

(** A loaded credential: NUL-terminated strings of permitted lengths in
    arrays of the declared sizes. *)
Definition credential_ok (c : DemoCredential) : Prop :=
  length (dc_username c) = sizeof_username ∧
  length (dc_password c) = sizeof_password ∧
  (0 < strlen (dc_username c) ≤ AUTH_USERNAME_MAX)%nat ∧
  (0 < strlen (dc_password c) ≤ AUTH_PASSWORD_MAX)%nat.

(** The arrays after copying two strings into zeroed ones. *)
Definition credential_of (u p : list byte) : DemoCredential :=
  MkDemoCredential (store 0 (u ++ [NUL]) (zeros sizeof_username))
                   (store 0 (p ++ [NUL]) (zeros sizeof_password)).

Definition is_comment (l : list byte) : bool :=
  match l with
  | [] => true
  | c :: _ => bool_decide (c = x23)
  end.

(** One account line: [username:password], with permitted lengths. *)
Definition parse_account (l : list byte) : option (list byte * list byte) :=
  match memchr l x3a with
  | None => None
  | Some i =>
      let u := take i l in
      let p := drop (S i) l in
      if bool_decide (x3a ∈ p) then None
      else if bool_decide (0 < length u ≤ AUTH_USERNAME_MAX
             ∧ 0 < length p ≤ AUTH_PASSWORD_MAX)%nat
      then Some (u, p) else None
  end.

(** A credential file, given by its lines: exactly one is an account. *)
Definition parse_credentials (lines : list (list byte))
    : option (list byte * list byte) :=
  match filter (λ l, is_comment l = false) lines with
  | [l] => parse_account l
  | _ => None
  end.

(** A line of text that fits the buffer of [load_demo_credential]. *)
Definition plain_line (l : list byte) : Prop :=
  NUL ∉ l ∧ CR ∉ l ∧ LF ∉ l ∧ (length l + 2 ≤ CREDENTIAL_LINE_MAX)%nat.

(** ** The loop body on a line *)

(** What the body does to a line that is the string [l]. *)
Definition account_effect (l : list byte) (file : FILE) (found : bool)
    (g g' : backend) (o : FILE * bool + FILE * bool * load_exit) : Prop :=
  length (line g') = CREDENTIAL_LINE_MAX ∧
  if is_comment l then o = inl (file, found) ∧ credential g' = credential g
  else if found then
    o = inr (file, found, GotoCleanup) ∧ credential g' = credential g
  else match parse_account l with
       | None => o = inr (file, found, GotoCleanup) ∧ credential g' = credential g
       | Some (u, p) =>
           o = inl (file, true) ∧
           credential g' =
           MkDemoCredential (store 0 (u ++ [NUL]) (dc_username (credential g)))
                            (store 0 (p ++ [NUL]) (dc_password (credential g)))
       end.

Lemma wp_log K fmt args (Q : outcome unit → world sys backend → Prop) w :
  wp K (log fmt args) Q w =
  Q (Ret tt) (World (globals w) (Ev (Fprintf Stdout fmt args) tt :: trace w)).
Proof. apply wp_fprintf. Qed.

Lemma wp_load_stop K file found message
    (Q : outcome (FILE * bool + FILE * bool * load_exit) → world sys backend → Prop) w :
  wp K (load_stop file found message) Q w =
  Q (Ret (inr (file, found, GotoCleanup)))
    (World (globals w) (Ev (Fprintf Stdout message []) tt :: trace w)).
Proof. unfold load_stop. by rewrite wp_bind, wp_log. Qed.

#[export] Hint Rewrite @wp_log @wp_load_stop : wp.

Section proofs.
Variable K : kernel sys.

Lemma is_comment_test (l r : list byte) :
  NUL ∉ l →
  bool_decide (char_at (l ++ NUL :: r) 0 = NUL) ||
  bool_decide (char_at (l ++ NUL :: r) 0 = x23) = is_comment l.
Proof.
  intros Hl. destruct l as [|c l]; [done|].
  change (char_at _ 0) with c. apply not_elem_of_cons in Hl as [Hc _].
  simpl. by rewrite bool_decide_eq_false_2 by done.
Qed.

Lemma length_clear_object buf : length (clear_object buf) = length buf.
Proof. by rewrite clear_object_zeros, length_zeros. Qed.


Lemma load_account_spec file found l r w Q :
  NUL ∉ l → length (l ++ NUL :: r) = CREDENTIAL_LINE_MAX →
  (∀ o w', account_effect l file found (globals w) (globals w') o →
           stop_requested (globals w') = stop_requested (globals w) →
           Q (Ret o) w') →
  wp K (load_account file found (l ++ NUL :: r)) Q w.
Proof.
  intros Hl Hlen HQ. unfold account_effect in HQ. unfold load_account. wp_steps.
  rewrite is_comment_test by done.
  destruct (is_comment l) eqn:Hcomment; rewrite ?Hcomment in HQ.
  { unfold clear_line. wp_steps. apply HQ; [|done]. simpl.
    by rewrite length_clear_object. }
  destruct found; [rewrite wp_load_stop; by apply HQ|].
  rewrite strchr_app by done. unfold parse_account in HQ.
  destruct (memchr l x3a) as [i|] eqn:Hsep; rewrite ?Hsep in HQ;
    [|rewrite wp_load_stop; by apply HQ].
  apply memchr_Some in Hsep as (p & Hlp & Hi & Hu).
  set (u := take i l) in *. clearbody u. subst l i.
  apply not_elem_of_app in Hl as [HuN [_ HpN]%not_elem_of_cons].
  rewrite drop_middle in HQ. rewrite <- app_assoc. simpl.
  rewrite !drop_middle, insert_middle. rewrite !drop_middle.
  rewrite strchr_app by done.
  destruct (decide (x3a ∈ p)) as [Hin|Hin].
  { rewrite bool_decide_eq_true_2 by by apply is_Some_memchr.
    rewrite (bool_decide_eq_true_2 _ Hin) in HQ. rewrite wp_load_stop. apply HQ; [|done].
    simpl in *. by rewrite <- app_assoc in Hlen. }
  rewrite bool_decide_eq_false_2 by by rewrite is_Some_memchr.
  rewrite (bool_decide_eq_false_2 _ Hin) in HQ. wp_steps.
  rewrite !strlen_app by done. rewrite <- app_assoc in Hlen. simpl in Hlen.
  wp_decide Hbad.
  { rewrite bool_decide_eq_false_2 in HQ by lia. rewrite wp_load_stop.
    apply HQ; [|done]. simpl. rewrite <- Hlen, !length_app. simpl. by rewrite length_app. }
  rewrite bool_decide_eq_true_2 in HQ by lia.
  unfold clear_line. wp_steps. apply HQ; [|done]. simpl.
  rewrite !take_middle, length_clear_object. split; [|done].
  rewrite <- Hlen, !length_app. simpl. by rewrite length_app.
Qed.

(** A line cut from the buffer at the first line terminator is a string. *)
Lemma load_step_some file found line1 file' w Q :
  length (line (globals w)) = CREDENTIAL_LINE_MAX →
  fgets (line (globals w)) file = (Some line1, file') →
  (∀ l o w', NUL ∉ l → account_effect l file' found (globals w) (globals w') o →
           stop_requested (globals w') = stop_requested (globals w) →
           Q (Ret o) w') →
  (∀ file'' w', credential (globals w') = credential (globals w) →
           length (line (globals w')) = CREDENTIAL_LINE_MAX →
           stop_requested (globals w') = stop_requested (globals w) →
           Q (Ret (inr (file'', found, GotoCleanup))) w') →
  wp K (load_step (file, found)) Q w.
Proof.
  intros Hlen Hget HQ HQstop. unfold load_step. wp_steps. rewrite Hget. wp_steps.
  destruct (fgets_Some _ _ _ _ Hget) as (got & Hline & Hlen1 & _ & _ & Hgot & _);
    [rewrite Hlen; unfold CREDENTIAL_LINE_MAX; lia|].
  case_match.
  { rewrite wp_load_stop. apply HQstop; [done| |done]. simpl. congruence. }
  destruct (strcspn_cut line1 [CR; LF]) as (s & c & r & Hs & Hcut & HsN & _).
  { rewrite Hline. unfold store. rewrite !elem_of_app. set_solver. }
  rewrite Hcut, Hs, insert_middle. apply load_account_spec; [done| |].
  - rewrite <- Hlen, <- Hlen1, Hs, !length_app. done.
  - intros o w' Heff. simpl in *. by eapply HQ.
Qed.

Definition load_inv (s : FILE * bool) (w : world sys backend) : Prop :=
  length (line (globals w)) = CREDENTIAL_LINE_MAX ∧
  if s.2 then credential_ok (credential (globals w))
  else credential (globals w) = empty_credential.

Lemma parse_account_Some l u p :
  parse_account l = Some (u, p) →
  l = u ++ x3a :: p ∧ x3a ∉ u ∧ x3a ∉ p ∧
  (0 < length u ≤ AUTH_USERNAME_MAX ∧ 0 < length p ≤ AUTH_PASSWORD_MAX)%nat.
Proof.
  unfold parse_account. destruct (memchr l x3a) as [i|] eqn:E; [|done].
  apply memchr_Some in E as (q & Hl & Hi & Hu). revert Hl Hi Hu.
  generalize (take i l) as v. intros v -> <- Hu. rewrite drop_middle.
  case_bool_decide; [done|]. case_bool_decide; [|done]. by intros [= <- <-].
Qed.

Lemma credential_of_ok u p :
  NUL ∉ u → NUL ∉ p →
  (0 < length u ≤ AUTH_USERNAME_MAX)%nat → (0 < length p ≤ AUTH_PASSWORD_MAX)%nat →
  credential_ok (credential_of u p).
Proof.
  intros Hu Hp Hlu Hlp. unfold credential_ok, credential_of; simpl.
  rewrite !length_store by (rewrite length_app, length_zeros; unfold sizeof_username, sizeof_password; cbn [length]; lia).
  rewrite !length_zeros.
  rewrite !strlen_store by (done || rewrite length_zeros; unfold sizeof_username, sizeof_password; lia).
  done.
Qed.

(** The account effect preserves the invariant of the loop. *)
Lemma account_effect_inv l file found g g' o w' :
  NUL ∉ l → account_effect l file found g g' o →
  (if found then credential_ok (credential g) else credential g = empty_credential) →
  globals w' = g' →
  match o with
  | inl s => s.1 = file ∧ load_inv s w'
  | inr (file', found', exit) =>
      file' = file ∧ found' = found ∧ exit = GotoCleanup ∧ load_inv (file', found') w'
  end.
Proof.
  intros Hl [Hlen Heff] Hcred <-. unfold load_inv.
  destruct (is_comment l).
  { destruct Heff as [-> ->]. done. }
  destruct found.
  { destruct Heff as [-> ->]. done. }
  destruct (parse_account l) as [[u p]|] eqn:Hp; destruct Heff as [-> Hc]; simpl.
  - split_and!; [done..|]. rewrite Hc, Hcred.
    apply parse_account_Some in Hp as (-> & _ & _ & ? & ?).
    apply not_elem_of_app in Hl as [? [_ ?]%not_elem_of_cons].
    by apply credential_of_ok.
  - rewrite Hc. done.
Qed.

Lemma load_step_inv s w :
  load_inv s w →
  wp K (load_step s) (post (λ o w', match o with
    | inl s' => load_inv s' w' ∧ (length (f_rest s'.1) < length (f_rest s.1))%nat
    | inr (f, found, exit) => load_inv (f, found) w'
    end) (λ _ _, False)) w.
Proof.
  destruct s as [file found]. intros [Hlen Hcred]. simpl in Hcred.
  destruct (fgets (line (globals w)) file) as [[line1|] file'] eqn:Hget.
  - destruct (fgets_Some _ _ _ _ Hget) as (got & _ & _ & Hrest & Hgot & _);
      [rewrite Hlen; unfold CREDENTIAL_LINE_MAX; lia|].
    eapply load_step_some; [done|exact Hget| |].
    + intros l o w' Hl Heff _. simpl.
      pose proof (account_effect_inv _ _ _ _ _ _ w' Hl Heff Hcred eq_refl) as Hinv.
      destruct o as [s'|[[f' found'] exit]]; [|tauto].
      destruct Hinv as [-> Hinv]. split; [done|]. simpl. rewrite Hrest, length_app.
      destruct got; [done|]. simpl. lia.
    + intros f'' w' Hc Hl _. split; [done|]. simpl. by rewrite Hc.
  - unfold load_step. wp_steps. rewrite Hget. wp_steps. simpl. done.
Qed.

Lemma load_cleanup_spec file_open r w :
  wp K (load_cleanup file_open r) (post (λ r' w',
    (r' = r ∨ r' = -1) ∧
    line (globals w') = zeros (length (line (globals w))) ∧
    credential (globals w') =
      (if bool_decide (r' ≠ 0) then secure_clear_credential (credential (globals w))
       else credential (globals w))) (λ _ _, False)) w.
Proof.
  unfold load_cleanup, clear_line. wp_steps.
  destruct file_open; wp_steps; [destruct (K _ _ Fclose); wp_steps|];
    wp_decide H; wp_steps; simpl; rewrite clear_object_zeros;
    rewrite ?(bool_decide_eq_true_2 _ H), ?(bool_decide_eq_false_2 _ H);
    auto; lia.
Qed.

(** With a file that closes the result is the one asked for. *)
Lemma load_cleanup_closes file_open r Q w :
  (∀ tr, K _ tr Fclose = Ok tt) →
  (∀ w', credential (globals w') =
         (if bool_decide (r ≠ 0) then secure_clear_credential (credential (globals w))
          else credential (globals w)) → Q (Ret r) w') →
  wp K (load_cleanup file_open r) Q w.
Proof.
  intros Hclose HQ. unfold load_cleanup, clear_line. wp_steps.
  destruct file_open; wp_steps; rewrite ?Hclose; wp_steps;
    wp_decide H; wp_steps; apply HQ; simpl;
    by rewrite ?(bool_decide_eq_true_2 _ H), ?(bool_decide_eq_false_2 _ H).
Qed.

Lemma secure_clear_credential_empty c :
  length (dc_username c) = sizeof_username → length (dc_password c) = sizeof_password →
  secure_clear_credential c = empty_credential.
Proof. intros Hu Hp. unfold secure_clear_credential. by rewrite !clear_object_zeros, Hu, Hp. Qed.

Lemma load_inv_clears s w : load_inv s w →
  secure_clear_credential (credential (globals w)) = empty_credential.
Proof.
  intros [_ H]. destruct (s.2).
  - destruct H as (? & ? & _). by apply secure_clear_credential_empty.
  - rewrite H. by apply secure_clear_credential_empty.
Qed.

End proofs.

(** ** The loop on a text file *)

(** ** The path of the credential file *)

Lemma store0_app link path :
  (length link < length path)%nat →
  ∃ c r, store 0 link path = link ++ c :: r ∧ (length link + S (length r) = length path)%nat.
Proof.
  intros H. unfold store. simpl. destruct (drop (length link) path) as [|c r] eqn:Hd.
  - apply (f_equal length) in Hd. rewrite length_drop in Hd. simpl in Hd. lia.
  - exists c, r. split; [done|]. apply (f_equal length) in Hd.
    rewrite length_drop in Hd. simpl in Hd. lia.
Qed.

Lemma credential_path_of_found path dir build exe :
  NUL ∉ dir ++ x2f :: build ++ x2f :: exe → x2f ∉ build → x2f ∉ exe →
  (length (dir ++ x2f :: build ++ x2f :: exe) < length path - 1)%nat →
  (length dir + 18 ≤ length path)%nat →
  ∃ rest, credential_path_of path (dir ++ x2f :: build ++ x2f :: exe) =
    ((dir ++ x2f :: txt CREDENTIALS_FILE_NAME) ++ NUL :: rest, None) ∧
    (length dir + 18 + length rest = length path)%nat.
Proof.
  intros HN Hb He Hlen Hsize. unfold credential_path_of.
  rewrite bool_decide_eq_false_2 by lia.
  destruct (store0_app (dir ++ x2f :: build ++ x2f :: exe) path) as (c & r & -> & Hr); [lia|].
  rewrite insert_middle.
  replace (dir ++ x2f :: build ++ x2f :: exe) with ((dir ++ x2f :: build) ++ x2f :: exe) in *
    by by rewrite <- app_assoc.
  rewrite strrchr_app by done. rewrite <- (app_assoc (dir ++ x2f :: build)). cbn [app].
  rewrite insert_middle. rewrite strrchr_app by set_solver.
  rewrite !length_app in Hlen, Hr. simpl in Hlen, Hr.
  rewrite bool_decide_eq_false_2 by (cbn; lia).
  exists (drop (S (length dir) + 17) ((dir ++ x2f :: build) ++ NUL :: exe ++ NUL :: r)).
  split.
  - f_equal. unfold store. rewrite <- !app_assoc. cbn [app].
    set (tail := build ++ NUL :: exe ++ NUL :: r).
    replace (take (S (length dir)) (dir ++ x2f :: tail)) with (dir ++ [x2f]).
    + by rewrite <- !app_assoc.
    + change (x2f :: tail) with ([x2f] ++ tail). rewrite app_assoc, take_app_length'; [done|].
      rewrite length_app. simpl. lia.
  - rewrite length_drop, !length_app. simpl. rewrite length_app. simpl. lia.
Qed.

Lemma resolve_found (K : kernel sys) w dir build exe :
  (∀ tr, K _ tr (Readlink (txt "/proc/self/exe")
                   (length (credential_path (globals w)) - 1)) =
         Ok (dir ++ x2f :: build ++ x2f :: exe)) →
  NUL ∉ dir ++ x2f :: build ++ x2f :: exe → x2f ∉ build → x2f ∉ exe →
  (length (dir ++ x2f :: build ++ x2f :: exe) < length (credential_path (globals w)) - 1)%nat →
  (length dir + 18 ≤ length (credential_path (globals w)))%nat →
  wp K resolve_demo_credential_path (post (λ r w', r = 0 ∧
    length (credential_path (globals w')) = length (credential_path (globals w)) ∧
    c_string (credential_path (globals w')) = dir ++ x2f :: txt CREDENTIALS_FILE_NAME)
    (λ _ _, False)) w.
Proof.
  intros Hlink HN Hb He Hlen Hsize. unfold resolve_demo_credential_path. wp_steps.
  rewrite Hlink. wp_steps.
  destruct (credential_path_of_found (credential_path (globals w)) dir build exe)
    as (rest & -> & Hrest); [done..|].
  wp_steps. simpl. split; [done|]. split.
  - rewrite !length_app. simpl. lia.
  - apply c_string_app. rewrite elem_of_app, elem_of_cons.
    assert (NUL ∉ txt CREDENTIALS_FILE_NAME) by (apply (bool_decide_unpack _); vm_compute; done).
    set_solver.
Qed.

Section text_file.
Variable K : kernel sys.

(** What the loop yields for the remaining lines, from the flag on. *)
Definition parse_rest (found : bool) (lines : list (list byte))
    : option (option (list byte * list byte)) :=
  match found, filter (λ l, is_comment l = false) lines with
  | _, [] => Some None
  | true, _ => None
  | false, [l] => Some <$> parse_account l
  | false, _ => None
  end.

Definition text_post (found : bool) (lines : list (list byte)) (w : world sys backend)
    : outcome (FILE * bool * load_exit) → world sys backend → Prop :=
  post (λ (r : FILE * bool * load_exit) w', let '(f, found', exit) := r in
    length (line (globals w')) = CREDENTIAL_LINE_MAX ∧
    match parse_rest found lines with
    | None => exit = GotoCleanup ∧ load_inv (f, found') w'
    | Some None =>
        exit = EndOfInput ∧ f_ferror f = false ∧ found' = found ∧
        credential (globals w') = credential (globals w)
    | Some (Some (u, p)) =>
        exit = EndOfInput ∧ f_ferror f = false ∧ found' = true ∧
        credential (globals w') = credential_of u p
    end) (λ _ _, False).

Lemma parse_rest_comment found l lines :
  is_comment l = true → parse_rest found (l :: lines) = parse_rest found lines.
Proof. intros H. unfold parse_rest. by rewrite filter_cons_False by congruence. Qed.

Lemma parse_rest_found l lines :
  is_comment l = false → parse_rest true (l :: lines) = None.
Proof. intros H. unfold parse_rest. by rewrite filter_cons_True. Qed.

Lemma parse_rest_account l lines u p :
  is_comment l = false → parse_account l = Some (u, p) →
  parse_rest false (l :: lines) =
  match parse_rest true lines with Some _ => Some (Some (u, p)) | None => None end.
Proof.
  intros H Hp. unfold parse_rest. rewrite filter_cons_True by done.
  destruct (filter _ lines); simpl; [by rewrite Hp|done].
Qed.

Lemma parse_rest_invalid l lines :
  is_comment l = false → parse_account l = None →
  parse_rest false (l :: lines) = None.
Proof.
  intros H Hp. unfold parse_rest. rewrite filter_cons_True by done.
  destruct (filter _ lines); simpl; [by rewrite Hp|done].
Qed.

(** One line consumed by the body: the loop continues with the rest, or stops. *)
Lemma text_line (found : bool) l lines file (w w' : world sys backend)
    (o : FILE * bool + FILE * bool * load_exit) :
  NUL ∉ l →
  (if found then credential_ok (credential (globals w))
   else credential (globals w) = empty_credential) →
  account_effect l file found (globals w) (globals w') o →
  match o with
  | inl (f', found') =>
      f' = file ∧ load_inv (f', found') w' ∧
      ∀ out w'', text_post found' lines w' out w'' → text_post found (l :: lines) w out w''
  | inr r => text_post found (l :: lines) w (Ret r) w'
  end.
Proof.
  intros Hl Hcred Heff.
  pose proof (account_effect_inv l file found _ _ o w' Hl Heff Hcred eq_refl) as Hinv.
  destruct Heff as [Hlen Heff]. unfold text_post, post.
  destruct (is_comment l) eqn:Hc.
  { destruct Heff as [-> Hcred']. destruct Hinv as [_ Hinv].
    rewrite parse_rest_comment, <- Hcred' by done. auto. }
  destruct found.
  { destruct Heff as [-> Hcred']. rewrite parse_rest_found by done. tauto. }
  destruct (parse_account l) as [[u p]|] eqn:Hp; destruct Heff as [-> Hcred'].
  - destruct Hinv as [_ Hinv]. rewrite (parse_rest_account l lines u p) by done.
    split_and!; [done..|]. intros out w''.
    destruct out as [[[f found'] exit]|]; [|done]. intros [Hlen' Hpost].
    split; [done|]. unfold parse_rest in *.
    destruct (filter _ lines); [|done].
    rewrite Hcred', Hcred in Hpost. tauto.
  - rewrite parse_rest_invalid by done. tauto.
Qed.

Lemma plain_line_CRLF l : plain_line l → ∀ d, d ∈ l → d ∉ [CR; LF].
Proof. intros (_ & HC & HL & _) d Hd. set_solver. Qed.

(** The last line, which need not end in a newline. *)
Lemma load_loop_last last (found : bool) fuel w e :
  plain_line last → load_inv (fopen_file (text_of [] last) None, found) w → (1 < fuel)%nat →
  f_rest e = text_of [] last → f_fails e = None → f_feof e = false → f_ferror e = false →
  wp K (loop fuel load_step (e, found)) (text_post found [last] w) w.
Proof.
  intros Hlast [Hlen Hcred] Hfuel Hrest Hfails Hfeof Hferr. simpl in Hlen, Hcred.
  assert (1 < length (line (globals w)))%nat as Hbuf by (rewrite Hlen; unfold CREDENTIAL_LINE_MAX; lia).
  destruct fuel as [|fuel]; [lia|].
  cbn [loop]. rewrite wp_bind. unfold load_step at 1. wp_steps.
  unfold text_of in Hrest. simpl in Hrest.
  destruct (decide (last = [])) as [->|Hne].
  { rewrite (fgets_end _ e) by done. wp_steps. simpl. split; [done|].
    destruct found; simpl; by rewrite Hferr. }
  pose proof Hlast as (HN & _ & HL & Hsz).
  rewrite (fgets_last _ e last) by (done || rewrite Hlen; lia). wp_steps.
  rewrite Hferr. simpl f_feof. rewrite andb_false_r.
  assert (store 0 (last ++ [NUL]) (line (globals w)) =
          last ++ NUL :: drop (length last + 1) (line (globals w))) as Hst.
  { unfold store. simpl. rewrite <- app_assoc, length_app. done. }
  rewrite Hst, strcspn_app by (done || by apply plain_line_CRLF || by left).
  rewrite insert_middle. apply load_account_spec; [done| |].
  { rewrite length_app. simpl. rewrite length_drop. rewrite Hlen. lia. }
  intros o w' Heff _.
  pose proof (text_line found last [] (File [] None true false) w w' o HN Hcred Heff) as Hstep.
  destruct o as [[f' found']|r]; [|wp_steps; exact Hstep].
  destruct Hstep as (-> & Hinv & Hk). eapply wp_mono; [|exact Hk].
  destruct fuel as [|fuel]; [simpl in Hfuel; lia|]. cbn [loop].
  rewrite wp_bind. unfold load_step at 1. wp_steps.
  destruct Hinv as [Hlen' _]. simpl in Hlen'.
  rewrite fgets_end by (done || rewrite Hlen'; unfold CREDENTIAL_LINE_MAX; lia).
  wp_steps. simpl. split; [done|]. by destruct found'.
Qed.

Lemma load_loop_text lines last (found : bool) fuel w e :
  Forall plain_line lines → plain_line last →
  load_inv (fopen_file (text_of lines last) None, found) w →
  (length lines + 1 < fuel)%nat →
  f_rest e = text_of lines last → f_fails e = None → f_feof e = false →
  f_ferror e = false →
  wp K (loop fuel load_step (e, found)) (text_post found (lines ++ [last]) w) w.
Proof.
  revert lines found w e. induction fuel as [|fuel IH]; intros lines found w e;
    [lia|]. intros Hlines Hlast [Hlen Hcred] Hfuel Hrest Hfails Hfeof Hferr.
  destruct lines as [|l lines].
  { apply (load_loop_last last found (S fuel)); [done|by split|simpl in Hfuel; lia|done..]. }
  simpl in Hlen, Hcred.
  assert (1 < length (line (globals w)))%nat as Hbuf by (rewrite Hlen; unfold CREDENTIAL_LINE_MAX; lia).
  cbn [loop]. rewrite wp_bind. unfold load_step at 1. wp_steps.
  apply Forall_cons in Hlines as [(HN & HC & HL & Hsz) Hlines].
  assert (text_of (l :: lines) last = l ++ LF :: text_of lines last) as Htext.
  { unfold text_of. simpl. by rewrite <- !app_assoc. }
  rewrite Htext in Hrest.
  rewrite (fgets_line _ e l _ Hrest) by (done || rewrite Hlen; lia). wp_steps.
  assert (store 0 (l ++ [LF; NUL]) (line (globals w)) =
          l ++ LF :: NUL :: drop (length l + 2) (line (globals w))) as Hst.
  { unfold store. simpl. rewrite <- app_assoc, length_app. done. }
  rewrite Hst, strcspn_app by (done || set_solver).
  rewrite char_at_middle, insert_middle. rewrite bool_decide_eq_false_2 by done.
  simpl andb. cbn iota. apply load_account_spec; [done| |].
  { rewrite length_app. simpl. rewrite length_drop, Hlen. lia. }
  intros o w' Heff _.
  pose proof (text_line found l (lines ++ [last]) _ w w' o HN Hcred Heff) as Hstep.
  destruct o as [[f' found']|r]; [|wp_steps; exact Hstep].
  destruct Hstep as (-> & Hinv & Hk). eapply wp_mono; [|exact Hk].
  apply IH; try done. simpl in Hfuel. lia.
Qed.

End text_file.

Lemma parse_credentials_Some lines u p :
  Forall plain_line lines → parse_credentials lines = Some (u, p) →
  NUL ∉ u ∧ NUL ∉ p ∧
  (0 < length u ≤ AUTH_USERNAME_MAX ∧ 0 < length p ≤ AUTH_PASSWORD_MAX)%nat.
Proof.
  intros Hplain. unfold parse_credentials.
  destruct (filter _ _) as [|l [|]] eqn:Hf; try done. intros Hp.
  assert (l ∈ lines) as Hin.
  { assert (l ∈ filter (λ l, is_comment l = false) lines) as H by (rewrite Hf; by left).
    by apply list_elem_of_filter in H as [_ H]. }
  rewrite Forall_forall in Hplain. destruct (Hplain l Hin) as [HN _].
  apply parse_account_Some in Hp as (-> & _ & _ & Hl). set_solver.
Qed.

Lemma c_string_credential_of u p :
  NUL ∉ u → NUL ∉ p →
  c_string (dc_username (credential_of u p)) = u ∧
  c_string (dc_password (credential_of u p)) = p.
Proof.
  intros Hu Hp. unfold credential_of. cbn [dc_username dc_password].
  by rewrite !c_string_store.
Qed.

(** ** Every outcome of loading *)

Lemma load_spec (K : kernel sys) fuel path w :
  wp K (load_demo_credential fuel path) (post (λ r w',
    line (globals w') = zeros CREDENTIAL_LINE_MAX ∧
    ((r = 0 ∧ credential_ok (credential (globals w')))
     ∨ (r ≠ 0 ∧ credential (globals w') = empty_credential)))
    (λ h _, h = OutOfFuel)) w.
Proof.
  unfold load_demo_credential. wp_steps.
  assert (∀ b r s w0, load_inv s w0 → (r = 0 → s.2 = true) →
    wp K (load_cleanup b r) (post (λ r w',
    line (globals w') = zeros CREDENTIAL_LINE_MAX ∧
    ((r = 0 ∧ credential_ok (credential (globals w')))
     ∨ (r ≠ 0 ∧ credential (globals w') = empty_credential)))
    (λ h _, h = OutOfFuel)) w0) as Hcleanup.
  { intros b r s w0 Hinv Hr. eapply wp_mono; [apply load_cleanup_spec|].
    intros [r'|h] w'; simpl; [|done]. intros (Hr' & -> & ->).
    pose proof (load_inv_clears _ _ Hinv) as ->. destruct Hinv as [-> Hcred].
    split; [done|]. case_bool_decide as Hz; [by right|].
    assert (r' = 0) as -> by lia. left. split; [done|].
    rewrite Hr in Hcred by lia. done. }
  destruct (K _ _ (Fopen _)) as [[content fails]|e]; wp_steps.
  - apply (wp_loop_inv K load_inv).
    + intros s w0 Hinv. eapply wp_mono; [by apply load_step_inv|].
      intros [[s'|[[f found] exit]]|h] w'; simpl; [tauto| |done].
      intros Hinv'. destruct exit; [|apply (Hcleanup _ _ _ _ Hinv'); lia].
      destruct (f_ferror f); wp_steps;
        [by apply (Hcleanup _ _ (f, found)); [|lia]|].
      destruct found; wp_steps; simpl; wp_steps.
      * by apply (Hcleanup _ _ (f, true)).
      * by apply (Hcleanup _ _ (f, false)); [|lia].
    + done.
    + done.
  - by apply (Hcleanup _ _ (fopen_file [] None, false)); [|lia].
Qed.

(** ** Loading a text file *)

Lemma load_parses (K : kernel sys) fuel path lines last w :
  Forall plain_line lines → plain_line last →
  (∀ tr, K _ tr (Fopen (c_string path)) = Ok (text_of lines last, None)) →
  (∀ tr, K _ tr Fclose = Ok tt) →
  (length lines + 1 < fuel)%nat →
  wp K (load_demo_credential fuel path) (post (λ r w',
    match parse_credentials (lines ++ [last]) with
    | Some (u, p) => r = 0 ∧ credential (globals w') = credential_of u p
    | None => r = -1 ∧ credential (globals w') = empty_credential
    end) (λ _ _, False)) w.
Proof.
  intros Hlines Hlast Hopen Hclose Hfuel. unfold load_demo_credential. wp_steps.
  rewrite Hopen. wp_steps. eapply wp_mono; [by apply (load_loop_text K lines last)|].
  assert (parse_rest false (lines ++ [last]) = Some None →
          parse_credentials (lines ++ [last]) = None) as Hnone.
  { unfold parse_rest, parse_credentials. destruct (filter _ _) as [|l [|]]; try done.
    by destruct (parse_account l). }
  assert (parse_rest false (lines ++ [last]) = None →
          parse_credentials (lines ++ [last]) = None) as Hnone'.
  { unfold parse_rest, parse_credentials. destruct (filter _ _) as [|l [|]]; try done.
    by destruct (parse_account l). }
  assert (∀ r, parse_rest false (lines ++ [last]) = Some (Some r) →
          parse_credentials (lines ++ [last]) = Some r) as Hsome.
  { unfold parse_rest, parse_credentials. intros r.
    destruct (filter _ _) as [|l [|]]; try done.
    destruct (parse_account l); simpl; congruence. }
  intros [[[f found] exit]|h] w'; [|done]. intros [Hlen Hpost].
  destruct (parse_rest false _) as [[[u p]|]|].
  - rewrite (Hsome _ eq_refl). destruct Hpost as (-> & Hf & -> & Hc). wp_steps.
    rewrite Hf. wp_steps. apply load_cleanup_closes; [done|].
    intros w'' Hc'. simpl. rewrite Hc'. done.
  - rewrite Hnone by done. destruct Hpost as (-> & Hf & -> & Hc). wp_steps.
    rewrite Hf. wp_steps. apply load_cleanup_closes; [done|].
    intros w'' Hc'. rewrite bool_decide_eq_true_2 in Hc' by lia.
    simpl. rewrite Hc'. simpl in Hc |- *. by rewrite Hc.
  - rewrite Hnone' by done. destruct Hpost as (-> & Hinv).
    apply load_cleanup_closes; [done|].
    intros w'' Hc'. rewrite bool_decide_eq_true_2 in Hc' by lia.
    simpl. rewrite Hc'. split; [done|]. by apply (load_inv_clears _ _ Hinv).
Qed.

(** ** Properties *)

(** The credential file is looked for next to the build directory: an
    executable at [dir/build/exe] makes [resolve_demo_credential_path] return 0
    with the string [dir/credentials.demo] in the path array, whose size it
    keeps. *)
Theorem resolve_demo_credential_path_found (K : kernel sys) w dir build exe :
  (∀ tr, K _ tr (Readlink (txt "/proc/self/exe")
                   (length (credential_path (globals w)) - 1)) =
         Ok (dir ++ x2f :: build ++ x2f :: exe)) →
  NUL ∉ dir ++ x2f :: build ++ x2f :: exe → x2f ∉ build → x2f ∉ exe →
  (length (dir ++ x2f :: build ++ x2f :: exe) < length (credential_path (globals w)) - 1)%nat →
  (length dir + 18 ≤ length (credential_path (globals w)))%nat →
  wp K resolve_demo_credential_path (post (λ r w', r = 0 ∧
    length (credential_path (globals w')) = length (credential_path (globals w)) ∧
    c_string (credential_path (globals w')) = dir ++ x2f :: txt CREDENTIALS_FILE_NAME)
    (λ _ _, False)) w.
Proof. apply resolve_found. Qed.

(** C36. Loading the credential, whatever the kernel answers and however the
    file is malformed: when [load_demo_credential] returns 0 the credential
    holds two NUL-terminated strings of permitted lengths, otherwise it is
    cleared to zeros; the line buffer is zeros in both cases. *)
Theorem load_demo_credential_outcome (K : kernel sys) fuel path w :
  wp K (load_demo_credential fuel path) (post (λ r w',
    line (globals w') = zeros CREDENTIAL_LINE_MAX ∧
    ((r = 0 ∧ credential_ok (credential (globals w')))
     ∨ (r ≠ 0 ∧ credential (globals w') = empty_credential)))
    (λ h _, h = OutOfFuel)) w.
Proof. apply load_spec. Qed.

(** C37. Loading terminates: with more fuel than the file has bytes the loop
    over its lines always returns. *)
Theorem load_demo_credential_terminates (K : kernel sys) fuel path w :
  (∀ tr p content fails, K _ tr (Fopen p) = Ok (content, fails) →
     (length content < fuel)%nat) →
  wp K (load_demo_credential fuel path) (post (λ _ _, True) (λ _ _, False)) w.
Proof.
  intros Hfuel. unfold load_demo_credential. wp_steps.
  assert (∀ b r w0, wp K (load_cleanup b r) (post (λ _ _, True) (λ _ _, False)) w0)
    as Hcleanup.
  { intros b r w0. eapply wp_mono; [apply load_cleanup_spec|]. by intros [?|?]. }
  destruct (K _ _ (Fopen _)) as [[content fails]|e] eqn:Hopen; wp_steps; [|apply Hcleanup].
  apply Hfuel in Hopen.
  apply (wp_loop K (λ i s w, load_inv s w ∧ i + length (f_rest s.1) ≤ length content)%nat).
  - intros i s w0 Hi [Hinv Hlen]. eapply wp_mono; [by apply load_step_inv|].
    intros [[s'|[[f found] exit]]|h] w'; simpl; [|intros _|done].
    + intros [? ?]. split; [done|]. lia.
    + destruct exit; [|apply Hcleanup].
      destruct (f_ferror f); wp_steps; [apply Hcleanup|].
      destruct found; wp_steps; simpl; wp_steps; apply Hcleanup.
  - intros s w0 [_ Hlen]. lia.
  - split; [done|]. simpl. lia.
Qed.

(** C35. The loop agrees with a reference parser on text files: a file whose
    lines are printable text and fit the buffer loads exactly when one line,
    comments and blank lines apart, is [username:password] with permitted
    lengths, and then it loads that username and that password. *)
Theorem load_demo_credential_parses (K : kernel sys) fuel path lines last w :
  Forall plain_line lines → plain_line last →
  (∀ tr, K _ tr (Fopen (c_string path)) = Ok (text_of lines last, None)) →
  (∀ tr, K _ tr Fclose = Ok tt) →
  (length lines + 1 < fuel)%nat →
  wp K (load_demo_credential fuel path) (post (λ r w',
    match parse_credentials (lines ++ [last]) with
    | Some (u, p) => r = 0 ∧ credential (globals w') = credential_of u p
    | None => r = -1 ∧ credential (globals w') = empty_credential
    end) (λ _ _, False)) w.
Proof. apply load_parses. Qed.

(** ** Witnesses *)

Definition sample_path : string := "/srv/Authentication/credentials.demo".
Definition sample_lines : list (list byte) := [txt "# demo account"; txt "admin:secret"; []].

Definition load_kernel : kernel sys :=
  easy_kernel (λ path, if bool_decide (path = txt sample_path)
                       then Some (text_of sample_lines []) else None) [].

Definition load_world : world sys backend :=
  World (MkBackend false empty_credential (zeros PATH_MAX) [] []) [].

Lemma load_demo_credential_parses_witness :
  wp load_kernel (load_demo_credential 10 (txt sample_path ++ [NUL])) (post (λ r w',
    r = 0 ∧ credential (globals w') = credential_of (txt "admin") (txt "secret"))
    (λ _ _, False)) load_world.
Proof.
  apply (load_demo_credential_parses load_kernel 10 (txt sample_path ++ [NUL])
    sample_lines [] load_world).
  - apply (bool_decide_unpack _). vm_compute. exact I.
  - apply (bool_decide_unpack _). vm_compute. exact I.
  - intros tr. vm_compute. reflexivity.
  - intros tr. reflexivity.
  - vm_compute. lia.
Defined.

Lemma load_demo_credential_terminates_witness :
  wp load_kernel (load_demo_credential 100 (txt sample_path ++ [NUL]))
    (post (λ _ _, True) (λ _ _, False)) load_world.
Proof.
  apply load_demo_credential_terminates. intros tr p content fails. unfold load_kernel.
  cbn [easy_kernel easy_answer]. destruct (bool_decide (p = txt sample_path)); [|discriminate].
  intros H. injection H as <- <-. vm_compute. lia.
Defined.

Lemma resolve_demo_credential_path_found_witness :
  wp load_kernel resolve_demo_credential_path (post (λ r w', r = 0 ∧
    length (credential_path (globals w')) = PATH_MAX ∧
    c_string (credential_path (globals w')) = txt sample_path) (λ _ _, False)) load_world.
Proof.
  apply (resolve_demo_credential_path_found load_kernel load_world
    (txt "/srv/Authentication") (txt "build") (txt "Backend"));
    try (apply (bool_decide_unpack _); vm_compute; exact I).
  intros tr. vm_compute. reflexivity.
Defined.
