(* ===== verification/BackendRequest.v ===== *)
(** * Backend.c: validating an authentication request

    [set_response], [secure_string_equal], [validate_request_string] and
    [process_request], with the decision they implement as a specification. *)

From S2P Require Import Prelude.
From S2P Require Import CLib.
From S2P Require Import SecureMemory.
From S2P Require Import AuthProtocol.
From S2P Require Import AuthSys.
From S2P Require Import BackendCredential.
Local Open Scope Z_scope.

Definition set_response (result : AuthResult) (error_code : AuthErrorCode)
    (message : list byte) : AuthResponse :=
  MkAuthResponse AUTH_PROTOCOL_VERSION (AuthResult_code result)
    (AuthErrorCode_code error_code)
    (snprintf_into (zeros sizeof_message) (sprintf "%s" [AStr message])).

(** [index < length ? (unsigned char)s\[index\] : 0u] *)
Definition byte_or_zero (s : list byte) (len index : nat) : Z :=
  if bool_decide (index < len)%nat then b2z (char_at s index) else 0.

Definition secure_string_equal (left : list byte) (left_length : nat)
    (right : list byte) (right_length : nat) (maximum_length : nat) : bool :=
  let difference :=
    foldl (λ difference index,
             Z.lor difference
               (Z.lxor (byte_or_zero left left_length index)
                       (byte_or_zero right right_length index)))
      (Z.lxor (Z.of_nat left_length) (Z.of_nat right_length))
      (seq 0 maximum_length) in
  bool_decide (difference = 0).

(** [inl] is the length stored through [value_length], [inr] the response
    set when [-1] is returned.  The capacity is that of the object. *)
Definition validate_request_string (value : list byte) (maximum_length : nat)
    (field_name : string) (empty_error oversized_error : AuthErrorCode)
    : Backend (nat + AuthResponse) :=
  let capacity := length value in
  let reject error format :=
    set_response AUTH_RESULT_REJECTED error
      (snprintf_into (zeros sizeof_message)
         (sprintf format [AStr (txt field_name)])) in
  match memchr value NUL with
  | None =>
      log "[backend] rejected %s without a null terminator within %lu bytes\n"
        [AStr (txt field_name); AInt (Z.of_nat capacity)] ;;;
      ret (inr (reject oversized_error "%s is oversized or not null-terminated"%string))
  | Some value_length =>
      if bool_decide (value_length = 0%nat) then
        log "[backend] rejected empty %s\n" [AStr (txt field_name)] ;;;
        ret (inr (reject empty_error "%s must not be empty"%string))
      else if bool_decide (maximum_length < value_length)%nat then
        log "[backend] rejected oversized %s\n" [AStr (txt field_name)] ;;;
        ret (inr (reject oversized_error "%s exceeds maximum length"%string))
      else ret (inl value_length)
  end.

Definition process_request (request : AuthRequest) (credential : DemoCredential)
    : Backend AuthResponse :=
  if bool_decide (rq_version request ≠ AUTH_PROTOCOL_VERSION) then
    log "[backend] rejected protocol version %u\n" [AInt (rq_version request)] ;;;
    ret (set_response AUTH_RESULT_REJECTED AUTH_ERROR_UNSUPPORTED_VERSION
           (txt "unsupported protocol version"))
  else if bool_decide (rq_type request ≠ AUTH_REQUEST_VALIDATE) then
    log "[backend] rejected request type %u\n" [AInt (rq_type request)] ;;;
    ret (set_response AUTH_RESULT_REJECTED AUTH_ERROR_BAD_REQUEST
           (txt "unsupported authentication request type"))
  else
  let* u := validate_request_string (rq_username request) AUTH_USERNAME_MAX
              "username" AUTH_ERROR_USERNAME_REQUIRED AUTH_ERROR_USERNAME_TOO_LONG in
  match u with
  | inr response => ret response
  | inl username_length =>
  let* p := validate_request_string (rq_password request) AUTH_PASSWORD_MAX
              "password" AUTH_ERROR_PASSWORD_REQUIRED AUTH_ERROR_PASSWORD_TOO_LONG in
  match p with
  | inr response => ret response
  | inl password_length =>
      let credential_username_length := strlen (dc_username credential) in
      let credential_password_length := strlen (dc_password credential) in
      let username_matches :=
        secure_string_equal (rq_username request) username_length
          (dc_username credential) credential_username_length AUTH_USERNAME_MAX in
      let password_matches :=
        secure_string_equal (rq_password request) password_length
          (dc_password credential) credential_password_length AUTH_PASSWORD_MAX in
      if negb username_matches then
        log "[backend] authentication rejected for unknown user %s\n"
          [AStr (rq_username request)] ;;;
        ret (set_response AUTH_RESULT_INVALID_CREDENTIALS AUTH_ERROR_NONE
               (txt "invalid username or password"))
      else if negb password_matches then
        log "[backend] authentication rejected for %s\n"
          [AStr (rq_username request)] ;;;
        ret (set_response AUTH_RESULT_INVALID_CREDENTIALS AUTH_ERROR_NONE
               (txt "invalid username or password"))
      else
        log "[backend] authentication successful for %s\n"
          [AStr (rq_username request)] ;;;
        ret (set_response AUTH_RESULT_SUCCESS AUTH_ERROR_NONE
               (txt "authentication successful"))
  end
  end.

(** ** Specification *)

Definition verdict : Type := AuthResult * AuthErrorCode * string.

(** A field must hold a string (a terminator inside the array) that is not
    empty. *)
Definition reject_field (field : string) (empty_error oversized_error : AuthErrorCode)
    (value : list byte) : option verdict :=
  if bool_decide (NUL ∉ value) then
    Some (AUTH_RESULT_REJECTED, oversized_error,
          field +:+ " is oversized or not null-terminated")
  else if bool_decide (c_string value = []) then
    Some (AUTH_RESULT_REJECTED, empty_error, field +:+ " must not be empty")
  else None.

(** The decision on a request, in terms of the strings it carries. *)
Definition decide_request (rq : AuthRequest) (c : DemoCredential) : verdict :=
  if bool_decide (rq_version rq ≠ AUTH_PROTOCOL_VERSION) then
    (AUTH_RESULT_REJECTED, AUTH_ERROR_UNSUPPORTED_VERSION,
     "unsupported protocol version"%string)
  else if bool_decide (rq_type rq ≠ AUTH_REQUEST_VALIDATE) then
    (AUTH_RESULT_REJECTED, AUTH_ERROR_BAD_REQUEST,
     "unsupported authentication request type"%string)
  else
  match reject_field "username" AUTH_ERROR_USERNAME_REQUIRED
          AUTH_ERROR_USERNAME_TOO_LONG (rq_username rq) with
  | Some v => v
  | None =>
  match reject_field "password" AUTH_ERROR_PASSWORD_REQUIRED
          AUTH_ERROR_PASSWORD_TOO_LONG (rq_password rq) with
  | Some v => v
  | None =>
      if bool_decide (c_string (rq_username rq) = c_string (dc_username c) ∧
                      c_string (rq_password rq) = c_string (dc_password c))
      then (AUTH_RESULT_SUCCESS, AUTH_ERROR_NONE, "authentication successful"%string)
      else (AUTH_RESULT_INVALID_CREDENTIALS, AUTH_ERROR_NONE,
            "invalid username or password"%string)
  end
  end.

(** What the backend prints while deciding: one line. *)
Definition field_log (field : string) (value : list byte) : option (string * list arg) :=
  if bool_decide (NUL ∉ value) then
    Some ("[backend] rejected %s without a null terminator within %lu bytes\n"%string,
          [AStr (txt field); AInt (Z.of_nat (length value))])
  else if bool_decide (c_string value = []) then
    Some ("[backend] rejected empty %s\n"%string, [AStr (txt field)])
  else None.

Definition request_log (rq : AuthRequest) (c : DemoCredential) : string * list arg :=
  if bool_decide (rq_version rq ≠ AUTH_PROTOCOL_VERSION) then
    ("[backend] rejected protocol version %u\n"%string, [AInt (rq_version rq)])
  else if bool_decide (rq_type rq ≠ AUTH_REQUEST_VALIDATE) then
    ("[backend] rejected request type %u\n"%string, [AInt (rq_type rq)])
  else
  match field_log "username" (rq_username rq) with
  | Some l => l
  | None =>
  match field_log "password" (rq_password rq) with
  | Some l => l
  | None =>
      if bool_decide (c_string (rq_username rq) ≠ c_string (dc_username c)) then
        ("[backend] authentication rejected for unknown user %s\n"%string,
         [AStr (rq_username rq)])
      else if bool_decide (c_string (rq_password rq) ≠ c_string (dc_password c)) then
        ("[backend] authentication rejected for %s\n"%string, [AStr (rq_username rq)])
      else ("[backend] authentication successful for %s\n"%string,
            [AStr (rq_username rq)])
  end
  end.

Definition respond (v : verdict) : AuthResponse :=
  let '(result, error, message) := v in set_response result error (txt message).

(** ** Constant-work comparison *)

Lemma foldl_lor_zero (f : nat → Z) (l : list nat) d :
  foldl (λ d i, Z.lor d (f i)) d l = 0 ↔ d = 0 ∧ ∀ i, i ∈ l → f i = 0.
Proof.
  revert d. induction l as [|i l IH]; intros d; simpl.
  { split; [|tauto]. intros ->. split; [done|]. intros i Hi. by apply elem_of_nil in Hi. }
  rewrite IH, Z.lor_eq_0_iff. split.
  - intros [[-> Hi] Hl]. split; [done|]. intros j [->|Hj]%elem_of_cons; auto.
  - intros [-> H]. repeat split; intros; apply H; set_solver.
Qed.

Lemma prefix_ext (l r : list byte) n :
  (n ≤ length l)%nat → (n ≤ length r)%nat →
  (∀ i, (i < n)%nat → char_at l i = char_at r i) → take n l = take n r.
Proof.
  intros Hl Hr H. apply list_eq. intros i.
  destruct (decide (i < n)%nat) as [Hi|Hi].
  - rewrite !lookup_take_lt by done. specialize (H i Hi). unfold char_at in H.
    destruct (lookup_lt_is_Some_2 l i ltac:(lia)) as [c Hc].
    destruct (lookup_lt_is_Some_2 r i ltac:(lia)) as [d Hd].
    rewrite Hc, Hd in *. simpl in H. congruence.
  - rewrite !lookup_take_ge by lia. done.
Qed.

(** The loop compares lengths and all characters: it is string equality. *)
Lemma secure_string_equal_iff l ll r rl maximum :
  (ll ≤ length l)%nat → (rl ≤ length r)%nat → (ll ≤ maximum)%nat →
  secure_string_equal l ll r rl maximum = bool_decide (take ll l = take rl r).
Proof.
  intros Hl Hr Hm. unfold secure_string_equal. apply bool_decide_ext.
  rewrite foldl_lor_zero, Z.lxor_eq_0_iff. split.
  - intros [Hlen Hall]. assert (ll = rl) as <- by lia. apply prefix_ext; [done..|].
    intros i Hi. specialize (Hall i). rewrite elem_of_seq in Hall.
    specialize (Hall ltac:(lia)). apply Z.lxor_eq in Hall.
    unfold byte_or_zero in Hall. rewrite !bool_decide_eq_true_2 in Hall by done.
    by apply b2z_inj.
  - intros Heq. assert (ll = rl) as <-.
    { apply (f_equal length) in Heq. rewrite !length_take in Heq. lia. }
    split; [done|]. intros i _. apply Z.lxor_eq_0_iff. unfold byte_or_zero.
    case_bool_decide as Hi; [|done]. unfold char_at.
    by rewrite <- (lookup_take_lt l ll i Hi), Heq, lookup_take_lt.
Qed.

(** ** The messages *)

Definition message_text (v : verdict) : list byte := txt v.2.

Lemma set_response_ok r e m : response_ok (set_response r e m).
Proof.
  unfold set_response, response_ok, u32; simpl rs_version; simpl rs_result;
    simpl rs_error_code; simpl rs_message.
  split; [by split|]. split; [destruct r; by split|]. split; [destruct e; by split|].
  set (t := sprintf _ _). clearbody t. unfold snprintf_into.
  rewrite length_zeros. unfold sizeof_message at 1. rewrite Nat.add_1_r. rewrite length_store.
  - apply length_zeros.
  - rewrite length_app, length_take, length_zeros. unfold sizeof_message.
    cbn [length]. lia.
Qed.

(** A rejection text composed through a [snprintf] buffer of its own. *)
Lemma reject_text format field (text : string) :
  sprintf format [AStr (txt field)] = txt text →
  (length (txt text) ≤ AUTH_RESPONSE_MESSAGE_MAX)%nat →
  NUL ∉ txt text →
  ∀ result error,
  set_response result error
    (snprintf_into (zeros sizeof_message) (sprintf format [AStr (txt field)])) =
  set_response result error (txt text).
Proof.
  intros -> Hlen HN result error. unfold set_response. do 2 f_equal.
  unfold sprintf. simpl. rewrite !app_nil_r.
  assert (c_string (snprintf_into (zeros sizeof_message) (txt text)) = c_string (txt text)) as H.
  { unfold snprintf_into. rewrite length_zeros. unfold sizeof_message at 1.
    rewrite Nat.add_1_r. rewrite take_ge by lia. unfold store. simpl.
    rewrite <- app_assoc. simpl. rewrite c_string_app by done.
    by rewrite c_string_no_terminator. }
  simpl. by rewrite H.
Qed.

Section proofs.
Variable K : kernel sys.

(** [validate_request_string] on an array of the maximal length plus one: the
    branch for lengths above the maximum is unreachable, and nothing but the
    text of the field name is printed. *)
Lemma validate_spec value maximum field empty_error oversized_error w :
  length value = S maximum →
  (∀ text, text ∈ [" is oversized or not null-terminated"%string; " must not be empty"%string] →
     sprintf ("%s" +:+ text) [AStr (txt field)] = txt (field +:+ text) ∧
     (length (txt (field +:+ text)) ≤ AUTH_RESPONSE_MESSAGE_MAX)%nat ∧
     NUL ∉ txt (field +:+ text)) →
  wp K (validate_request_string value maximum field empty_error oversized_error)
    (post (λ r w', globals w' = globals w ∧
       match reject_field field empty_error oversized_error value, field_log field value with
       | Some v, Some (fmt, args) => r = inr (respond v) ∧
           trace w' = Ev (Fprintf Stdout fmt args) tt :: trace w
       | None, None => r = inl (strlen value) ∧ w' = w ∧ (strlen value ≤ maximum)%nat
       | _, _ => False
       end) (λ _ _, False)) w.
Proof.
  intros Hlen Htext. unfold validate_request_string, reject_field, field_log.
  destruct (memchr value NUL) as [n|] eqn:Hchr.
  - assert (NUL ∈ value) as HN by (apply is_Some_memchr; eauto).
    assert (strlen value = n) as Hn by (unfold strlen; by rewrite Hchr).
    rewrite (bool_decide_eq_false_2 (NUL ∉ value)) by tauto.
    rewrite <- Hn. pose proof (length_c_string value) as Hc.
    apply find_index_lt in Hchr.
    wp_decide Hz; wp_steps.
    + rewrite bool_decide_eq_true_2 by (apply nil_length_inv; lia).
      split; [done|]. split; [|done].
      f_equal. destruct (Htext " must not be empty"%string) as (H1 & H2 & H3); [set_solver|].
      by apply (reject_text _ _ _ H1).
    + wp_decide Hbig; [lia|]. wp_steps.
      rewrite (bool_decide_eq_false_2 (c_string value = []))
        by (intros Hnil; rewrite Hnil in Hc; simpl in Hc; lia).
      simpl. by auto with lia.
  - rewrite memchr_None in Hchr. rewrite bool_decide_eq_true_2 by done. wp_steps.
    split; [done|]. split; [|done].
    f_equal. destruct (Htext " is oversized or not null-terminated"%string) as (H1 & H2 & H3); [set_solver|].
    by apply (reject_text _ _ _ H1).
Qed.

Lemma secure_string_equal_fields (value stored : list byte) maximum :
  (strlen value ≤ maximum)%nat →
  secure_string_equal value (strlen value) stored (strlen stored) maximum =
  bool_decide (c_string value = c_string stored).
Proof.
  intros H. rewrite secure_string_equal_iff; [done|apply strlen_le..|done].
Qed.

(** The decision, the printed line and the absence of other effects. *)
Lemma process_request_spec rq c w :
  request_ok rq →
  process_request rq c K w =
  (Ret (respond (decide_request rq c)),
   World (globals w)
     (Ev (Fprintf Stdout (request_log rq c).1 (request_log rq c).2) tt :: trace w)).
Proof.
  intros (_ & _ & Hu & Hp).
  enough (wp K (process_request rq c) (λ o w', o = Ret (respond (decide_request rq c)) ∧
    globals w' = globals w ∧ trace w' =
     Ev (Fprintf Stdout (request_log rq c).1 (request_log rq c).2) tt :: trace w) w) as H.
  { unfold wp in H. destruct (process_request rq c K w) as [o [g t]].
    simpl in H. by destruct H as (-> & -> & ->). }
  unfold process_request, decide_request, request_log.
  wp_decide Hversion; wp_steps; [done|]. wp_decide Htype; wp_steps; [done|].
  eapply wp_mono; [apply validate_spec; [done|]|].
  { intros text [->|[->|[]%elem_of_nil]%elem_of_cons]%elem_of_cons;
      (split; [reflexivity|split; [vm_compute; lia|by vm_compute; set_solver]]). }
  intros [r|h] w1; [|done]. intros [Hg1 H1].
  destruct (reject_field "username" _ _ _) as [v|], (field_log "username" _) as [[fmt args]|]; try done.
  { destruct H1 as (-> & Ht). wp_steps. done. }
  destruct H1 as (-> & -> & Hlu). wp_steps.
  eapply wp_mono; [apply validate_spec; [done|]|].
  { intros text [->|[->|[]%elem_of_nil]%elem_of_cons]%elem_of_cons;
      (split; [reflexivity|split; [vm_compute; lia|by vm_compute; set_solver]]). }
  intros [r|h] w2; [|done]. intros [Hg2 H2].
  destruct (reject_field "password" _ _ _) as [v|], (field_log "password" _) as [[fmt args]|]; try done.
  { destruct H2 as (-> & Ht). wp_steps. done. }
  destruct H2 as (-> & -> & Hlp). wp_steps.
  rewrite !secure_string_equal_fields by done.
  destruct (decide (c_string (rq_username rq) = c_string (dc_username c))) as [Eu|Eu].
  - rewrite (bool_decide_eq_true_2 _ Eu), (bool_decide_eq_false_2 (_ ≠ _)) by tauto.
    cbn [negb]. destruct (decide (c_string (rq_password rq) = c_string (dc_password c))) as [Ep|Ep].
    + rewrite (bool_decide_eq_true_2 _ Ep), (bool_decide_eq_false_2 (_ ≠ _)) by tauto.
      cbn [negb]. wp_steps. by rewrite bool_decide_eq_true_2.
    + rewrite (bool_decide_eq_false_2 _ Ep), (bool_decide_eq_true_2 (_ ≠ _)) by tauto.
      cbn [negb]. wp_steps. by rewrite bool_decide_eq_false_2 by tauto.
  - rewrite (bool_decide_eq_false_2 _ Eu), (bool_decide_eq_true_2 (_ ≠ _)) by tauto.
    cbn [negb]. wp_steps. by rewrite bool_decide_eq_false_2 by tauto.
Qed.

End proofs.

(** ** Properties *)

(** The texts of the decisions fit the message array, terminator included. *)
Definition short_text (s : string) : Prop :=
  (length (txt s) ≤ AUTH_RESPONSE_MESSAGE_MAX)%nat ∧ NUL ∉ txt s.

#[export] Instance short_text_dec s : Decision (short_text s).
Proof. unfold short_text. apply _. Defined.

Ltac solve_short := apply (bool_decide_unpack _); vm_compute; exact I.

Lemma reject_field_Some field empty_error oversized_error value v :
  reject_field field empty_error oversized_error value = Some v →
  v.1.1 = AUTH_RESULT_REJECTED ∧
  (v.2 = field +:+ " is oversized or not null-terminated" ∨
   v.2 = field +:+ " must not be empty").
Proof. unfold reject_field. intros H. repeat case_bool_decide; naive_solver. Qed.

Lemma decide_request_short rq c : short_text (decide_request rq c).2.
Proof.
  unfold decide_request.
  destruct (bool_decide (rq_version rq ≠ _)); [solve_short|].
  destruct (bool_decide (rq_type rq ≠ _)); [solve_short|].
  destruct (reject_field "username" _ _ _) as [v|] eqn:Hu.
  { apply reject_field_Some in Hu as [_ [-> | ->]]; solve_short. }
  destruct (reject_field "password" _ _ _) as [v|] eqn:Hp.
  { apply reject_field_Some in Hp as [_ [-> | ->]]; solve_short. }
  destruct (bool_decide _); solve_short.
Qed.

Lemma respond_message v :
  short_text v.2 → c_string (rs_message (respond v)) = txt v.2 ∧
                   NUL ∈ rs_message (respond v).
Proof.
  destruct v as [[r e] s]. intros [Hlen HN]. simpl in Hlen, HN. simpl.
  unfold sprintf. simpl. rewrite app_nil_r, (c_string_no_terminator (txt s)) by done.
  unfold snprintf_into. rewrite length_zeros. unfold sizeof_message at 1 3.
  rewrite Nat.add_1_r, take_ge by done. unfold store. simpl. rewrite <- app_assoc. simpl.
  rewrite c_string_app by done. split; [done|set_solver].
Qed.

(** When the two fields hold strings, only the comparison remains. *)
Lemma decide_request_login rq c :
  well_formed_login rq →
  decide_request rq c =
  if bool_decide (c_string (rq_username rq) = c_string (dc_username c) ∧
                  c_string (rq_password rq) = c_string (dc_password c))
  then (AUTH_RESULT_SUCCESS, AUTH_ERROR_NONE, "authentication successful"%string)
  else (AUTH_RESULT_INVALID_CREDENTIALS, AUTH_ERROR_NONE,
        "invalid username or password"%string).
Proof.
  intros (_ & Hv & Ht & Hu & Hue & Hp & Hpe). unfold decide_request, reject_field.
  by rewrite !bool_decide_eq_false_2 by tauto.
Qed.

Lemma decide_request_success rq c :
  (decide_request rq c).1.1 = AUTH_RESULT_SUCCESS →
  rq_version rq = AUTH_PROTOCOL_VERSION ∧ rq_type rq = AUTH_REQUEST_VALIDATE ∧
  NUL ∈ rq_username rq ∧ c_string (rq_username rq) ≠ [] ∧
  NUL ∈ rq_password rq ∧ c_string (rq_password rq) ≠ [] ∧
  c_string (rq_username rq) = c_string (dc_username c) ∧
  c_string (rq_password rq) = c_string (dc_password c).
Proof.
  unfold decide_request, reject_field. repeat case_bool_decide; simpl; try done.
Qed.

Lemma respond_result v : rs_result (respond v) = AuthResult_code v.1.1.
Proof. by destruct v as [[r e] m]. Qed.

Lemma AuthResult_code_inj r1 r2 : AuthResult_code r1 = AuthResult_code r2 → r1 = r2.
Proof. by destruct r1, r2. Qed.

(** C28. A request is granted exactly when it is a version-1 validation
    request whose two fields are terminated non-empty strings equal to the
    stored username and password; the backend then answers result 0. *)
Theorem process_request_success_iff (K : kernel sys) rq c w :
  request_ok rq →
  (∃ rs w', process_request rq c K w = (Ret rs, w') ∧
            rs_result rs = AuthResult_code AUTH_RESULT_SUCCESS) ↔
  well_formed_login rq ∧
  c_string (rq_username rq) = c_string (dc_username c) ∧
  c_string (rq_password rq) = c_string (dc_password c).
Proof.
  intros Hok. rewrite process_request_spec by done. split.
  - intros (rs & w' & [= <- <-] & Hres). rewrite respond_result in Hres.
    apply AuthResult_code_inj, decide_request_success in Hres.
    unfold well_formed_login. tauto.
  - intros (Hlogin & Hu & Hp). do 2 eexists. split; [done|].
    by rewrite respond_result, decide_request_login, bool_decide_eq_true_2.
Qed.

(** Failed logins are indistinguishable on the wire: for well-formed
    requests an unknown username and a wrong password yield the same
    response, whatever the stored account. *)
Theorem process_request_uniform_failure (K : kernel sys) rq1 rq2 c1 c2 w1 w2 :
  well_formed_login rq1 → well_formed_login rq2 →
  c_string (rq_username rq1) ≠ c_string (dc_username c1) →
  c_string (rq_password rq2) ≠ c_string (dc_password c2) →
  (process_request rq1 c1 K w1).1 = (process_request rq2 c2 K w2).1 ∧
  (process_request rq1 c1 K w1).1 =
    Ret (respond (AUTH_RESULT_INVALID_CREDENTIALS, AUTH_ERROR_NONE,
                  "invalid username or password"%string)).
Proof.
  intros Hl1 Hl2 Hu Hp.
  rewrite !process_request_spec by (apply Hl1 || apply Hl2). simpl.
  rewrite !decide_request_login, !bool_decide_eq_false_2 by (done || tauto). done.
Qed.

(** C38. Passwords do not leak: two requests that differ only in the password,
    against accounts that differ only in the password, with the same outcome,
    leave the same answer, the same memory and the same printed output. *)
Theorem process_request_hides_passwords (K : kernel sys) rq1 rq2 c1 c2 w :
  request_ok rq1 → request_ok rq2 →
  rq_version rq1 = rq_version rq2 → rq_type rq1 = rq_type rq2 →
  rq_username rq1 = rq_username rq2 → dc_username c1 = dc_username c2 →
  decide_request rq1 c1 = decide_request rq2 c2 →
  process_request rq1 c1 K w = process_request rq2 c2 K w.
Proof.
  intros Hok1 Hok2 Hv Ht Hu Hcu Hd. rewrite !process_request_spec by done.
  enough (request_log rq1 c1 = request_log rq2 c2) as -> by by rewrite Hd.
  destruct Hok1 as (_ & _ & _ & Hlp1). destruct Hok2 as (_ & _ & _ & Hlp2).
  unfold decide_request in Hd. unfold request_log.
  rewrite Hv, Ht, Hu, Hcu in *. case_bool_decide; [done|]. case_bool_decide; [done|].
  assert (∀ f e1 e2 v, is_Some (reject_field f e1 e2 v) ↔ is_Some (field_log f v)) as Hiff.
  { intros. unfold reject_field, field_log. repeat case_bool_decide; naive_solver. }
  unfold field_log, reject_field in *. case_bool_decide; [done|]. case_bool_decide; [done|].
  rewrite Hlp1, Hlp2. repeat case_bool_decide; try done; naive_solver.
Qed.

(** Every answer is a well-formed message: 32-bit fields, the protocol
    version, and a message array that holds the whole text of the decision
    with its terminator, so nothing is ever truncated. *)
Theorem process_request_response_ok (K : kernel sys) rq c w :
  request_ok rq →
  ∃ rs w', process_request rq c K w = (Ret rs, w') ∧ response_ok rs ∧
    rs_version rs = AUTH_PROTOCOL_VERSION ∧ NUL ∈ rs_message rs ∧
    c_string (rs_message rs) = txt (decide_request rq c).2.
Proof.
  intros Hok. rewrite process_request_spec by done. do 2 eexists. split; [done|].
  pose proof (respond_message _ (decide_request_short rq c)) as [Hm HN].
  split_and!; [|by destruct (decide_request rq c) as [[??]?]|done|done].
  destruct (decide_request rq c) as [[??]?]. apply set_response_ok.
Qed.

(** C39. The comparison loop is string equality: over arrays at least as long
    as the lengths, and for a presented string within the maximum, it reports
    a match exactly when the two strings are equal, also when the stored one
    is longer than the maximum. *)
Theorem secure_string_equal_correct l ll r rl maximum :
  (ll ≤ length l)%nat → (rl ≤ length r)%nat → (ll ≤ maximum)%nat →
  secure_string_equal l ll r rl maximum = true ↔ take ll l = take rl r.
Proof. intros. by rewrite secure_string_equal_iff, bool_decide_eq_true. Qed.

(** ** Witnesses *)

Definition sample_request (u p : string) : AuthRequest :=
  MkAuthRequest AUTH_PROTOCOL_VERSION AUTH_REQUEST_VALIDATE
    (store 0 (txt u) (zeros sizeof_username)) (store 0 (txt p) (zeros sizeof_password)).

Definition request_kernel : kernel sys := easy_kernel (λ _, None) [].

Definition request_world : world sys backend :=
  World (MkBackend false empty_credential [] [] []) [].

Lemma process_request_success_iff_witness :
  ∃ rs w', process_request (sample_request "admin" "secret")
             (credential_of (txt "admin") (txt "secret")) request_kernel request_world
           = (Ret rs, w') ∧ rs_result rs = AuthResult_code AUTH_RESULT_SUCCESS.
Proof.
  apply (process_request_success_iff request_kernel (sample_request "admin" "secret")
    (credential_of (txt "admin") (txt "secret")) request_world);
    apply (bool_decide_unpack _); vm_compute; exact I.
Defined.

Lemma process_request_uniform_failure_witness :
  (process_request (sample_request "nobody" "secret")
     (credential_of (txt "admin") (txt "secret")) request_kernel request_world).1 =
  (process_request (sample_request "admin" "guess")
     (credential_of (txt "admin") (txt "secret")) request_kernel request_world).1.
Proof.
  apply (process_request_uniform_failure request_kernel);
    apply (bool_decide_unpack _); vm_compute; exact I.
Defined.

Lemma process_request_hides_passwords_witness :
  process_request (sample_request "admin" "guess1")
    (credential_of (txt "admin") (txt "secret1")) request_kernel request_world =
  process_request (sample_request "admin" "guess2")
    (credential_of (txt "admin") (txt "secret2")) request_kernel request_world.
Proof.
  apply (process_request_hides_passwords request_kernel); try reflexivity;
    apply (bool_decide_unpack _); vm_compute; exact I.
Defined.

Lemma process_request_response_ok_witness :
  ∃ rs w', process_request (sample_request "admin" "secret")
             (credential_of (txt "admin") (txt "secret")) request_kernel request_world
           = (Ret rs, w') ∧
           c_string (rs_message rs) = txt "authentication successful".
Proof.
  destruct (process_request_response_ok request_kernel (sample_request "admin" "secret")
    (credential_of (txt "admin") (txt "secret")) request_world) as (rs & w' & H & _ & _ & _ & Ht).
  - apply (bool_decide_unpack _). vm_compute. exact I.
  - exists rs, w'. split; [exact H|]. rewrite Ht. vm_compute. reflexivity.
Defined.

Lemma secure_string_equal_correct_witness :
  secure_string_equal (txt "admin") 5 (txt "admin") 5 64 = true ↔
  take 5 (txt "admin") = take 5 (txt "admin").
Proof. apply secure_string_equal_correct; vm_compute; lia. Defined.
