(* ===== verification/BackendPrivileges.v ===== *)
(** * Backend.c: identity logging and the permanent privilege drop

    [log_uids], [log_proc_status_uid_lines] and
    [drop_privileges_permanently], with the documented behaviour of the
    credential system calls as a class of laws. *)

From S2P Require Import Prelude.
From S2P Require Import CLib.
From S2P Require Import SecureMemory.
From S2P Require Import AuthProtocol.
From S2P Require Import AuthSys.
From S2P Require Import BackendCredential.
Local Open Scope Z_scope.

Definition log_uids (stage : string) : Backend unit :=
  let* real_uid := call Getuid in
  let* effective_uid := call Geteuid in
  log "[backend] %s getuid(): %lu\n" [AStr (txt stage); AInt real_uid] ;;;
  log "[backend] %s geteuid(): %lu\n" [AStr (txt stage); AInt effective_uid].

(** One iteration over [/proc/self/status], on [(status_file, line,
    found_uid_line)]. *)
Definition uid_line_step (stage : string) (s : FILE * list byte * bool)
    : Backend (FILE * list byte * bool + FILE * bool) :=
  let '(status_file, line, found_uid_line) := s in
  match fgets line status_file with
  | (None, status_file) => ret (inr (status_file, found_uid_line))
  | (Some line, status_file) =>
      if has_prefix "Uid:" line then
        log "[backend] %s /proc/self/status %s" [AStr (txt stage); AStr line] ;;;
        ret (inl (status_file, line, true))
      else ret (inl (status_file, line, found_uid_line))
  end.

Definition log_proc_status_uid_lines (fuel : nat) (stage : string) : Backend Z :=
  let* r := call (Fopen (txt PROC_STATUS_PATH)) in
  match r with
  | Err e =>
      log "[backend] unable to open %s: %s\n"
        [AStr (txt PROC_STATUS_PATH); AErrno e] ;;;
      ret (-1)
  | Ok (content, fails) =>
      let* (status_file, found_uid_line) :=
        loop fuel (uid_line_step stage)
          (fopen_file content fails, zeros PROC_STATUS_LINE_MAX, false) in
      if f_ferror status_file then
        log "[backend] error reading %s: %s\n"
          [AStr (txt PROC_STATUS_PATH); AErrno (f_errno status_file)] ;;;
        let* _ := call Fclose in
        ret (-1)
      else
      let* c := call Fclose in
      match c with
      | Err e =>
          log "[backend] error closing %s: %s\n"
            [AStr (txt PROC_STATUS_PATH); AErrno e] ;;;
          ret (-1)
      | Ok _ =>
          if negb found_uid_line then
            log "[backend] no Uid line found in %s\n" [AStr (txt PROC_STATUS_PATH)] ;;;
            ret (-1)
          else ret 0
      end
  end.

(** [geteuid() == 0 && setgroups(0, NULL) != 0]: the error, if so. *)
Definition drop_groups : Backend (option Z) :=
  let* euid := call Geteuid in
  if bool_decide (euid = 0) then
    let* r := call Setgroups_none in
    match r with Err e => ret (Some e) | Ok _ => ret None end
  else ret None.

(** The code from [getresuid] on: the run-time checks after the drop. *)
Definition check_dropped (uid gid : Z) : Backend Z :=
  let* ids := call Getresuid in
  match ids with
  | Err e => log "[backend] getresuid() failed: %s\n" [AErrno e] ;;; ret (-1)
  | Ok (real_uid, effective_uid, saved_uid) =>
      if bool_decide (real_uid ≠ uid ∨ effective_uid ≠ uid ∨ saved_uid ≠ uid) then
        log "[backend] UID runtime check failed after privilege drop\n" [] ;;;
        ret (-1)
      else
      let* regain := call (Seteuid 0) in
      match regain with
      | Ok _ =>
          log "[backend] privilege drop was reversible; root was regained\n" [] ;;;
          let* _ := call (Seteuid uid) in
          ret (-1)
      | Err e =>
          if bool_decide (e ≠ EPERM) then
            log "[backend] unexpected root-regain check error: %s\n" [AErrno e] ;;;
            ret (-1)
          else
            log "[backend] privileges permanently dropped to UID %lu GID %lu\n"
              [AInt uid; AInt gid] ;;;
            ret 0
      end
  end.

(** The code from [setresgid] on. *)
Definition drop_ids (fuel : nat) (uid gid : Z) : Backend Z :=
  let* r := call (Setresgid gid gid gid) in
  match r with
  | Err e => log "[backend] setresgid() failed: %s\n" [AErrno e] ;;; ret (-1)
  | Ok _ =>
  let* r := call (Setresuid uid uid uid) in
  match r with
  | Err e => log "[backend] setresuid() failed: %s\n" [AErrno e] ;;; ret (-1)
  | Ok _ =>
      log_uids "after privilege drop" ;;;
      let* _ := log_proc_status_uid_lines fuel "after privilege drop" in
      check_dropped uid gid
  end
  end.

Definition drop_privileges_permanently (fuel : nat) (uid gid : Z) : Backend Z :=
  if bool_decide (uid = 0) then
    log "[backend] refusing to use root as the privilege-drop target\n" [] ;;;
    ret (-1)
  else
  log_uids "before privilege drop" ;;;
  let* _ := log_proc_status_uid_lines fuel "before privilege drop" in
  let* groups := drop_groups in
  match groups with
  | Some e => log "[backend] setgroups() failed: %s\n" [AErrno e] ;;; ret (-1)
  | None =>
  drop_ids fuel uid gid
  end.

(** ** Specification *)

(** Events that change nothing: output, reading identity and status files. *)
Definition quiet (e : event sys) : Prop :=
  match e with
  | Ev (Fprintf _ _ _) _ | Ev Getuid _ | Ev Geteuid _ | Ev (Fopen _) _
  | Ev Fclose _ => True
  | _ => False
  end.

(** The evidence, newest first, that the process gave up its privileges for
    good: the group was changed, then all user IDs, then the kernel confirmed
    all three, then an attempt to become root again was refused. *)
Definition drop_sequence (uid gid : Z) (tr : trace_t) : Prop :=
  uid ≠ 0 ∧
  ∃ t2 t3 t4,
    tr = Ev (Seteuid 0) (Err EPERM) :: Ev Getresuid (Ok (uid, uid, uid)) ::
         t2 ++ Ev (Setresuid uid uid uid) (Ok tt) :: Ev (Setresgid gid gid gid) (Ok tt) ::
         t3 ++ t4 ∧
    Forall quiet t2 ∧
    (∃ euid, t3 = [Ev Geteuid euid] ∧ euid ≠ 0
             ∨ t3 = [Ev Setgroups_none (Ok tt); Ev Geteuid euid]).

(** ... at some point of the trace. *)
Definition drop_evidence (uid gid : Z) (tr : trace_t) : Prop :=
  ∃ later before, tr = later ++ before ∧ drop_sequence uid gid before.

(** What a drop guarantees when it is over. *)
Definition drop_post (uid gid : Z) (g : backend)
    : outcome Z → world sys backend → Prop :=
  post (λ r w', globals w' = g ∧ (r = 0 ∨ r = -1) ∧
    (r = 0 → ∃ l before, trace w' = l :: before ∧ quiet l ∧ drop_sequence uid gid before))
    (λ h w', h = OutOfFuel).

(** User IDs of a process: real, effective, saved. *)
Record uids := Uids { ruid : Z; euid : Z; suid : Z }.

(** An unprivileged process may only use the IDs it has. *)
Definition may_use (c : uids) (u : Z) : bool :=
  bool_decide (euid c = 0 ∨ u = ruid c ∨ u = euid c ∨ u = suid c).

(** The IDs after the calls of a trace, from those at its start. *)
Fixpoint uids_after (c0 : uids) (tr : trace_t) : uids :=
  match tr with
  | [] => c0
  | Ev c r :: tr' =>
      let c1 := uids_after c0 tr' in
      match c in sys T return T → uids with
      | Setresuid r e s => λ r', match r' with Ok _ => Uids r e s | Err _ => c1 end
      | Seteuid u => λ r', match r' with Ok _ => Uids (ruid c1) u (suid c1) | Err _ => c1 end
      | _ => λ _, c1
      end r
  end.

(** The credential calls of Linux, for a process started with the user IDs
    [c0] and the real group ID [rgid]. *)
Class CredentialLaws (K : kernel sys) (c0 : uids) (rgid : Z) : Prop := {
  geteuid_law tr : K _ tr Geteuid = euid (uids_after c0 tr);
  getresuid_law tr :
    K _ tr Getresuid = Ok (let c := uids_after c0 tr in (ruid c, euid c, suid c));
  setresuid_law tr r e s :
    K _ tr (Setresuid r e s) =
    let c := uids_after c0 tr in
    if may_use c r && may_use c e && may_use c s then Ok tt else Err EPERM;
  seteuid_law tr u :
    K _ tr (Seteuid u) = if may_use (uids_after c0 tr) u then Ok tt else Err EPERM;
  setgroups_law tr :
    K _ tr Setgroups_none =
    if bool_decide (euid (uids_after c0 tr) = 0) then Ok tt else Err EPERM;
  setresgid_law tr :
    K _ tr (Setresgid rgid rgid rgid) = Ok tt
}.

(** [new] is a possible continuation of [tr]: the kernel gave its answers. *)
Fixpoint answered_by (K : kernel sys) (tr new : trace_t) : Prop :=
  match new with
  | [] => True
  | Ev c r :: new' => r = K _ (new' ++ tr) c ∧ answered_by K tr new'
  end.

(** The status file is shorter than the fuel, whenever it is read. *)
Definition files_below (K : kernel sys) (fuel : nat) : Prop :=
  ∀ tr p content fails, K _ tr (Fopen p) = Ok (content, fails) →
    (length content < fuel)%nat.

(** A kernel obeying the credential laws, on top of the easy one. *)
Definition credential_kernel (c0 : uids) (files : list byte → option (list byte))
    (input : list byte) : kernel sys :=
  λ T tr c,
    match c in sys T return T with
    | Geteuid => euid (uids_after c0 tr)
    | Getresuid => Ok (let c := uids_after c0 tr in (ruid c, euid c, suid c))
    | Setresuid r e s =>
        let c := uids_after c0 tr in
        if may_use c r && may_use c e && may_use c s then Ok tt else Err EPERM
    | Seteuid u => if may_use (uids_after c0 tr) u then Ok tt else Err EPERM
    | Setgroups_none =>
        if bool_decide (euid (uids_after c0 tr) = 0) then Ok tt else Err EPERM
    | c' => easy_answer files input c'
    end.

(** ** Lemmas *)

#[export] Instance credential_kernel_laws c0 files input rgid :
  CredentialLaws (credential_kernel c0 files input) c0 rgid.
Proof. by split. Qed.

#[export] Instance log_emits fmt args : Emits quiet (log fmt args).
Proof. unfold log, fprintf. solve_emits. Qed.

#[export] Instance log_uids_emits stage : Emits quiet (log_uids stage).
Proof. unfold log_uids. solve_emits. Qed.

#[export] Instance log_proc_status_emits fuel stage :
  Emits quiet (log_proc_status_uid_lines fuel stage).
Proof. unfold log_proc_status_uid_lines, uid_line_step. solve_emits. Qed.

Section proofs.
Variable K : kernel sys.

(** The status log touches no memory and halts only for lack of fuel. *)
Lemma log_proc_status_spec fuel stage w :
  wp K (log_proc_status_uid_lines fuel stage) (λ o w',
    (o = Halt OutOfFuel ∨ ∃ r, o = Ret r) ∧ globals w' = globals w ∧
    ∃ new, trace w' = new ++ trace w ∧ Forall quiet new) w.
Proof.
  eapply wp_mono; [apply wp_conj;
    [|apply (emits_wp quiet), log_proc_status_emits]|].
  - instantiate (1 := λ o w', (o = Halt OutOfFuel ∨ ∃ r, o = Ret r) ∧ globals w' = globals w).
    unfold log_proc_status_uid_lines. wp_steps.
    destruct (K _ _ (Fopen _)) as [[content fails]|e]; wp_steps; [|by eauto].
    apply (wp_loop_inv K (λ _ w', globals w' = globals w)).
    + intros [[f line] found] w' Hw'. unfold uid_line_step.
      destruct (fgets line f) as [[line'|] f']; wp_steps.
      * destruct (has_prefix _ _); wp_steps; done.
      * destruct (f_ferror f'); wp_steps; [by eauto|].
        destruct (K _ _ Fclose); wp_steps; [|by eauto].
        destruct found; wp_steps; by eauto.
    + intros. by auto.
    + done.
  - intros o w' [[Ho Hg] Hnew]. auto.
Qed.

Lemma log_uids_spec stage w (Q : outcome unit → world sys backend → Prop) :
  (∀ new, Forall quiet new → Q (Ret tt) (World (globals w) (new ++ trace w))) →
  wp K (log_uids stage) Q w.
Proof.
  intros HQ. unfold log_uids. wp_steps.
  apply (HQ [_; _; _; _]). by repeat constructor.
Qed.

(** Closing the branches that return [-1]. *)
Ltac drop_failed :=
  unfold drop_post; cbn [post globals trace]; split_and!; [done || congruence|by right|done].

Lemma drop_ids_spec fuel uid gid w t3 tr :
  uid ≠ 0 → trace w = t3 ++ tr →
  (∃ euid, t3 = [Ev Geteuid euid] ∧ euid ≠ 0
           ∨ t3 = [Ev Setgroups_none (Ok tt); Ev Geteuid euid]) →
  wp K (drop_ids fuel uid gid) (drop_post uid gid (globals w)) w.
Proof.
  intros Huid Htr Ht3. unfold drop_ids. wp_steps.
  destruct (K _ _ (Setresgid _ _ _)) as [[]|]; wp_steps; [|drop_failed].
  destruct (K _ _ (Setresuid _ _ _)) as [[]|]; wp_steps; [|drop_failed].
  apply log_uids_spec. intros n3 Hn3. wp_steps.
  eapply wp_mono; [apply log_proc_status_spec|].
  intros o2 w2 ([->|[r2 ->]] & Hg2 & n4 & Ht2 & Hn4); [done|]. simpl in Hg2, Ht2.
  unfold check_dropped. wp_steps.
  destruct (K _ _ Getresuid) as [[[r' e'] s']|]; wp_steps; [|drop_failed].
  wp_decide Hids; wp_steps; [drop_failed|].
  destruct (K _ _ (Seteuid 0)) as [[]|e2]; wp_steps; [drop_failed|].
  wp_decide He2; wp_steps; [drop_failed|].
  split_and!; [done|by left|]. intros _. eexists _, _.
  split; [done|]. split; [done|]. split; [done|].
  assert (r' = uid ∧ e' = uid ∧ s' = uid) as (-> & -> & ->) by lia.
  assert (e2 = EPERM) as -> by (by apply dec_stable).
  exists (n4 ++ n3), t3, tr. rewrite Ht2, Htr, app_assoc.
  split_and!; [done|by apply Forall_app|done].
Qed.

Lemma drop_spec fuel uid gid w :
  wp K (drop_privileges_permanently fuel uid gid) (drop_post uid gid (globals w)) w.
Proof.
  unfold drop_privileges_permanently. wp_decide Huid; wp_steps; [drop_failed|].
  apply log_uids_spec. intros n1 _. wp_steps.
  eapply wp_mono; [apply log_proc_status_spec|].
  intros o1 w1 ([->|[r1 ->]] & Hg1 & n2 & Ht1 & _); [done|]. simpl in Hg1, Ht1.
  rewrite <- Hg1. unfold drop_groups. wp_steps.
  wp_decide He; wp_steps.
  - destruct (K _ _ Setgroups_none) as [[]|]; wp_steps; [|drop_failed].
    eapply (drop_ids_spec _ _ _ (World _ (_ :: _ :: _)) [_; _]); [done|done|eauto].
  - eapply (drop_ids_spec _ _ _ (World _ (_ :: _)) [_]); [done|done|eauto].
Qed.

End proofs.

(** ** The laws at work *)

Lemma uids_after_quiet c0 new tr :
  Forall quiet new → uids_after c0 (new ++ tr) = uids_after c0 tr.
Proof.
  induction 1 as [|[T c r] new He _ IH]; [done|]. simpl. rewrite IH. by destruct c.
Qed.

Lemma drop_evidence_mono uid gid e tr :
  drop_evidence uid gid tr → drop_evidence uid gid (e :: tr).
Proof. intros (later & before & -> & H). by exists (e :: later), before. Qed.

Lemma drop_sequence_evidence uid gid l before :
  drop_sequence uid gid before → drop_evidence uid gid (l :: before).
Proof. intros H. by exists [l], before. Qed.

(** The sequence leaves exactly the target user ID. *)
Lemma drop_sequence_uids c0 uid gid tr :
  drop_sequence uid gid tr → uids_after c0 tr = Uids uid uid uid.
Proof.
  intros (_ & t2 & t3 & t4 & -> & Hq & _).
  simpl. rewrite uids_after_quiet by done. done.
Qed.

Section laws.
Context (K : kernel sys) (c0 : uids) (gid : Z) {HK : CredentialLaws K c0 gid}.

(** Without privileges the three IDs can only be set to what they are. *)
Lemma unprivileged_forever uid tr new :
  uid ≠ 0 → uids_after c0 tr = Uids uid uid uid → answered_by K tr new →
  uids_after c0 (new ++ tr) = Uids uid uid uid.
Proof.
  intros Huid Htr. induction new as [|[T c r] new IH]; [done|].
  intros [-> Hnew]. specialize (IH Hnew). simpl. rewrite IH.
  destruct c; try done.
  - rewrite setresuid_law, IH. unfold may_use. simpl.
    repeat case_bool_decide; simpl; [|done..]. f_equal; lia.
  - rewrite seteuid_law, IH. unfold may_use. simpl.
    case_bool_decide; [|done]. f_equal; lia.
Qed.

Lemma log_proc_status_returns fuel stage w :
  files_below K fuel →
  wp K (log_proc_status_uid_lines fuel stage) (λ o w',
    (∃ r, o = Ret r) ∧ globals w' = globals w ∧
    ∃ new, trace w' = new ++ trace w ∧ Forall quiet new) w.
Proof.
  intros Hfuel. eapply wp_mono; [apply wp_conj; [|apply log_proc_status_spec]|].
  - instantiate (1 := λ o w', ∃ r, o = Ret r). unfold log_proc_status_uid_lines. wp_steps.
    destruct (K _ _ (Fopen _)) as [[content fails]|e] eqn:Hopen; wp_steps; [|by eauto].
    apply Hfuel in Hopen.
    apply (wp_loop K (λ i (s : FILE * list byte * bool) _,
      length s.1.2 = PROC_STATUS_LINE_MAX ∧
      i + length (f_rest s.1.1) ≤ length content)%nat).
    + intros i [[f line] found] w' _ [Hl Hi]. simpl in Hl, Hi. unfold uid_line_step.
      destruct (fgets line f) as [[line'|] f'] eqn:Hget; wp_steps.
      * apply fgets_Some in Hget as (got & _ & Hl' & Hrest & Hgot & _);
          [|rewrite Hl; unfold PROC_STATUS_LINE_MAX; lia].
        assert (0 < length got)%nat by (destruct got; [done|simpl; lia]).
        rewrite Hrest, length_app in Hi.
        destruct (has_prefix _ _); wp_steps; simpl; lia.
      * destruct (f_ferror f'); wp_steps; [by eauto|].
        destruct (K _ _ Fclose); wp_steps; [|by eauto].
        destruct found; wp_steps; by eauto.
    + intros [[f line] found] w' [_ Hi]. simpl in Hi. lia.
    + split; [apply length_zeros|simpl; lia].
  - intros o w' [[r ->] (_ & Hg & Hnew)]. eauto.
Qed.

Lemma drop_ids_succeeds fuel uid w :
  files_below K fuel → uid ≠ 0 → ruid (uids_after c0 (trace w)) = uid →
  wp K (drop_ids fuel uid gid) (post (λ r _, r = 0) (λ _ _, False)) w.
Proof.
  intros Hfuel Huid Hruid. unfold drop_ids. wp_steps. rewrite setresgid_law. wp_steps.
  rewrite setresuid_law. unfold may_use. simpl uids_after.
  rewrite !bool_decide_eq_true_2 by (right; left; done). wp_steps.
  apply log_uids_spec. intros n3 Hn3. wp_steps.
  eapply wp_mono; [by apply log_proc_status_returns|].
  intros o2 w2 ([r2 ->] & _ & n4 & Ht2 & Hn4). simpl in Ht2.
  assert (uids_after c0 (trace w2) = Uids uid uid uid) as Hu2
    by by rewrite Ht2, !uids_after_quiet.
  unfold check_dropped. wp_steps. rewrite getresuid_law, Hu2. simpl.
  rewrite bool_decide_eq_false_2 by tauto. wp_steps.
  rewrite seteuid_law. simpl. rewrite Hu2. unfold may_use. simpl.
  rewrite bool_decide_eq_false_2 by (intros [|[|[]]]; congruence). wp_steps.
  rewrite bool_decide_eq_false_2 by tauto. by wp_steps.
Qed.

End laws.

(** ** Properties *)

(** When [drop_privileges_permanently] returns 0, the kernel confirmed
    during the run that the group and all three user IDs were changed to the
    (non-root) target and that becoming root again is refused; it never
    touches the program's memory, and a root target is always refused. *)
Theorem drop_privileges_checked (K : kernel sys) fuel uid gid w :
  wp K (drop_privileges_permanently fuel uid gid) (post (λ r w',
    globals w' = globals w ∧
    ((r = 0 ∧ uid ≠ 0 ∧ drop_evidence uid gid (trace w')) ∨ r = -1))
    (λ h w', h = OutOfFuel)) w.
Proof.
  eapply wp_mono; [apply drop_spec|]. intros [r|h] w'; simpl; [|done].
  intros (Hg & [-> | ->] & Hev); [|auto]. split; [done|]. left.
  destruct (Hev eq_refl) as (l & before & -> & _ & Hseq).
  split_and!; [done|apply Hseq|by apply drop_sequence_evidence].
Qed.

(** C4. The drop is irreversible: under the Linux credential rules, after a
    return of 0 the process holds only the target user ID, and no later
    sequence of calls whatsoever, answered by the kernel, changes that. *)
Theorem drop_privileges_irreversible (K : kernel sys) c0 fuel uid gid w :
  CredentialLaws K c0 gid →
  wp K (drop_privileges_permanently fuel uid gid) (post (λ r w',
    r = 0 → ∀ later, answered_by K (trace w') later →
      uids_after c0 (later ++ trace w') = Uids uid uid uid)
    (λ _ _, True)) w.
Proof.
  intros HK. eapply wp_mono; [apply drop_spec|]. intros [r|h] w'; simpl; [|done].
  intros (_ & _ & Hev) Hr later Hlater.
  destruct (Hev Hr) as (l & before & Htr & Hquiet & Hseq).
  apply (unprivileged_forever K c0 gid uid); [apply Hseq| |done].
  rewrite Htr. change (l :: before) with ([l] ++ before).
  rewrite uids_after_quiet by auto. by eapply drop_sequence_uids.
Qed.

(** The drop succeeds whenever it should: under the Linux credential
    rules, for a process whose real user ID is the non-root target (set-user-ID
    root or not), with status files shorter than the fuel, the result is 0. *)
Theorem drop_privileges_succeeds (K : kernel sys) c0 fuel uid gid w :
  CredentialLaws K c0 gid → files_below K fuel →
  uid ≠ 0 → ruid (uids_after c0 (trace w)) = uid →
  wp K (drop_privileges_permanently fuel uid gid) (post (λ r _, r = 0)
    (λ _ _, False)) w.
Proof.
  intros HK Hfuel Huid Hruid. unfold drop_privileges_permanently.
  rewrite bool_decide_eq_false_2 by done. wp_steps.
  apply log_uids_spec. intros n1 Hn1. wp_steps.
  eapply wp_mono; [by apply log_proc_status_returns|].
  intros o1 w1 ([r1 ->] & _ & n2 & Ht1 & Hn2). simpl in Ht1.
  assert (uids_after c0 (trace w1) = uids_after c0 (trace w)) as Hu1
    by by rewrite Ht1, !uids_after_quiet.
  unfold drop_groups. wp_steps. rewrite geteuid_law. wp_decide He; wp_steps.
  - rewrite setgroups_law. simpl. rewrite bool_decide_eq_true_2 by done. wp_steps.
    apply (drop_ids_succeeds K c0); [done..|]. simpl. by rewrite Hu1.
  - apply (drop_ids_succeeds K c0); [done..|]. simpl. by rewrite Hu1.
Qed.

(** ** Witnesses *)

(** A set-user-ID root process of user 1000. *)
Definition setuid_uids : uids := Uids 1000 0 0.
Definition setuid_kernel : kernel sys :=
  credential_kernel setuid_uids (λ _, Some (txt "Uid:")) [].
Definition setuid_world : world sys backend :=
  World (MkBackend false empty_credential [] [] []) [].

Lemma drop_privileges_irreversible_witness :
  wp setuid_kernel (drop_privileges_permanently 10 1000 1000) (post (λ r w',
    r = 0 → ∀ later, answered_by setuid_kernel (trace w') later →
      uids_after setuid_uids (later ++ trace w') = Uids 1000 1000 1000)
    (λ _ _, True)) setuid_world.
Proof. apply drop_privileges_irreversible. apply credential_kernel_laws. Defined.

Lemma drop_privileges_succeeds_witness :
  wp setuid_kernel (drop_privileges_permanently 10 1000 1000)
    (post (λ r _, r = 0) (λ _ _, False)) setuid_world.
Proof.
  apply (drop_privileges_succeeds setuid_kernel setuid_uids).
  - apply credential_kernel_laws.
  - intros tr p content fails H. injection H as <- <-. vm_compute. lia.
  - lia.
  - reflexivity.
Defined.
