(* ===== verification/Transfer.v ===== *)
(** * Transfers over a descriptor

    What went over a descriptor according to the trace, and the two transfer
    loops both programs have, for any loop body that does one step of a
    transfer. *)

From S2P Require Import Prelude.
From S2P Require Import CLib.
From S2P Require Import AuthSys.
Local Open Scope Z_scope.

(** The bytes a call delivered from, or put on, the descriptor [fd]. *)
Definition data_read (fd : nat) (e : event sys) : list byte :=
  match e with
  | Ev (Read f _) r =>
      match r with
      | Ok data => if bool_decide (f = fd) then data else []
      | Err _ => []
      end
  | _ => []
  end.

Definition data_written (fd : nat) (e : event sys) : list byte :=
  match e with
  | Ev (Write f data) r =>
      match r with
      | Ok n => if bool_decide (f = fd) then take n data else []
      | Err _ => []
      end
  | _ => []
  end.

(** The same over a trace, oldest byte first. *)
Definition received (fd : nat) (tr : trace_t) : list byte :=
  foldr (λ e l, l ++ data_read fd e) [] tr.
Definition sent (fd : nat) (tr : trace_t) : list byte :=
  foldr (λ e l, l ++ data_written fd e) [] tr.

(** Calls that transfer no data. *)
Definition dataless (e : event sys) : Prop :=
  match e with Ev (Read _ _) _ | Ev (Write _ _) _ => False | _ => True end.

(** The paths the process bound a socket to and did not remove since: a path
    is gone when its own [unlink] succeeded or found nothing there. *)
Definition bound_step (e : event sys) (paths : list (list byte)) : list (list byte) :=
  match e with
  | Ev (Bind _ path) r => match r with Ok _ => path :: paths | Err _ => paths end
  | Ev (Unlink path) r =>
      match r with
      | Ok _ => filter (λ p, p ≠ path) paths
      | Err e => if bool_decide (e = ENOENT) then filter (λ p, p ≠ path) paths else paths
      end
  | _ => paths
  end.
Definition bound_paths (tr : trace_t) : list (list byte) := foldr bound_step [] tr.

(** Calls that leave the set of open descriptors and the bound paths alone. *)
Definition neutral (e : event sys) : Prop :=
  match e with
  | Ev Socket _ | Ev (Bind _ _) _ | Ev (Accept _) _ | Ev (Close _) _
  | Ev (Unlink _) _ => False
  | _ => True
  end.

(** Calls that transfer data on no other descriptor than [fd]. *)
Definition only_on (fd : nat) (e : event sys) : Prop :=
  ∀ fd', fd' ≠ fd → data_read fd' e = [] ∧ data_written fd' e = [].

(** Why a transfer of [len] bytes can use up its fuel: each iteration moves a
    byte or was interrupted by a signal. *)
Definition starved (fuel len : nat) (new : trace_t) : Prop :=
  (fuel ≤ len + count_events interrupted new)%nat.

(** The outcome of sending [buffer] on [fd]. *)
Definition write_post {G} (fuel fd : nat) (buffer : list byte) (tr : trace_t)
    (o : outcome Z) (w' : world sys G) : Prop :=
  ∃ new n, trace w' = new ++ tr ∧ sent fd new = take n buffer ∧
    received fd new = [] ∧
    match o with
    | Ret r => r = 0 ∧ n = length buffer ∨ r = -1 ∧ (n < length buffer)%nat
    | Halt h => h = OutOfFuel ∧ starved fuel (length buffer) new
    end.

(** One iteration of a sending loop: it sends a prefix of what is left, or
    was interrupted, or ends the transfer. *)
Definition write_step_post {G} (fd : nat) (rest : list byte) (tr : trace_t)
    : outcome (list byte + Z) → world sys G → Prop :=
  post (λ x w', ∃ new n,
    trace w' = new ++ tr ∧ sent fd new = take n rest ∧ received fd new = [] ∧
    match x with
    | inl rest' => rest' = drop n rest ∧
        ((0 < n ≤ length rest)%nat ∨ n = 0%nat ∧ (0 < count_events interrupted new)%nat)
    | inr r => n = 0%nat ∧ (r = 0 ∧ rest = [] ∨ r = -1 ∧ rest ≠ [])
    end) (λ _ _, False).

(** The outcome of receiving [size] bytes from [fd] into the object [buf]. *)
Definition read_post {G} (buf : G → list byte) (fuel fd size : nat) (tr : trace_t)
    (o : outcome Z) (w' : world sys G) : Prop :=
  ∃ new, trace w' = new ++ tr ∧ sent fd new = [] ∧
    length (buf (globals w')) = size ∧
    match o with
    | Ret r => r = 0 ∧ received fd new = buf (globals w')
               ∨ r = -1 ∧ (length (received fd new) < size)%nat
    | Halt h => h = OutOfFuel ∧ starved fuel size new
    end.

(** One iteration of a receiving loop whose next byte goes to [cursor]. *)
Definition read_step_post {G} (buf : G → list byte) (fd size cursor : nat)
    (w : world sys G) : outcome (nat + Z) → world sys G → Prop :=
  post (λ x w', ∃ new,
    trace w' = new ++ trace w ∧ sent fd new = [] ∧
    length (buf (globals w')) = size ∧
    match x with
    | inl cursor' => cursor' = (cursor + length (received fd new))%nat ∧
        (cursor' ≤ size)%nat ∧
        take cursor' (buf (globals w')) =
          take cursor (buf (globals w)) ++ received fd new ∧
        (received fd new ≠ [] ∨ (0 < count_events interrupted new)%nat)
    | inr r => received fd new = [] ∧
        (r = 0 ∧ cursor = size ∧ buf (globals w') = buf (globals w)
         ∨ r = -1 ∧ (cursor < size)%nat)
    end) (λ _ _, False).

(** ** Lemmas *)

Lemma sent_app fd t1 t2 : sent fd (t1 ++ t2) = sent fd t2 ++ sent fd t1.
Proof.
  unfold sent. induction t1 as [|e t1 IH]; simpl; [by rewrite app_nil_r|].
  by rewrite IH, app_assoc.
Qed.

Lemma received_app fd t1 t2 : received fd (t1 ++ t2) = received fd t2 ++ received fd t1.
Proof.
  unfold received. induction t1 as [|e t1 IH]; simpl; [by rewrite app_nil_r|].
  by rewrite IH, app_assoc.
Qed.

Lemma sent_cons fd e t : sent fd (e :: t) = sent fd t ++ data_written fd e.
Proof. done. Qed.

Lemma received_cons fd e t : received fd (e :: t) = received fd t ++ data_read fd e.
Proof. done. Qed.

Lemma dataless_nothing fd new :
  Forall dataless new → received fd new = [] ∧ sent fd new = [].
Proof.
  induction 1 as [|[T c r] new He _ [IH1 IH2]]; [done|].
  rewrite received_cons, sent_cons, IH1, IH2. by destruct c.
Qed.

Lemma open_fds_neutral new tr :
  Forall neutral new →
  open_fds (new ++ tr) = open_fds tr ∧ bound_paths (new ++ tr) = bound_paths tr.
Proof.
  induction 1 as [|[T c r] new He _ [IH1 IH2]]; [done|].
  unfold open_fds, bound_paths in *. simpl. rewrite IH1, IH2. by destruct c.
Qed.

Lemma bound_paths_cons e tr : bound_paths (e :: tr) = bound_step e (bound_paths tr).
Proof. done. Qed.

(** Closing the only descriptor. *)
Lemma open_fds_close fd r tr :
  open_fds tr = [fd] → open_fds (Ev (Close fd) r :: tr) = [].
Proof.
  intros H. change (filter (λ f, f ≠ fd) (open_fds tr) = []). rewrite H.
  by rewrite filter_cons_False by tauto.
Qed.

Lemma only_on_nothing fd fd' new :
  fd' ≠ fd → Forall (only_on fd) new → received fd' new = [] ∧ sent fd' new = [].
Proof.
  intros Hne. induction 1 as [|e new He _ [IH1 IH2]]; [done|].
  rewrite received_cons, sent_cons, IH1, IH2. by destruct (He fd' Hne) as [-> ->].
Qed.

Lemma dataless_only_on fd e : dataless e → only_on fd e.
Proof. by destruct e as [T [] r]. Qed.

Lemma only_on_write fd data r : only_on fd (Ev (Write fd data) r).
Proof. intros fd' Hne. destruct r; simpl; [|done]. by rewrite bool_decide_eq_false_2. Qed.

Lemma only_on_read fd n r : only_on fd (Ev (Read fd n) r).
Proof. intros fd' Hne. destruct r; simpl; [|done]. by rewrite bool_decide_eq_false_2. Qed.

(** Closing a branch whose result and events are known. *)
Ltac transfer_events :=
  cbn [post]; split; [reflexivity|]; cbn; rewrite ?bool_decide_eq_true_2 by done.
Ltac transferred :=
  transfer_events; split_and!;
  first [by auto | lia | left; split_and!; [done|lia|done] | right; split; [done|lia]].

Section loops.
Context {G : Type} (K : kernel sys).

Lemma write_loop (step : list byte → prog sys G (list byte + Z)) fuel fd buffer w :
  (∀ rest w, wp K (step rest) (write_step_post fd rest (trace w)) w) →
  wp K (loop fuel step buffer) (write_post fuel fd buffer (trace w)) w.
Proof.
  intros Hstep. apply (wp_loop K (λ i rest w', ∃ new n,
    trace w' = new ++ trace w ∧ (n ≤ length buffer)%nat ∧ rest = drop n buffer ∧
    sent fd new = take n buffer ∧ received fd new = [] ∧
    (i ≤ n + count_events interrupted new)%nat)).
  - intros i rest w1 _ (new & n & Htr & Hn & -> & Hs & Hr & Hi).
    eapply wp_mono; [apply Hstep|]. intros [x|h] w2; simpl; [|done].
    intros (new2 & n2 & Htr2 & Hs2 & Hr2 & Hx).
    assert (sent fd (new2 ++ new) = take (n + n2) buffer) as Hsent.
    { by rewrite sent_app, Hs, Hs2, take_take_drop. }
    destruct x as [rest'|r].
    + destruct Hx as [-> Hn2]. exists (new2 ++ new), (n + n2)%nat.
      rewrite Htr2, Htr, app_assoc, drop_drop, received_app, Hr, Hr2, count_events_app.
      rewrite length_drop in Hn2. split_and!; try done; lia.
    + destruct Hx as [-> Hx]. exists (new2 ++ new), n.
      rewrite Htr2, Htr, app_assoc, received_app, Hr, Hr2, Hsent, Nat.add_0_r.
      split_and!; [done..|]. destruct Hx as [[-> Hx]|[-> Hx]].
      * apply (f_equal length) in Hx. rewrite length_drop in Hx. simpl in Hx. left. lia.
      * right. split; [done|]. apply dec_stable. intros Hge. apply Hx.
        apply drop_ge. lia.
  - intros rest w1 (new & n & Htr & Hn & _ & Hs & Hr & Hi). exists new, n.
    unfold starved. split_and!; try done. lia.
  - exists [], 0%nat. cbn. split_and!; try done; lia.
Qed.

Variable buf : G → list byte.

Lemma read_loop (step : nat → prog sys G (nat + Z)) fuel fd size w :
  (∀ cursor w, length (buf (globals w)) = size → (cursor ≤ size)%nat →
     wp K (step cursor) (read_step_post buf fd size cursor w) w) →
  length (buf (globals w)) = size →
  wp K (loop fuel step 0%nat) (read_post buf fuel fd size (trace w)) w.
Proof.
  intros Hstep Hlen. apply (wp_loop K (λ i cursor w', ∃ new,
    trace w' = new ++ trace w ∧ (cursor ≤ size)%nat ∧ sent fd new = [] ∧
    length (buf (globals w')) = size ∧ length (received fd new) = cursor ∧
    take cursor (buf (globals w')) = received fd new ∧
    (i ≤ cursor + count_events interrupted new)%nat)).
  - intros i cursor w1 _ (new & Htr & Hc & Hs & Hsize & Hr & Htake & Hi).
    eapply wp_mono; [by apply Hstep|]. intros [x|h] w2; simpl; [|done].
    intros (new2 & Htr2 & Hs2 & Hsize2 & Hx). destruct x as [cursor'|r].
    + destruct Hx as (-> & Hc' & Htake' & Hprog). exists (new2 ++ new).
      rewrite Htr2, Htr, app_assoc, sent_app, Hs, Hs2, received_app, length_app,
        count_events_app, Hr, Htake', Htake. split_and!; try done.
      destruct Hprog as [Hne|]; [|lia].
      destruct (received fd new2); [done|]. simpl. lia.
    + destruct Hx as (Hnil & Hx). exists (new2 ++ new).
      rewrite Htr2, Htr, app_assoc, sent_app, Hs, Hs2, received_app, Hnil, !app_nil_r.
      split_and!; try done. destruct Hx as [(-> & -> & ->)|[-> Hlt]].
      * left. split; [done|]. rewrite <- Htake, take_ge; [done|lia].
      * right. split; [done|]. lia.
  - intros cursor w1 (new & Htr & Hc & Hs & Hsize & Hr & Htake & Hi). exists new.
    unfold starved. split_and!; try done. lia.
  - exists []. cbn. split_and!; try done; lia.
Qed.

End loops.
