(* ===== verification/BackendServer.v ===== *)
(** * Backend.c: the server socket and the client connection

    Signal handlers, the Unix socket, peer verification, the transfer loops
    [read_all] and [write_all], and [handle_client]. *)

From S2P Require Import Prelude.
From S2P Require Import CLib.
From S2P Require Import SecureMemory.
From S2P Require Import AuthProtocol.
From S2P Require Import AuthSys.
From S2P Require Import BackendCredential.
From S2P Require Import BackendRequest.
From S2P Require Import BackendPrivileges.
From S2P Require Import Transfer.
Local Open Scope Z_scope.

Definition install_signal_handlers : Backend Z :=
  let* r := (let* r := call (Sigaction SIGINT Handle) in
             match r with
             | Err e => ret (Some e)
             | Ok _ =>
                 let* r := call (Sigaction SIGTERM Handle) in
                 match r with Err e => ret (Some e) | Ok _ => ret None end
             end) in
  match r with
  | Some e =>
      log "[backend] unable to install termination handlers: %s\n" [AErrno e] ;;;
      ret (-1)
  | None =>
      let* r := call (Sigaction SIGPIPE Ignore) in
      match r with
      | Err e => log "[backend] unable to ignore SIGPIPE: %s\n" [AErrno e] ;;; ret (-1)
      | Ok _ => ret 0
      end
  end.

(** A descriptor variable holding [-1] is [None]. *)
Definition close_logged (fd : option nat) (label : string) : Backend unit :=
  match fd with
  | None => ret tt
  | Some fd =>
      let* r := call (Close fd) in
      match r with
      | Err e => log "[backend] error closing %s: %s\n" [AStr (txt label); AErrno e]
      | Ok _ => ret tt
      end
  end.

Definition unlink_socket_path : Backend unit :=
  let* r := call (Unlink (txt AUTH_SOCKET_PATH)) in
  match r with
  | Err e =>
      if bool_decide (e ≠ ENOENT) then
        log "[backend] unable to remove %s: %s\n" [AStr (txt AUTH_SOCKET_PATH); AErrno e]
      else ret tt
  | Ok _ => ret tt
  end.

Definition remove_stale_socket_path : Backend Z :=
  let path := txt AUTH_SOCKET_PATH in
  let* r := call (Lstat path) in
  match r with
  | Err e =>
      if bool_decide (e = ENOENT) then ret 0 else
      log "[backend] unable to inspect %s: %s\n" [AStr path; AErrno e] ;;; ret (-1)
  | Ok socket_status =>
      if negb (st_is_sock socket_status) then
        log "[backend] refusing to remove non-socket path %s\n" [AStr path] ;;; ret (-1)
      else
      let* euid := call Geteuid in
      if bool_decide (st_uid socket_status ≠ euid) then
        log "[backend] refusing to remove socket owned by UID %lu\n"
          [AInt (st_uid socket_status)] ;;;
        ret (-1)
      else
      let* r := call (Unlink path) in
      match r with
      | Err e =>
          log "[backend] unable to remove stale socket %s: %s\n" [AStr path; AErrno e] ;;;
          ret (-1)
      | Ok _ => log "[backend] removed stale socket %s\n" [AStr path] ;;; ret 0
      end
  end.

Definition create_server_socket : Backend (option nat) :=
  let path := txt AUTH_SOCKET_PATH in
  let* r := call Socket in
  match r with
  | Err e => log "[backend] socket() failed: %s\n" [AErrno e] ;;; ret None
  | Ok server_fd =>
      let failed := (close_logged (Some server_fd) "server socket" ;;; ret None) in
      if bool_decide (SUN_PATH_MAX ≤ length path)%nat then
        log "[backend] socket path too long: %s\n" [AStr path] ;;; failed
      else
      let* stale := remove_stale_socket_path in
      if bool_decide (stale ≠ 0) then failed else
      let* r := call (Bind server_fd path) in
      match r with
      | Err e => log "[backend] bind(%s) failed: %s\n" [AStr path; AErrno e] ;;; failed
      | Ok _ =>
          let unlinked := (close_logged (Some server_fd) "server socket" ;;;
                           unlink_socket_path ;;; ret None) in
          let* r := call (Chmod path 384) in
          match r with
          | Err e =>
              log "[backend] chmod(%s) failed: %s\n" [AStr path; AErrno e] ;;; unlinked
          | Ok _ =>
              let* r := call (Listen server_fd BACKEND_LISTEN_BACKLOG) in
              match r with
              | Err e => log "[backend] listen() failed: %s\n" [AErrno e] ;;; unlinked
              | Ok _ =>
                  log "[backend] listening on %s\n" [AStr path] ;;;
                  ret (Some server_fd)
              end
          end
      end
  end.

(** One iteration of the [for (;;)] loop. *)
Definition accept_step (server_fd : nat) (_ : unit) : Backend (unit + option nat) :=
  let* stop := read_stop_requested in
  if stop : bool then
    log "[backend] shutdown requested before accept\n" [] ;;; ret (inr None)
  else
  let* r := call (Accept server_fd) in
  match r with
  | Ok client_fd =>
      log "[backend] accepted one client connection\n" [] ;;; ret (inr (Some client_fd))
  | Err e =>
      if is_eintr e then
        let* stop := read_stop_requested in
        if stop : bool then
          log "[backend] accept interrupted by shutdown request\n" [] ;;; ret (inr None)
        else ret (inl tt)
      else log "[backend] accept() failed: %s\n" [AErrno e] ;;; ret (inr None)
  end.

Definition accept_one_client (fuel : nat) (server_fd : nat) : Backend (option nat) :=
  loop fuel (accept_step server_fd) tt.

(** [sizeof(struct ucred)] and [(uid_t)-1]. *)
Definition sizeof_ucred : nat := 12.
Definition NO_ID : Z := 2 ^ 32 - 1.

Definition verify_peer_credentials (client_fd : nat) (expected_uid expected_gid : Z)
    : Backend Z :=
  let* r := call (Getsockopt_peercred client_fd) in
  match r with
  | Err e =>
      log "[backend] getsockopt(SO_PEERCRED) failed: %s\n" [AErrno e] ;;; ret (-1)
  | Ok (peer, peer_length) =>
      log "[backend] peer PID=%ld UID=%lu GID=%lu\n"
        [AInt (uc_pid peer); AInt (uc_uid peer); AInt (uc_gid peer)] ;;;
      if bool_decide (peer_length ≠ sizeof_ucred ∨ uc_pid peer <= 0
                      ∨ uc_uid peer = NO_ID ∨ uc_gid peer = NO_ID) then
        log "[backend] rejected invalid peer credentials\n" [] ;;; ret (-1)
      else if bool_decide (uc_uid peer ≠ expected_uid ∨ uc_gid peer ≠ expected_gid) then
        log "[backend] rejected unexpected peer; expected UID=%lu GID=%lu\n"
          [AInt expected_uid; AInt expected_gid] ;;;
        ret (-1)
      else
        log "[backend] peer credentials verified\n" [] ;;; ret 0
  end.

(** One iteration of [while (length > 0u)]; the state is the part of the
    buffer from [cursor] on. *)
Definition write_step (fd : nat) (rest : list byte) : Backend (list byte + Z) :=
  if bool_decide (length rest = 0)%nat then ret (inr 0) else
  let* stop := read_stop_requested in
  if stop : bool then
    log "[backend] shutdown requested before write completed\n" [] ;;; ret (inr (-1))
  else
  let* r := call (Write fd rest) in
  match r with
  | Err e =>
      if is_eintr e then
        let* stop := read_stop_requested in
        if stop : bool then
          log "[backend] write interrupted by shutdown request\n" [] ;;; ret (inr (-1))
        else ret (inl rest)
      else log "[backend] write() failed: %s\n" [AErrno e] ;;; ret (inr (-1))
  | Ok written =>
      if bool_decide (written = 0)%nat then
        log "[backend] write() returned zero bytes\n" [] ;;; ret (inr (-1))
      else ret (inl (drop written rest))
  end.

Definition write_all (fuel : nat) (fd : nat) (buffer : list byte) : Backend Z :=
  loop fuel (write_step fd) buffer.

(** The state is the offset of [cursor] in the [request] object, the only
    buffer [read_all] is called with. *)
Definition read_step (fd : nat) (size cursor : nat) : Backend (nat + Z) :=
  let len := (size - cursor)%nat in
  if bool_decide (len = 0)%nat then ret (inr 0) else
  let* stop := read_stop_requested in
  if stop : bool then
    log "[backend] shutdown requested before request completed\n" [] ;;; ret (inr (-1))
  else
  let* r := call (Read fd len) in
  match r with
  | Err e =>
      if is_eintr e then
        let* stop := read_stop_requested in
        if stop : bool then
          log "[backend] read interrupted by shutdown request\n" [] ;;; ret (inr (-1))
        else ret (inl cursor)
      else log "[backend] read() failed: %s\n" [AErrno e] ;;; ret (inr (-1))
  | Ok data =>
      modify (λ g, set_request (store cursor data (request g)) g) ;;;
      if bool_decide (length data = 0)%nat then
        log "[backend] client closed before sending a complete request\n" [] ;;;
        ret (inr (-1))
      else ret (inl (cursor + length data)%nat)
  end.

Definition read_all (fuel : nat) (fd size : nat) : Backend Z :=
  loop fuel (read_step fd size) 0%nat.

Definition send_peer_rejection (fuel : nat) (client_fd : nat) : Backend Z :=
  write_all fuel client_fd (encode_response
    (set_response AUTH_RESULT_REJECTED AUTH_ERROR_BAD_REQUEST (txt "peer credentials rejected"))).

Definition handle_client (fuel : nat) (client_fd : nat) : Backend Z :=
  modify (set_request (zeros sizeof_AuthRequest)) ;;;
  let* result :=
    (let* r := read_all fuel client_fd sizeof_AuthRequest in
     if bool_decide (r ≠ 0) then ret (-1) else
     let* raw := get request in
     let* c := get credential in
     let* response := process_request (decode_request raw) c in
     let* r := write_all fuel client_fd (encode_response response) in
     if bool_decide (r ≠ 0) then ret (-1) else
     log "[backend] sent response: result=%u error=%u\n"
       [AInt (rs_result response); AInt (rs_error_code response)] ;;;
     ret 0) in
  modify (λ g, set_request (clear_object (request g)) g) ;;;
  ret result.

(** ** Specification *)

(** The objects that hold sensitive data, the signal flag left aside. *)
Definition secrets (g : backend) : DemoCredential * list byte * list byte * list byte :=
  (credential g, credential_path g, line g, request g).

(** What a completed exchange sends back for the bytes [raw]. *)
Definition answer (raw : list byte) (c : DemoCredential) : list byte :=
  encode_response (respond (decide_request (decode_request raw) c)).

(** What the exchange with one client amounts to. *)
Definition client_post (fuel fd : nat) (c : DemoCredential) (tr : trace_t)
    (o : outcome Z) (w' : world sys backend) : Prop :=
  ∃ new, trace w' = new ++ tr ∧
    match o with
    | Ret r =>
        request (globals w') = zeros sizeof_AuthRequest ∧
        ((length (received fd new) < sizeof_AuthRequest)%nat ∧ sent fd new = [] ∧ r = -1
         ∨ length (received fd new) = sizeof_AuthRequest ∧
           ∃ n, sent fd new = take n (answer (received fd new) c) ∧
             (r = 0 ∧ n = sizeof_AuthResponse ∨ r = -1 ∧ (n < sizeof_AuthResponse)%nat))
    | Halt h => h = OutOfFuel ∧ starved fuel sizeof_AuthRequest new ∧
        (sent fd new = [] ∨ length (received fd new) = sizeof_AuthRequest ∧
           ∃ n, sent fd new = take n (answer (received fd new) c))
    end.

(** What is ever sent to the peers whose requests are [received]: part of the
    rejection of a peer, or part of the answer to a whole request. *)
Definition rejection : list byte :=
  encode_response (set_response AUTH_RESULT_REJECTED AUTH_ERROR_BAD_REQUEST
    (txt "peer credentials rejected")).
Definition replies (c : DemoCredential) (new : trace_t) : Prop :=
  ∀ fd, (∃ n, sent fd new = take n rejection) ∨
        length (received fd new) = sizeof_AuthRequest ∧
        ∃ n, sent fd new = take n (answer (received fd new) c).

(** Everything the backend keeps about its credential. *)
Definition settings (g : backend) : DemoCredential * list byte * list byte :=
  (credential g, credential_path g, line g).

(** Unlinking, and the evidence that the path is a socket of one's own. *)
Definition is_unlink (e : event sys) : bool :=
  match e with Ev (Unlink _) _ => true | _ => false end.
Definition own_socket (before : trace_t) : Prop :=
  ∃ uid rest, before = Ev Geteuid uid ::
    Ev (Lstat (txt AUTH_SOCKET_PATH)) (Ok (Stat true uid)) :: rest.

(** ** Lemmas *)

#[export] Instance log_keeps fmt args : Keeps secrets (log fmt args).
Proof. unfold log, fprintf. solve_keeps. Qed.

Lemma handle_signals g signals :
  foldl (λ g s, request_stop s g) g signals =
  set_stop (stop_requested (foldl (λ g s, request_stop s g) g signals)) g.
Proof.
  induction signals as [|s signals IH] using rev_ind; [by destruct g|].
  rewrite !foldl_app. simpl. rewrite IH. done.
Qed.

#[export] Instance read_stop_keeps : Keeps secrets read_stop_requested.
Proof. unfold read_stop_requested. solve_keeps. by rewrite handle_signals. Qed.

Lemma wp_read_stop K (Q : outcome bool → world sys backend → Prop) w :
  (∀ b signals, Q (Ret b)
     (World (set_stop b (globals w)) (Ev Pending_signals signals :: trace w))) →
  wp K read_stop_requested Q w.
Proof.
  intros HQ. unfold read_stop_requested. wp_steps. rewrite handle_signals. apply HQ.
Qed.

Lemma write_step_eq fd rest :
  rest ≠ [] → write_step fd rest =
  (let* stop := read_stop_requested in
   if stop : bool then
     log "[backend] shutdown requested before write completed\n" [] ;;; ret (inr (-1))
   else
   let* r := call (Write fd rest) in
   match r with
   | Err e =>
       if is_eintr e then
         let* stop := read_stop_requested in
         if stop : bool then
           log "[backend] write interrupted by shutdown request\n" [] ;;; ret (inr (-1))
         else ret (inl rest)
       else log "[backend] write() failed: %s\n" [AErrno e] ;;; ret (inr (-1))
   | Ok written =>
       if bool_decide (written = 0)%nat then
         log "[backend] write() returned zero bytes\n" [] ;;; ret (inr (-1))
       else ret (inl (drop written rest))
   end).
Proof. intros H. unfold write_step. rewrite bool_decide_eq_false_2; [done|]. by destruct rest. Qed.

Section transfers.
Context (K : kernel sys) {HK : IOLaws K}.

(** One iteration sends a prefix of what is left, or was interrupted, or ends
    the transfer. *)
Lemma write_step_spec fd rest w :
  wp K (write_step fd rest) (write_step_post fd rest (trace w)) w.
Proof.
  destruct (decide (rest = [])) as [->|Hne].
  { unfold write_step. rewrite bool_decide_eq_true_2 by done. wp_steps.
    exists [], 0%nat. transferred. }
  rewrite write_step_eq by done. wp_steps. apply wp_read_stop. intros [] sigs; wp_steps.
  { eexists [_; _], 0%nat. transferred. }
  destruct (K _ _ (Write _ _)) as [n|e] eqn:HW; wp_steps.
  - wp_decide Hn; wp_steps.
    + subst n. eexists [_; _; _], 0%nat. transferred.
    + eexists [_; _], n. apply write_le in HW. transfer_events.
      split_and!; try done. left. lia.
  - destruct (is_eintr e) eqn:He; wp_steps.
    + apply wp_read_stop. intros [] sigs'; wp_steps.
      * eexists [_; _; _; _], 0%nat. transferred.
      * eexists [_; _; _], 0%nat. transfer_events. rewrite !count_events_cons.
        cbn. rewrite He, drop_0. split_and!; try done. right. split; [done|lia].
    + eexists [_; _; _], 0%nat. transferred.
Qed.

Lemma read_step_spec fd size cursor w :
  length (request (globals w)) = size → (cursor ≤ size)%nat →
  wp K (read_step fd size cursor) (read_step_post request fd size cursor w) w.
Proof.
  intros Hlen Hcur. unfold read_step. wp_decide Hz; wp_steps.
  { eexists []. transferred. }
  apply wp_read_stop. intros [] sigs; wp_steps.
  { eexists [_; _]. transferred. }
  destruct (K _ _ (Read _ _)) as [data|e] eqn:HR; wp_steps.
  - apply read_le in HR. wp_decide Hn; wp_steps.
    + eexists [_; _; _]. transfer_events. destruct data; [|done].
      rewrite length_store by (simpl; lia).
      split_and!; try done. right. split; [done|lia].
    + eexists [_; _]. transfer_events. rewrite length_store by lia.
      rewrite store_take by lia. split_and!; try done; [lia|].
      left. by destruct data.
  - destruct (is_eintr e) eqn:He; wp_steps.
    + apply wp_read_stop. intros [] sigs'; wp_steps.
      * eexists [_; _; _; _]. transferred.
      * eexists [_; _; _]. transfer_events. rewrite !count_events_cons.
        cbn. rewrite He, app_nil_r. split_and!; try done; lia.
    + eexists [_; _; _]. transferred.
Qed.

Lemma write_all_spec fuel fd buffer w :
  wp K (write_all fuel fd buffer) (write_post fuel fd buffer (trace w)) w.
Proof. apply write_loop. apply write_step_spec. Qed.

Lemma read_all_spec fuel fd size w :
  length (request (globals w)) = size →
  wp K (read_all fuel fd size) (read_post request fuel fd size (trace w)) w.
Proof. apply read_loop. apply read_step_spec. Qed.

End transfers.

(** ** One client *)

Lemma secrets_settings {A} (m : Backend A) : Keeps secrets m → Keeps settings m.
Proof.
  intros H K w. specialize (H K w). unfold secrets in H. unfold settings. congruence.
Qed.

#[export] Instance log_keeps_settings fmt args : Keeps settings (log fmt args).
Proof. apply secrets_settings, _. Qed.

#[export] Instance write_all_keeps fuel fd buffer : Keeps secrets (write_all fuel fd buffer).
Proof. unfold write_all, write_step. solve_keeps. Qed.

#[export] Instance read_all_keeps fuel fd size : Keeps settings (read_all fuel fd size).
Proof. unfold read_all, read_step. solve_keeps; apply secrets_settings, _. Qed.

#[export] Instance process_request_keeps rq c : Keeps secrets (process_request rq c).
Proof. unfold process_request, validate_request_string. solve_keeps. Qed.

#[export] Instance handle_client_keeps fuel fd : Keeps settings (handle_client fuel fd).
Proof. unfold handle_client. solve_keeps; apply secrets_settings, _. Qed.

Lemma respond_ok v : response_ok (respond v).
Proof. destruct v as [[r e] m]. apply set_response_ok. Qed.

(** The end of an exchange: the whole request came, [n] bytes were sent. *)
Lemma client_done fuel fd c tr new t n r g tr' :
  tr' = t ++ new ++ tr →
  length (request g) = sizeof_AuthRequest →
  received fd new = request g → sent fd new = [] →
  received fd t = [] → sent fd t = take n (answer (request g) c) →
  (r = 0 ∧ n = sizeof_AuthResponse ∨ r = -1 ∧ (n < sizeof_AuthResponse)%nat) →
  client_post fuel fd c tr (Ret r)
    (World (set_request (clear_object (request g)) g) tr').
Proof.
  intros Htr Hlen Hr Hs Hrt Hst Hn. exists (t ++ new). simpl.
  rewrite Htr, clear_object_zeros, Hlen, app_assoc, received_app, sent_app, Hr, Hs, Hrt.
  rewrite app_nil_r. split_and!; try done. right. split; [done|]. by exists n.
Qed.

#[export] Instance send_rejection_only_on fuel fd :
  Emits (only_on fd) (send_peer_rejection fuel fd).
Proof.
  unfold send_peer_rejection, write_all, write_step, read_stop_requested, log, fprintf.
  solve_emits; apply only_on_write.
Qed.

#[export] Instance handle_client_only_on fuel fd : Emits (only_on fd) (handle_client fuel fd).
Proof.
  unfold handle_client, read_all, read_step, write_all, write_step, process_request,
    validate_request_string, read_stop_requested, log, fprintf.
  solve_emits; first [apply only_on_write|apply only_on_read].
Qed.

Section client.
Context (K : kernel sys) {HK : IOLaws K}.

Lemma handle_client_spec fuel fd w :
  wp K (handle_client fuel fd) (client_post fuel fd (credential (globals w)) (trace w)) w.
Proof.
  unfold handle_client. wp_steps. eapply wp_mono.
  { apply wp_conj; [by apply read_all_spec|apply (keeps_wp settings), _]. }
  intros o w1 [(new & Htr & Hs & Hlen & Ho) Hkeep]. simpl in Htr, Hkeep.
  destruct o as [r|h]; [|destruct Ho; exists new; auto].
  destruct Ho as [[-> Hr]|[-> Hr]]; wp_steps.
  2: { exists new. simpl. rewrite clear_object_zeros, Hlen. split; [done|]. by auto. }
  change (0 ≠ 0) with (¬ (0 = 0)). rewrite bool_decide_eq_false_2 by lia. wp_steps.
  unfold wp at 1. rewrite process_request_spec by (apply decode_request_ok, Hlen).
  simpl. wp_steps. set (line1 := Ev (Fprintf _ _ _) _).
  assert (credential (globals w1) = credential (globals w)) as Hc
    by (unfold settings in Hkeep; simpl in Hkeep; congruence).
  eapply wp_mono.
  { apply wp_conj; [by apply write_all_spec|apply (keeps_wp secrets), _]. }
  intros o w2 [(new2 & n & Htr2 & Hs2 & Hr2 & Ho) Hkeep2]. simpl in Htr2, Hkeep2.
  unfold secrets in Hkeep2.
  assert (request (globals w2) = request (globals w1)) as Hreq by congruence.
  rewrite length_encode_response in Ho by apply respond_ok. rewrite Hc in Hs2.
  assert (trace w2 = (new2 ++ line1 :: new) ++ trace w) as Htrace
    by by rewrite Htr2, Htr, <- app_assoc.
  destruct o as [r|h].
  - destruct Ho as [[-> ->]|[-> Hn]]; wp_steps.
    + rewrite bool_decide_eq_false_2 by lia. wp_steps.
      eapply (client_done _ _ _ _ new (_ :: new2 ++ [line1]) sizeof_AuthResponse);
        [by cbn [app]; rewrite Htrace, <- !app_assoc|..];
        rewrite ?received_cons, ?sent_cons, ?received_app, ?sent_app, ?Hr2, ?Hs2, ?Hr,
          ?Hs, ?Hreq; cbn [data_read data_written app]; rewrite ?app_nil_r; auto.
    + rewrite bool_decide_eq_true_2 by lia. wp_steps.
      apply (client_done _ _ _ _ new (new2 ++ [line1]) n);
        [by rewrite Htrace, <- !app_assoc|..];
        rewrite ?received_app, ?sent_app, ?Hr2, ?Hs2, ?Hr, ?Hs, ?Hreq, ?app_nil_r; auto.
  - destruct Ho as [-> Hst]. exists (new2 ++ line1 :: new).
    rewrite received_app, sent_app, received_cons, sent_cons, Hr, Hr2, Hs, Hs2.
    cbn [data_read data_written app]. rewrite !app_nil_r. split_and!; [done..| |].
    + unfold starved in *. rewrite count_events_app, count_events_cons. simpl.
      unfold sizeof_AuthRequest, sizeof_AuthResponse in *. lia.
    + right. split; [done|]. by exists n.
Qed.

(** The reply to one client, on any descriptor and however it ends. *)
Lemma handle_client_replies fuel fd w :
  wp K (handle_client fuel fd) (λ _ w', ∃ new,
    trace w' = new ++ trace w ∧ replies (credential (globals w)) new) w.
Proof.
  eapply wp_mono.
  { apply wp_conj; [apply handle_client_spec|apply (emits_wp (only_on fd)), _]. }
  intros o w' [(new & Htr & Ho) (new' & Htr' & Hon)].
  assert (new' = new) as -> by (apply (app_inv_tail (trace w)); congruence).
  exists new. split; [done|]. intros fd'. destruct (decide (fd' = fd)) as [->|Hne].
  - destruct o as [r|h].
    + destruct Ho as (_ & [(_ & Hs & _)|(Hlen & n & Hs & _)]); [left; by exists 0%nat|].
      right. split; [done|]. by exists n.
    + destruct Ho as (_ & _ & [Hs|(Hlen & Hn)]); [left; by exists 0%nat|by right].
  - left. exists 0%nat. by destruct (only_on_nothing fd fd' new Hne Hon) as [_ ->].
Qed.

Lemma send_peer_rejection_replies fuel fd c w :
  wp K (send_peer_rejection fuel fd) (λ _ w', ∃ new,
    trace w' = new ++ trace w ∧ replies c new) w.
Proof.
  eapply wp_mono.
  { apply wp_conj; [apply write_all_spec, HK|apply (emits_wp (only_on fd)), _]. }
  intros o w' [(new & n & Htr & Hs & _) (new' & Htr' & Hon)].
  assert (new' = new) as -> by (apply (app_inv_tail (trace w)); congruence).
  exists new. split; [done|]. intros fd'. left.
  destruct (decide (fd' = fd)) as [->|Hne]; [by exists n|].
  exists 0%nat. by destruct (only_on_nothing fd fd' new Hne Hon) as [_ ->].
Qed.

End client.

(** ** Properties *)

(** C27. One exchange, whatever the peer and the kernel do: the backend answers
    only after a whole request of 204 bytes, with the response to exactly
    those bytes or a proper prefix of it, reports success only for a complete
    exchange, and the request object is zeros when it returns; the fuel only
    runs out on more interruptions than it allows. *)
Theorem handle_client_exchange (K : kernel sys) fuel fd w :
  IOLaws K →
  wp K (handle_client fuel fd) (client_post fuel fd (credential (globals w)) (trace w)) w.
Proof. intros HK. apply handle_client_spec, HK. Qed.

(** The stale-socket check only ever unlinks the socket path right after
    [lstat] reported a socket there that belongs to the effective user. *)
Theorem remove_stale_socket_path_safe (K : kernel sys) w :
  guarded_by is_unlink own_socket (trace w) →
  wp K remove_stale_socket_path
    (λ _ w', guarded_by is_unlink own_socket (trace w')) w.
Proof.
  intros Hg. unfold remove_stale_socket_path. wp_steps.
  destruct (K _ _ (Lstat _)) as [[is_sock uid]|e]; wp_steps; [|wp_decide He; by wp_steps].
  cbn [st_is_sock st_uid]. destruct is_sock; wp_steps; [|done].
  wp_decide Hu; wp_steps; [done|]. apply dec_stable in Hu.
  assert (own_socket (Ev Geteuid (K _ (Ev (Lstat (txt AUTH_SOCKET_PATH)) (Ok (Stat true uid))
    :: trace w) Geteuid) :: Ev (Lstat (txt AUTH_SOCKET_PATH)) (Ok (Stat true uid)) :: trace w))
    as Hown by (rewrite <- Hu; by do 2 eexists).
  by destruct (K _ _ (Unlink _)); wp_steps.
Qed.

(** ** Witness *)

Lemma handle_client_exchange_witness :
  let K := easy_kernel (λ _, None) (encode_request (sample_request "admin" "secret")) in
  let w := World (MkBackend false (credential_of (txt "admin") (txt "secret")) [] [] []) [] in
  wp K (handle_client 300 4)
    (client_post 300 4 (credential_of (txt "admin") (txt "secret")) (trace w)) w.
Proof. apply handle_client_exchange. apply easy_kernel_io. Defined.

Lemma remove_stale_socket_path_safe_witness :
  wp (easy_kernel (λ _, None) []) remove_stale_socket_path
    (λ _ w', guarded_by is_unlink own_socket (trace w')) request_world.
Proof. apply remove_stale_socket_path_safe. exact I. Defined.
