(* ===== verification/BackendMain.v ===== *)
(** * Backend.c: [main]

    The whole program, and what holds of every run of it: privileges are gone
    before the first socket call, requests are read only from an attested
    peer, and descriptors, socket path and secrets are gone at the end. *)

From S2P Require Import Prelude.
From S2P Require Import CLib.
From S2P Require Import SecureMemory.
From S2P Require Import AuthProtocol.
From S2P Require Import AuthSys.
From S2P Require Import BackendCredential.
From S2P Require Import BackendRequest.
From S2P Require Import BackendPrivileges.
From S2P Require Import Transfer.
From S2P Require Import BackendServer.
Local Open Scope Z_scope.

(** The code after the [cleanup] label of [main]. *)
Definition main_cleanup (client_fd server_fd : option nat) (exit_code : Z) : Backend Z :=
  close_logged client_fd "client socket" ;;;
  close_logged server_fd "server socket" ;;;
  (match server_fd with Some _ => unlink_socket_path | None => ret tt end) ;;;
  modify (λ g, set_credential (secure_clear_credential (credential g)) g) ;;;
  modify (λ g, set_credential_path (clear_object (credential_path g)) g) ;;;
  ret exit_code.

(** The code from [create_server_socket] on. *)
Definition main_serve (fuel : nat) (invoking_uid invoking_gid : Z) : Backend Z :=
  let* server_fd := create_server_socket in
  match server_fd with
  | None => main_cleanup None None EXIT_FAILURE
  | Some server =>
      let* client_fd := accept_one_client fuel server in
      match client_fd with
      | None => main_cleanup None server_fd EXIT_FAILURE
      | Some client =>
          let* verified := verify_peer_credentials client invoking_uid invoking_gid in
          if bool_decide (verified ≠ 0) then
            let* _ := send_peer_rejection fuel client in
            main_cleanup client_fd server_fd EXIT_FAILURE
          else
          let* handled := handle_client fuel client in
          main_cleanup client_fd server_fd
            (if bool_decide (handled = 0) then EXIT_SUCCESS else EXIT_FAILURE)
      end
  end.

Definition main (fuel : nat) : Backend Z :=
  let* invoking_uid := call Getuid in
  let* invoking_gid := call Getgid in
  modify (set_credential_path (zeros PATH_MAX)) ;;;
  modify (set_credential empty_credential) ;;;
  let* unbuffered := call (Setvbuf_line Stdout) in
  if bool_decide (unbuffered ≠ 0) then
    fprintf Stderr "[backend] unable to configure line-buffered logging\n" [] ;;;
    ret EXIT_FAILURE
  else
  let cleanup := main_cleanup None None EXIT_FAILURE in
  log "[backend] startup\n" [] ;;;
  let* r := install_signal_handlers in
  if bool_decide (r ≠ 0) then cleanup else
  log_uids "startup" ;;;
  let* _ := log_proc_status_uid_lines fuel "startup" in
  let* r := resolve_demo_credential_path in
  if bool_decide (r ≠ 0) then cleanup else
  let* path := get credential_path in
  let* r := load_demo_credential fuel path in
  if bool_decide (r ≠ 0) then cleanup else
  let* r := drop_privileges_permanently fuel invoking_uid invoking_gid in
  if bool_decide (r ≠ 0) then cleanup else
  main_serve fuel invoking_uid invoking_gid.

(** ** Specification *)

(** Calls on sockets and on the socket path. *)
Definition network (e : event sys) : bool :=
  match e with
  | Ev Socket _ | Ev (Bind _ _) _ | Ev (Listen _ _) _ | Ev (Accept _) _
  | Ev (Connect _ _) _ | Ev (Getsockopt_peercred _) _ | Ev (Read _ _) _
  | Ev (Write _ _) _ | Ev (Lstat _) _ | Ev (Unlink _) _ | Ev (Chmod _ _) _ => true
  | _ => false
  end.

Definition is_read (e : event sys) : bool :=
  match e with Ev (Read _ _) _ => true | _ => false end.

Definition reads_from (fd : nat) (e : event sys) : bool :=
  match e with Ev (Read f _) _ => bool_decide (f = fd) | _ => false end.

(** The descriptor [fd] was not closed and its number not given out again. *)
Definition holds (fd : nat) (e : event sys) : Prop :=
  match e with
  | Ev (Close fd') _ => fd' ≠ fd
  | Ev Socket r => r ≠ Ok fd
  | Ev (Accept _) r => r ≠ Ok fd
  | _ => True
  end.

(** [fd] is the connection that was accepted on the socket [server]. *)
Definition accepted_on (server fd : nat) (tr : trace_t) : Prop :=
  ∃ since before, Forall (holds fd) since ∧
    tr = since ++ Ev (Accept server) (Ok fd) :: before.

(** [fd] is an accepted connection, and for that connection the kernel
    attested that the peer is a process with these IDs. *)
Definition connection_attested (uid gid : Z) (fd : nat) (tr : trace_t) : Prop :=
  ∃ since pid server before, 0 < pid ∧ Forall (holds fd) since ∧
    accepted_on server fd before ∧
    tr = since ++ Ev (Getsockopt_peercred fd) (Ok (Ucred pid uid gid, sizeof_ucred)) :: before.

(** The IDs [main] reads first. *)
Definition invoking_uid (K : kernel sys) : Z := K _ [] Getuid.
Definition invoking_gid (K : kernel sys) : Z := K _ [Ev Getuid (invoking_uid K)] Getgid.

(** A backend at [dir/build/exe] with a text file [dir/credentials.demo]. *)
Record deployed (K : kernel sys) (fuel : nat) (dir build exe : list byte)
    (lines : list (list byte)) (last : list byte) : Prop := Deployed {
  dep_link : ∀ tr, K _ tr (Readlink (txt "/proc/self/exe") (PATH_MAX - 1)) =
                   Ok (dir ++ x2f :: build ++ x2f :: exe);
  dep_path : NUL ∉ dir ++ x2f :: build ++ x2f :: exe ∧ x2f ∉ build ∧ x2f ∉ exe;
  dep_size : (length (dir ++ x2f :: build ++ x2f :: exe) < PATH_MAX - 1)%nat ∧
             (length dir + 18 ≤ PATH_MAX)%nat;
  dep_lines : Forall plain_line (lines ++ [last]);
  dep_open : ∀ tr, K _ tr (Fopen (dir ++ x2f :: txt CREDENTIALS_FILE_NAME)) =
                   Ok (text_of lines last, None);
  dep_close : ∀ tr, K _ tr Fclose = Ok tt;
  dep_fuel : (length lines + 1 < fuel)%nat
}.

(** The sizes of the arrays of [main]. *)
Definition sized (g : backend) : Prop :=
  length (dc_username (credential g)) = sizeof_username ∧
  length (dc_password (credential g)) = sizeof_password ∧
  length (credential_path g) = PATH_MAX.

(** Removing [path], which the process had bound, was tried, and the failure
    logged. *)
Definition unlink_failed (path : list byte) (tr : trace_t) : Prop :=
  ∃ later e before, e ≠ ENOENT ∧ path ∈ bound_paths before ∧
    tr = later ++ Ev (Fprintf Stdout "[backend] unable to remove %s: %s\n"
                                     [AStr path; AErrno e]) tt
               :: Ev (Unlink path) (Err e) :: before.

(** Nothing of the process's making is left behind: no descriptor is open, and
    a path it bound is removed, unless the kernel refused to. *)
Definition released (tr : trace_t) : Prop :=
  open_fds tr = [] ∧ ∀ path, path ∈ bound_paths tr → unlink_failed path tr.

(** The server socket is there, bound to no other path. *)
Definition only_socket (tr : trace_t) : Prop :=
  ∀ path, path ∈ bound_paths tr → path = txt AUTH_SOCKET_PATH.

(** The credential and its path are overwritten with zeros. *)
Definition wiped (g : backend) : Prop :=
  credential g = empty_credential ∧ credential_path g = zeros PATH_MAX.

(** Calls that leave sockets, descriptors and the socket path alone. *)
Definition local_call (e : event sys) : Prop :=
  network e = false ∧ match e with Ev (Close _) _ => False | _ => True end.

(** The state of [main] before the server part: only local calls so far. *)
Definition preparing (g : backend) (w : world sys backend) : Prop :=
  Forall local_call (trace w) ∧ sized (globals w) ∧ request (globals w) = request g ∧
  (line (globals w) = zeros CREDENTIAL_LINE_MAX ∨ line (globals w) = line g).

(** What a run of the server part leaves; [exit] is its exit code. *)
Definition serve_post (w : world sys backend)
    (o : outcome Z) (w' : world sys backend) : Prop :=
  ∃ new, trace w' = new ++ trace w ∧
    match o with
    | Ret exit =>
        released (trace w') ∧ wiped (globals w') ∧
        line (globals w') = line (globals w) ∧
        (request (globals w') = zeros sizeof_AuthRequest
         ∨ request (globals w') = request (globals w)) ∧
        (exit = EXIT_SUCCESS ∧ (∃ fd,
           length (received fd new) = sizeof_AuthRequest ∧
           sent fd new = answer (received fd new) (credential (globals w)))
         ∨ exit = EXIT_FAILURE)
    | Halt h => h = OutOfFuel
    end.

(** ** Lemmas on events *)

Lemma only_socket_neutral new tr tr' :
  tr' = new ++ tr → Forall neutral new → only_socket tr → only_socket tr'.
Proof.
  intros -> Hn H path. destruct (open_fds_neutral new tr Hn) as [_ ->]. apply H.
Qed.

Lemma unlink_failed_app path new tr :
  unlink_failed path tr → unlink_failed path (new ++ tr).
Proof.
  intros (later & e & before & ? & ? & ->). exists (new ++ later), e, before.
  split_and!; [done..|]. by rewrite (assoc_L app).
Qed.

Lemma released_neutral new tr : Forall neutral new → released tr → released (new ++ tr).
Proof.
  intros Hn [H1 H2]. unfold released. destruct (open_fds_neutral new tr Hn) as [-> ->].
  split; [done|]. intros path Hp. by apply unlink_failed_app, H2.
Qed.

Lemma local_neutral e : local_call e → neutral e.
Proof. by destruct e as [T [] r]; intros [? ?]. Qed.

Lemma local_dataless e : local_call e → dataless e.
Proof. by destruct e as [T [] r]; intros [? ?]. Qed.

Lemma quiet_local e : quiet e → local_call e.
Proof. by destruct e as [T [] r]. Qed.

Lemma dataless_no_read e : dataless e → is_read e = false.
Proof. by destruct e as [T [] r]. Qed.

Lemma local_network e : local_call e → network e = false.
Proof. by intros []. Qed.

#[export] Instance log_local fmt args : Emits local_call (log fmt args).
Proof. eapply emits_weaken; [apply _|apply quiet_local]. Qed.

#[export] Instance log_uids_local stage : Emits local_call (log_uids stage).
Proof. eapply emits_weaken; [apply _|apply quiet_local]. Qed.

#[export] Instance log_proc_status_local fuel stage :
  Emits local_call (log_proc_status_uid_lines fuel stage).
Proof. eapply emits_weaken; [apply _|apply quiet_local]. Qed.

#[export] Instance install_local : Emits local_call install_signal_handlers.
Proof. unfold install_signal_handlers. solve_emits. Qed.

#[export] Instance resolve_local : Emits local_call resolve_demo_credential_path.
Proof. unfold resolve_demo_credential_path. solve_emits. Qed.

#[export] Instance load_local fuel path : Emits local_call (load_demo_credential fuel path).
Proof.
  unfold load_demo_credential, load_cleanup, load_step, load_account, load_stop, clear_line.
  solve_emits.
Qed.

#[export] Instance drop_local fuel uid gid :
  Emits local_call (drop_privileges_permanently fuel uid gid).
Proof.
  unfold drop_privileges_permanently, drop_groups, drop_ids, check_dropped. solve_emits.
Qed.

#[export] Instance create_server_dataless : Emits dataless create_server_socket.
Proof.
  unfold create_server_socket, remove_stale_socket_path, close_logged,
    unlink_socket_path, log, fprintf. solve_emits.
Qed.

#[export] Instance accept_dataless fuel fd : Emits dataless (accept_one_client fuel fd).
Proof. unfold accept_one_client, accept_step, read_stop_requested, log, fprintf.
  solve_emits. Qed.

#[export] Instance verify_dataless fd uid gid :
  Emits dataless (verify_peer_credentials fd uid gid).
Proof. unfold verify_peer_credentials, log, fprintf. solve_emits. Qed.

#[export] Instance cleanup_dataless c s r : Emits dataless (main_cleanup c s r).
Proof.
  unfold main_cleanup, close_logged, unlink_socket_path, log, fprintf. solve_emits.
Qed.

#[export] Instance verify_neutral fd uid gid :
  Emits neutral (verify_peer_credentials fd uid gid).
Proof. unfold verify_peer_credentials, log, fprintf. solve_emits. Qed.

#[export] Instance send_rejection_neutral fuel fd : Emits neutral (send_peer_rejection fuel fd).
Proof. unfold send_peer_rejection, write_all, write_step, read_stop_requested,
    log, fprintf. solve_emits. Qed.

#[export] Instance handle_client_neutral fuel fd : Emits neutral (handle_client fuel fd).
Proof.
  unfold handle_client, read_all, read_step, write_all, write_step, process_request,
    validate_request_string, read_stop_requested, log, fprintf. solve_emits.
Qed.

#[export] Instance send_rejection_no_read fuel fd :
  Emits (λ e, is_read e = false) (send_peer_rejection fuel fd).
Proof. unfold send_peer_rejection, write_all, write_step, read_stop_requested,
    log, fprintf. solve_emits. Qed.

#[export] Instance handle_client_any fuel fd : Emits (λ _, True) (handle_client fuel fd).
Proof. eapply emits_weaken; [apply handle_client_neutral|done]. Qed.

#[export] Instance main_serve_any fuel uid gid : Emits (λ _, True) (main_serve fuel uid gid).
Proof.
  unfold main_serve. solve_emits; eapply emits_weaken; try apply _; done.
Qed.

(** ** What the socket functions leave open *)

#[export] Instance create_server_keeps : Keeps secrets create_server_socket.
Proof.
  unfold create_server_socket, remove_stale_socket_path, close_logged, unlink_socket_path.
  solve_keeps.
Qed.

#[export] Instance accept_keeps fuel fd : Keeps secrets (accept_one_client fuel fd).
Proof. unfold accept_one_client, accept_step. solve_keeps. Qed.

#[export] Instance verify_keeps fd uid gid : Keeps secrets (verify_peer_credentials fd uid gid).
Proof. unfold verify_peer_credentials. solve_keeps. Qed.

Section serve.
Context (K : kernel sys).

(** [close] on the only open descriptor, [unlink] on the socket path. *)
Lemma filter_not (fd : nat) (l : list nat) : l ⊆ [fd] → filter (λ f, f ≠ fd) l = [].
Proof.
  induction l as [|f l IH]; intros Hl; [done|]. rewrite filter_cons_False by set_solver.
  apply IH. set_solver.
Qed.

Lemma wp_close_logged fd label (Q : outcome unit → world sys backend → Prop) w :
  (∀ w', globals w' = globals w →
     open_fds (trace w') =
       match fd with Some f => filter (λ f', f' ≠ f) (open_fds (trace w))
                   | None => open_fds (trace w) end →
     (∃ new, trace w' = new ++ trace w) →
     bound_paths (trace w') = bound_paths (trace w) → Q (Ret tt) w') →
  wp K (close_logged fd label) Q w.
Proof.
  intros HQ. unfold close_logged. destruct fd as [fd|]; wp_steps; [|by apply HQ; [..|by exists []|]].
  destruct (K _ _ (Close _)); wp_steps; apply HQ; try done; [by eexists [_]|by eexists [_; _]].
Qed.

(** After [unlink] on the socket path nothing is bound any more, or the kernel
    refused. *)
Lemma wp_unlink (Q : outcome unit → world sys backend → Prop) w :
  only_socket (trace w) →
  (∀ w', globals w' = globals w → open_fds (trace w') = open_fds (trace w) →
     (∀ path, path ∈ bound_paths (trace w') → unlink_failed path (trace w')) →
     Q (Ret tt) w') →
  wp K unlink_socket_path Q w.
Proof.
  intros Honly HQ. unfold unlink_socket_path. wp_steps.
  destruct (K _ _ (Unlink _)) as [[]|e]; wp_steps.
  { apply HQ; [done..|]. intros path [Hne Hin%Honly]%list_elem_of_filter. done. }
  wp_decide H; wp_steps; apply HQ; try done.
  - cbn [trace]; rewrite ?bound_paths_cons; cbn [bound_step]. rewrite bool_decide_eq_false_2 by done.
    intros path Hin. pose proof (Honly path Hin) as ->. by exists [], e, (trace w).
  - cbn [trace]; rewrite ?bound_paths_cons; cbn [bound_step]. rewrite bool_decide_eq_true_2 by (by apply dec_stable).
    intros path [Hne Hin%Honly]%list_elem_of_filter. done.
Qed.

(** Closing the only descriptor. *)
Lemma close_server_spec fd label b w :
  open_fds (trace w) = [fd] → bound_paths (trace w) = b →
  wp K (close_logged (Some fd) label)
    (λ o w', o = Ret tt ∧ open_fds (trace w') = [] ∧ bound_paths (trace w') = b) w.
Proof.
  intros Ho <-. apply wp_close_logged. intros w' _ Ho' _ Hb. split_and!; [done| |done].
  rewrite Ho', Ho. by apply filter_not.
Qed.

Lemma remove_stale_spec w :
  wp K remove_stale_socket_path (λ o w', (∃ r, o = Ret r) ∧
    open_fds (trace w') = open_fds (trace w) ∧
    (bound_paths (trace w) = [] → bound_paths (trace w') = [])) w.
Proof.
  unfold remove_stale_socket_path. wp_steps.
  destruct (K _ _ (Lstat _)) as [st|e]; wp_steps; [|wp_decide He; wp_steps; by eauto].
  destruct (st_is_sock st); wp_steps; [|by eauto].
  wp_decide Hu; wp_steps; [by eauto|].
  destruct (K _ _ (Unlink _)); wp_steps; split_and!; try by eauto.
  - cbn [trace]; rewrite ?bound_paths_cons; cbn [bound_step]. by intros ->.
  - cbn [trace]; rewrite ?bound_paths_cons; cbn [bound_step]. intros ->. by case_bool_decide.
Qed.

Ltac server_closed :=
  eapply wp_mono; [by apply close_server_spec|]; intros ? ? (-> & ? & ?); wp_steps.

Lemma create_server_socket_spec w :
  open_fds (trace w) = [] → bound_paths (trace w) = [] →
  wp K create_server_socket (post (λ r w', match r with
    | Some fd => open_fds (trace w') = [fd] ∧ only_socket (trace w')
    | None => released (trace w')
    end) (λ _ _, False)) w.
Proof.
  intros Ho Hb. unfold create_server_socket. wp_steps.
  assert (∀ w1 : world sys backend, open_fds (trace w1) = [] → bound_paths (trace w1) = [] →
    released (trace w1)) as Hfresh.
  { intros w1 H1 H2. split; [done|]. rewrite H2. by intros path ?%elem_of_nil. }
  destruct (K _ _ Socket) as [fd|e]; wp_steps; [|by apply Hfresh].
  assert (open_fds (Ev Socket (Ok fd) :: trace w) = [fd]) as Hfd by by rewrite <- Ho.
  rewrite bool_decide_eq_false_2 by (vm_compute; lia). wp_steps.
  eapply wp_mono; [apply remove_stale_spec|].
  intros o w1 ([r ->] & Ho1 & Hb1).
  cbn [trace] in Ho1, Hb1. rewrite Hfd in Ho1. specialize (Hb1 Hb).
  wp_decide Hr; wp_steps; [by server_closed; apply Hfresh|].
  destruct (K _ _ (Bind _ _)) as [[]|e]; wp_steps; [|by server_closed; apply Hfresh].
  assert (∀ w2 : world sys backend, bound_paths (trace w2) = txt AUTH_SOCKET_PATH :: bound_paths (trace w1) →
    only_socket (trace w2)) as Honly.
  { intros w2 H2 path. rewrite H2, Hb1. apply list_elem_of_singleton. }
  destruct (K _ _ (Chmod _ _)); wp_steps.
  - destruct (K _ _ (Listen _ _)); wp_steps; [by split; [|apply Honly]|].
    server_closed. apply wp_unlink; [by apply Honly|]. intros w2 _ Hf2 Hb2. wp_steps.
    split; [congruence|done].
  - server_closed. apply wp_unlink; [by apply Honly|]. intros w2 _ Hf2 Hb2. wp_steps.
    split; [congruence|done].
Qed.

Lemma accept_one_client_spec fuel server w :
  open_fds (trace w) = [server] →
  wp K (accept_one_client fuel server) (post (λ r w',
    bound_paths (trace w') = bound_paths (trace w) ∧
    match r with
    | Some fd => open_fds (trace w') = [fd; server]
    | None => open_fds (trace w') = [server]
    end) (λ h _, h = OutOfFuel)) w.
Proof.
  intros Ho. unfold accept_one_client.
  apply (wp_loop_inv K (λ _ w', open_fds (trace w') = [server] ∧
    bound_paths (trace w') = bound_paths (trace w))); [|done|done].
  intros s w1 [Ho1 Hb1]. unfold accept_step. wp_steps.
  apply wp_read_stop. intros [] sigs; wp_steps; [done|].
  destruct (K _ _ (Accept _)) as [fd|e]; wp_steps; [simpl; by rewrite <- Ho1|].
  destruct (is_eintr e); wp_steps; [|done].
  apply wp_read_stop. intros [] sigs2; wp_steps; done.
Qed.

Lemma accept_one_client_accepts fuel server w :
  wp K (accept_one_client fuel server) (λ o w',
    ∀ fd, o = Ret (Some fd) → accepted_on server fd (trace w')) w.
Proof.
  unfold accept_one_client. apply (wp_loop_inv K (λ _ _, True)); [|done|done].
  intros s w1 _. unfold accept_step. wp_steps.
  apply wp_read_stop. intros [] sigs; wp_steps; [done|].
  destruct (K _ _ (Accept _)) as [fd|e]; wp_steps.
  - intros fd' [= <-]. eexists [_], _. split; [|reflexivity]. by constructor.
  - destruct (is_eintr e); wp_steps; [|done].
    apply wp_read_stop. intros [] sigs2; wp_steps; done.
Qed.

(** The bound paths at the label [cleanup]: with no server socket, nothing is
    left; with one, only its path. *)
Definition cleanable (server : option nat) (tr : trace_t) : Prop :=
  match server with
  | Some _ => only_socket tr
  | None => ∀ path, path ∈ bound_paths tr → unlink_failed path tr
  end.

Lemma main_cleanup_spec client server exit w :
  sized (globals w) →
  open_fds (trace w) ⊆ option_list client ++ option_list server →
  cleanable server (trace w) →
  wp K (main_cleanup client server exit) (post (λ r w', r = exit ∧
    released (trace w') ∧ wiped (globals w') ∧
    line (globals w') = line (globals w) ∧ request (globals w') = request (globals w))
    (λ _ _, False)) w.
Proof.
  intros (Hu & Hp & Hpath) Ho Hb. unfold main_cleanup. wp_steps.
  apply wp_close_logged. intros w1 Hg1 Ho1 [n1 Ht1] Hb1. wp_steps.
  apply wp_close_logged. intros w2 Hg2 Ho2 [n2 Ht2] Hb2. wp_steps.
  assert (open_fds (trace w2) = []) as Hnone.
  { apply elem_of_nil_inv. intros fd. rewrite Ho2, Ho1.
    destruct client, server; simpl in Ho; rewrite ?list_elem_of_filter; set_solver. }
  assert (∀ w3, globals w3 = globals w2 → released (trace w3) →
    exit = exit ∧ released (trace w3) ∧ wiped (set_credential_path
      (clear_object (credential_path (set_credential
        (secure_clear_credential (credential (globals w3))) (globals w3))))
      (set_credential (secure_clear_credential (credential (globals w3))) (globals w3))) ∧
    line (globals w3) = line (globals w) ∧ request (globals w3) = request (globals w)) as Hfin.
  { intros w3 -> Hrel. rewrite Hg2, Hg1. split_and!; try done. split; simpl.
    - by apply secure_clear_credential_empty.
    - by rewrite clear_object_zeros, Hpath. }
  destruct server as [server|]; wp_steps; cbn [cleanable] in Hb.
  - apply wp_unlink; [intros path; rewrite Hb2, Hb1; apply Hb|].
    intros w3 Hg3 Ho3 Hb3. wp_steps. cbn [post globals trace].
    apply Hfin; [done|]. split; [congruence|done].
  - cbn [post globals trace]. apply Hfin; [done|]. split; [done|]. rewrite Hb2, Hb1.
    intros path Hin. rewrite Ht2, Ht1. by do 2 apply unlink_failed_app; apply Hb.
Qed.

Lemma sized_secrets g g' : settings g' = settings g → sized g → sized g'.
Proof. unfold settings, sized. by intros [= -> -> _]. Qed.

(** The end of [main_serve], from a state [w1] reached from [w]. *)
Lemma serve_cleanup client server exit (w w1 : world sys backend) new :
  trace w1 = new ++ trace w → settings (globals w1) = settings (globals w) →
  sized (globals w) →
  open_fds (trace w1) ⊆ option_list client ++ option_list server →
  cleanable server (trace w1) →
  (request (globals w1) = zeros sizeof_AuthRequest
   ∨ request (globals w1) = request (globals w)) →
  (exit = EXIT_SUCCESS → ∃ fd,
     length (received fd new) = sizeof_AuthRequest ∧
     sent fd new = answer (received fd new) (credential (globals w))) →
  exit = EXIT_SUCCESS ∨ exit = EXIT_FAILURE →
  wp K (main_cleanup client server exit) (serve_post w) w1.
Proof.
  intros Htr Hset Hsz Ho Hb Hreq Hsucc Hexit. eapply wp_mono.
  { apply wp_conj; [apply main_cleanup_spec; [by eapply sized_secrets|done..]|].
    apply (emits_wp dataless), _. }
  intros [r|h] w2; simpl; [|tauto].
  intros [(-> & Hrel & Hw & Hl & Hr) (new2 & Htr2 & Hd)].
  exists (new2 ++ new). rewrite Htr2, Htr, app_assoc in Hrel |- *.
  assert (line (globals w1) = line (globals w)) as Hline by (unfold settings in Hset; congruence).
  split_and!; [done..|congruence|rewrite Hr; done|].
  destruct Hexit as [->| ->]; [|by right]. left. split; [done|].
  destruct Hsucc as (fd & Hlen & Hs); [done|]. exists fd.
  rewrite received_app, sent_app. destruct (dataless_nothing fd new2 Hd) as [-> ->].
  by rewrite !app_nil_r.
Qed.

Context {HK : IOLaws K}.

Lemma secrets_parts g g' :
  secrets g' = secrets g → settings g' = settings g ∧ request g' = request g.
Proof. unfold secrets, settings. by intros [= -> -> -> ->]. Qed.

Lemma verify_outcome fd uid gid w :
  wp K (verify_peer_credentials fd uid gid) (λ o _, ∃ r, o = Ret r) w.
Proof.
  unfold verify_peer_credentials. wp_steps.
  destruct (K _ _ (Getsockopt_peercred _)) as [[peer len]|e]; wp_steps; [|by eauto].
  wp_decide H; wp_steps; [by eauto|]. wp_decide H'; wp_steps; by eauto.
Qed.

(** The connection, from the peer check on. *)
Lemma serve_client fuel uid gid client server (w w1 : world sys backend) new :
  trace w1 = new ++ trace w → Forall dataless new →
  secrets (globals w1) = secrets (globals w) → sized (globals w) →
  open_fds (trace w1) = [client; server] → only_socket (trace w1) →
  wp K (let* verified := verify_peer_credentials client uid gid in
        if bool_decide (verified ≠ 0) then
          let* _ := send_peer_rejection fuel client in
          main_cleanup (Some client) (Some server) EXIT_FAILURE
        else
        let* handled := handle_client fuel client in
        main_cleanup (Some client) (Some server)
          (if bool_decide (handled = 0) then EXIT_SUCCESS else EXIT_FAILURE))
    (serve_post w) w1.
Proof.
  intros Htr1 Hd1 Hk1 Hsz Ho1 Hb1. wp_steps. eapply wp_mono.
  { apply wp_conj; [apply (emits_wp dataless), _|apply wp_conj;
      [apply (emits_wp neutral), _|apply wp_conj;
      [apply (keeps_wp secrets), _|apply verify_outcome]]]. }
  intros o w2 ((new2 & Htr2 & Hd2) & (n2 & Hn & Hn2) & Hk2 & [verified ->]).
  assert (open_fds (trace w2) = [client; server]) as Ho2
    by (rewrite Hn; by destruct (open_fds_neutral n2 (trace w1) Hn2) as [-> _]).
  assert (only_socket (trace w2)) as Hb2 by by apply (only_socket_neutral n2 (trace w1)).
  rewrite Hk1 in Hk2. apply secrets_parts in Hk2 as [Hs2 Hr2].
  rewrite Htr1, app_assoc in Htr2. wp_decide Hv; wp_steps; eapply wp_mono.
  - apply wp_conj; [apply (emits_wp neutral), _|apply wp_conj;
      [apply (keeps_wp secrets), _|apply write_all_spec, HK]].
  - intros o w3 ((n3 & Hn3' & Hn3) & Hk3 & (n & k & _ & _ & _ & Ho)).
    destruct o as [r|h]; [|].
    + apply secrets_parts in Hk3 as [Hs3 Hr3].
      apply (serve_cleanup _ _ _ _ _ (n3 ++ new2 ++ new)); auto; try done.
      * by rewrite Hn3', Htr2, app_assoc.
      * congruence.
      * destruct (open_fds_neutral n3 (trace w2) Hn3) as [Hof _].
        rewrite Hn3', Hof, Ho2. done.
      * by apply (only_socket_neutral n3 (trace w2)).
      * right. congruence.
    + exists (n3 ++ new2 ++ new). rewrite Hn3', Htr2, app_assoc. by destruct Ho.
  - apply wp_conj; [apply (emits_wp neutral), _|apply wp_conj;
      [apply (keeps_wp settings), _|apply handle_client_spec, HK]].
  - intros o w3 ((n3 & Hn3' & Hn3) & Hk3 & (new3 & Htr3 & Ho)).
    destruct o as [r|h].
    2: { exists (new3 ++ new2 ++ new). rewrite Htr3, Htr2, app_assoc. by destruct Ho. }
    destruct Ho as (Hreq & Ho).
    apply (serve_cleanup _ _ _ _ _ (new3 ++ new2 ++ new)); auto.
    + by rewrite Htr3, Htr2, app_assoc.
    + congruence.
    + destruct (open_fds_neutral n3 (trace w2) Hn3) as [Hof _].
      rewrite Hn3', Hof, Ho2. done.
    + by apply (only_socket_neutral n3 (trace w2)).
    + case_bool_decide as Hr; [|done]. intros _. exists client.
      destruct (dataless_nothing client (new2 ++ new)) as [Hnr Hns];
        [by apply Forall_app|].
      rewrite received_app, sent_app, Hnr, Hns. simpl.
      destruct Ho as [(_ & _ & ?)|(Hlen & n & Hsent & [[_ ->]|[? _]])]; [lia| |lia].
      split; [done|]. assert (credential (globals w2) = credential (globals w)) as <-
        by (unfold settings in Hs2; congruence).
      rewrite Hsent, take_ge; [done|].
      unfold answer. by rewrite length_encode_response by apply respond_ok.
    + case_bool_decide; auto.
Qed.

Lemma main_serve_spec fuel uid gid w :
  sized (globals w) → open_fds (trace w) = [] → bound_paths (trace w) = [] →
  wp K (main_serve fuel uid gid) (serve_post w) w.
Proof.
  intros Hsz Hfd Hbd. unfold main_serve. wp_steps. eapply wp_mono.
  { apply wp_conj; [by apply create_server_socket_spec|apply wp_conj;
      [apply (emits_wp dataless), _|apply (keeps_wp secrets), _]]. }
  intros [server|h] w1; simpl; [|tauto]. intros (Ho1 & (new1 & Htr1 & Hd1) & Hk1).
  pose proof (secrets_parts _ _ Hk1) as [Hs1 Hr1].
  destruct server as [server|].
  2: { apply (serve_cleanup _ _ _ _ _ new1); auto; [|by destruct Ho1|done].
       destruct Ho1 as [-> _]. set_solver. }
  destruct Ho1 as [Ho1 Hb1].
  wp_steps. eapply wp_mono.
  { apply wp_conj; [by apply accept_one_client_spec|apply wp_conj;
      [apply (emits_wp dataless), _|apply (keeps_wp secrets), _]]. }
  intros [client|h] w2; simpl;
    intros (Ho2 & (new2 & Htr2 & Hd2) & Hk2); rewrite Htr1, app_assoc in Htr2.
  1: destruct Ho2 as [Hb2 Ho2]; assert (only_socket (trace w2)) as Honly
    by (intros path; rewrite Hb2; apply Hb1).
  2: { exists (new2 ++ new1). auto. }
  rewrite Hk1 in Hk2. destruct client as [client|].
  - apply (serve_client _ _ _ _ _ _ _ (new2 ++ new1)); auto. by apply Forall_app.
  - pose proof (secrets_parts _ _ Hk2) as [Hs2 Hr2].
    apply (serve_cleanup _ _ _ _ _ (new2 ++ new1)); auto; try done.
    by rewrite Ho2.
Qed.

End serve.

(** ** Up to the privilege drop *)

Section main_specs.
Context (K : kernel sys) {HK : IOLaws K}.

Lemma install_returns w :
  wp K install_signal_handlers (λ o w', (∃ r, o = Ret r) ∧ globals w' = globals w) w.
Proof.
  unfold install_signal_handlers. wp_steps.
  destruct (K _ _ (Sigaction SIGINT _)); wp_steps; [|by eauto].
  destruct (K _ _ (Sigaction SIGTERM _)); wp_steps; [|by eauto].
  destruct (K _ _ (Sigaction SIGPIPE _)); wp_steps; by eauto.
Qed.

Lemma length_credential_path_of path link :
  (length link ≤ length path - 1)%nat →
  length (credential_path_of path link).1 = length path.
Proof.
  intros H. unfold credential_path_of.
  assert (length (store 0 link path) = length path) as Hst by (apply length_store; lia).
  case_bool_decide as Hlen; [done|].
  destruct (strrchr _ _) as [e|] eqn:He; [|by simpl; rewrite length_insert].
  destruct (strrchr (<[e := NUL]> _) _) as [b|] eqn:Hb; [|by simpl; rewrite !length_insert].
  case_bool_decide as Hrem; simpl; rewrite ?length_store, ?length_insert; try done.
  rewrite !length_insert, Hst. cbn in Hrem |- *. lia.
Qed.

Lemma resolve_spec w :
  wp K resolve_demo_credential_path (λ o w', (∃ r, o = Ret r) ∧
    length (credential_path (globals w')) = length (credential_path (globals w)) ∧
    credential (globals w') = credential (globals w) ∧
    line (globals w') = line (globals w) ∧ request (globals w') = request (globals w)) w.
Proof.
  unfold resolve_demo_credential_path. wp_steps.
  destruct (K _ _ (Readlink _ _)) as [link|e] eqn:Hlink; wp_steps; [|by eauto 10].
  apply readlink_le, length_credential_path_of in Hlink.
  destruct (credential_path_of _ link) as [path' [message|]]; wp_steps; simpl in Hlink;
    split_and!; by eauto.
Qed.

#[export] Instance load_keeps fuel path :
  Keeps (λ g, (credential_path g, request g)) (load_demo_credential fuel path).
Proof.
  unfold load_demo_credential, load_cleanup, load_step, load_account, load_stop,
    clear_line, log, fprintf. solve_keeps.
Qed.

#[export] Instance log_uids_keeps stage : Keeps secrets (log_uids stage).
Proof. unfold log_uids. solve_keeps. Qed.

#[export] Instance log_proc_status_keeps fuel stage :
  Keeps secrets (log_proc_status_uid_lines fuel stage).
Proof. unfold log_proc_status_uid_lines, uid_line_step. solve_keeps. Qed.

#[export] Instance drop_keeps fuel uid gid :
  Keeps secrets (drop_privileges_permanently fuel uid gid).
Proof.
  unfold drop_privileges_permanently, drop_groups, drop_ids, check_dropped. solve_keeps.
Qed.

Lemma sized_ok g :
  credential_ok (credential g) → length (credential_path g) = PATH_MAX → sized g.
Proof. intros (H1 & H2 & _) H3. done. Qed.

(** The steps of [main] up to the server part, for any postcondition [Q].
    [P] holds of a resolved path and [C] of a credential loaded from one. *)
Section walk.
Context (fuel : nat) (g : backend) (Q : outcome Z → world sys backend → Prop).
Context (P : list byte → Prop) (C : DemoCredential → Prop).
Notation uid := (invoking_uid K).
Notation gid := (invoking_gid K).
Hypothesis HP : ∀ w, sized (globals w) →
  wp K resolve_demo_credential_path
    (λ o w', o = Ret 0 → P (credential_path (globals w'))) w.
Hypothesis HC : ∀ w path, P path →
  wp K (load_demo_credential fuel path)
    (λ o w', o = Ret 0 → C (credential (globals w'))) w.
Hypothesis Hfuel : ∀ w, Forall local_call (trace w) → Q (Halt OutOfFuel) w.
Hypothesis Hreturn : ∀ w, preparing g w → wiped (globals w) → Q (Ret EXIT_FAILURE) w.
Hypothesis Hcleanup : ∀ w, preparing g w →
  wp K (main_cleanup None None EXIT_FAILURE) Q w.
Hypothesis Hserve : ∀ w, preparing g w → credential_ok (credential (globals w)) →
  C (credential (globals w)) → uid ≠ 0 → drop_evidence uid gid (trace w) →
  wp K (main_serve fuel uid gid) Q w.

Lemma main_walk_drop w :
  preparing g w → credential_ok (credential (globals w)) → C (credential (globals w)) →
  wp K (let* r := drop_privileges_permanently fuel uid gid in
        if bool_decide (r ≠ 0) then main_cleanup None None EXIT_FAILURE
        else main_serve fuel uid gid) Q w.
Proof.
  intros (Hl & Hsz & Hreq & Hline) Hok HCw. wp_steps. eapply wp_mono.
  { apply wp_conj; [apply drop_spec|apply (emits_wp local_call), _]. }
  intros [r|h] w1; simpl.
  2: { intros [-> (new & Htr & Hn)]. apply Hfuel. rewrite Htr. by apply Forall_app. }
  intros [(Hg & Hr & Hev) (new & Htr & Hn)].
  assert (preparing g w1) as Hprep.
  { unfold preparing. rewrite Hg, Htr. split_and!; try done. by apply Forall_app. }
  rewrite <- Hg in Hok, HCw. destruct Hr as [->| ->]; [|by apply Hcleanup].
  destruct (Hev eq_refl) as (l & before & Heq & _ & Hseq).
  change (bool_decide (0 ≠ 0)) with (bool_decide (¬ (0 = 0))).
  rewrite bool_decide_eq_false_2 by lia. apply Hserve; try done; [apply Hseq|].
  rewrite Heq. by apply drop_sequence_evidence.
Qed.

Lemma preparing_more new (w w' : world sys backend) :
  preparing g w → trace w' = new ++ trace w → Forall local_call new →
  sized (globals w') → request (globals w') = request (globals w) →
  line (globals w') = zeros CREDENTIAL_LINE_MAX ∨ line (globals w') = line (globals w) →
  preparing g w'.
Proof.
  intros (Hl & _ & Hr & Hli) Htr Hn Hsz Hr' Hli'. unfold preparing.
  rewrite Htr, Hr', Hr. split_and!; [by apply Forall_app|done..|].
  destruct Hli' as [|H]; [by left|by rewrite H].
Qed.

Lemma main_walk_load w :
  preparing g w →
  wp K (let* r := resolve_demo_credential_path in
        if bool_decide (r ≠ 0) then main_cleanup None None EXIT_FAILURE else
        let* path := get credential_path in
        let* r := load_demo_credential fuel path in
        if bool_decide (r ≠ 0) then main_cleanup None None EXIT_FAILURE else
        let* r := drop_privileges_permanently fuel uid gid in
        if bool_decide (r ≠ 0) then main_cleanup None None EXIT_FAILURE
        else main_serve fuel uid gid) Q w.
Proof.
  intros Hp. pose proof Hp as (_ & (Hu & Hpw & Hpath) & _). wp_steps. eapply wp_mono.
  { apply wp_conj; [apply resolve_spec|apply wp_conj; [apply HP, Hp|]].
    apply (emits_wp local_call), _. }
  intros o w1 (([r ->] & Hl1 & Hc1 & Hli1 & Hr1) & HP1 & (new1 & Htr1 & Hn1)).
  assert (preparing g w1) as Hp1.
  { apply (preparing_more new1 w); auto. unfold sized. by rewrite Hl1, Hc1. }
  wp_decide Hz; [by apply Hcleanup|]. assert (r = 0) as -> by lia.
  specialize (HP1 eq_refl). wp_steps. eapply wp_mono.
  { apply wp_conj; [apply load_spec|apply wp_conj; [by apply HC|apply wp_conj;
      [apply (emits_wp local_call), _|apply (keeps_wp (λ g, (credential_path g, request g))), _]]]. }
  intros [r2|h] w2; simpl; intros (Hload & HC2 & (new2 & Htr2 & Hn2) & Hk2).
  2: { subst h. apply Hfuel. rewrite Htr2. apply Forall_app. split; [done|apply Hp1]. }
  destruct Hload as [Hli2 Hload]. injection Hk2 as Hpath2 Hreq2.
  assert (length (credential_path (globals w2)) = PATH_MAX) as Hl2
    by by rewrite Hpath2, Hl1.
  assert (preparing g w2) as Hp2.
  { apply (preparing_more new2 w1); auto. destruct Hload as [[_ Hok]|[_ Hno]];
      [by apply sized_ok|unfold sized; rewrite Hno; auto]. }
  destruct Hload as [[-> Hok]|[Hr2 _]].
  - rewrite bool_decide_eq_false_2 by lia. apply main_walk_drop; auto.
  - rewrite bool_decide_eq_true_2 by done. by apply Hcleanup.
Qed.

Lemma main_walk : wp K (main fuel) Q (World g []).
Proof.
  unfold main. wp_steps. fold uid. fold gid. wp_decide Hbuf; wp_steps.
  { apply Hreturn; [|done]. unfold preparing. simpl. split_and!; auto; [by repeat constructor|].
    split_and!; apply length_replicate. }
  eapply wp_mono; [apply wp_conj; [apply install_returns|apply (emits_wp local_call), _]|].
  intros o w1 (([r1 ->] & Hg1) & (new1 & Htr1 & Hn1)). simpl in Hg1, Htr1.
  assert (preparing g w1) as Hp1.
  { unfold preparing. rewrite Hg1, Htr1. simpl. split_and!; auto.
    - apply Forall_app. split; [done|]. by repeat constructor.
    - split_and!; apply length_replicate. }
  clear Hg1 Htr1. wp_decide Hr1; wp_steps; [by apply Hcleanup|].
  apply log_uids_spec. intros new2 Hn2. wp_steps. eapply wp_mono.
  { apply log_proc_status_spec. }
  intros o w3 (Ho & Hg3 & (new3 & Htr3 & Hn3)). simpl in Hg3, Htr3.
  rewrite app_assoc in Htr3.
  assert (Forall local_call (new3 ++ new2)) as Hn.
  { apply Forall_app. split; eapply Forall_impl; [done|apply quiet_local..|done|apply quiet_local]. }
  assert (preparing g w3) as Hp3.
  { apply (preparing_more (new3 ++ new2) w1); rewrite ?Hg3; auto. apply Hp1. }
  destruct Ho as [->|[r3 ->]]; [apply Hfuel, Hp3|]. by apply main_walk_load.
Qed.

End walk.
End main_specs.

#[export] Instance cleanup_none_local exit : Emits local_call (main_cleanup None None exit).
Proof. unfold main_cleanup. cbn [close_logged]. solve_emits. Qed.

(** ** Requests are read from attested peers only *)

Lemma accepted_on_app server fd new tr :
  Forall (holds fd) new → accepted_on server fd tr → accepted_on server fd (new ++ tr).
Proof.
  intros Hn (since & before & Hs & ->). exists (new ++ since), before.
  split; [by apply Forall_app|by rewrite (assoc_L app)].
Qed.

Lemma connection_attested_app uid gid fd new tr :
  Forall (holds fd) new → connection_attested uid gid fd tr →
  connection_attested uid gid fd (new ++ tr).
Proof.
  intros Hn (since & pid & server & before & ? & Hs & ? & ->).
  exists (new ++ since), pid, server, before.
  split_and!; [done|by apply Forall_app|done|by rewrite (assoc_L app)].
Qed.

Lemma neutral_holds fd e : neutral e → holds fd e.
Proof. by destruct e as [T [] r]. Qed.

Lemma no_read_from fd e : is_read e = false → reads_from fd e = false.
Proof. by destruct e as [T [] r]. Qed.

(** A step that uses the connection [fd]: it reads from nothing else and opens
    and closes nothing. *)
Definition uses (fd : nat) (e : event sys) : Prop :=
  match e with Ev (Read f _) _ => f = fd | _ => neutral e end.

#[export] Instance handle_client_uses fuel fd : Emits (uses fd) (handle_client fuel fd).
Proof.
  unfold handle_client, read_all, read_step, write_all, write_step, process_request,
    validate_request_string, read_stop_requested, log, fprintf. solve_emits.
Qed.

Lemma uses_neutral fd e : uses fd e → neutral e.
Proof. by destruct e as [T [] r]. Qed.

Section reads.
Context (K : kernel sys) (uid gid : Z).

Definition reads_guarded (tr : trace_t) : Prop :=
  ∀ fd, guarded_by (reads_from fd) (connection_attested uid gid fd) tr.

Lemma reads_guarded_app new tr :
  Forall (λ e, is_read e = false) new → reads_guarded tr → reads_guarded (new ++ tr).
Proof.
  intros Hn Hg fd. apply guarded_by_app; [|apply Hg].
  eapply Forall_impl; [exact Hn|]. intros e. apply no_read_from.
Qed.

(** Once the connection is attested it may be used. *)
Lemma reads_guarded_uses fd new tr :
  Forall (uses fd) new → connection_attested uid gid fd tr →
  reads_guarded tr → reads_guarded (new ++ tr).
Proof.
  intros Hn Hatt Hg fd'. specialize (Hg fd'). induction Hn as [|e new He Hn IH]; [done|].
  split; [|done]. intros Hread.
  assert (fd' = fd) as ->.
  { destruct e as [T [] r]; try done. cbn in He, Hread. by apply bool_decide_eq_true in Hread as <-. }
  apply connection_attested_app; [|done].
  eapply Forall_impl; [exact Hn|]. intros e' He'. by eapply neutral_holds, uses_neutral.
Qed.

Lemma verify_attests server fd w :
  accepted_on server fd (trace w) →
  wp K (verify_peer_credentials fd uid gid)
    (λ o w', o = Ret 0 → connection_attested uid gid fd (trace w')) w.
Proof.
  intros Hacc. unfold verify_peer_credentials. wp_steps.
  destruct (K _ _ (Getsockopt_peercred _)) as [[[pid u g] len]|e]; wp_steps; [|done].
  wp_decide H1; wp_steps; [done|]. wp_decide H2; wp_steps; [done|].
  intros _. cbn [uc_pid uc_uid uc_gid] in *.
  assert (u = uid ∧ g = gid ∧ len = sizeof_ucred ∧ 0 < pid) as (-> & -> & -> & Hpid) by lia.
  eexists [_; _], pid, server, (trace w). split_and!; [done| |done|reflexivity].
  by repeat constructor.
Qed.

(** A step that reads nothing. *)
Lemma guarded_dataless {A} (m : Backend A) w :
  Emits dataless m → reads_guarded (trace w) →
  wp K m (λ _ w', reads_guarded (trace w')) w.
Proof.
  intros Hm Hg. eapply wp_mono; [by apply (emits_wp dataless)|].
  intros _ w' (new & -> & Hn). apply reads_guarded_app; [|done].
  eapply Forall_impl; [exact Hn|apply dataless_no_read].
Qed.

Lemma main_serve_guarded fuel w :
  reads_guarded (trace w) →
  wp K (main_serve fuel uid gid) (λ _ w', reads_guarded (trace w')) w.
Proof.
  intros Hg. unfold main_serve. wp_steps.
  eapply wp_mono; [by apply guarded_dataless; [apply _|]|]. intros [server|h] w1 Hg1; [|done].
  destruct server as [server|]; [|apply guarded_dataless; [apply _|done]].
  wp_steps. eapply wp_mono.
  { apply wp_conj; [by apply guarded_dataless; [apply _|]|apply accept_one_client_accepts]. }
  intros [client|h] w2 [Hg2 Hacc]; [|done].
  destruct client as [client|]; [|apply guarded_dataless; [apply _|done]].
  specialize (Hacc client eq_refl). wp_steps. eapply wp_mono.
  { apply wp_conj; [by apply guarded_dataless; [apply _|]|by apply (verify_attests server)]. }
  intros [verified|h] w3 [Hg3 Hatt]; [|done]. wp_decide Hv; wp_steps.
  - eapply wp_mono; [apply (emits_wp (λ e, is_read e = false)), _|].
    intros [r|h] w4 (new & Htr & Hn);
      assert (reads_guarded (trace w4)) as Hg4 by (rewrite Htr; by apply reads_guarded_app);
      [|done]. apply guarded_dataless; [apply _|done].
  - assert (verified = 0) as -> by lia. specialize (Hatt eq_refl).
    eapply wp_mono; [apply (emits_wp (uses client)), _|].
    intros [r|h] w4 (new & Htr & Hn);
      assert (reads_guarded (trace w4)) as Hg4 by (rewrite Htr; by eapply reads_guarded_uses);
      [|done]. apply guarded_dataless; [apply _|done].
Qed.

End reads.

(** ** Replies *)

Lemma replies_app c t1 t2 new :
  Forall dataless t1 → Forall dataless t2 → replies c new → replies c (t1 ++ new ++ t2).
Proof.
  intros H1 H2 H fd. specialize (H fd).
  destruct (dataless_nothing fd t1 H1) as [Hr1 Hs1].
  destruct (dataless_nothing fd t2 H2) as [Hr2 Hs2].
  by rewrite !received_app, !sent_app, Hr1, Hs1, Hr2, Hs2, !app_nil_r.
Qed.

Lemma replies_nothing c new : Forall dataless new → replies c new.
Proof.
  intros H fd. left. exists 0%nat. by destruct (dataless_nothing fd new H) as [_ ->].
Qed.

Section replies.
Context (K : kernel sys) {HK : IOLaws K}.

(** The steps around the one that replies transfer nothing. *)
Definition replied (w : world sys backend) (w' : world sys backend) : Prop :=
  ∃ new, trace w' = new ++ trace w ∧ replies (credential (globals w)) new.

Lemma replied_after {A} (m : Backend A) (w w1 : world sys backend) :
  Emits dataless m → replied w w1 → wp K m (λ _ w', replied w w') w1.
Proof.
  intros Hm (new & Htr & Hr). eapply wp_mono; [by apply (emits_wp dataless)|].
  intros _ w2 (new2 & Htr2 & Hd2). exists (new2 ++ new). rewrite Htr2, Htr, app_assoc.
  split; [done|]. rewrite <- (app_nil_r new). by apply replies_app.
Qed.

(** Nothing was transferred yet and the memory is as before. *)
Definition idle (w w1 : world sys backend) : Prop :=
  (∃ new, trace w1 = new ++ trace w ∧ Forall dataless new) ∧
  credential (globals w1) = credential (globals w).

Lemma idle_replied w w1 : idle w w1 → replied w w1.
Proof. intros [(new & Htr & Hd) _]. exists new. split; [done|]. by apply replies_nothing. Qed.

Lemma idle_step {A} (m : Backend A) (w w1 : world sys backend) :
  Emits dataless m → Keeps secrets m → idle w w1 → wp K m (λ _ w', idle w w') w1.
Proof.
  intros Hm Hk [(new & Htr & Hd) Hc]. eapply wp_mono.
  { apply wp_conj; [by apply (emits_wp dataless)|by apply (keeps_wp secrets)]. }
  intros _ w2 [(new2 & Htr2 & Hd2) Hk2]. unfold secrets in Hk2. injection Hk2 as Hc2 _ _ _.
  split; [|congruence]. exists (new2 ++ new). rewrite Htr2, Htr, app_assoc.
  split; [done|]. by apply Forall_app.
Qed.

Lemma idle_reply {A} (m : Backend A) (w w1 : world sys backend) :
  (wp K m (λ _ w', replied w1 w') w1) → idle w w1 → wp K m (λ _ w', replied w w') w1.
Proof.
  intros Hm [(new & Htr & Hd) Hc]. eapply wp_mono; [apply Hm|].
  intros _ w2 (new2 & Htr2 & Hr2). exists (new2 ++ new). rewrite Htr2, Htr, app_assoc.
  split; [done|]. rewrite Hc in Hr2. by apply (replies_app _ []).
Qed.

Lemma main_serve_replies fuel uid gid w :
  wp K (main_serve fuel uid gid) (λ _ w', replied w w') w.
Proof.
  assert (idle w w) as H0 by (split; [by exists []|done]).
  unfold main_serve. wp_steps.
  eapply wp_mono; [apply (idle_step _ w); [apply _..|done]|]. intros [server|h] w1 H1;
    [|by apply idle_replied].
  destruct server as [server|]; [|by apply replied_after; [apply _|apply idle_replied]].
  wp_steps. eapply wp_mono; [apply (idle_step _ w); [apply _..|done]|].
  intros [client|h] w2 H2; [|by apply idle_replied].
  destruct client as [client|]; [|by apply replied_after; [apply _|apply idle_replied]].
  wp_steps. eapply wp_mono; [apply (idle_step _ w); [apply _..|done]|].
  intros [verified|h] w3 H3; [|by apply idle_replied]. wp_decide Hv; wp_steps.
  - eapply wp_mono; [apply (idle_reply _ w); [apply send_peer_rejection_replies, HK|done]|].
    intros [r|h] w4 H4; [|done]. by apply replied_after; [apply _|].
  - eapply wp_mono; [apply (idle_reply _ w); [apply handle_client_replies, HK|done]|].
    intros [r|h] w4 H4; [|done]. by apply replied_after; [apply _|].
Qed.

End replies.

Lemma local_guarded (act : event sys → bool) needs (tr : trace_t) :
  (∀ e, local_call e → act e = false) → Forall local_call tr → guarded_by act needs tr.
Proof.
  intros Hact Hl. rewrite <- (app_nil_r tr). apply guarded_by_app; [|done].
  by eapply Forall_impl.
Qed.

Lemma local_no_read e : local_call e → is_read e = false.
Proof. intros H. by apply dataless_no_read, local_dataless. Qed.

Lemma local_fresh tr : Forall local_call tr → open_fds tr = [] ∧ bound_paths tr = [].
Proof.
  intros H. rewrite <- (app_nil_r tr). apply (open_fds_neutral tr []).
  eapply Forall_impl; [done|apply local_neutral].
Qed.

Lemma local_released tr : Forall local_call tr → released tr.
Proof.
  intros [Ho Hb]%local_fresh. split; [done|]. rewrite Hb. by intros path ?%elem_of_nil.
Qed.

(** An early exit adds only local calls. *)
Lemma early_exit_local K w (Q : outcome Z → world sys backend → Prop) :
  Forall local_call (trace w) →
  (∀ o w', Forall local_call (trace w') → Q o w') →
  wp K (main_cleanup None None EXIT_FAILURE) Q w.
Proof.
  intros Hl HQ. eapply wp_mono; [apply (emits_wp local_call), _|].
  intros o w' (new & Htr & Hn). apply HQ. rewrite Htr. by apply Forall_app.
Qed.

(** ** What an answer grants *)

Lemma answer_grants raw u p :
  length raw = sizeof_AuthRequest → NUL ∉ u → NUL ∉ p →
  rs_result (decode_response (answer raw (credential_of u p))) =
    AuthResult_code AUTH_RESULT_SUCCESS ↔
  well_formed_login (decode_request raw) ∧
  c_string (rq_username (decode_request raw)) = u ∧
  c_string (rq_password (decode_request raw)) = p.
Proof.
  intros Hlen Hu Hp. destruct (c_string_credential_of u p Hu Hp) as [Eu Ep].
  unfold answer. rewrite decode_encode_response by apply respond_ok.
  rewrite respond_result. split.
  - intros H. apply AuthResult_code_inj, decide_request_success in H.
    pose proof (decode_request_ok raw Hlen). unfold well_formed_login.
    rewrite Eu, Ep in H. tauto.
  - intros (Hl & Hu' & Hp'). rewrite decide_request_login, Eu, Ep by done.
    by rewrite bool_decide_eq_true_2.
Qed.

(** ** A deployed backend *)

Section deployed_walk.
Context (K : kernel sys) {HK : IOLaws K}.

Lemma main_walk_deployed fuel g (Q : outcome Z → world sys backend → Prop)
    dir build exe lines last :
  deployed K fuel dir build exe lines last →
  (∀ w, Forall local_call (trace w) → Q (Halt OutOfFuel) w) →
  (∀ w, preparing g w → wiped (globals w) → Q (Ret EXIT_FAILURE) w) →
  (∀ w, preparing g w → wp K (main_cleanup None None EXIT_FAILURE) Q w) →
  (∀ w u p, preparing g w → parse_credentials (lines ++ [last]) = Some (u, p) →
     credential (globals w) = credential_of u p →
     wp K (main_serve fuel (invoking_uid K) (invoking_gid K)) Q w) →
  wp K (main fuel) Q (World g []).
Proof.
  intros [Hlink (HN & Hb & He) [Hlen Hsize] Hlines Hopen Hclose Hfuel] Hout Hret Hclean Hserve.
  apply Forall_app in Hlines as [Hlines Hlast]. rewrite Forall_singleton in Hlast.
  apply (main_walk K fuel g _
    (λ path, c_string path = dir ++ x2f :: txt CREDENTIALS_FILE_NAME)
    (λ c, match parse_credentials (lines ++ [last]) with
          | Some (u, p) => c = credential_of u p
          | None => False
          end)); [| |done..|].
  - intros w (_ & _ & Hpath). eapply wp_mono.
    { apply (resolve_found K w dir build exe); rewrite ?Hpath; done. }
    intros [r|h] w'; simpl; [tauto|done].
  - intros w path Hpath. eapply wp_mono.
    { apply (load_parses K fuel path lines last); rewrite ?Hpath; done. }
    intros [r|h] w'; simpl; [|done].
    destruct (parse_credentials _) as [[u p]|]; [tauto|]. intros [-> _] [=].
  - intros w Hp _ HC _ _. destruct (parse_credentials _) as [[u p]|] eqn:Hparse; [|done].
    by apply (Hserve w u p).
Qed.

Lemma main_replies_spec fuel g dir build exe lines last :
  deployed K fuel dir build exe lines last →
  wp K (main fuel) (λ _ w',
    match parse_credentials (lines ++ [last]) with
    | Some (u, p) => replies (credential_of u p) (trace w')
    | None => ∀ fd, sent fd (trace w') = []
    end) (World g []).
Proof.
  intros Hdep.
  assert (∀ w : world sys backend, Forall local_call (trace w) →
    match parse_credentials (lines ++ [last]) with
    | Some (u, p) => replies (credential_of u p) (trace w)
    | None => ∀ fd, sent fd (trace w) = []
    end) as Hlocal.
  { intros w Hl. assert (Forall dataless (trace w)) as Hd
      by by eapply Forall_impl; [|apply local_dataless].
    destruct (parse_credentials _) as [[u p]|]; [by apply replies_nothing|].
    intros fd. by destruct (dataless_nothing fd _ Hd). }
  apply (main_walk_deployed fuel g _ dir build exe lines last Hdep).
  - intros w Hl. by apply Hlocal.
  - intros w [Hl _] _. by apply Hlocal.
  - intros w [Hl _]. apply early_exit_local; [done|]. intros o w'. apply Hlocal.
  - intros w u p [Hl _] Hparse HC. rewrite Hparse.
    eapply wp_mono; [apply main_serve_replies, HK|].
    intros _ w' (new & Htr & Hr). rewrite Htr. rewrite HC in Hr.
    apply (replies_app _ [] (trace w)); [done| |done].
    by eapply Forall_impl; [|apply local_dataless].
Qed.

End deployed_walk.

(** ** Properties *)

(** C3. Least privilege: in every run, however it ends, each call on a socket,
    on the socket path or on a client connection happens only after the
    privileges were dropped for good to the invoking user and group. *)
Theorem main_privileges_dropped_first (K : kernel sys) fuel g :
  IOLaws K →
  wp K (main fuel) (λ _ w',
    guarded_by network (drop_evidence (invoking_uid K) (invoking_gid K)) (trace w'))
    (World g []).
Proof.
  intros HK. apply (main_walk K fuel g _ (λ _, True) (λ _, True)); try done.
  - intros w Hl. by apply local_guarded; [apply local_network|].
  - intros w [Hl _] _. by apply local_guarded; [apply local_network|].
  - intros w [Hl _]. apply early_exit_local; [done|]. intros o w' Hl'.
    by apply local_guarded; [apply local_network|].
  - intros w [Hl _] _ _ _ Hev. eapply wp_mono; [apply (emits_wp (λ _, True)), _|].
    intros o w' (new & Htr & _). rewrite Htr.
    apply guarded_by_unlocked; [intros; by apply drop_evidence_mono|done|].
    by apply local_guarded; [apply local_network|].
Qed.

(** C25. In every run, however it ends, each read is from a connection that
    was accepted and for which, on that very descriptor and since it was
    accepted, the kernel attested that the peer is a live process with the
    invoking user's IDs. *)
Theorem main_reads_attested_peer (K : kernel sys) fuel g :
  IOLaws K →
  wp K (main fuel) (λ _ w', ∀ fd,
    guarded_by (reads_from fd) (connection_attested (invoking_uid K) (invoking_gid K) fd)
      (trace w')) (World g []).
Proof.
  intros HK.
  assert (∀ tr : trace_t, Forall local_call tr →
    reads_guarded (invoking_uid K) (invoking_gid K) tr) as Hlocal.
  { intros tr Hl fd. apply local_guarded; [|done].
    intros e He. by apply no_read_from, local_no_read. }
  apply (main_walk K fuel g _ (λ _, True) (λ _, True)); try done.
  - intros w Hl. by apply Hlocal.
  - intros w [Hl _] _. by apply Hlocal.
  - intros w [Hl _]. apply early_exit_local; [done|]. intros o w'. apply Hlocal.
  - intros w [Hl _] _ _ _ _. by apply main_serve_guarded, Hlocal.
Qed.

(** C24. Nothing is left behind: whenever [main] returns, every descriptor it
    obtained is closed; the path its socket was bound to is removed by an
    [unlink] of that path that succeeded or found nothing there, or the kernel
    refused and the refusal was logged; and the credential, its path, the line
    buffer and the request are zeros (or were never used). *)
Theorem main_cleans_up (K : kernel sys) fuel g :
  IOLaws K →
  wp K (main fuel) (post (λ r w',
    released (trace w') ∧ wiped (globals w') ∧
    (line (globals w') = zeros CREDENTIAL_LINE_MAX ∨ line (globals w') = line g) ∧
    (request (globals w') = zeros sizeof_AuthRequest ∨ request (globals w') = request g) ∧
    (r = EXIT_SUCCESS ∨ r = EXIT_FAILURE)) (λ h _, h = OutOfFuel)) (World g []).
Proof.
  intros HK. apply (main_walk K fuel g _ (λ _, True) (λ _, True)); try done.
  - intros w (Hl & _ & Hr & Hli) Hw. simpl. split_and!; auto; by apply local_released.
  - intros w (Hl & Hsz & Hr & Hli). pose proof (local_fresh _ Hl) as [Ho Hb].
    eapply wp_mono; [apply main_cleanup_spec; [done|by rewrite Ho|cbn [cleanable]; rewrite Hb; by intros path ?%elem_of_nil]|].
    intros [r|h] w'; simpl; [|done]. intros (-> & Hrel & Hw & -> & ->).
    unfold EXIT_FAILURE. auto 10.
  - intros w (Hl & Hsz & Hr & Hli) _ _ _ _.
    eapply wp_mono; [apply main_serve_spec; solve [done|by apply local_fresh]|].
    intros [r|h] w' (new & _ & Ho); simpl; [|done].
    destruct Ho as (Hrel & Hw & -> & Hreq & Hexit). rewrite Hr in Hreq.
    split_and!; auto. destruct Hexit as [[-> _]| ->]; auto.
Qed.

(** C2. End to end: for an executable at [dir/build/exe] and a text file
    [dir/credentials.demo], the backend exits with success only after it read
    one whole request and answered it in full, and the answer grants access
    exactly when the request is a well-formed login with the username and
    the password of the file; without a single valid account it fails. *)
Theorem main_authenticates (K : kernel sys) fuel g dir build exe lines last :
  IOLaws K → deployed K fuel dir build exe lines last →
  wp K (main fuel) (post (λ r w',
    match parse_credentials (lines ++ [last]) with
    | Some (u, p) => r = EXIT_SUCCESS →
        ∃ fd raw, received fd (trace w') = raw ∧ length raw = sizeof_AuthRequest ∧
          sent fd (trace w') = answer raw (credential_of u p) ∧
          (rs_result (decode_response (sent fd (trace w'))) =
             AuthResult_code AUTH_RESULT_SUCCESS ↔
           well_formed_login (decode_request raw) ∧
           c_string (rq_username (decode_request raw)) = u ∧
           c_string (rq_password (decode_request raw)) = p)
    | None => r = EXIT_FAILURE
    end) (λ h _, h = OutOfFuel)) (World g []).
Proof.
  intros HK Hdep. apply (main_walk_deployed K fuel g _ dir build exe lines last Hdep).
  - done.
  - intros w _ _. simpl. by destruct (parse_credentials _) as [[u p]|].
  - intros w (Hl & Hsz & _). eapply wp_mono.
    { pose proof (local_fresh _ Hl) as [Ho Hb].
      apply main_cleanup_spec; [done|by rewrite Ho|cbn [cleanable]; rewrite Hb; by intros path ?%elem_of_nil]. }
    intros [r|h] w'; simpl; [|done]. intros (-> & _).
    by destruct (parse_credentials _) as [[u p]|].
  - intros w u p (Hl & Hsz & _) Hparse HC. rewrite Hparse.
    eapply wp_mono; [apply main_serve_spec; solve [done|by apply local_fresh]|].
    intros [r|h] w' (new & Htr & Ho); simpl; [|done]. intros ->.
    destruct Ho as (_ & _ & _ & _ & [[_ (fd & Hlr & Hs)]|[=]]).
    exists fd, (received fd new).
    destruct (dataless_nothing fd (trace w)) as [Hr0 Hs0];
      [by eapply Forall_impl; [|apply local_dataless]|].
    rewrite Htr, received_app, sent_app, Hr0, Hs0, Hs, HC. simpl.
    apply parse_credentials_Some in Hparse as (Hu & Hp & _); [|apply Hdep].
    split_and!; try done. by apply answer_grants.
Qed.

(** C26. In every run, however it ends, all the backend ever sends on a
    connection is part of the rejection of a peer or part of the answer to
    the one whole request it read there, decided against the account in its
    credential file; without a single valid account it sends nothing. *)
Theorem main_replies (K : kernel sys) fuel g dir build exe lines last :
  IOLaws K → deployed K fuel dir build exe lines last →
  wp K (main fuel) (λ _ w',
    match parse_credentials (lines ++ [last]) with
    | Some (u, p) => replies (credential_of u p) (trace w')
    | None => ∀ fd, sent fd (trace w') = []
    end) (World g []).
Proof. intros HK Hdep. by apply (main_replies_spec K fuel g dir build exe). Qed.

(** ** Witnesses *)

Definition backend_memory : backend := MkBackend false empty_credential [] [] [].

(** A backend deployed in /srv/Authentication, started as user 1000. *)
Definition backend_kernel (input : list byte) : kernel sys :=
  λ T tr c, credential_kernel (Uids 1000 1000 1000)
    (λ path, if bool_decide (path = txt sample_path)
             then Some (text_of sample_lines []) else Some (txt "Uid:")) input T tr c.

#[export] Instance backend_kernel_io input : IOLaws (backend_kernel input).
Proof.
  split; cbn.
  - intros _ _ n data [= <-]. rewrite length_take. lia.
  - intros _ _ data k [= <-]. done.
  - intros _ _ n link [= <-]. rewrite length_take. lia.
Qed.

Lemma backend_kernel_deployed input :
  deployed (backend_kernel input) 300 (txt "/srv/Authentication") (txt "build")
    (txt "Backend") sample_lines [].
Proof.
  split; try (apply (bool_decide_unpack _); vm_compute; exact I).
  - intros tr. vm_compute. reflexivity.
  - intros tr. vm_compute. reflexivity.
  - intros tr. reflexivity.
Qed.

Lemma main_privileges_dropped_first_witness :
  wp (backend_kernel []) (main 300) (λ _ w',
    guarded_by network (drop_evidence 1000 1000) (trace w')) (World backend_memory []).
Proof. apply main_privileges_dropped_first. apply backend_kernel_io. Defined.

(** A run that reads its request from descriptor 4. *)
Lemma main_reads_attested_peer_witness :
  let K := backend_kernel (encode_request (sample_request "admin" "secret")) in
  let run := main 300 K (World backend_memory []) in
  run.1 = Ret EXIT_SUCCESS ∧ existsb (reads_from 4) (trace run.2) = true ∧
  ∀ fd, guarded_by (reads_from fd) (connection_attested 1000 1000 fd) (trace run.2).
Proof.
  intros K run. split_and!; [by vm_compute..|].
  apply (main_reads_attested_peer K 300 backend_memory). apply backend_kernel_io.
Defined.

(** A run that binds the socket path and removes it again. *)
Lemma main_cleans_up_witness :
  let K := backend_kernel (encode_request (sample_request "admin" "secret")) in
  (main 300 K (World backend_memory [])).1 = Ret EXIT_SUCCESS ∧
  wp K (main 300) (post (λ r w',
    released (trace w') ∧ wiped (globals w') ∧
    (line (globals w') = zeros CREDENTIAL_LINE_MAX ∨ line (globals w') = []) ∧
    (request (globals w') = zeros sizeof_AuthRequest ∨ request (globals w') = []) ∧
    (r = EXIT_SUCCESS ∨ r = EXIT_FAILURE)) (λ h _, h = OutOfFuel)) (World backend_memory []).
Proof.
  intros K. split; [by vm_compute|].
  apply (main_cleans_up K 300 backend_memory). apply backend_kernel_io.
Defined.

Lemma main_authenticates_witness :
  wp (backend_kernel (encode_request (sample_request "admin" "secret"))) (main 300)
    (post (λ r w', r = EXIT_SUCCESS →
      ∃ fd raw, received fd (trace w') = raw ∧ length raw = sizeof_AuthRequest ∧
        sent fd (trace w') = answer raw (credential_of (txt "admin") (txt "secret")) ∧
        (rs_result (decode_response (sent fd (trace w'))) =
           AuthResult_code AUTH_RESULT_SUCCESS ↔
         well_formed_login (decode_request raw) ∧
         c_string (rq_username (decode_request raw)) = txt "admin" ∧
         c_string (rq_password (decode_request raw)) = txt "secret"))
      (λ h _, h = OutOfFuel)) (World backend_memory []).
Proof.
  apply (main_authenticates (backend_kernel (encode_request (sample_request "admin" "secret")))
    300 backend_memory (txt "/srv/Authentication") (txt "build") (txt "Backend") sample_lines []).
  - apply backend_kernel_io.
  - apply backend_kernel_deployed.
Defined.

Lemma main_replies_witness :
  wp (backend_kernel []) (main 300) (λ _ w',
    replies (credential_of (txt "admin") (txt "secret")) (trace w')) (World backend_memory []).
Proof.
  apply (main_replies (backend_kernel []) 300 backend_memory (txt "/srv/Authentication")
    (txt "build") (txt "Backend") sample_lines []).
  - apply backend_kernel_io.
  - apply backend_kernel_deployed.
Defined.
