(* ===== verification/Frontend.v ===== *)
(** * Frontend.c: the program, and reading the two fields

    The client: signal flag, terminal echo, reading the two fields, the
    exchange with the backend and [main]; what holds of the exchange and of
    [main] is in FrontendMain. *)

From S2P Require Import Prelude.
From S2P Require Import CLib.
From S2P Require Import SecureMemory.
From S2P Require Import AuthProtocol.
From S2P Require Import AuthSys.
From S2P Require Import Transfer.
Local Open Scope Z_scope.

Definition USERNAME_INPUT_BUFFER_SIZE : nat := AUTH_USERNAME_MAX + 2.
Definition PASSWORD_INPUT_BUFFER_SIZE : nat := AUTH_PASSWORD_MAX + 2.

(** [ECHO] of [termios.h]. *)
Definition ECHO : Z := 8.

Record TerminalEchoState := MkTerminalEchoState {
  original : option termios;      (**r [None] while unset *)
  restore_required : bool
}.

(** The objects of the process: the flag [frontend_interrupted], the standard
    input, [request] and [response] of [main], [input] of [read_username] and
    of [read_password]. *)
Record frontend := MkFrontend {
  frontend_interrupted : bool;
  stdin : FILE;
  request : AuthRequest;
  response : list byte;
  username_input : list byte;
  password_input : list byte
}.

Notation Frontend := (prog sys frontend).

Definition set_interrupted (b : bool) (g : frontend) : frontend :=
  MkFrontend b (stdin g) (request g) (response g) (username_input g) (password_input g).
Definition set_stdin (f : FILE) (g : frontend) : frontend :=
  MkFrontend (frontend_interrupted g) f (request g) (response g)
    (username_input g) (password_input g).
Definition set_request (r : AuthRequest) (g : frontend) : frontend :=
  MkFrontend (frontend_interrupted g) (stdin g) r (response g)
    (username_input g) (password_input g).
Definition set_response (r : list byte) (g : frontend) : frontend :=
  MkFrontend (frontend_interrupted g) (stdin g) (request g) r
    (username_input g) (password_input g).
Definition set_username_input (l : list byte) (g : frontend) : frontend :=
  MkFrontend (frontend_interrupted g) (stdin g) (request g) (response g)
    l (password_input g).
Definition set_password_input (l : list byte) (g : frontend) : frontend :=
  MkFrontend (frontend_interrupted g) (stdin g) (request g) (response g)
    (username_input g) l.

Definition with_username (u : list byte) (r : AuthRequest) : AuthRequest :=
  MkAuthRequest (rq_version r) (rq_type r) u (rq_password r).
Definition with_password (p : list byte) (r : AuthRequest) : AuthRequest :=
  MkAuthRequest (rq_version r) (rq_type r) (rq_username r) p.

Definition clear_request (r : AuthRequest) : AuthRequest :=
  MkAuthRequest 0 0 (clear_object (rq_username r)) (clear_object (rq_password r)).

(** The handler installed for [SIGINT] and [SIGTERM]. *)
Definition handle_frontend_signal (signal_number : Z) (g : frontend) : frontend :=
  set_interrupted true g.

(** A read of [frontend_interrupted]. *)
Definition read_frontend_interrupted : Frontend bool :=
  let* signals := call Pending_signals in
  modify (λ g, foldl (λ g s, handle_frontend_signal s g) g signals) ;;;
  get frontend_interrupted.

Definition perror (s : string) (e : Z) : Frontend unit :=
  fprintf Stderr "%s: %s\n" [AStr (txt s); AErrno e].

Definition install_frontend_signal_handlers : Frontend Z :=
  let* r := (let* r := call (Sigaction SIGINT Handle) in
             match r with
             | Err e => ret (Some e)
             | Ok _ =>
                 let* r := call (Sigaction SIGTERM Handle) in
                 match r with Err e => ret (Some e) | Ok _ => ret None end
             end) in
  match r with
  | Some e => perror "sigaction" e ;;; ret (-1)
  | None =>
      let* r := call (Sigaction SIGPIPE Ignore) in
      match r with
      | Err e => perror "sigaction" e ;;; ret (-1)
      | Ok _ => ret 0
      end
  end.

Definition discard_remaining_input_line : Frontend unit :=
  modify (λ g, set_stdin (skip_line (f_rest (stdin g)) (stdin g)) g).

(** The mode with [ECHO] switched off. *)
Definition hidden_mode (t : termios) : termios :=
  Termios (Z.land (c_lflag t) (Z.lnot ECHO `mod` 2 ^ 32)) (c_other t).

Definition disable_terminal_echo : Frontend (Z * TerminalEchoState) :=
  let* tty := call Isatty in
  if negb tty then ret (0, MkTerminalEchoState None false) else
  let* r := call Tcgetattr in
  match r with
  | Err e => perror "tcgetattr" e ;;; ret (-1, MkTerminalEchoState None false)
  | Ok t =>
      let* r := call (Tcsetattr_flush (hidden_mode t)) in
      match r with
      | Err e => perror "tcsetattr" e ;;; ret (-1, MkTerminalEchoState (Some t) false)
      | Ok _ => ret (0, MkTerminalEchoState (Some t) true)
      end
  end.

Definition restore_terminal_echo (state : TerminalEchoState) : Frontend Z :=
  match restore_required state, original state with
  | true, Some t =>
      let* r := call (Tcsetattr_flush t) in
      match r with
      | Err e => perror "tcsetattr" e ;;; ret (-1)
      | Ok _ => ret 0
      end
  | _, _ => ret 0
  end.

(** [fgets] failed: the message for the end of the input or the error. *)
Definition report_no_input (message : string) : Frontend unit :=
  let* file := get stdin in
  if f_feof file then fprintf Stderr message [] else perror "fgets" (f_errno file).

(** The checks on a terminated line, from [input_length] on; [inl] is the
    message of a refusal. *)
Definition take_field (empty_message long_message : string) (maximum : nat)
    (input field : list byte) : (string * list arg) + list byte :=
  let input_length := strlen input in
  if bool_decide (input_length = 0)%nat then inl (empty_message, [])
  else if bool_decide (length field ≤ input_length)%nat then
    inl (long_message, [AInt (Z.of_nat maximum)])
  else inr (store 0 (take (input_length + 1) input) field).

Definition username_too_long : string :=
  "Username is too long. Maximum length is %u characters.\n".
Definition password_too_long : string :=
  "Password is too long. Maximum length is %u characters.\n".

Definition read_username : Frontend Z :=
  let* interrupted := read_frontend_interrupted in
  if interrupted : bool then
    fprintf Stderr "Authentication input interrupted.\n" [] ;;; ret (-1)
  else
  fprintf Stdout "Username: " [] ;;;
  call (Fflush Stdout) ;;;
  let* input := get username_input in
  let* file := get stdin in
  let (line, file) := fgets input file in
  modify (set_stdin file) ;;;
  match line with
  | None =>
      let* interrupted := read_frontend_interrupted in
      if interrupted : bool then
        fprintf Stderr "Authentication input interrupted.\n" [] ;;; ret (-1)
      else report_no_input "No username provided.\n" ;;; ret (-1)
  | Some input =>
      modify (set_username_input input) ;;;
      let newline_index := strcspn input [LF] in
      if bool_decide (char_at input newline_index = LF) then
        let input := <[newline_index := NUL]> input in
        modify (set_username_input input) ;;;
        let* username := get (λ g, rq_username (request g)) in
        match take_field "Username must not be empty.\n" username_too_long
                AUTH_USERNAME_MAX input username with
        | inl (message, args) => fprintf Stderr message args ;;; ret (-1)
        | inr username =>
            modify (λ g, set_request (with_username username (request g)) g) ;;; ret 0
        end
      else
        discard_remaining_input_line ;;;
        fprintf Stderr username_too_long [AInt (Z.of_nat AUTH_USERNAME_MAX)] ;;;
        ret (-1)
  end.

Definition clear_password_input : Frontend unit :=
  modify (λ g, set_password_input (clear_object (password_input g)) g).

(** How the read of the password ended: [read_failed], [input_too_long], or
    neither. *)
Inductive read_outcome : Type := ReadFailed | InputTooLong | ReadLine.

(** The [fgets] call of [read_password] and the code up to
    [restore_terminal_echo]. *)
Definition read_hidden_line : Frontend read_outcome :=
  let* input := get password_input in
  let* file := get stdin in
  let (line, file) := fgets input file in
  modify (set_stdin file) ;;;
  match line with
  | None => ret ReadFailed
  | Some input =>
      modify (set_password_input input) ;;;
      let newline_index := strcspn input [LF] in
      if bool_decide (char_at input newline_index = LF) then
        modify (set_password_input (<[newline_index := NUL]> input)) ;;;
        ret ReadLine
      else
        discard_remaining_input_line ;;;
        ret InputTooLong
  end.

(** A message, the clearing of [input] and [return -1]. *)
Definition refuse_password (message : string) (args : list arg) : Frontend Z :=
  fprintf Stderr message args ;;; clear_password_input ;;; ret (-1).

(** The code of [read_password] after the echo was restored. *)
Definition store_password (o : read_outcome) : Frontend Z :=
  fprintf Stdout "\n" [] ;;;
  let* interrupted := read_frontend_interrupted in
  if interrupted : bool then refuse_password "Password input interrupted.\n" [] else
  match o with
  | ReadFailed =>
      report_no_input "No password provided.\n" ;;; clear_password_input ;;; ret (-1)
  | InputTooLong =>
      refuse_password password_too_long [AInt (Z.of_nat AUTH_PASSWORD_MAX)]
  | ReadLine =>
      let* input := get password_input in
      let* password := get (λ g, rq_password (request g)) in
      match take_field "Password must not be empty.\n" password_too_long
              AUTH_PASSWORD_MAX input password with
      | inl (message, args) => refuse_password message args
      | inr password =>
          modify (λ g, set_request (with_password password (request g)) g) ;;;
          clear_password_input ;;;
          ret 0
      end
  end.

Definition read_password : Frontend Z :=
  modify (set_password_input (zeros PASSWORD_INPUT_BUFFER_SIZE)) ;;;
  let* interrupted := read_frontend_interrupted in
  if interrupted : bool then
    fprintf Stderr "Password input interrupted.\n" [] ;;; ret (-1)
  else
  fprintf Stdout "Password: " [] ;;;
  call (Fflush Stdout) ;;;
  let* (result, echo_state) := disable_terminal_echo in
  if bool_decide (result ≠ 0) then clear_password_input ;;; ret (-1) else
  let* interrupted := read_frontend_interrupted in
  if interrupted : bool then
    let* _ := restore_terminal_echo echo_state in
    fprintf Stdout "\n" [] ;;;
    refuse_password "Password input interrupted.\n" []
  else
  let* o := read_hidden_line in
  let* restored := restore_terminal_echo echo_state in
  if bool_decide (restored ≠ 0) then clear_password_input ;;; ret (-1)
  else store_password o.

Definition write_step (fd : nat) (rest : list byte) : Frontend (list byte + Z) :=
  if bool_decide (length rest = 0)%nat then ret (inr 0) else
  let* r := call (Write fd rest) in
  match r with
  | Err e =>
      if is_eintr e then
        let* interrupted := read_frontend_interrupted in
        if interrupted : bool then
          fprintf Stderr "Authentication request interrupted.\n" [] ;;; ret (inr (-1))
        else ret (inl rest)
      else perror "write" e ;;; ret (inr (-1))
  | Ok written =>
      if bool_decide (written = 0)%nat then
        fprintf Stderr
          "Unable to send authentication request: write returned zero bytes.\n" [] ;;;
        ret (inr (-1))
      else ret (inl (drop written rest))
  end.

Definition write_all (fuel fd : nat) (buffer : list byte) : Frontend Z :=
  loop fuel (write_step fd) buffer.

(** The state is the offset of [cursor] in the [response] object. *)
Definition read_step (fd size cursor : nat) : Frontend (nat + Z) :=
  let len := (size - cursor)%nat in
  if bool_decide (len = 0)%nat then ret (inr 0) else
  let* r := call (Read fd len) in
  match r with
  | Err e =>
      if is_eintr e then
        let* interrupted := read_frontend_interrupted in
        if interrupted : bool then
          fprintf Stderr "Authentication response interrupted.\n" [] ;;; ret (inr (-1))
        else ret (inl cursor)
      else perror "read" e ;;; ret (inr (-1))
  | Ok data =>
      modify (λ g, set_response (store cursor data (response g)) g) ;;;
      if bool_decide (length data = 0)%nat then
        fprintf Stderr
          "Backend closed the connection before sending a complete response.\n" [] ;;;
        ret (inr (-1))
      else ret (inl (cursor + length data)%nat)
  end.

Definition read_all (fuel fd size : nat) : Frontend Z :=
  loop fuel (read_step fd size) 0%nat.

Definition connect_to_backend : Frontend (option nat) :=
  let path := txt AUTH_SOCKET_PATH in
  let* r := call Socket in
  match r with
  | Err e => perror "socket" e ;;; ret None
  | Ok socket_fd =>
      if bool_decide (SUN_PATH_MAX ≤ length path)%nat then
        fprintf Stderr "Backend socket path is too long: %s\n" [AStr path] ;;;
        let* _ := call (Close socket_fd) in ret None
      else
      let* r := call (Connect socket_fd path) in
      match r with
      | Err e =>
          fprintf Stderr "Unable to connect to backend at %s: %s\n"
            [AStr path; AErrno e] ;;;
          let* _ := call (Close socket_fd) in ret None
      | Ok _ => ret (Some socket_fd)
      end
  end.

Definition clear_request_object : Frontend unit :=
  modify (λ g, set_request (clear_request (request g)) g).

(** The code after the [cleanup] label of [exchange_auth_request]. *)
Definition exchange_cleanup (socket_fd : nat) (result : Z) : Frontend Z :=
  clear_request_object ;;;
  let* r := call (Close socket_fd) in
  match r with
  | Err e => perror "close" e ;;; ret (-1)
  | Ok _ => ret result
  end.

Definition exchange_auth_request (fuel : nat) : Frontend Z :=
  let* interrupted := read_frontend_interrupted in
  if interrupted : bool then
    fprintf Stderr "Authentication request cancelled.\n" [] ;;;
    clear_request_object ;;; ret (-1)
  else
  let* socket_fd := connect_to_backend in
  match socket_fd with
  | None => clear_request_object ;;; ret (-1)
  | Some socket_fd =>
      let* rq := get request in
      let* r := write_all fuel socket_fd (encode_request rq) in
      clear_request_object ;;;
      if bool_decide (r ≠ 0) then exchange_cleanup socket_fd (-1) else
      let* r := read_all fuel socket_fd sizeof_AuthResponse in
      if bool_decide (r ≠ 0) then exchange_cleanup socket_fd (-1)
      else exchange_cleanup socket_fd 0
  end.

(** The report on a received response; the result is [exit_code]. *)
Definition report_response (rs : AuthResponse) : Frontend Z :=
  match memchr (rs_message rs) NUL with
  | None =>
      fprintf Stderr "Backend returned a malformed response message.\n" [] ;;;
      ret EXIT_FAILURE
  | Some _ =>
      if bool_decide (rs_version rs ≠ AUTH_PROTOCOL_VERSION) then
        fprintf Stderr "Unsupported backend protocol version: %u\n"
          [AInt (rs_version rs)] ;;;
        ret EXIT_FAILURE
      else
      let args := [AStr (rs_message rs); AInt (rs_result rs); AInt (rs_error_code rs)] in
      if bool_decide (rs_result rs = AuthResult_code AUTH_RESULT_SUCCESS) then
        fprintf Stdout "Authentication succeeded: %s (result=%u, error=%u)\n" args ;;;
        ret EXIT_SUCCESS
      else
        fprintf Stderr "Authentication failed: %s (result=%u, error=%u)\n" args ;;;
        ret EXIT_FAILURE
  end.

(** The code after the [cleanup] label of [main]. *)
Definition main_cleanup (exit_code : Z) : Frontend Z :=
  clear_request_object ;;;
  modify (λ g, set_response (clear_object (response g)) g) ;;;
  ret exit_code.

Definition initial_request : AuthRequest :=
  MkAuthRequest AUTH_PROTOCOL_VERSION AUTH_REQUEST_VALIDATE
    (zeros sizeof_username) (zeros sizeof_password).

Definition main (fuel : nat) : Frontend Z :=
  modify (set_request initial_request) ;;;
  modify (set_response (zeros sizeof_AuthResponse)) ;;;
  let* r := install_frontend_signal_handlers in
  if bool_decide (r ≠ 0) then main_cleanup EXIT_FAILURE else
  let* r := read_username in
  if bool_decide (r ≠ 0) then main_cleanup EXIT_FAILURE else
  let* r := read_password in
  if bool_decide (r ≠ 0) then main_cleanup EXIT_FAILURE else
  let* r := exchange_auth_request fuel in
  if bool_decide (r ≠ 0) then main_cleanup EXIT_FAILURE else
  let* raw := get response in
  let* exit_code := report_response (decode_response raw) in
  main_cleanup exit_code.

(** ** Specification *)

(** The arrays of the process have their declared sizes. *)
Definition sized (g : frontend) : Prop :=
  length (username_input g) = USERNAME_INPUT_BUFFER_SIZE ∧
  length (rq_username (request g)) = sizeof_username ∧
  length (rq_password (request g)) = sizeof_password.

(** A field of the request that holds a string of permitted length. *)
Definition field_ok (maximum : nat) (field : list byte) : Prop :=
  length field = S maximum ∧ NUL ∈ field ∧ (0 < strlen field ≤ maximum)%nat.

(** All the memory but the signal flag, the input stream and its buffers. *)
Definition messages (g : frontend) : AuthRequest * list byte := (request g, response g).

(** All the memory but the signal flag. *)
Definition contents (g : frontend)
    : FILE * AuthRequest * list byte * list byte * list byte :=
  (stdin g, request g, response g, username_input g, password_input g).

(** The attempts to set the terminal mode, newest first, and their success. *)
Definition mode_set (e : event sys) : option (termios * bool) :=
  match e with
  | Ev (Tcsetattr_flush t) r => Some (t, match r with Ok _ => true | Err _ => false end)
  | _ => None
  end.
Definition modes_set (tr : trace_t) : list (termios * bool) := omap mode_set tr.

(** Either the terminal was left alone, or hiding the echo failed, or it was
    hidden and the mode found before is the last one asked for. *)
Definition echo_restored (new : trace_t) (r : Z) : Prop :=
  modes_set new = [] ∨
  ∃ t, Ev Tcgetattr (Ok t) ∈ new ∧
    (modes_set new = [(hidden_mode t, false)] ∧ r = -1 ∨
     ∃ restored, modes_set new = [(t, restored); (hidden_mode t, true)] ∧
       (restored = false → r = -1)).

(** What [disable_terminal_echo] did to the terminal. *)
Definition echo_disabled (new : trace_t) (r : Z) (st : TerminalEchoState) : Prop :=
  restore_required st = false ∧ (modes_set new = [] ∨
    r = -1 ∧ ∃ t, Ev Tcgetattr (Ok t) ∈ new ∧ modes_set new = [(hidden_mode t, false)])
  ∨ r = 0 ∧ ∃ t, st = MkTerminalEchoState (Some t) true ∧
    Ev Tcgetattr (Ok t) ∈ new ∧ modes_set new = [(hidden_mode t, true)].

(** What reading a field leaves in the request. *)
Definition field_post (maximum : nat) (with_field : list byte → AuthRequest → AuthRequest)
    (rq rq' : AuthRequest) (r : Z) : Prop :=
  r = 0 ∧ (∃ field, rq' = with_field field rq ∧ field_ok maximum field)
  ∨ r = -1 ∧ rq' = rq.

(** A request whose type, version and fields are what [main] sends. *)
Definition login_request (rq : AuthRequest) : Prop :=
  rq_version rq = AUTH_PROTOCOL_VERSION ∧ rq_type rq = AUTH_REQUEST_VALIDATE ∧
  field_ok AUTH_USERNAME_MAX (rq_username rq) ∧
  field_ok AUTH_PASSWORD_MAX (rq_password rq).

Definition zero_request : AuthRequest :=
  MkAuthRequest 0 0 (zeros sizeof_username) (zeros sizeof_password).

(** No signal arrives. *)
Definition undisturbed (K : kernel sys) : Prop := ∀ tr, K _ tr Pending_signals = [].

(** Reading and setting the terminal mode succeeds. *)
Definition terminal_works (K : kernel sys) : Prop :=
  (∀ tr t, K _ tr (Tcsetattr_flush t) = Ok tt) ∧ (∀ tr, ∃ t, K _ tr Tcgetattr = Ok t).

(** ** Lemmas *)

Lemma frontend_signals g signals :
  foldl (λ g s, handle_frontend_signal s g) g signals =
  set_interrupted (frontend_interrupted
    (foldl (λ g s, handle_frontend_signal s g) g signals)) g.
Proof.
  induction signals as [|s signals IH] using rev_ind; [by destruct g|].
  rewrite !foldl_app. simpl. rewrite IH. done.
Qed.

#[export] Instance read_interrupted_keeps : Keeps contents read_frontend_interrupted.
Proof. unfold read_frontend_interrupted. solve_keeps. by rewrite frontend_signals. Qed.

#[export] Instance fprintf_keeps s fmt args : Keeps contents (fprintf s fmt args).
Proof. unfold fprintf. solve_keeps. Qed.

Lemma wp_read_interrupted K (Q : outcome bool → world sys frontend → Prop) w :
  (∀ b signals, Q (Ret b)
     (World (set_interrupted b (globals w)) (Ev Pending_signals signals :: trace w))) →
  wp K read_frontend_interrupted Q w.
Proof.
  intros HQ. unfold read_frontend_interrupted. wp_steps. rewrite frontend_signals. apply HQ.
Qed.

(** The same, where nothing disturbs the program. *)
Lemma wp_read_signals K (Q : outcome bool → world sys frontend → Prop) w :
  (∀ b signals, (undisturbed K → b = frontend_interrupted (globals w)) → Q (Ret b)
     (World (set_interrupted b (globals w)) (Ev Pending_signals signals :: trace w))) →
  wp K read_frontend_interrupted Q w.
Proof.
  intros HQ. unfold read_frontend_interrupted. wp_steps. rewrite frontend_signals. apply HQ.
  intros HK. by rewrite HK.
Qed.

Lemma wp_perror K s e (Q : outcome unit → world sys frontend → Prop) w :
  wp K (perror s e) Q w =
  Q (Ret tt) (World (globals w)
    (Ev (Fprintf Stderr "%s: %s\n" [AStr (txt s); AErrno e]) tt :: trace w)).
Proof. unfold perror. by rewrite wp_fprintf. Qed.

#[export] Hint Rewrite wp_perror : wp.

(** The checks on a terminated line. *)
Lemma take_field_spec empty_message long_message maximum input field :
  length field = S maximum → NUL ∈ input →
  match take_field empty_message long_message maximum input field with
  | inl _ => ¬ (0 < strlen input ≤ maximum)%nat
  | inr field' => (0 < strlen input ≤ maximum)%nat ∧
      field' = store 0 (c_string input ++ [NUL]) field ∧ field_ok maximum field'
  end.
Proof.
  intros Hlen HN. unfold take_field.
  case_bool_decide as H1; [lia|]. case_bool_decide as H2; [lia|].
  destruct (c_string_cases input) as [(r & Hr & _)|[_ Hr]];
    [|by apply memchr_None in Hr].
  assert (take (strlen input + 1) input = c_string input ++ [NUL]) as Htake.
  { rewrite <- length_c_string at 1. rewrite Hr at 2. apply take_middle. }
  pose proof (length_c_string input) as Hs. pose proof (c_string_no_nul input) as Hn.
  rewrite Htake. split_and!; [lia..|done|].
  unfold field_ok. rewrite length_store by (rewrite length_app; simpl; lia).
  rewrite strlen_store by (done || lia).
  split_and!; [done| |lia..]. apply elem_of_store0, elem_of_app. right. by left.
Qed.

(** ** Reading a line *)

Lemma elem_of_insert_NUL i (l : list byte) : (i < length l)%nat → NUL ∈ <[i := NUL]> l.
Proof. intros H. apply list_elem_of_lookup. exists i. by apply list_lookup_insert_eq. Qed.

Section reading.
Context (K : kernel sys).

Lemma char_at_lt (l : list byte) i c : char_at l i = c → c ≠ NUL → (i < length l)%nat.
Proof.
  unfold char_at. destruct (l !! i) eqn:E; simpl; intros <-; [|done].
  intros _. by eapply lookup_lt_Some.
Qed.

Lemma read_username_spec w :
  sized (globals w) →
  wp K read_username (post (λ r w',
    sized (globals w') ∧ response (globals w') = response (globals w) ∧
    password_input (globals w') = password_input (globals w) ∧
    field_post AUTH_USERNAME_MAX with_username (request (globals w))
      (request (globals w')) r) (λ _ _, False)) w.
Proof.
  intros (Hin & Hu & Hp). unfold read_username. wp_steps.
  apply wp_read_interrupted. intros [] sigs; wp_steps.
  { unfold sized, field_post. simpl. auto 10. }
  simpl. destruct (fgets _ _) as [line file] eqn:Hf. wp_steps.
  destruct line as [input|].
  2: { wp_steps. apply wp_read_interrupted. intros [] sigs'; wp_steps;
       [|unfold report_no_input; wp_steps; case_match; wp_steps];
       unfold sized, field_post; simpl; auto 10. }
  apply fgets_Some in Hf as (got & Hinput & Hlen & _); [|rewrite Hin; cbn; lia].
  wp_steps. wp_decide Hnl; wp_steps.
  2: { unfold discard_remaining_input_line. wp_steps. unfold sized, field_post. simpl.
       rewrite Hlen. auto 10. }
  pose proof (char_at_lt _ _ _ Hnl ltac:(done)) as Hlt.
  simpl. pose proof (take_field_spec "Username must not be empty.\n" username_too_long
    AUTH_USERNAME_MAX _ _ Hu (elem_of_insert_NUL _ input Hlt)) as Hfield.
  destruct (take_field _ _ _ _ _) as [[message args]|field]; wp_steps;
    unfold sized, field_post; simpl; rewrite length_insert, Hlen.
  - auto 10.
  - destruct Hfield as (_ & _ & Hok). split_and!; try done; [apply Hok|].
    left. split; [done|]. by exists field.
Qed.

Lemma modes_set_cons e tr :
  modes_set (e :: tr) =
  match mode_set e with Some m => m :: modes_set tr | None => modes_set tr end.
Proof. done. Qed.

Lemma disable_spec w :
  wp K disable_terminal_echo (post (λ (r : Z * TerminalEchoState) w',
    globals w' = globals w ∧ (r.1 = 0 ∨ r.1 = -1) ∧
    ∃ new, trace w' = new ++ trace w ∧ echo_disabled new r.1 r.2) (λ _ _, False)) w.
Proof.
  unfold disable_terminal_echo. wp_steps. destruct (K _ _ Isatty); wp_steps.
  2: { split_and!; auto. eexists [_]. split; [reflexivity|]. left. auto. }
  destruct (K _ _ Tcgetattr) as [t|e]; wp_steps.
  2: { split_and!; auto. eexists [_; _; _]. split; [reflexivity|]. left. auto. }
  destruct (K _ _ (Tcsetattr_flush _)) as [[]|e]; wp_steps; (split_and!; [by auto..|]).
  - eexists [_; _; _]. split; [reflexivity|]. right. split; [done|]. exists t.
    split_and!; [done| |done]. right. by left.
  - eexists [_; _; _; _]. split; [reflexivity|]. left. split; [done|]. right.
    split; [done|]. exists t. split; [|done]. right. right. by left.
Qed.

(** The events between hiding and restoring touch neither modes nor memory. *)
Lemma restore_spec st new r (w w0 : world sys frontend) :
  trace w = new ++ trace w0 → echo_disabled new r st →
  wp K (restore_terminal_echo st) (post (λ r' w',
    globals w' = globals w ∧ (r' = 0 ∨ r' = -1) ∧
    ∃ new', trace w' = new' ++ trace w0 ∧
      ∀ result, (r' ≠ 0 → result = -1) → (r ≠ 0 → result = -1) →
        echo_restored new' result) (λ _ _, False)) w.
Proof.
  intros Htr Hst. unfold restore_terminal_echo.
  destruct Hst as [[Hreq Hmodes]|[-> (t & -> & Hget & Hmodes)]]; simpl.
  - rewrite Hreq. wp_steps. split_and!; auto. exists new. split; [done|].
    intros result _ Hr. destruct Hmodes as [Hmodes|[-> (t & Hget & Hmodes)]]; [by left|].
    right. exists t. split; [done|]. left. split; [done|]. apply Hr. lia.
  - wp_steps. destruct (K _ _ (Tcsetattr_flush _)) as [[]|e]; wp_steps;
      (split_and!; [by auto..|]).
    + eexists (_ :: new). rewrite Htr. split; [reflexivity|]. intros result _ _. right.
      exists t. split; [by right|]. right. exists true. rewrite modes_set_cons. simpl. by rewrite Hmodes.
    + eexists (_ :: _ :: new). rewrite Htr. split; [reflexivity|]. intros result Hr _.
      right. exists t. split; [by right; right|]. right. exists false.
      rewrite !modes_set_cons. simpl. rewrite Hmodes. split; [done|]. intros _. by apply Hr.
Qed.

Lemma read_hidden_line_spec w :
  length (password_input (globals w)) = PASSWORD_INPUT_BUFFER_SIZE →
  wp K read_hidden_line (post (λ o w',
    trace w' = trace w ∧ messages (globals w') = messages (globals w) ∧
    username_input (globals w') = username_input (globals w) ∧
    length (password_input (globals w')) = PASSWORD_INPUT_BUFFER_SIZE ∧
    (o = ReadLine → NUL ∈ password_input (globals w'))) (λ _ _, False)) w.
Proof.
  intros Hin. unfold read_hidden_line. wp_steps.
  destruct (fgets _ _) as [[input|] file] eqn:Hf; wp_steps; [|done].
  apply fgets_Some in Hf as (got & Hinput & Hlen & _); [|rewrite Hin; cbn; lia].
  rewrite Hin in Hlen. wp_decide Hnl; wp_steps.
  - simpl. rewrite length_insert. split_and!; try done. intros _.
    by apply elem_of_insert_NUL, (char_at_lt _ _ _ Hnl).
  - unfold discard_remaining_input_line. by wp_steps.
Qed.

Lemma store_password_spec o w :
  length (password_input (globals w)) = PASSWORD_INPUT_BUFFER_SIZE →
  length (rq_password (request (globals w))) = sizeof_password →
  (o = ReadLine → NUL ∈ password_input (globals w)) →
  wp K (store_password o) (post (λ r w',
    password_input (globals w') = zeros PASSWORD_INPUT_BUFFER_SIZE ∧
    response (globals w') = response (globals w) ∧
    username_input (globals w') = username_input (globals w) ∧
    field_post AUTH_PASSWORD_MAX with_password (request (globals w))
      (request (globals w')) r) (λ _ _, False)) w.
Proof.
  intros Hin Hp HN. unfold store_password, refuse_password, clear_password_input. wp_steps.
  apply wp_read_interrupted. intros [] sigs; wp_steps; simpl.
  { rewrite clear_object_zeros, Hin. unfold field_post. auto 10. }
  destruct o; wp_steps; simpl.
  - unfold report_no_input. wp_steps. case_match; wp_steps; simpl;
      rewrite clear_object_zeros, Hin; unfold field_post; auto 10.
  - rewrite clear_object_zeros, Hin. unfold field_post. auto 10.
  - pose proof (take_field_spec "Password must not be empty.\n" password_too_long
      AUTH_PASSWORD_MAX _ _ Hp (HN eq_refl)) as Hfield.
    destruct (take_field _ _ _ _ _) as [[message args]|field]; wp_steps; simpl;
      rewrite clear_object_zeros, Hin; unfold field_post; [by auto 10|].
    destruct Hfield as (_ & _ & Hok). split_and!; try done. left. split; [done|].
    by exists field.
Qed.

Definition no_mode (e : event sys) : Prop := mode_set e = None.

#[export] Instance store_password_no_mode o : Emits no_mode (store_password o).
Proof.
  unfold store_password, refuse_password, clear_password_input, report_no_input, perror,
    read_frontend_interrupted, fprintf. solve_emits.
Qed.

Lemma modes_set_app new tr : modes_set (new ++ tr) = modes_set new ++ modes_set tr.
Proof. apply omap_app. Qed.

Lemma no_mode_nil new : Forall no_mode new → modes_set new = [].
Proof. induction 1 as [|e new He _ IH]; [done|]. by rewrite modes_set_cons, He. Qed.

(** Events without mode changes before and after change nothing. *)
Lemma echo_restored_weaken t1 t2 new r :
  modes_set t1 = [] → modes_set t2 = [] →
  echo_restored new r → echo_restored (t1 ++ new ++ t2) r.
Proof.
  intros H1 H2 H. unfold echo_restored. rewrite !modes_set_app, H1, H2, app_nil_r. simpl.
  destruct H as [|(t & Hin & H)]; [by left|]. right. exists t. split; [|done].
  rewrite !elem_of_app. auto.
Qed.

Lemma echo_disabled_cons e new r st :
  mode_set e = None → echo_disabled new r st → echo_disabled (e :: new) r st.
Proof.
  intros He H. unfold echo_disabled. rewrite modes_set_cons, He.
  destruct H as [[Hst [H|(Hr & t & Hin & H)]]|(Hr & t & Hst & Hin & H)].
  - left. auto.
  - left. split; [done|]. right. split; [done|]. exists t. split; [by right|done].
  - right. split; [done|]. exists t. split_and!; [done|by right|done].
Qed.

Lemma echo_disabled_failed new r st :
  echo_disabled new r st → r = -1 → echo_restored new (-1).
Proof.
  intros [[_ [H|(-> & t & Hin & H)]]|(-> & _)] Hr; [by left| |lia].
  right. exists t. auto.
Qed.

Definition password_post (w : world sys frontend) (r : Z) (w' : world sys frontend) : Prop :=
  password_input (globals w') = zeros PASSWORD_INPUT_BUFFER_SIZE ∧
  response (globals w') = response (globals w) ∧
  username_input (globals w') = username_input (globals w) ∧
  field_post AUTH_PASSWORD_MAX with_password (request (globals w)) (request (globals w')) r ∧
  ∃ new, trace w' = new ++ trace w ∧ echo_restored new r.

(** [read_password] from where the echo is off and no signal came. *)
Lemma read_hidden_password_spec st new w w1 :
  length (rq_password (request (globals w))) = sizeof_password →
  password_input (globals w) = zeros PASSWORD_INPUT_BUFFER_SIZE →
  contents (globals w1) = contents (globals w) → trace w1 = new ++ trace w →
  echo_disabled new 0 st →
  wp K (let* o := read_hidden_line in
        let* restored := restore_terminal_echo st in
        if bool_decide (restored ≠ 0) then clear_password_input ;;; ret (-1)
        else store_password o) (post (password_post w) (λ _ _, False)) w1.
Proof.
  intros Hp Hpi Hg1 Htr1 Hst. injection Hg1 as _ E1 E2 E3 E4. wp_steps. eapply wp_mono.
  { apply read_hidden_line_spec. by rewrite E4, Hpi. }
  intros [o|h] w3; simpl; [|done]. intros (Htr3 & Hmsg3 & Hui3 & Hpi3 & Ho).
  unfold messages in Hmsg3. rewrite E1, E2 in Hmsg3. rewrite E3 in Hui3.
  injection Hmsg3 as Hreq3 Hresp3. wp_steps. eapply wp_mono.
  { eapply (restore_spec st _ 0 _ w); [|exact Hst]. by rewrite Htr3, Htr1. }
  intros [r'|h] w4; simpl; [|done]. intros (Hg4 & Hr' & new4 & Htr4 & Hres).
  wp_decide Hr4; wp_steps.
  { unfold clear_password_input. wp_steps. unfold password_post, field_post. simpl.
    rewrite Hg4, Hreq3, Hresp3, Hui3, clear_object_zeros, Hpi3. split_and!; auto.
    exists new4. split; [done|]. by apply Hres. }
  assert (r' = 0) as -> by lia. eapply wp_mono.
  { apply wp_conj; [apply store_password_spec|apply (emits_wp no_mode), _];
      rewrite Hg4; [done|by rewrite Hreq3|done]. }
  intros [r5|h] w5; simpl; [|tauto].
  intros [(H1 & H2 & H3 & H4) (new5 & Htr5 & Hn5)]. unfold password_post.
  rewrite H1, H2, H3, Hg4, Hresp3, Hui3. rewrite Hg4, Hreq3 in H4. split_and!; auto.
  exists (new5 ++ new4). split; [by rewrite Htr5, Htr4, app_assoc|].
  rewrite <- (app_nil_r new4). apply echo_restored_weaken; [by apply no_mode_nil|done|].
  by apply Hres; [|done].
Qed.

(** The events before [w1] have nothing to do with the echo. *)
Lemma password_post_from new w w1 r w' :
  contents (globals w1) =
    contents (set_password_input (zeros PASSWORD_INPUT_BUFFER_SIZE) (globals w)) →
  trace w1 = new ++ trace w → modes_set new = [] →
  password_post w1 r w' → password_post w r w'.
Proof.
  unfold contents. simpl. intros Hc Htr Hm (Hpi & Hresp & Hui & Hf & new' & Htr' & He).
  injection Hc as _ E1 E2 E3 _. rewrite E1 in Hf. split_and!; [done|congruence|congruence|done|].
  exists (new' ++ new). rewrite Htr', Htr, app_assoc. split; [done|].
  by apply (echo_restored_weaken [] new new').
Qed.

Lemma read_password_spec w :
  length (rq_password (request (globals w))) = sizeof_password →
  wp K read_password (post (password_post w) (λ _ _, False)) w.
Proof.
  intros Hp. unfold read_password. wp_steps.
  apply wp_read_interrupted. intros [] sigs; wp_steps.
  { unfold password_post, field_post. simpl. split_and!; auto.
    eexists [_; _]. split; [reflexivity|]. by left. }
  set (w1 := World _ _). assert (length (rq_password (request (globals w1))) = sizeof_password) as Hp1 by done.
  assert (password_input (globals w1) = zeros PASSWORD_INPUT_BUFFER_SIZE) as Hpi1 by done.
  assert (∀ r w', password_post w1 r w' → password_post w r w') as Hfrom
    by (intros r w'; by eapply (password_post_from [_; _; _])).
  clearbody w1.
  eapply wp_mono; [apply disable_spec|]. intros [[r st]|h] w2; [|done].
  intros (Hg2 & Hr & new2 & Htr2 & Hst). cbn [fst snd] in Hr, Hst. wp_decide Hr0; wp_steps.
  { unfold clear_password_input. wp_steps. apply Hfrom. unfold password_post, field_post. simpl.
    rewrite Hg2, Hpi1, clear_object_zeros. split_and!; auto.
    exists new2. split; [done|]. apply (echo_disabled_failed _ r st); [done|lia]. }
  assert (r = 0) as -> by lia. apply wp_read_interrupted. intros b sigs2.
  apply (echo_disabled_cons (Ev Pending_signals sigs2)) in Hst; [|done].
  destruct b.
  2:{ eapply wp_mono; [apply (read_hidden_password_spec st (Ev Pending_signals sigs2 :: new2) w1);
        [done|done|by simpl; rewrite Hg2|by simpl; rewrite Htr2|done]|]. intros [r|h] w'; [apply Hfrom|done]. }
  wp_steps. eapply wp_mono.
  { eapply (restore_spec st _ 0 _ w1); [|exact Hst]. simpl. by rewrite Htr2. }
  intros [r'|h] w3; simpl; [|done]. intros (Hg3 & _ & new3 & Htr3 & Hres). wp_steps.
  unfold refuse_password, clear_password_input. wp_steps.
  apply Hfrom. unfold password_post, field_post. simpl. rewrite Hg3. simpl.
  rewrite Hg2, Hpi1, clear_object_zeros. split_and!; auto.
  eexists (_ :: _ :: new3). split; [simpl; by rewrite Htr3|].
  rewrite <- (app_nil_r new3).
  apply (echo_restored_weaken [_; _] []); [done..|]. by apply Hres.
Qed.

End reading.

(** ** Typed lines *)

Lemma skip_line_spec l rest f :
  LF ∉ l → skip_line (l ++ LF :: rest) f = File rest (f_fails f) (f_feof f) (f_ferror f).
Proof.
  intros Hl. induction l as [|c l IH]; simpl; [done|].
  apply not_elem_of_cons in Hl as [Hc Hl]. rewrite bool_decide_eq_false_2 by done. auto.
Qed.

(** A typed line that fits, and one that does not. *)
Lemma fgets_fits buf f l rest :
  f_rest f = l ++ LF :: rest → LF ∉ l → NUL ∉ l → (length l + 2 ≤ length buf)%nat →
  ∃ tail f', fgets buf f = (Some (l ++ LF :: tail), f') ∧ f_rest f' = rest ∧
    strcspn (l ++ LF :: tail) [LF] = length l.
Proof.
  intros Hf Hl HN Hlen. rewrite (fgets_line _ _ l rest) by done.
  exists (NUL :: drop (length l + 2) buf), (File rest (f_fails f) (f_feof f) (f_ferror f)).
  split_and!; [|done|].
  - unfold store. simpl. rewrite <- app_assoc, length_app. done.
  - apply strcspn_app; [done|set_solver|right; by left].
Qed.

Lemma fgets_too_long buf f l rest :
  f_rest f = l ++ LF :: rest → LF ∉ l → NUL ∉ l →
  (1 < length buf)%nat → (length buf ≤ length l + 1)%nat →
  ∃ input f', fgets buf f = (Some input, f') ∧
    char_at input (strcspn input [LF]) ≠ LF ∧ f_rest (skip_line (f_rest f') f') = rest.
Proof.
  intros Hf Hl HN Hbuf Hlen. unfold fgets. rewrite Hf.
  rewrite <- (take_drop (length buf - 1) l), <- app_assoc.
  assert (LF ∉ take (length buf - 1) l ∧ NUL ∉ take (length buf - 1) l ∧
          LF ∉ drop (length buf - 1) l) as (Hl1 & HN1 & Hl2).
  { rewrite <- (take_drop (length buf - 1) l) in Hl, HN. set_solver. }
  rewrite take_line_long by (done || rewrite length_take; lia). simpl.
  destruct (take (length buf - 1) l) as [|c got] eqn:Hgot.
  { apply (f_equal length) in Hgot. rewrite length_take in Hgot. simpl in Hgot. lia. }
  do 2 eexists. split; [done|]. split; [|by cbn [f_rest]; rewrite skip_line_spec].
  remember (c :: got) as s. unfold store. rewrite take_0, app_nil_l, <- app_assoc. simpl.
  rewrite strcspn_app by (done || set_solver). by rewrite char_at_middle.
Qed.

(** The checks on a line that was read whole. *)
Lemma take_field_line empty_message long_message maximum l r field :
  NUL ∉ l → length field = Datatypes.S maximum →
  take_field empty_message long_message maximum (l ++ NUL :: r) field =
  if bool_decide (length l = 0)%nat then inl (empty_message, [])
  else if bool_decide (maximum < length l)%nat then
    inl (long_message, [AInt (Z.of_nat maximum)])
  else inr (store 0 (l ++ [NUL]) field).
Proof.
  intros HN Hlen. unfold take_field. rewrite strlen_app, take_middle, Hlen by done.
  case_bool_decide; [done|]. repeat case_bool_decide; try done; lia.
Qed.

Section typed.
Context (K : kernel sys).

(** The username is the typed line, whatever signals arrive. *)
Lemma read_username_typed w l rest :
  sized (globals w) → f_rest (stdin (globals w)) = l ++ LF :: rest → LF ∉ l → NUL ∉ l →
  wp K read_username (λ o w',
    (o = Ret 0 →
      (0 < length l ≤ AUTH_USERNAME_MAX)%nat ∧
      rq_username (request (globals w')) =
        store 0 (l ++ [NUL]) (rq_username (request (globals w))) ∧
      f_rest (stdin (globals w')) = rest) ∧
    (undisturbed K → frontend_interrupted (globals w) = false →
      f_rest (stdin (globals w')) = rest ∧
      frontend_interrupted (globals w') = false ∧
      o = Ret (if bool_decide (0 < length l ≤ AUTH_USERNAME_MAX)%nat then 0 else -1))) w.
Proof.
  intros (Hin & Hu & _) Hf Hl HN. unfold read_username. wp_steps.
  apply wp_read_signals. intros b sigs Hb. destruct b; wp_steps.
  { split; [done|]. intros HK Hi. by rewrite <- Hb in Hi by done. }
  simpl. destruct (decide (length l ≤ AUTH_USERNAME_MAX)%nat) as [Hle|Hgt].
  - destruct (fgets_fits (username_input (globals w)) _ l rest Hf) as
      (tail & f' & -> & Hrest & Hcut); [done..|rewrite Hin; unfold USERNAME_INPUT_BUFFER_SIZE, AUTH_USERNAME_MAX in *; lia|].
    wp_steps. rewrite Hcut, char_at_middle. rewrite bool_decide_eq_true_2 by done.
    wp_steps. simpl. rewrite insert_middle, take_field_line by done.
    repeat case_bool_decide; wp_steps; simpl; rewrite ?Hf; (split; [|done || lia]);
      try done; try lia.
  - destruct (fgets_too_long (username_input (globals w)) _ l rest Hf) as
      (input & f' & -> & Hcut & Hskip); [done..| | |];
      try (rewrite Hin; unfold USERNAME_INPUT_BUFFER_SIZE, AUTH_USERNAME_MAX in *; lia).
    wp_steps. rewrite bool_decide_eq_false_2 by done. wp_steps.
    unfold discard_remaining_input_line. wp_steps. simpl. split; [done|].
    rewrite bool_decide_eq_false_2 by lia. done.
Qed.

Lemma disable_works w :
  terminal_works K → wp K disable_terminal_echo (λ o _, ∃ st, o = Ret (0, st)) w.
Proof.
  intros [Hset Hget]. unfold disable_terminal_echo. wp_steps.
  destruct (K _ _ Isatty); wp_steps; [|by eexists].
  destruct (Hget (Ev Isatty true :: trace w)) as [t ->]. wp_steps. rewrite Hset. wp_steps.
  by eexists.
Qed.

Lemma restore_returns st w :
  wp K (restore_terminal_echo st) (λ o w',
    (∃ r, o = Ret r) ∧ globals w' = globals w) w.
Proof.
  unfold restore_terminal_echo.
  destruct (restore_required st), (original st); wp_steps; [|by eauto..].
  destruct (K _ _ (Tcsetattr_flush _)); wp_steps; by eauto.
Qed.

Lemma restore_works st w :
  terminal_works K → wp K (restore_terminal_echo st) (λ o _, o = Ret 0) w.
Proof.
  intros [Hset Hget]. unfold restore_terminal_echo.
  destruct (restore_required st), (original st); wp_steps; try done.
  rewrite Hset. by wp_steps.
Qed.

(** The line a read of the password leaves in [input]. *)
Lemma read_hidden_line_typed w l rest :
  length (password_input (globals w)) = PASSWORD_INPUT_BUFFER_SIZE →
  f_rest (stdin (globals w)) = l ++ LF :: rest → LF ∉ l → NUL ∉ l →
  wp K read_hidden_line (λ o w',
    f_rest (stdin (globals w')) = rest ∧ messages (globals w') = messages (globals w) ∧
    frontend_interrupted (globals w') = frontend_interrupted (globals w) ∧
    if bool_decide (length l ≤ AUTH_PASSWORD_MAX)%nat then
      o = Ret ReadLine ∧ ∃ tail, password_input (globals w') = l ++ NUL :: tail
    else o = Ret InputTooLong) w.
Proof.
  intros Hin Hf Hl HN. unfold read_hidden_line. wp_steps. case_bool_decide as Hle.
  - destruct (fgets_fits (password_input (globals w)) _ l rest Hf) as
      (tail & f' & -> & Hrest & Hcut); [done..| |].
    { rewrite Hin. unfold PASSWORD_INPUT_BUFFER_SIZE. lia. }
    wp_steps. rewrite Hcut, char_at_middle. rewrite bool_decide_eq_true_2 by done.
    wp_steps. simpl. rewrite insert_middle. by eauto 10.
  - destruct (fgets_too_long (password_input (globals w)) _ l rest Hf) as
      (input & f' & -> & Hcut & Hskip); [done..| | |];
      try (rewrite Hin; unfold PASSWORD_INPUT_BUFFER_SIZE, AUTH_PASSWORD_MAX in *; lia).
    wp_steps. rewrite bool_decide_eq_false_2 by done. wp_steps.
    unfold discard_remaining_input_line. by wp_steps.
Qed.

(** What the checks on a typed password decide. *)
Definition typed_password (w : world sys frontend) (l : list byte)
    (o : outcome Z) (w' : world sys frontend) : Prop :=
  (o = Ret 0 →
    (0 < length l ≤ AUTH_PASSWORD_MAX)%nat ∧
    rq_password (request (globals w')) =
      store 0 (l ++ [NUL]) (rq_password (request (globals w)))) ∧
  (undisturbed K → terminal_works K → frontend_interrupted (globals w) = false →
    frontend_interrupted (globals w') = false ∧
    o = Ret (if bool_decide (0 < length l ≤ AUTH_PASSWORD_MAX)%nat then 0 else -1)).

Lemma store_password_typed w l tail o :
  length (rq_password (request (globals w))) = sizeof_password → NUL ∉ l →
  (if bool_decide (length l ≤ AUTH_PASSWORD_MAX)%nat
   then o = ReadLine ∧ password_input (globals w) = l ++ NUL :: tail
   else o = InputTooLong) →
  wp K (store_password o) (λ o w', typed_password w l o w' ∧
    f_rest (stdin (globals w')) = f_rest (stdin (globals w))) w.
Proof.
  intros Hp HN Ho. unfold store_password, refuse_password, clear_password_input, typed_password.
  wp_steps. apply wp_read_signals. intros b sigs Hb. simpl in Hb. destruct b; wp_steps; simpl.
  { split_and!; try done. intros HK _ Hi. by rewrite <- Hb in Hi by done. }
  case_bool_decide as Hle; [destruct Ho as [-> Hin]|subst o]; wp_steps; simpl.
  - rewrite Hin, take_field_line by done.
    repeat case_bool_decide; wp_steps; simpl; split_and!; try done; lia.
  - rewrite bool_decide_eq_false_2 by lia. done.
Qed.

Lemma read_password_typed w l rest :
  length (rq_password (request (globals w))) = sizeof_password →
  f_rest (stdin (globals w)) = l ++ LF :: rest → LF ∉ l → NUL ∉ l →
  wp K read_password (typed_password w l) w.
Proof.
  intros Hp Hf Hl HN. unfold read_password, typed_password. wp_steps.
  apply wp_read_signals. intros b sigs Hb. simpl in Hb. destruct b; wp_steps.
  { split; [done|]. intros HK _ Hi. by rewrite <- Hb in Hi by done. }
  eapply wp_mono; [apply wp_conj; [apply disable_spec|]|].
  { instantiate (1 := λ o _, terminal_works K → ∃ st, o = Ret (0, st)).
    intros Hterm. by apply disable_works. }
  intros [[r st]|h] w1 [H1 Hterm1]; [|done]. destruct H1 as (Hg1 & Hr & _). simpl in Hr.
  wp_decide Hr0; wp_steps.
  { unfold clear_password_input. wp_steps. split; [done|]. intros _ Hterm _.
    destruct (Hterm1 Hterm) as [st' [= -> _]]. done. }
  apply wp_read_signals. intros b2 sigs2 Hb2. rewrite Hg1 in Hb2. simpl in Hb2.
  destruct b2; wp_steps.
  - eapply wp_mono; [apply (restore_returns st)|]. intros o w2 [[r2 ->] _]. wp_steps.
    unfold refuse_password, clear_password_input. wp_steps. split; [done|].
    intros HK _ Hi. by specialize (Hb2 HK).
  - eapply wp_mono; [apply (read_hidden_line_typed _ l rest); simpl; rewrite ?Hg1; done|].
    intros o w2 (Hrest & Hmsg & Hint & Ho). simpl in Hint.
    assert (∃ x, o = Ret x) as [x ->] by (case_bool_decide; [destruct Ho as [-> _]|subst o]; eauto).
    wp_steps. eapply wp_mono; [apply wp_conj; [apply (restore_returns st)|]|].
    { instantiate (1 := λ o _, terminal_works K → o = Ret 0).
      intros Hterm. by apply restore_works. }
    intros o w3 [[[r3 ->] Hg3] Hterm3]. wp_decide Hr3; wp_steps.
    { unfold clear_password_input. wp_steps. split; [done|]. intros _ Hterm _.
      by injection (Hterm3 Hterm) as ->. }
    unfold messages in Hmsg. simpl in Hmsg. rewrite Hg1 in Hmsg.
    injection Hmsg as Hreq _. simpl in Hreq.
    assert (∃ tail, if bool_decide (length l ≤ AUTH_PASSWORD_MAX)%nat
      then x = ReadLine ∧ password_input (globals w3) = l ++ NUL :: tail
      else x = InputTooLong) as [tail Htail].
    { rewrite Hg3. case_bool_decide; [destruct Ho as [[= ->] [tail ?]]|injection Ho as ->];
        by eauto. }
    eapply wp_mono; [apply (store_password_typed w3 l tail);
      [by rewrite Hg3, Hreq|done|exact Htail]|].
    intros o w4 [[H1 H2] _]. rewrite Hg3, Hreq in H1. rewrite Hg3, Hint in H2.
    split; [done|]. intros HK Hterm _. by apply H2.
Qed.

End typed.

(** ** Properties *)

(** C33. The username is the typed line: reading succeeds only on a line of 1
    to 64 characters and then stores exactly that line; without signals it
    consumes one whole line, however long, and succeeds exactly then. *)
Theorem read_username_line (K : kernel sys) w l rest :
  sized (globals w) → f_rest (stdin (globals w)) = l ++ LF :: rest → LF ∉ l → NUL ∉ l →
  wp K read_username (λ o w',
    (o = Ret 0 →
      (0 < length l ≤ AUTH_USERNAME_MAX)%nat ∧
      rq_username (request (globals w')) =
        store 0 (l ++ [NUL]) (rq_username (request (globals w))) ∧
      f_rest (stdin (globals w')) = rest) ∧
    (undisturbed K → frontend_interrupted (globals w) = false →
      f_rest (stdin (globals w')) = rest ∧
      frontend_interrupted (globals w') = false ∧
      o = Ret (if bool_decide (0 < length l ≤ AUTH_USERNAME_MAX)%nat then 0 else -1))) w.
Proof. apply read_username_typed. Qed.

(** C34. The password is the typed line: reading succeeds only on a line of 1
    to 128 characters and then stores exactly that line; it does succeed then
    when no signal arrives and the terminal mode can be set. *)
Theorem read_password_line (K : kernel sys) w l rest :
  length (rq_password (request (globals w))) = sizeof_password →
  f_rest (stdin (globals w)) = l ++ LF :: rest → LF ∉ l → NUL ∉ l →
  wp K read_password (λ o w',
    (o = Ret 0 →
      (0 < length l ≤ AUTH_PASSWORD_MAX)%nat ∧
      rq_password (request (globals w')) =
        store 0 (l ++ [NUL]) (rq_password (request (globals w)))) ∧
    (undisturbed K → terminal_works K → frontend_interrupted (globals w) = false →
      frontend_interrupted (globals w') = false ∧
      o = Ret (if bool_decide (0 < length l ≤ AUTH_PASSWORD_MAX)%nat then 0 else -1))) w.
Proof. apply read_password_typed. Qed.

(** C32. On every path through [read_password], signals and errors included,
    the terminal mode found before is asked for again after the echo was
    switched off, the line buffer is cleared, and the request changes only on
    success, to a terminated non-empty password. *)
Theorem read_password_restores_echo (K : kernel sys) w :
  length (rq_password (request (globals w))) = sizeof_password →
  wp K read_password (post (λ r w',
    (∃ new, trace w' = new ++ trace w ∧ echo_restored new r) ∧
    password_input (globals w') = zeros PASSWORD_INPUT_BUFFER_SIZE ∧
    (r = 0 ∧ (∃ p, request (globals w') = with_password p (request (globals w)) ∧
                   field_ok AUTH_PASSWORD_MAX p)
     ∨ r = -1 ∧ request (globals w') = request (globals w)))
    (λ _ _, False)) w.
Proof.
  intros Hp. eapply wp_mono; [by apply read_password_spec|].
  intros [r|h] w'; simpl; [|done]. intros (H1 & _ & _ & H4 & H5). auto.
Qed.

(** ** Witnesses *)

(** A user who types two lines. *)
Definition typing (u p : string) : frontend :=
  MkFrontend false (fopen_file (txt u ++ LF :: txt p ++ [LF]) None) initial_request
    (zeros sizeof_AuthResponse) (zeros USERNAME_INPUT_BUFFER_SIZE)
    (zeros PASSWORD_INPUT_BUFFER_SIZE).

Definition terminal_kernel : kernel sys := easy_kernel (λ _, None) [].

Lemma read_username_line_witness :
  wp terminal_kernel read_username (λ o w', o = Ret 0 ∧
    f_rest (stdin (globals w')) = txt "secret" ++ [LF]) (World (typing "admin" "secret") []).
Proof.
  eapply wp_mono.
  - apply (read_username_line terminal_kernel (World (typing "admin" "secret") [])
      (txt "admin") (txt "secret" ++ [LF]));
      apply (bool_decide_unpack _); vm_compute; exact I.
  - intros o w' [_ H]. destruct H as (Hrest & _ & Ho); [by intros tr|reflexivity|].
    split; [exact Ho|exact Hrest].
Defined.

Lemma read_password_line_witness :
  wp terminal_kernel read_password (λ o _, o = Ret 0) (World (typing "secret" "") []).
Proof.
  eapply wp_mono.
  - apply (read_password_line terminal_kernel (World (typing "secret" "") [])
      (txt "secret") [LF]);
      apply (bool_decide_unpack _); vm_compute; exact I.
  - intros o w' [_ H]. destruct H as (_ & Ho); [by intros tr| |reflexivity|exact Ho].
    split; [by intros tr t|]. intros tr. by eexists.
Defined.

Lemma read_password_restores_echo_witness :
  wp terminal_kernel read_password (post (λ r w',
    (∃ new, trace w' = new ++ [] ∧ echo_restored new r) ∧
    password_input (globals w') = zeros PASSWORD_INPUT_BUFFER_SIZE ∧
    (r = 0 ∧ (∃ p, request (globals w') = with_password p initial_request ∧
                   field_ok AUTH_PASSWORD_MAX p)
     ∨ r = -1 ∧ request (globals w') = initial_request))
    (λ _ _, False)) (World (typing "secret" "") []).
Proof. apply (read_password_restores_echo terminal_kernel). reflexivity. Defined.
