(* ===== verification/FrontendMain.v ===== *)
(** * Frontend.c: the exchange with the backend and [main]

    What a run of the frontend sends, what it takes for success, and what it
    leaves behind. *)

From S2P Require Import Prelude.
From S2P Require Import CLib.
From S2P Require Import SecureMemory.
From S2P Require Import AuthProtocol.
From S2P Require Import AuthSys.
From S2P Require Import Transfer.
From S2P Require Import Frontend.
Local Open Scope Z_scope.

(** ** The exchange with the backend *)

#[export] Instance write_all_keeps fuel fd buffer : Keeps contents (write_all fuel fd buffer).
Proof. unfold write_all, write_step, perror. solve_keeps. Qed.

#[export] Instance read_all_keeps fuel fd size :
  Keeps (λ g, (request g, password_input g)) (read_all fuel fd size).
Proof.
  assert (Keeps (λ g, (request g, password_input g)) read_frontend_interrupted) as H.
  { intros K w. pose proof (keeps (f := contents) (m := read_frontend_interrupted) K w) as H.
    unfold contents in H. congruence. }
  unfold read_all, read_step, perror, fprintf. solve_keeps.
Qed.

#[export] Instance connect_keeps : Keeps contents connect_to_backend.
Proof. unfold connect_to_backend, perror. solve_keeps. Qed.

#[export] Instance read_interrupted_dataless : Emits dataless read_frontend_interrupted.
Proof. unfold read_frontend_interrupted. solve_emits. Qed.

#[export] Instance connect_dataless : Emits dataless connect_to_backend.
Proof. unfold connect_to_backend, perror, fprintf. solve_emits. Qed.

#[export] Instance write_all_only_on fuel fd buffer : Emits (only_on fd) (write_all fuel fd buffer).
Proof.
  unfold write_all, write_step, read_frontend_interrupted, perror, fprintf.
  solve_emits; apply only_on_write.
Qed.

#[export] Instance read_all_only_on fuel fd size : Emits (only_on fd) (read_all fuel fd size).
Proof.
  unfold read_all, read_step, read_frontend_interrupted, perror, fprintf.
  solve_emits; apply only_on_read.
Qed.

#[export] Instance write_all_neutral fuel fd buffer : Emits neutral (write_all fuel fd buffer).
Proof.
  unfold write_all, write_step, read_frontend_interrupted, perror, fprintf. solve_emits.
Qed.

#[export] Instance read_all_neutral fuel fd size : Emits neutral (read_all fuel fd size).
Proof.
  unfold read_all, read_step, read_frontend_interrupted, perror, fprintf. solve_emits.
Qed.

Lemma clear_request_twice rq : clear_request (clear_request rq) = clear_request rq.
Proof. unfold clear_request. simpl. by rewrite !clear_object_zeros, !length_zeros. Qed.

(** What is sent on each descriptor is a prefix of [buffer]. *)
Definition sends_prefix (buffer : list byte) (new : trace_t) : Prop :=
  ∀ fd, ∃ n, sent fd new = take n buffer.

Lemma sends_prefix_dataless buffer t1 t2 new :
  Forall dataless t1 → Forall dataless t2 →
  sends_prefix buffer new → sends_prefix buffer (t1 ++ new ++ t2).
Proof.
  intros H1 H2 H fd. destruct (H fd) as [n Hn]. exists n.
  rewrite !sent_app, Hn. destruct (dataless_nothing fd t1 H1) as [_ ->].
  destruct (dataless_nothing fd t2 H2) as [_ ->]. by rewrite app_nil_r.
Qed.

Lemma sends_prefix_nothing buffer new : Forall dataless new → sends_prefix buffer new.
Proof. intros H fd. exists 0%nat. by destruct (dataless_nothing fd new H) as [_ ->]. Qed.

Definition exchange_post (w : world sys frontend) (o : outcome Z)
    (w' : world sys frontend) : Prop :=
  ∃ new, trace w' = new ++ trace w ∧
    sends_prefix (encode_request (request (globals w))) new ∧
    match o with
    | Ret r =>
        request (globals w') = clear_request (request (globals w)) ∧
        password_input (globals w') = password_input (globals w) ∧
        length (response (globals w')) = sizeof_AuthResponse ∧
        open_fds (trace w') = [] ∧
        (r = 0 ∧ (∃ fd, sent fd new = encode_request (request (globals w)) ∧
                        received fd new = response (globals w'))
         ∨ r = -1)
    | Halt h => h = OutOfFuel
    end.

Section exchange.
Context (K : kernel sys) {HK : IOLaws K}.

Lemma frontend_write_step_spec fd rest w :
  wp K (write_step fd rest) (write_step_post fd rest (trace w)) w.
Proof.
  unfold write_step. wp_decide Hz; wp_steps.
  { destruct rest; [|done]. exists [], 0%nat. transferred. }
  assert (rest ≠ []) as Hne by by destruct rest.
  destruct (K _ _ (Write _ _)) as [n|e] eqn:HW; wp_steps.
  - wp_decide Hn; wp_steps.
    + subst n. eexists [_; _], 0%nat. transferred.
    + eexists [_], n. apply write_le in HW. transfer_events.
      split_and!; try done. left. lia.
  - destruct (is_eintr e) eqn:He; wp_steps; [|eexists [_; _], 0%nat; transferred].
    apply wp_read_interrupted. intros [] sigs; wp_steps.
    + eexists [_; _; _], 0%nat. transferred.
    + eexists [_; _], 0%nat. transfer_events. rewrite !count_events_cons.
      cbn. rewrite He, drop_0. split_and!; try done. right. split; [done|lia].
Qed.

Lemma frontend_read_step_spec fd size cursor w :
  length (response (globals w)) = size → (cursor ≤ size)%nat →
  wp K (read_step fd size cursor) (read_step_post response fd size cursor w) w.
Proof.
  intros Hlen Hcur. unfold read_step. wp_decide Hz; wp_steps.
  { eexists []. transferred. }
  destruct (K _ _ (Read _ _)) as [data|e] eqn:HR; wp_steps.
  - apply read_le in HR. wp_decide Hn; wp_steps.
    + eexists [_; _]. transfer_events. destruct data; [|done].
      rewrite length_store by (simpl; lia).
      split_and!; try done. right. split; [done|lia].
    + eexists [_]. transfer_events. rewrite length_store by lia.
      rewrite store_take by lia. split_and!; try done; [lia|].
      left. by destruct data.
  - destruct (is_eintr e) eqn:He; wp_steps; [|eexists [_; _]; transferred].
    apply wp_read_interrupted. intros [] sigs; wp_steps.
    + eexists [_; _; _]. transferred.
    + eexists [_; _]. transfer_events. rewrite !count_events_cons.
      cbn. rewrite He, app_nil_r. split_and!; try done; lia.
Qed.

Lemma frontend_write_all_spec fuel fd buffer w :
  wp K (write_all fuel fd buffer) (write_post fuel fd buffer (trace w)) w.
Proof. apply write_loop. apply frontend_write_step_spec. Qed.

Lemma frontend_read_all_spec fuel fd size w :
  length (response (globals w)) = size →
  wp K (read_all fuel fd size) (read_post response fuel fd size (trace w)) w.
Proof. apply read_loop. apply frontend_read_step_spec. Qed.

Lemma connect_spec w :
  open_fds (trace w) = [] →
  wp K connect_to_backend (post (λ r w',
    open_fds (trace w') = option_list r) (λ _ _, False)) w.
Proof.
  intros Ho. unfold connect_to_backend. wp_steps.
  destruct (K _ _ Socket) as [fd|e]; wp_steps; [|done].
  rewrite bool_decide_eq_false_2 by (vm_compute; lia). wp_steps.
  destruct (K _ _ (Connect _ _)); wp_steps.
  - simpl. by rewrite <- Ho.
  - apply open_fds_close. simpl. by rewrite <- Ho.
Qed.

Lemma exchange_cleanup_spec fd result w :
  open_fds (trace w) = [fd] →
  wp K (exchange_cleanup fd result) (post (λ r w',
    request (globals w') = clear_request (request (globals w)) ∧
    response (globals w') = response (globals w) ∧
    password_input (globals w') = password_input (globals w) ∧
    (r = result ∨ r = -1) ∧ open_fds (trace w') = [] ∧
    ∃ new, trace w' = new ++ trace w ∧ Forall dataless new) (λ _ _, False)) w.
Proof.
  intros Ho. unfold exchange_cleanup, clear_request_object. wp_steps.
  destruct (K _ _ (Close _)) as [[]|e]; wp_steps; (split_and!; [by auto..| |]).
  - by apply open_fds_close.
  - eexists [_]. split; [done|]. by repeat constructor.
  - exact (open_fds_close fd (Err e) _ Ho).
  - eexists [_; _]. split; [done|]. by repeat constructor.
Qed.

(** The end of the exchange, from a state [w1] with the connection open. *)
Lemma exchange_end fd result (w w1 : world sys frontend) new :
  trace w1 = new ++ trace w → open_fds (trace w1) = [fd] →
  clear_request (request (globals w1)) = clear_request (request (globals w)) →
  password_input (globals w1) = password_input (globals w) →
  length (response (globals w1)) = sizeof_AuthResponse →
  sends_prefix (encode_request (request (globals w))) new →
  (result = 0 ∧ sent fd new = encode_request (request (globals w)) ∧
   received fd new = response (globals w1) ∨ result = -1) →
  wp K (exchange_cleanup fd result) (exchange_post w) w1.
Proof.
  intros Htr Ho Hreq Hpi Hlen Hpre Hres. eapply wp_mono; [by apply exchange_cleanup_spec|].
  intros [r|h] w2; simpl; [|done].
  intros (Hreq2 & Hresp2 & Hpi2 & Hr & Ho2 & (new2 & Htr2 & Hd2)).
  exists (new2 ++ new). rewrite Htr2, Htr, app_assoc, Hreq2, Hreq, Hpi2, Hpi, Hresp2.
  rewrite Htr2, Htr, app_assoc in Ho2. split_and!; try done.
  - rewrite <- (app_nil_r new). by apply sends_prefix_dataless.
  - destruct Hres as [(-> & Hs & Hrc)| ->]; [|right; lia].
    destruct Hr as [->| ->]; [|by right]. left. split; [done|]. exists fd.
    rewrite sent_app, received_app, Hs, Hrc.
    destruct (dataless_nothing fd new2 Hd2) as [-> ->]. by rewrite !app_nil_r.
Qed.

Lemma write_prefix fuel fd buffer w :
  wp K (write_all fuel fd buffer) (λ o w', ∃ new, trace w' = new ++ trace w ∧
    Forall neutral new ∧ sends_prefix buffer new ∧ received fd new = [] ∧
    contents (globals w') = contents (globals w) ∧
    match o with
    | Ret r => r = 0 ∧ sent fd new = buffer ∨ r = -1
    | Halt h => h = OutOfFuel
    end) w.
Proof.
  eapply wp_mono.
  { apply wp_conj; [apply frontend_write_all_spec|apply wp_conj;
      [apply (emits_wp (only_on fd)), _|apply wp_conj;
      [apply (emits_wp neutral), _|apply (keeps_wp contents), _]]]. }
  intros o w' ((new & n & Htr & Hs & Hr & Ho) & (new' & Htr' & Hon) &
               (new'' & Htr'' & Hn) & Hk).
  assert (new' = new) as -> by (apply (app_inv_tail (trace w)); congruence).
  assert (new'' = new) as -> by (apply (app_inv_tail (trace w)); congruence).
  exists new. split_and!; try done.
  - intros fd'. destruct (decide (fd' = fd)) as [->|Hne]; [by exists n|].
    exists 0%nat. by destruct (only_on_nothing fd fd' new Hne Hon) as [_ ->].
  - destruct o as [r|h]; [|by destruct Ho].
    destruct Ho as [[-> ->]|[-> _]]; [|by right]. left. split; [done|].
    by rewrite Hs, take_ge.
Qed.

Lemma read_nothing_sent fuel fd w :
  length (response (globals w)) = sizeof_AuthResponse →
  wp K (read_all fuel fd sizeof_AuthResponse) (λ o w', ∃ new, trace w' = new ++ trace w ∧
    Forall neutral new ∧ (∀ fd', sent fd' new = []) ∧
    request (globals w') = request (globals w) ∧
    password_input (globals w') = password_input (globals w) ∧
    length (response (globals w')) = sizeof_AuthResponse ∧
    match o with
    | Ret r => r = 0 ∧ received fd new = response (globals w') ∨ r = -1
    | Halt h => h = OutOfFuel
    end) w.
Proof.
  intros Hlen. eapply wp_mono.
  { apply wp_conj; [by apply frontend_read_all_spec|apply wp_conj;
      [apply (emits_wp (only_on fd)), _|apply wp_conj;
      [apply (emits_wp neutral), _|
       apply (keeps_wp (λ g, (request g, password_input g))), _]]]. }
  intros o w' ((new & Htr & Hs & Hl & Ho) & (new' & Htr' & Hon) &
               (new'' & Htr'' & Hn) & Hk).
  assert (new' = new) as -> by (apply (app_inv_tail (trace w)); congruence).
  assert (new'' = new) as -> by (apply (app_inv_tail (trace w)); congruence).
  injection Hk as Hk1 Hk2. exists new. split_and!; try done.
  - intros fd'. destruct (decide (fd' = fd)) as [->|Hne]; [done|].
    by destruct (only_on_nothing fd fd' new Hne Hon) as [_ ->].
  - destruct o as [r|h]; [|by destruct Ho]. destruct Ho as [?|[-> _]]; auto.
Qed.

(** The two transfers, on a connection just opened. *)
Lemma exchange_transfer fuel fd (w w2 : world sys frontend) new :
  trace w2 = new ++ trace w → Forall dataless new → open_fds (trace w2) = [fd] →
  request (globals w2) = request (globals w) →
  password_input (globals w2) = password_input (globals w) →
  length (response (globals w2)) = sizeof_AuthResponse →
  wp K (let* rq := get request in
        let* r := write_all fuel fd (encode_request rq) in
        clear_request_object ;;;
        if bool_decide (r ≠ 0) then exchange_cleanup fd (-1) else
        let* r := read_all fuel fd sizeof_AuthResponse in
        if bool_decide (r ≠ 0) then exchange_cleanup fd (-1)
        else exchange_cleanup fd 0) (exchange_post w) w2.
Proof.
  intros Htr2 Hd Ho2 Hreq2 Hpi2 Hlen. wp_steps. rewrite Hreq2.
  eapply wp_mono; [apply write_prefix|].
  intros o w3 (new3 & Htr3 & Hn3 & Hpre3 & Hr3 & Hc3 & Ho). rewrite Htr2, app_assoc in Htr3.
  assert (open_fds (trace w3) = [fd]) as Ho3.
  { rewrite Htr3, <- app_assoc, <- Htr2. by destruct (open_fds_neutral _ (trace w2) Hn3) as [-> _]. }
  unfold contents in Hc3. injection Hc3 as _ Hreq3 Hresp3 _ Hpi3.
  assert (sends_prefix (encode_request (request (globals w))) (new3 ++ new)) as Hpre
    by by apply (sends_prefix_dataless _ []).
  destruct (dataless_nothing fd new Hd) as [Hrn Hsn].
  destruct o as [r|h]; [|by exists (new3 ++ new)].
  unfold clear_request_object. wp_steps. wp_decide Hr.
  { apply (exchange_end _ _ _ _ (new3 ++ new)); simpl; try done; try congruence; [|by right].
    by rewrite clear_request_twice, Hreq3, Hreq2. }
  destruct Ho as [[-> Hs3]|?]; [|lia]. wp_steps.
  eapply wp_mono; [apply read_nothing_sent; simpl; congruence|].
  intros o w4 (new4 & Htr4 & Hn4 & Hs4 & Hreq4 & Hpi4 & Hlen4 & Ho).
  simpl in Htr4, Hreq4, Hpi4. rewrite Htr3, app_assoc in Htr4.
  assert (sends_prefix (encode_request (request (globals w))) (new4 ++ new3 ++ new)) as Hpre4.
  { intros fd'. destruct (Hpre fd') as [n Hn]. exists n. by rewrite sent_app, Hs4, Hn, app_nil_r. }
  destruct o as [r|h]; [|by exists (new4 ++ new3 ++ new)].
  assert (open_fds (trace w4) = [fd]) as Ho4.
  { rewrite Htr4, <- app_assoc, <- Htr3. by destruct (open_fds_neutral _ (trace w3) Hn4) as [-> _]. }
  assert (clear_request (request (globals w4)) = clear_request (request (globals w))) as Hcl
    by by rewrite Hreq4, clear_request_twice, Hreq3, Hreq2.
  wp_decide Hr'; apply (exchange_end _ _ _ _ (new4 ++ new3 ++ new));
    try done; try congruence.
  { by right. }
  left. destruct Ho as [[-> Hrc]|?]; [|lia]. split; [done|].
  rewrite !sent_app, !received_app, Hs4, Hs3, Hsn, Hrn, Hr3, Hrc. by rewrite !app_nil_r.
Qed.

Lemma exchange_spec fuel w :
  length (response (globals w)) = sizeof_AuthResponse → open_fds (trace w) = [] →
  wp K (exchange_auth_request fuel) (exchange_post w) w.
Proof.
  intros Hlen Ho. unfold exchange_auth_request. wp_steps.
  apply wp_read_interrupted. intros [] sigs; wp_steps.
  { unfold clear_request_object. wp_steps. eexists [_; _]. split; [reflexivity|].
    split; [apply sends_prefix_nothing; by repeat constructor|]. simpl. auto 10. }
  set (w1 := World _ _). assert (contents (globals w1) = contents (globals w)) as Hc1 by done.
  assert (trace w1 = [Ev Pending_signals sigs] ++ trace w) as Htr1 by done.
  assert (open_fds (trace w1) = []) as Ho1 by done.
  clearbody w1. eapply wp_mono.
  { apply wp_conj; [by apply connect_spec|apply wp_conj;
      [apply (emits_wp dataless), _|apply (keeps_wp contents), _]]. }
  intros [sock|h] w2; simpl; [|tauto]. intros (Ho2 & (new2 & Htr2 & Hd2) & Hc2).
  rewrite Htr1, app_assoc in Htr2. rewrite Hc1 in Hc2.
  assert (Forall dataless (new2 ++ [Ev Pending_signals sigs])) as Hd
    by (apply Forall_app; split; [done|by repeat constructor]).
  set (new := new2 ++ _) in *. clearbody new. clear Hd2 Htr1 Ho1 Hc1.
  unfold contents in Hc2. injection Hc2 as _ Hreq2 Hresp2 _ Hpi2.
  destruct sock as [fd|]; [apply (exchange_transfer fuel fd w w2 new); auto; congruence|].
  wp_steps. unfold clear_request_object. wp_steps. exists new. split; [done|].
  split; [by apply sends_prefix_nothing|]. simpl. rewrite Hreq2, Hresp2, Hpi2. auto 10.
Qed.

End exchange.

(** ** [main] *)

(** What a whole run guarantees, for requests of which [C] is known. *)
Definition main_post (g : frontend) (C : AuthRequest → Prop)
    (o : outcome Z) (w' : world sys frontend) : Prop :=
  ((∀ fd, sent fd (trace w') = []) ∨
   ∃ rq, login_request rq ∧ C rq ∧ sends_prefix (encode_request rq) (trace w')) ∧
  match o with
  | Ret r =>
      request (globals w') = zero_request ∧
      response (globals w') = zeros sizeof_AuthResponse ∧
      (password_input (globals w') = zeros PASSWORD_INPUT_BUFFER_SIZE
       ∨ password_input (globals w') = password_input g) ∧
      open_fds (trace w') = [] ∧
      (r = EXIT_SUCCESS ∧ (∃ fd rq raw, login_request rq ∧ C rq ∧
         sent fd (trace w') = encode_request rq ∧ received fd (trace w') = raw ∧
         length raw = sizeof_AuthResponse ∧
         NUL ∈ rs_message (decode_response raw) ∧
         rs_version (decode_response raw) = AUTH_PROTOCOL_VERSION ∧
         rs_result (decode_response raw) = AuthResult_code AUTH_RESULT_SUCCESS)
       ∨ r = EXIT_FAILURE)
  | Halt h => h = OutOfFuel
  end.

(** The state of [main] before the exchange. *)
Definition asking (g : frontend) (w : world sys frontend) : Prop :=
  Forall dataless (trace w) ∧ open_fds (trace w) = [] ∧ sized (globals w) ∧
  length (response (globals w)) = sizeof_AuthResponse ∧
  (password_input (globals w) = zeros PASSWORD_INPUT_BUFFER_SIZE
   ∨ password_input (globals w) = password_input g).

Definition asks (e : event sys) : Prop := dataless e ∧ neutral e.

#[export] Instance install_asks : Emits asks install_frontend_signal_handlers.
Proof. unfold install_frontend_signal_handlers, perror, fprintf. solve_emits. Qed.

#[export] Instance read_username_asks : Emits asks read_username.
Proof.
  unfold read_username, report_no_input, discard_remaining_input_line,
    read_frontend_interrupted, perror, fprintf. solve_emits.
Qed.

#[export] Instance read_password_asks : Emits asks read_password.
Proof.
  unfold read_password, store_password, refuse_password, clear_password_input,
    read_hidden_line, restore_terminal_echo, disable_terminal_echo, report_no_input,
    discard_remaining_input_line, read_frontend_interrupted, perror, fprintf. solve_emits.
Qed.

#[export] Instance report_asks rs : Emits asks (report_response rs).
Proof. unfold report_response, fprintf. solve_emits. Qed.

#[export] Instance install_keeps : Keeps contents install_frontend_signal_handlers.
Proof. unfold install_frontend_signal_handlers, perror. solve_keeps. Qed.

#[export] Instance report_keeps rs : Keeps contents (report_response rs).
Proof. unfold report_response. solve_keeps. Qed.

Lemma asks_parts new : Forall asks new → Forall dataless new ∧ Forall neutral new.
Proof. intros H. split; (eapply Forall_impl; [done|by intros e []]). Qed.

Lemma asking_more g (w w' : world sys frontend) new :
  asking g w → trace w' = new ++ trace w → Forall asks new → sized (globals w') →
  length (response (globals w')) = sizeof_AuthResponse →
  (password_input (globals w') = zeros PASSWORD_INPUT_BUFFER_SIZE
   ∨ password_input (globals w') = password_input (globals w)) →
  asking g w'.
Proof.
  intros (Hd & Ho & _ & _ & Hpi) Htr Hn Hsz Hlen Hpi'. unfold asking.
  apply asks_parts in Hn as [Hn1 Hn2]. rewrite Htr.
  destruct (open_fds_neutral new (trace w) Hn2) as [-> _].
  split_and!; try done; [by apply Forall_app|]. destruct Hpi' as [|H]; [by left|by rewrite H].
Qed.

Lemma clear_request_sized rq :
  length (rq_username rq) = sizeof_username → length (rq_password rq) = sizeof_password →
  clear_request rq = zero_request.
Proof. intros Hu Hp. unfold clear_request. by rewrite !clear_object_zeros, Hu, Hp. Qed.

Lemma dataless_sends_nothing new : Forall dataless new → ∀ fd, sent fd new = [].
Proof. intros H fd. by destruct (dataless_nothing fd new H). Qed.

Section main_proofs.
Context (K : kernel sys) {HK : IOLaws K} (C : AuthRequest → Prop).

Lemma asking_fails g w :
  asking g w → wp K (main_cleanup EXIT_FAILURE) (main_post g C) w.
Proof.
  intros (Hd & Ho & (Hin & Hu & Hp) & Hlen & Hpi). unfold main_cleanup, clear_request_object.
  wp_steps. split.
  - left. by apply dataless_sends_nothing.
  - simpl. rewrite clear_request_sized, clear_object_zeros, Hlen by done. auto 10.
Qed.

Lemma report_response_spec rs w :
  wp K (report_response rs) (λ o _,
    (o = Ret EXIT_SUCCESS ∧ NUL ∈ rs_message rs ∧ rs_version rs = AUTH_PROTOCOL_VERSION ∧
     rs_result rs = AuthResult_code AUTH_RESULT_SUCCESS) ∨
    (o = Ret EXIT_FAILURE ∧ ¬ (NUL ∈ rs_message rs ∧ rs_version rs = AUTH_PROTOCOL_VERSION ∧
     rs_result rs = AuthResult_code AUTH_RESULT_SUCCESS))) w.
Proof.
  unfold report_response. destruct (memchr (rs_message rs) NUL) as [i|] eqn:Hm.
  - assert (NUL ∈ rs_message rs) by (apply is_Some_memchr; by exists i).
    wp_decide Hv; wp_steps; [right; tauto|]. wp_decide Hr; wp_steps; [left|right; tauto].
    assert (rs_version rs = AUTH_PROTOCOL_VERSION) by (by apply dec_stable). tauto.
  - apply memchr_None in Hm. wp_steps. right. tauto.
Qed.

(** The end of [main] once the exchange is over. *)
Lemma main_exchange_spec fuel g w rq :
  asking g w → request (globals w) = rq → login_request rq → C rq →
  wp K (let* r := exchange_auth_request fuel in
        if bool_decide (r ≠ 0) then main_cleanup EXIT_FAILURE else
        let* raw := get response in
        let* exit_code := report_response (decode_response raw) in
        main_cleanup exit_code) (main_post g C) w.
Proof.
  intros (Hd & Ho & (Hin & Hu & Hp) & Hlen & Hpi) Hrq Hlogin HC. wp_steps.
  eapply wp_mono; [by apply exchange_spec|].
  intros o w1 (new & Htr & Hpre & Hpost). rewrite Hrq in Hpre, Hpost.
  assert (sends_prefix (encode_request rq) (trace w1)) as Hpre1
    by (rewrite Htr, <- (app_nil_l (new ++ _)); by apply sends_prefix_dataless).
  assert ((∀ fd, sent fd (trace w1) = []) ∨ ∃ rq, login_request rq ∧ C rq ∧
    sends_prefix (encode_request rq) (trace w1)) as Hsends1 by (right; by exists rq).
  destruct o as [r|h]; [|by split].
  destruct Hpost as (Hreq1 & Hpi1 & Hlen1 & Ho1 & Hres).
  rewrite clear_request_sized in Hreq1 by by rewrite <- Hrq.
  wp_decide Hr.
  { unfold main_cleanup, clear_request_object. wp_steps. split; [done|].
    simpl. rewrite Hreq1, Hpi1, clear_object_zeros, Hlen1, clear_request_sized by done.
    auto 10. }
  destruct Hres as [[-> (fd & Hs & Hrc)]|?]; [|lia]. wp_steps. eapply wp_mono.
  { apply wp_conj; [apply report_response_spec|apply wp_conj;
      [apply (emits_wp asks), _|apply (keeps_wp contents), _]]. }
  intros o w2 (Hrep & (new2 & Htr2 & Hn2) & Hk2).
  apply asks_parts in Hn2 as [Hd2 Hn2]. unfold contents in Hk2.
  injection Hk2 as _ Hreq2 Hresp2 _ Hpi2.
  assert (open_fds (trace w2) = []) as Ho2
    by (rewrite Htr2; by destruct (open_fds_neutral new2 (trace w1) Hn2) as [-> _]).
  assert (sends_prefix (encode_request rq) (trace w2)) as Hpre2
    by (rewrite Htr2, <- (app_nil_r (trace w1)); by apply sends_prefix_dataless).
  assert (∀ exit, wp K (main_cleanup exit) (λ o w3, o = Ret exit ∧ trace w3 = trace w2 ∧
    request (globals w3) = zero_request ∧ response (globals w3) = zeros sizeof_AuthResponse ∧
    password_input (globals w3) = password_input (globals w2)) w2) as Hclean.
  { intros exit. unfold main_cleanup, clear_request_object. wp_steps. simpl.
    rewrite Hreq2, Hreq1, clear_object_zeros, Hresp2, Hlen1, clear_request_sized by done. auto. }
  assert (sent fd (trace w2) = encode_request rq ∧
          received fd (trace w2) = response (globals w1)) as [Hs2 Hrc2].
  { rewrite Htr2, Htr, !sent_app, !received_app, Hs, Hrc.
    destruct (dataless_nothing fd new2 Hd2) as [-> ->].
    destruct (dataless_nothing fd (trace w) Hd) as [-> ->]. by rewrite !app_nil_r. }
  destruct Hrep as [(-> & Hrep)|(-> & _)]; (eapply wp_mono; [apply Hclean|]);
    intros o w3 (-> & Htr3 & Hreq3 & Hresp3 & Hpi3); unfold main_post;
    rewrite Htr3, Hreq3, Hresp3, Hpi3, Hpi2, Hpi1;
    (split; [right; by exists rq|]); split_and!; try done; [|by right].
  left. split; [done|]. exists fd, rq, (response (globals w1)). tauto.
Qed.

Lemma frontend_install_returns w :
  wp K install_frontend_signal_handlers (λ o _, ∃ r, o = Ret r) w.
Proof.
  unfold install_frontend_signal_handlers. wp_steps.
  destruct (K _ _ (Sigaction SIGINT _)); wp_steps; [|by eauto].
  destruct (K _ _ (Sigaction SIGTERM _)); wp_steps; [|by eauto].
  destruct (K _ _ (Sigaction SIGPIPE _)); wp_steps; by eauto.
Qed.

(** What is known of the fields the user types: [U] of the username, [P] of
    the password, [S] of the input left between the two. *)
Context (g : frontend) (S : FILE → Prop) (U P : list byte → Prop).
Hypothesis HU : ∀ w, sized (globals w) → stdin (globals w) = stdin g →
  request (globals w) = initial_request →
  wp K read_username (λ o w', o = Ret 0 →
    U (rq_username (request (globals w'))) ∧ S (stdin (globals w'))) w.
Hypothesis HP : ∀ w, S (stdin (globals w)) →
  rq_password (request (globals w)) = zeros sizeof_password →
  wp K read_password (λ o w', o = Ret 0 → P (rq_password (request (globals w')))) w.
Hypothesis HC : ∀ u p, U u → P p →
  C (MkAuthRequest AUTH_PROTOCOL_VERSION AUTH_REQUEST_VALIDATE u p).

Lemma main_spec fuel :
  length (username_input g) = USERNAME_INPUT_BUFFER_SIZE →
  wp K (main fuel) (main_post g C) (World g []).
Proof.
  intros Hin. unfold main. wp_steps. set (w := World _ _).
  assert (asking g w) as Hask.
  { split_and!; try done; [by rewrite length_replicate..|by right]. }
  assert (request (globals w) = initial_request ∧ stdin (globals w) = stdin g)
    as [Hrq Hstd] by done. clearbody w.
  eapply wp_mono.
  { apply wp_conj; [apply frontend_install_returns|apply wp_conj;
      [apply (emits_wp asks), _|apply (keeps_wp contents), _]]. }
  intros o w1 ([r1 ->] & (new1 & Htr1 & Hn1) & Hk1). unfold contents in Hk1.
  injection Hk1 as Hstd1 Hreq1 Hresp1 Hui1 Hpi1.
  pose proof Hask as (_ & _ & (Hi & Hu & Hp) & Hlen & _).
  assert (asking g w1) as Hask1.
  { apply (asking_more g w w1 new1); try done; [|congruence|by right].
    unfold sized. by rewrite Hui1, Hreq1. }
  wp_decide Hr1; [by apply asking_fails|]. wp_steps.
  eapply wp_mono.
  { apply wp_conj; [apply read_username_spec, Hask1|apply wp_conj;
      [apply HU; [apply Hask1|congruence..]|apply (emits_wp asks), _]]. }
  intros [r2|h] w2; simpl; [|tauto].
  intros ((Hsz2 & Hresp2 & Hpi2 & Hf2) & HU2 & (new2 & Htr2 & Hn2)).
  assert (asking g w2) as Hask2.
  { apply (asking_more g w1 w2 new2); try done; [congruence|by right]. }
  wp_decide Hr2; [by apply asking_fails|].
  destruct Hf2 as [[-> (u & Hreq2 & Hu2)]|[-> _]]; [|lia].
  rewrite Hreq1, Hrq in Hreq2. rewrite Hreq2 in HU2. destruct (HU2 eq_refl) as [HUu HS2].
  wp_steps. eapply wp_mono.
  { apply wp_conj; [apply read_password_spec, Hsz2|apply wp_conj;
      [apply HP; [done|by rewrite Hreq2]|apply (emits_wp asks), _]]. }
  intros [r3|h] w3; simpl; [|tauto].
  intros ((Hpi3 & Hresp3 & Hui3 & Hf3 & _) & HP3 & (new3 & Htr3 & Hn3)).
  assert (length (response (globals w3)) = sizeof_AuthResponse) as Hlen3 by congruence.
  assert (asking g w3) as Hask3.
  { apply (asking_more g w2 w3 new3); try done; [|by left]. unfold sized. rewrite Hui3.
    destruct Hf3 as [[-> (p & -> & Hp3)]|[-> ->]]; [|apply Hsz2].
    split_and!; [apply Hsz2|apply Hsz2|apply Hp3]. }
  destruct Hf3 as [[-> (p & Hreq3 & Hp3)]|[-> Hreq3]].
  - wp_decide Hr3; [lia|]. rewrite Hreq2 in Hreq3. rewrite Hreq3 in HP3.
    apply (main_exchange_spec fuel g w3 (with_password p (with_username u initial_request)));
      [done|done|by split_and!|]. apply HC; [done|by apply HP3].
  - wp_decide Hr3; [|lia]. by apply asking_fails.
Qed.

End main_proofs.

(** With nothing known of the input. *)
Lemma main_spec_any (K : kernel sys) fuel g :
  IOLaws K → length (username_input g) = USERNAME_INPUT_BUFFER_SIZE →
  wp K (main fuel) (main_post g (λ _, True)) (World g []).
Proof.
  intros HK Hin.
  apply (main_spec K (λ _, True) g (λ _, True) (λ _, True) (λ _, True)); try done.
Qed.

(** ** Properties *)

(** C30. Whatever happens, all a run of the frontend ever sends, on any
    descriptor, is a prefix of one login request: version 1, type 1, and two
    terminated strings of permitted length. *)
Theorem main_sends_only_logins (K : kernel sys) fuel g :
  IOLaws K → length (username_input g) = USERNAME_INPUT_BUFFER_SIZE →
  wp K (main fuel) (λ _ w',
    (∀ fd, sent fd (trace w') = []) ∨
    ∃ rq, login_request rq ∧
      ∀ fd, ∃ n, sent fd (trace w') = take n (encode_request rq)) (World g []).
Proof.
  intros HK Hin. eapply wp_mono; [by apply main_spec_any|].
  intros o w' [[H|(rq & Hrq & _ & H)] _]; [by left|]. right. by exists rq.
Qed.

(** C31. Whenever [main] of the frontend returns, the request (with the
    password), the response and the line buffer of the password are zeros,
    and its descriptors are closed. *)
Theorem main_clears_request (K : kernel sys) fuel g :
  IOLaws K → length (username_input g) = USERNAME_INPUT_BUFFER_SIZE →
  wp K (main fuel) (post (λ r w',
    request (globals w') = zero_request ∧
    response (globals w') = zeros sizeof_AuthResponse ∧
    (password_input (globals w') = zeros PASSWORD_INPUT_BUFFER_SIZE
     ∨ password_input (globals w') = password_input g) ∧
    open_fds (trace w') = [] ∧ (r = EXIT_SUCCESS ∨ r = EXIT_FAILURE))
    (λ h _, h = OutOfFuel)) (World g []).
Proof.
  intros HK Hin. eapply wp_mono; [by apply main_spec_any|].
  intros [r|h] w' [_ H]; simpl; [|done].
  destruct H as (H1 & H2 & H3 & H4 & H5). split_and!; auto.
  destruct H5 as [[-> _]| ->]; auto.
Qed.

(** C29. The frontend reports success (exit status 0) only when it sent one
    whole login request and received one whole response, on the same
    connection, whose message is terminated, whose version is 1 and whose
    result is success. *)
Theorem main_success_is_granted (K : kernel sys) fuel g :
  IOLaws K → length (username_input g) = USERNAME_INPUT_BUFFER_SIZE →
  wp K (main fuel) (post (λ r w', r = EXIT_SUCCESS →
    ∃ fd rq, login_request rq ∧ sent fd (trace w') = encode_request rq ∧
      length (received fd (trace w')) = sizeof_AuthResponse ∧
      let rs := decode_response (received fd (trace w')) in
      NUL ∈ rs_message rs ∧ rs_version rs = AUTH_PROTOCOL_VERSION ∧
      rs_result rs = AuthResult_code AUTH_RESULT_SUCCESS)
    (λ h _, h = OutOfFuel)) (World g []).
Proof.
  intros HK Hin. eapply wp_mono; [by apply main_spec_any|].
  intros [r|h] w' [_ H]; simpl; [|done]. intros ->.
  destruct H as (_ & _ & _ & _ & [[_ H]|[=]]).
  destruct H as (fd & rq & raw & H1 & _ & H2 & H3 & H4). rewrite <- H3 in H4.
  by exists fd, rq.
Qed.

(** ** Witnesses *)

Lemma main_sends_only_logins_witness :
  wp terminal_kernel (main 300) (λ _ w',
    (∀ fd, sent fd (trace w') = []) ∨
    ∃ rq, login_request rq ∧
      ∀ fd, ∃ n, sent fd (trace w') = take n (encode_request rq))
    (World (typing "admin" "secret") []).
Proof. apply main_sends_only_logins; [apply easy_kernel_io|reflexivity]. Defined.

Lemma main_clears_request_witness :
  wp terminal_kernel (main 300) (post (λ r w',
    request (globals w') = zero_request ∧
    response (globals w') = zeros sizeof_AuthResponse ∧
    (password_input (globals w') = zeros PASSWORD_INPUT_BUFFER_SIZE
     ∨ password_input (globals w') = zeros PASSWORD_INPUT_BUFFER_SIZE) ∧
    open_fds (trace w') = [] ∧ (r = EXIT_SUCCESS ∨ r = EXIT_FAILURE))
    (λ h _, h = OutOfFuel)) (World (typing "admin" "secret") []).
Proof.
  apply (main_clears_request terminal_kernel 300 (typing "admin" "secret"));
    [apply easy_kernel_io|reflexivity].
Defined.

Lemma main_success_is_granted_witness :
  wp terminal_kernel (main 300) (post (λ r w', r = EXIT_SUCCESS →
    ∃ fd rq, login_request rq ∧ sent fd (trace w') = encode_request rq ∧
      length (received fd (trace w')) = sizeof_AuthResponse ∧
      let rs := decode_response (received fd (trace w')) in
      NUL ∈ rs_message rs ∧ rs_version rs = AUTH_PROTOCOL_VERSION ∧
      rs_result rs = AuthResult_code AUTH_RESULT_SUCCESS)
    (λ h _, h = OutOfFuel)) (World (typing "admin" "secret") []).
Proof. apply main_success_is_granted; [apply easy_kernel_io|reflexivity]. Defined.
