(* ===== verification/AuthSystem.v ===== *)
(** * The authentication service: frontend and backend together

    A run of [Frontend.c] and a run of [Backend.c] whose descriptors are the
    two ends of a connection. *)

From S2P Require Import Prelude.
From S2P Require Import CLib.
From S2P Require Import AuthProtocol.
From S2P Require Import AuthSys.
From S2P Require Import Transfer.
From S2P Require Import BackendCredential.
From S2P Require Import BackendRequest.
From S2P Require Import BackendServer.
From S2P Require Import BackendMain.
From S2P Require Frontend.
From S2P Require FrontendMain.
Local Open Scope Z_scope.

(** ** Specification *)

(** The request of a user who types [u] and [p]. *)
Definition login_of (u p : list byte) : AuthRequest :=
  MkAuthRequest AUTH_PROTOCOL_VERSION AUTH_REQUEST_VALIDATE
    (store 0 (u ++ [NUL]) (zeros sizeof_username))
    (store 0 (p ++ [NUL]) (zeros sizeof_password)).

(** The user types the two lines [u] and [p]. *)
Definition types (g : Frontend.frontend) (u p : list byte) : Prop :=
  length (Frontend.username_input g) = Frontend.USERNAME_INPUT_BUFFER_SIZE ∧
  LF ∉ u ∧ NUL ∉ u ∧ LF ∉ p ∧ NUL ∉ p ∧
  ∃ rest, f_rest (Frontend.stdin g) = u ++ LF :: p ++ LF :: rest.

(** The connection carries bytes in order and makes up none: what the
    frontend received on a descriptor was sent by the backend on one from
    which it had received nothing but what the frontend sent. *)
Definition connected (frontend_trace backend_trace : trace_t) : Prop :=
  ∀ fd, received fd frontend_trace ≠ [] →
    ∃ fd', received fd frontend_trace `prefix_of` sent fd' backend_trace ∧
           received fd' backend_trace `prefix_of` sent fd frontend_trace.

(** ** Lemmas *)

(** The frontend sends the login of the typed lines. *)
Lemma frontend_types (K : kernel sys) fuel g u p :
  IOLaws K → types g u p →
  wp K (Frontend.main fuel) (FrontendMain.main_post g
    (λ rq, rq = login_of u p ∧ (0 < length u)%nat ∧ (0 < length p)%nat)) (World g []).
Proof.
  intros HK (Hin & HLu & HNu & HLp & HNp & rest & Hf).
  apply (FrontendMain.main_spec K _ g (λ f, f_rest f = p ++ LF :: rest)
    (λ f, f = store 0 (u ++ [NUL]) (zeros sizeof_username) ∧ (0 < length u)%nat)
    (λ f, f = store 0 (p ++ [NUL]) (zeros sizeof_password) ∧ (0 < length p)%nat)); [| | |done].
  - intros w Hsz Hstd Hrq. eapply wp_mono.
    { apply (Frontend.read_username_typed K w u (p ++ LF :: rest)); try done. by rewrite Hstd. }
    intros o w' [H _] Ho. destruct (H Ho) as (Hl & -> & ->). rewrite Hrq.
    split; [|done]. split; [done|lia].
  - intros w Hs Hp. eapply wp_mono.
    { apply (Frontend.read_password_typed K w p rest); try done.
      rewrite Hp. apply length_zeros. }
    intros o w' [H _] Ho. destruct (H Ho) as (Hl & ->). rewrite Hp. split; [done|lia].
  - intros u' p' [-> Hu] [-> Hp]. by split_and!.
Qed.

Lemma login_request_ok rq : Frontend.login_request rq → request_ok rq.
Proof.
  intros (Hv & Ht & (Hu & _) & (Hp & _)). unfold request_ok. by rewrite Hv, Ht, Hu, Hp.
Qed.

(** A message received whole is the whole message that was sent. *)
Lemma prefix_take_whole (l m : list byte) n :
  l `prefix_of` take n m → length m = length l → l = m.
Proof.
  intros H Hlen. apply prefix_length_eq; [|lia]. etrans; [done|apply prefix_take].
Qed.

Lemma length_rejection : length rejection = sizeof_AuthResponse.
Proof. apply length_encode_response, set_response_ok. Qed.

Lemma length_answer raw c : length (answer raw c) = sizeof_AuthResponse.
Proof. apply length_encode_response, respond_ok. Qed.

Lemma rejection_fails :
  rs_result (decode_response rejection) ≠ AuthResult_code AUTH_RESULT_SUCCESS.
Proof. unfold rejection. by rewrite decode_encode_response by apply set_response_ok. Qed.

(** What a reply that grants access tells about the account. *)
Lemma granted_account raw req u p u0 p0 :
  NUL ∉ u → NUL ∉ p → NUL ∉ u0 → NUL ∉ p0 →
  Frontend.login_request (login_of u p) → req = encode_request (login_of u p) →
  raw = answer req (credential_of u0 p0) →
  rs_result (decode_response raw) = AuthResult_code AUTH_RESULT_SUCCESS →
  u0 = u ∧ p0 = p.
Proof.
  intros Hu Hp Hu0 Hp0 Hlogin -> -> Hres. apply login_request_ok in Hlogin.
  apply answer_grants in Hres; [|by apply length_encode_request|done..].
  rewrite decode_encode_request in Hres by done. destruct Hres as (_ & <- & <-).
  unfold login_of. cbn [rq_username rq_password]. by rewrite !c_string_store.
Qed.

(** ** Properties *)

(** C1. Frontend and backend together: a frontend that is connected to a
    backend reports success only when the username and the password its user
    typed are those of the backend's credential file, whatever the kernels
    on both sides do. *)
Theorem login_end_to_end (KF KB : kernel sys) fuelF fuelB gf gb dir build exe lines last u p :
  IOLaws KF → IOLaws KB → deployed KB fuelB dir build exe lines last → types gf u p →
  connected (trace (Frontend.main fuelF KF (World gf [])).2)
            (trace (main fuelB KB (World gb [])).2) →
  (Frontend.main fuelF KF (World gf [])).1 = Ret EXIT_SUCCESS →
  parse_credentials (lines ++ [last]) = Some (u, p).
Proof.
  intros HKF HKB Hdep Htypes.
  pose proof (frontend_types KF fuelF gf u p HKF Htypes) as HF.
  pose proof (main_replies_spec KB fuelB gb dir build exe lines last Hdep) as HB.
  unfold wp in HF, HB. destruct (Frontend.main _ _ _) as [ex wf].
  destruct (main _ _ _) as [o wb]. simpl in HF, HB |- *. intros Hconn ->.
  destruct HF as (_ & _ & _ & _ & _ & [[_ HF]|[=]]).
  destruct HF as (fd & rq & raw & Hlogin & (-> & _) & Hsent & Hraw & Hlen & _ & _ & Hres).
  assert (received fd (trace wf) ≠ []) as Hne by (rewrite Hraw; by destruct raw).
  destruct (Hconn fd Hne) as (fd' & Hpre & Hpre'). rewrite Hraw in Hpre. rewrite Hsent in Hpre'.
  destruct (parse_credentials _) as [[u0 p0]|] eqn:Hparse.
  2: { rewrite HB in Hpre. apply prefix_nil_inv in Hpre. by subst raw. }
  apply parse_credentials_Some in Hparse as (Hu0 & Hp0 & _); [|apply Hdep].
  destruct Htypes as (_ & _ & Hu & _ & Hp & _).
  destruct (HB fd') as [[n Hn]|(Hl & n & Hn)]; rewrite Hn in Hpre.
  - apply prefix_take_whole in Hpre; [|by rewrite length_rejection].
    rewrite Hpre in Hres. by apply rejection_fails in Hres.
  - apply prefix_take_whole in Hpre; [|by rewrite length_answer].
    apply prefix_length_eq in Hpre';
      [|rewrite Hl, length_encode_request; [done|by apply login_request_ok]].
    by destruct (granted_account raw _ u p u0 p0 Hu Hp Hu0 Hp0 Hlogin Hpre' Hpre Hres) as [-> ->].
Qed.

(** ** Witness *)

(** The kernels of a user who logs in and of the backend that answers. *)
Definition client_kernel : kernel sys :=
  easy_kernel (λ _, None)
    (answer (encode_request (login_of (txt "admin") (txt "secret")))
            (credential_of (txt "admin") (txt "secret"))).

Definition server_kernel : kernel sys :=
  backend_kernel (encode_request (login_of (txt "admin") (txt "secret"))).

(** The reads of a trace: descriptor and data. *)
Definition read_of (e : event sys) : option (nat * list byte) :=
  match e with
  | Ev (Read fd _) r => match r with Ok data => Some (fd, data) | Err _ => None end
  | _ => None
  end.

Lemma received_reads fd tr :
  received fd tr =
  foldr (λ x l, l ++ if bool_decide (x.1 = fd) then x.2 else []) [] (omap read_of tr).
Proof.
  induction tr as [|[T c r] tr IH]; [done|]. rewrite received_cons, IH.
  destruct c; simpl; rewrite ?app_nil_r; try done.
  destruct r; simpl; by rewrite ?app_nil_r.
Qed.

Lemma sample_connected :
  connected
    (trace (Frontend.main 300 client_kernel (World (Frontend.typing "admin" "secret") [])).2)
    (trace (main 300 server_kernel (World backend_memory [])).2).
Proof.
  intros fd Hne. destruct (decide (fd = 3%nat)) as [->|Hfd].
  - exists 4%nat. split; apply (bool_decide_unpack _); vm_compute; exact I.
  - destruct Hne. rewrite received_reads.
    assert (Forall (λ x : nat * list byte, x.1 = 3%nat) (omap read_of
      (trace (Frontend.main 300 client_kernel
        (World (Frontend.typing "admin" "secret") [])).2))) as H.
    { apply (bool_decide_unpack _). vm_compute. exact I. }
    induction H as [|x l Hx _ IH]; [done|]. simpl. rewrite IH, Hx.
    by rewrite bool_decide_eq_false_2.
Qed.

Lemma sample_types : types (Frontend.typing "admin" "secret") (txt "admin") (txt "secret").
Proof.
  split; [reflexivity|]. split_and!; try (apply (bool_decide_unpack _); vm_compute; exact I).
  exists []. reflexivity.
Qed.

Lemma login_end_to_end_witness :
  (Frontend.main 300 client_kernel (World (Frontend.typing "admin" "secret") [])).1 =
    Ret EXIT_SUCCESS ∧
  (main 300 server_kernel (World backend_memory [])).1 = Ret EXIT_SUCCESS ∧
  parse_credentials (sample_lines ++ [[]]) = Some (txt "admin", txt "secret").
Proof.
  assert ((Frontend.main 300 client_kernel (World (Frontend.typing "admin" "secret") [])).1 =
    Ret EXIT_SUCCESS) as Hexit by (vm_compute; reflexivity).
  split; [exact Hexit|]. split; [vm_compute; reflexivity|].
  apply (login_end_to_end client_kernel server_kernel 300 300
    (Frontend.typing "admin" "secret") backend_memory (txt "/srv/Authentication")
    (txt "build") (txt "Backend") sample_lines [] (txt "admin") (txt "secret")
    (easy_kernel_io _ _) (backend_kernel_io _) (backend_kernel_deployed _)
    sample_types sample_connected Hexit).
Defined.
