(* ===== verification/SandboxSys.v ===== *)
(** * The environment of the sandbox controller

    The calls [src/Sandbox/] makes to the kernel and the C library, as a
    signature for the program monad.  [SandboxTerminationReason] is the
    enumeration of [monitor.h]; the rest of the shared state is in
    [MonitorState.v].

    The controller has four threads: [main] and three monitors.  A thread is a
    program over this signature.  The threads see each other through the
    state the mutex protects: the event [Publish c] marks that the thread
    changed that state, inside a critical section, and the answer to
    [Mutex_lock] lists the changes the others published since the thread last
    held the mutex.  [Threads.v] puts the four together. *)

From S2P Require Import Prelude.
From S2P Require Import CLib.
Local Open Scope Z_scope.

Inductive SandboxTerminationReason : Type :=
  | TERMINATION_NONE
  | TERMINATION_TIMEOUT
  | TERMINATION_MEMORY_LIMIT
  | TERMINATION_MONITOR_ERROR
  | TERMINATION_SUPERVISOR_ERROR
  | TERMINATION_OPERATOR_SIGNAL.

(** A change of the shared state, by any thread. *)
Inductive state_change : Type :=
  | Request (reason : SandboxTerminationReason)
  | Mark_leader_exited
  | Mark_workload_exited.

Inductive disposition : Type := Handle | Ignore | Default.

(** [waitpid(-1, &status, WNOHANG)]: a child with its status, no child that
    changed state, or an error. *)
Inductive waited : Type :=
  | WaitChild (pid status : Z)
  | WaitNone
  | WaitErr (errno : Z).

(** [nanosleep]: an interrupted sleep leaves the time remaining, in seconds
    and nanoseconds. *)
Inductive slept : Type :=
  | SleptAll
  | SleepErr (errno : Z) (rem_sec rem_nsec : Z).

Inductive monitor : Type := TimeoutMonitor | MemoryMonitor | CpuMonitor.

Inductive resource : Type := RLIMIT_CORE | RLIMIT_AS.

(** A BPF instruction: [code], [jt], [jf], [k] of [struct sock_filter]. *)
Record sock_filter := SockFilter { bpf_code : Z; bpf_jt : Z; bpf_jf : Z; bpf_k : Z }.

(** A descriptor is a [nat]; a C variable holding one or [-1] is an
    [option nat]. *)
Inductive ssys : Type → Type :=
  (* output *)
  | Fprintf (s : stream) (fmt : string) (args : list arg) : ssys unit
  | Fflush (s : stream) : ssys unit
  | Dprintf (fmt : string) (args : list arg) : ssys unit
  (* threads; the results are error numbers, 0 for success *)
  | Logger_lock : ssys Z
  | Logger_unlock : ssys Z
  | Mutex_init : ssys Z
  | Mutex_lock : ssys (res (list state_change))
  | Publish (c : state_change) : ssys unit
  | Mutex_unlock : ssys Z
  | Mutex_destroy : ssys Z
  | Pthread_create (m : monitor) : ssys Z
  | Pthread_join (m : monitor) : ssys Z
  (* time and configuration *)
  | Clock_gettime : ssys (res (Z * Z))
  | Nanosleep (sec nsec : Z) : ssys slept
  | Sysconf_clk_tck : ssys Z
  | Sysconf_open_max : ssys Z
  (* signals and processes *)
  | Sigaction (signum : Z) (d : disposition) : ssys (res unit)
  | Pending_signals : ssys (list Z)
  | Getpid : ssys Z
  | Getppid : ssys Z
  | Fork : ssys (res Z)
  | Setpgid (pid pgid : Z) : ssys (res unit)
  | Kill (pid signum : Z) : ssys (res unit)
  | Waitpid_any : ssys waited
  | Waitpid (pid : Z) : ssys (res Z)
  | Set_child_subreaper : ssys (res unit)
  | Set_pdeathsig (signum : Z) : ssys (res unit)
  | Set_no_new_privs : ssys (res unit)
  | Set_seccomp_filter (prog : list sock_filter) : ssys (res unit)
  | Setrlimit (r : resource) (cur max : Z) : ssys (res unit)
  | Execve (path : list byte) (argv : list (list byte)) (envp : list string)
      : ssys (option Z)           (**r [None]: the image was replaced *)
  (* files *)
  | Pipe2 : ssys (res (nat * nat))
  | Open_write (path : list byte) : ssys (res nat)
  | Open_path (path : list byte) : ssys (res nat)
  | Read (fd : nat) (n : nat) : ssys (res (list byte))
  | Write (fd : nat) (data : list byte) : ssys (res nat)
  | Close (fd : nat) : ssys (res unit)
  | Close_range (first : nat) : ssys (res unit)
  | Fopen (path : list byte) : ssys (res (list byte * option Z))
  | Fclose : ssys (res unit)
  | Mkdir (path : list byte) (mode : Z) : ssys (res unit)
  | Rmdir (path : list byte) : ssys (res unit)
  | Realpath (path : list byte) : ssys (res (list byte))
  | Opendir (path : string) : ssys (res unit)
  | Readdir : ssys (res (option (list byte)))
  | Closedir : ssys (res unit)
  (* memory *)
  | Realloc (size : Z) : ssys bool
  | Calloc (count size : Z) : ssys bool
  (* Landlock *)
  | Landlock_abi : ssys (res Z)
  | Landlock_create_ruleset (handled_access_fs : Z) : ssys (res nat)
  | Landlock_add_rule (ruleset_fd : nat) (allowed_access : Z) (parent_fd : nat)
      : ssys (res unit)
  | Landlock_restrict_self (ruleset_fd : nat) : ssys (res unit).

Notation strace := (list (event ssys)).

Definition fprintf {G} (s : stream) (fmt : string) (args : list arg)
    : prog ssys G unit := call (Fprintf s fmt args).

Definition dprintf {G} (fmt : string) (args : list arg) : prog ssys G unit :=
  call (Dprintf fmt args).

Definition is_eintr (e : Z) : bool := bool_decide (e = EINTR).

(** The call [c] was answered [r]. *)
Definition happened {T} (c : ssys T) (r : T) (tr : strace) : Prop := Ev c r ∈ tr.

(** ** [sleep_milliseconds], the same function in [Sandbox.c] and [monitor.c] *)

Definition sleep_step {G} (delay : Z * Z) : prog ssys G (Z * Z + res unit) :=
  let* r := call (Nanosleep delay.1 delay.2) in
  match r with
  | SleptAll => ret (inr (Ok tt))
  | SleepErr e sec nsec =>
      if negb (is_eintr e) then ret (inr (Err e)) else ret (inl (sec, nsec))
  end.

Definition sleep_milliseconds {G} (fuel : nat) (milliseconds : Z)
    : prog ssys G (res unit) :=
  loop fuel sleep_step
    (milliseconds `div` 1000, (milliseconds `mod` 1000) * 1000000).

#[export] Typeclasses Opaque fprintf dprintf sleep_milliseconds.

#[export] Instance SandboxTerminationReason_eq_dec : EqDecision SandboxTerminationReason.
Proof. solve_decision. Defined.

#[export] Instance state_change_eq_dec : EqDecision state_change.
Proof. solve_decision. Defined.

#[export] Instance monitor_eq_dec : EqDecision monitor.
Proof. solve_decision. Defined.

(** A sleep only sleeps. *)
Definition is_sleep (e : event ssys) : Prop :=
  match e with Ev (Nanosleep _ _) _ => True | _ => False end.

#[export] Instance sleep_emits {G} fuel ms :
  Emits is_sleep (@sleep_milliseconds G fuel ms).
Proof. unfold sleep_milliseconds, sleep_step. solve_emits. Qed.

#[export] Instance sleep_keeps {G B} (f : G → B) fuel ms :
  Keeps f (@sleep_milliseconds G fuel ms).
Proof. unfold sleep_milliseconds, sleep_step. solve_keeps. Qed.

Lemma happened_extends {T} (c : ssys T) r tr tr' :
  extends tr tr' → happened c r tr → happened c r tr'.
Proof. intros [new ->] H. apply elem_of_app. by right. Qed.

(** A file was opened under this path, with this content and end. *)
Definition file_read (path content : list byte) (fails : option Z) (tr : strace) : Prop :=
  ∃ buffer, c_string buffer = path ∧ happened (Fopen buffer) (Ok (content, fails)) tr.

(** How [/proc] tells that a process is gone. *)
Definition gone_error (e : Z) : Prop := e = ENOENT ∨ e = ESRCH.
Definition file_gone (path : list byte) (tr : strace) : Prop :=
  ∃ buffer e, gone_error e ∧ c_string buffer = path ∧ happened (Fopen buffer) (Err e) tr.

Lemma file_read_extends path content fails tr tr' :
  extends tr tr' → file_read path content fails tr → file_read path content fails tr'.
Proof. intros He (b & ? & ?). exists b. split; [done|]. by eapply happened_extends. Qed.

Lemma file_gone_extends path tr tr' : extends tr tr' → file_gone path tr → file_gone path tr'.
Proof. intros He (b & e & ? & ? & ?). exists b, e. split_and!; [done..|]. by eapply happened_extends. Qed.

Lemma happened_here {T} (c : ssys T) r tr : happened c r (Ev c r :: tr).
Proof. by left. Qed.

#[export] Hint Resolve happened_here : trace.

(** The call is somewhere in the trace shown, or was there before. *)
Ltac did :=
  cbn [trace];
  first [ apply happened_here
        | assumption
        | eapply happened_extends; [|eassumption]; by eexists [_]
        | apply list_elem_of_further; did
        | apply elem_of_app; right; did ].

(** ** Concrete environments

    Every call succeeds, except as the scenario says: what other threads did
    at each lock, the results of [waitpid], the clock, the signals, the
    directory [/proc], the content of files, the result of [fork]. *)
Record scenario := Scenario {
  sc_others : strace → list state_change;
  sc_wait : strace → waited;
  sc_clock : strace → Z * Z;
  sc_signals : strace → list Z;
  sc_readdir : strace → option (list byte);
  sc_files : strace → list byte → option (list byte);
  sc_fork : Z
}.

Definition scenario_answer (s : scenario) (tr : strace) {T} (c : ssys T) : T :=
  match c with
  | Fprintf _ _ _ => tt
  | Fflush _ => tt
  | Dprintf _ _ => tt
  | Logger_lock => 0
  | Logger_unlock => 0
  | Mutex_init => 0
  | Mutex_lock => Ok (sc_others s tr)
  | Publish _ => tt
  | Mutex_unlock => 0
  | Mutex_destroy => 0
  | Pthread_create _ => 0
  | Pthread_join _ => 0
  | Clock_gettime => Ok (sc_clock s tr)
  | Nanosleep _ _ => SleptAll
  | Sysconf_clk_tck => 100
  | Sysconf_open_max => 1024
  | Sigaction _ _ => Ok tt
  | Pending_signals => sc_signals s tr
  | Getpid => 100
  | Getppid => 100
  | Fork => Ok (sc_fork s)
  | Setpgid _ _ => Ok tt
  | Kill _ _ => Ok tt
  | Waitpid_any => sc_wait s tr
  | Waitpid _ => Ok 0
  | Set_child_subreaper => Ok tt
  | Set_pdeathsig _ => Ok tt
  | Set_no_new_privs => Ok tt
  | Set_seccomp_filter _ => Ok tt
  | Setrlimit _ _ _ => Ok tt
  | Execve _ _ _ => None
  | Pipe2 => Ok (3%nat, 4%nat)
  | Open_write _ => Ok 5%nat
  | Open_path _ => Ok 6%nat
  | Read _ n => Ok (take n [x01])
  | Write _ data => Ok (length data)
  | Close _ => Ok tt
  | Close_range _ => Ok tt
  | Fopen path => match sc_files s tr path with
                  | Some content => Ok (content, None)
                  | None => Err ENOENT
                  end
  | Fclose => Ok tt
  | Mkdir _ _ => Ok tt
  | Rmdir _ => Ok tt
  | Realpath path => Ok (c_string path)
  | Opendir _ => Ok tt
  | Readdir => Ok (sc_readdir s tr)
  | Closedir => Ok tt
  | Realloc _ => true
  | Calloc _ _ => true
  | Landlock_abi => Ok 3
  | Landlock_create_ruleset _ => Ok 7%nat
  | Landlock_add_rule _ _ _ => Ok tt
  | Landlock_restrict_self _ => Ok tt
  end.

Definition scenario_kernel (s : scenario) : kernel ssys :=
  λ T tr c, scenario_answer s tr c.

(** Nothing happens: no child, no other thread, an empty [/proc]. *)
Definition nothing : scenario :=
  Scenario (λ _, []) (λ _, WaitNone) (λ _, (0, 0)) (λ _, []) (λ _, None)
           (λ _ _, None) 200.
