(* ===== verification/Logger.v ===== *)
(** * logger.c: serialised log lines

    [logger_write] prints one line while it holds the logger's mutex; a
    failure of the mutex is reported and never reaches the caller. *)

From S2P Require Import Prelude.
From S2P Require Import CLib.
From S2P Require Import SandboxSys.
Local Open Scope Z_scope.

Definition logger_write {G} (s : stream) (level : string) (format : string)
    (args : list arg) : prog ssys G unit :=
  let* lock_result := call Logger_lock in
  if bool_decide (lock_result ≠ 0) then
    fprintf Stderr "[sandbox][LOGGER] mutex lock failed: %s\n" [AErrno lock_result]
  else
  fprintf s "[sandbox][%s] " [AStr (txt level)] ;;;
  fprintf s format args ;;;
  fprintf s "\n" [] ;;;
  call (Fflush s) ;;;
  let* lock_result := call Logger_unlock in
  if bool_decide (lock_result ≠ 0) then
    fprintf Stderr "[sandbox][LOGGER] mutex unlock failed: %s\n" [AErrno lock_result]
  else ret tt.

Definition logger_info {G} (format : string) (args : list arg) : prog ssys G unit :=
  logger_write Stdout "INFO" format args.

Definition logger_warn {G} (format : string) (args : list arg) : prog ssys G unit :=
  logger_write Stderr "WARN" format args.

Definition logger_error {G} (format : string) (args : list arg) : prog ssys G unit :=
  logger_write Stderr "ERROR" format args.

#[export] Typeclasses Opaque logger_write logger_info logger_warn logger_error.

(** ** What logging does *)

Definition is_log (e : event ssys) : Prop :=
  match e with
  | Ev (Fprintf _ _ _) _ | Ev (Fflush _) _ | Ev Logger_lock _ | Ev Logger_unlock _ => True
  | _ => False
  end.

#[export] Instance logger_write_emits {G} s level format args :
  Emits is_log (@logger_write G s level format args).
Proof. unfold logger_write, fprintf. solve_emits. Qed.

#[export] Instance logger_write_keeps {G B} (f : G → B) s level format args :
  Keeps f (@logger_write G s level format args).
Proof. unfold logger_write, fprintf. solve_keeps. Qed.

#[export] Instance logger_write_returns {G} s level format args :
  Returns (@logger_write G s level format args).
Proof. unfold logger_write, fprintf. solve_returns. Qed.

(** Logging returns, and only adds log events. *)
Lemma wp_logger_write {G} K s level format args
    (Q : outcome unit → world ssys G → Prop) w :
  (∀ new, Forall is_log new → Q (Ret tt) (World (globals w) (new ++ trace w))) →
  wp K (logger_write s level format args) Q w.
Proof. intros HQ. apply (wp_quiet is_log); try apply _. intros [] new. apply HQ. Qed.

#[export] Instance logger_info_emits {G} format args :
  Emits is_log (@logger_info G format args).
Proof. apply logger_write_emits. Qed.
#[export] Instance logger_warn_emits {G} format args :
  Emits is_log (@logger_warn G format args).
Proof. apply logger_write_emits. Qed.
#[export] Instance logger_error_emits {G} format args :
  Emits is_log (@logger_error G format args).
Proof. apply logger_write_emits. Qed.
#[export] Instance logger_info_keeps {G B} (f : G → B) format args :
  Keeps f (@logger_info G format args).
Proof. apply logger_write_keeps. Qed.
#[export] Instance logger_warn_keeps {G B} (f : G → B) format args :
  Keeps f (@logger_warn G format args).
Proof. apply logger_write_keeps. Qed.
#[export] Instance logger_error_keeps {G B} (f : G → B) format args :
  Keeps f (@logger_error G format args).
Proof. apply logger_write_keeps. Qed.
#[export] Instance logger_info_returns {G} format args :
  Returns (@logger_info G format args).
Proof. apply logger_write_returns. Qed.
#[export] Instance logger_warn_returns {G} format args :
  Returns (@logger_warn G format args).
Proof. apply logger_write_returns. Qed.
#[export] Instance logger_error_returns {G} format args :
  Returns (@logger_error G format args).
Proof. apply logger_write_returns. Qed.
