(* ===== verification/SandboxOptions.v ===== *)
(** * Sandbox.c: the command line

    [parse_unsigned_limit] and [parse_options].  The arguments [argv] are a
    list of strings; [argv[argument_index]] is only read below [argc]. *)

From S2P Require Import Prelude.
From S2P Require Import CLib.
From S2P Require Import SandboxSys.
From stdpp Require Import pretty.
Local Open Scope Z_scope.

Definition DEFAULT_TIMEOUT_SECONDS : Z := 5.
Definition MAXIMUM_TIMEOUT_SECONDS : Z := 86400.
Definition MAXIMUM_MEMORY_LIMIT_KILOBYTES : Z := 4 * 1024 * 1024.

Record SandboxOptions := Options {
  target_path : list byte;
  target_argv : list (list byte);
  timeout_seconds : Z;
  memory_limit_kilobytes : Z
}.

Definition print_usage {G} (program_name : list byte) : prog ssys G unit :=
  fprintf Stderr
    "Usage: %s [--timeout SECONDS] [--memory-kb KILOBYTES] <target-binary> [args...]\n"
    [AStr program_name].

Definition parse_unsigned_limit (value : list byte) (maximum : Z) : option Z :=
  let r := strtoul value in
  if st_erange r || bool_decide (st_end r = 0%nat) ||
     bool_decide (char_at value (st_end r) ≠ NUL) ||
     bool_decide (st_value r = 0) || (st_value r >? maximum)
  then None
  else Some (st_value r).

(** The variables of the loop of [parse_options]. *)
Record parse_state := Parsing {
  argument_index : nat;
  ps_timeout : Z;
  ps_memory : Z
}.

(** One iteration over [argv]: the next state, or how the loop is left: at an
    argument index, or by [return -1]. *)
Definition parse_step {G} (argv : list (list byte)) (s : parse_state)
    : prog ssys G (parse_state + option parse_state) :=
  let i := argument_index s in
  match argv !! i with
  | None => ret (inr (Some s))    (* argument_index >= argc *)
  | Some a =>
      if str_eqb a "--timeout" then
        match argv !! S i ≫= λ v, parse_unsigned_limit v MAXIMUM_TIMEOUT_SECONDS with
        | None =>
            fprintf Stderr
              "Invalid timeout. Use an integer from 1 to 86400 seconds.\n" [] ;;;
            ret (inr None)
        | Some timeout =>
            ret (inl (Parsing (i + 2) (timeout `mod` 2 ^ 32) (ps_memory s)))
        end
      else if str_eqb a "--memory-kb" then
        match argv !! S i ≫= λ v, parse_unsigned_limit v MAXIMUM_MEMORY_LIMIT_KILOBYTES with
        | None =>
            fprintf Stderr
              "Invalid memory limit. Use an integer from 1 to 4194304 kilobytes.\n" [] ;;;
            ret (inr None)
        | Some memory => ret (inl (Parsing (i + 2) (ps_timeout s) memory))
        end
      else if str_eqb a "--" then
        ret (inr (Some (Parsing (i + 1) (ps_timeout s) (ps_memory s))))
      else if bool_decide (char_at a 0 = x2d) then
        fprintf Stderr "Unknown sandbox option: %s\n" [AStr a] ;;;
        ret (inr None)
      else ret (inr (Some s))
  end.

(** [None] is the return value [-1].  Every iteration but the last consumes
    an argument, so [S argc] iterations are enough. *)
Definition parse_options {G} (argv : list (list byte))
    : prog ssys G (option SandboxOptions) :=
  let* r := loop (S (length argv)) (parse_step argv)
              (Parsing 1 DEFAULT_TIMEOUT_SECONDS 0) in
  match r with
  | None => ret None
  | Some s =>
      match argv !! argument_index s with
      | None => ret None
      | Some target =>
          if bool_decide (char_at target 0 = NUL) then ret None
          else ret (Some (Options target (drop (argument_index s) argv)
                            (ps_timeout s) (ps_memory s)))
      end
  end.

(** ** The grammar of the command line *)

(** An option as a user means it. *)
Inductive option_arg : Type :=
  | Timeout (seconds : Z)
  | Memory_kb (kilobytes : Z).

Definition option_words (o : option_arg) : list (list byte) :=
  match o with
  | Timeout n => [txt "--timeout"; txt (pretty n)]
  | Memory_kb n => [txt "--memory-kb"; txt (pretty n)]
  end.

Definition option_valid (o : option_arg) : Prop :=
  match o with
  | Timeout n => 1 ≤ n ≤ MAXIMUM_TIMEOUT_SECONDS
  | Memory_kb n => 1 ≤ n ≤ MAXIMUM_MEMORY_LIMIT_KILOBYTES
  end.

(** The limits in force after some options: the last of a kind counts. *)
Definition apply_option (limits : Z * Z) (o : option_arg) : Z * Z :=
  match o with
  | Timeout n => (n, limits.2)
  | Memory_kb n => (limits.1, n)
  end.

(** What may follow the options: [--] and any target, or a target that does
    not look like an option. *)
Definition target_words (dashes : bool) (target : list byte) : list (list byte) :=
  if dashes then [txt "--"; target] else [target].

Definition target_valid (dashes : bool) (target : list byte) : Prop :=
  char_at target 0 ≠ NUL ∧ (dashes = false → char_at target 0 ≠ x2d).

(** ** Lemmas *)

Lemma parse_unsigned_limit_bounds value maximum n :
  parse_unsigned_limit value maximum = Some n → 1 ≤ n ≤ maximum.
Proof.
  unfold parse_unsigned_limit. pose proof (strtoul_range value).
  destruct (Z.gtb_spec (st_value (strtoul value)) maximum);
    [by rewrite orb_true_r|rewrite orb_false_r].
  destruct (bool_decide_reflect (st_value (strtoul value) = 0));
    [by rewrite orb_true_r|].
  rewrite orb_false_r. destruct (_ || _); [done|]. intros [= <-]. lia.
Qed.

Lemma parse_unsigned_limit_pretty n maximum :
  1 ≤ n ≤ maximum → maximum ≤ ULONG_MAX →
  parse_unsigned_limit (txt (pretty n)) maximum = Some n.
Proof.
  intros Hn Hm. unfold parse_unsigned_limit.
  pose proof (strtoul_pretty n [] ltac:(lia) ltac:(done)) as H.
  rewrite app_nil_r in H. rewrite H. cbn [st_value st_end st_erange].
  destruct (pretty_digits n) as (_ & _ & Hne); [lia|].
  rewrite !bool_decide_false; [|lia| |].
  - by destruct (Z.gtb_spec n maximum); [lia|].
  - unfold char_at. rewrite lookup_ge_None_2 by done. by intros [].
  - intros Hl. by apply nil_length_inv in Hl.
Qed.

(** What the loop knows about its variables. *)
Definition parsing_ok (argv : list (list byte)) (s : parse_state) : Prop :=
  1 ≤ ps_timeout s ≤ MAXIMUM_TIMEOUT_SECONDS ∧
  0 ≤ ps_memory s ≤ MAXIMUM_MEMORY_LIMIT_KILOBYTES ∧ (0 < argument_index s)%nat.

Lemma parse_step_spec {G} K argv s (w : world ssys G) :
  parsing_ok argv s →
  wp K (parse_step argv s) (post (λ x _, match x with
    | inl s' => parsing_ok argv s' ∧ (argument_index s < argument_index s')%nat ∧
                (argument_index s < length argv)%nat
    | inr (Some s') => parsing_ok argv s'
    | inr None => True
    end) (λ _ _, False)) w.
Proof.
  intros (Ht & Hm & Hi). unfold parse_step.
  destruct (argv !! argument_index s) as [a|] eqn:Ea; [|done].
  apply lookup_lt_Some in Ea.
  assert (∀ v n, parse_unsigned_limit v MAXIMUM_TIMEOUT_SECONDS = Some n →
    1 ≤ n `mod` 2 ^ 32 ≤ MAXIMUM_TIMEOUT_SECONDS) as Hmod.
  { intros v n Hn%parse_unsigned_limit_bounds.
    rewrite Z.mod_small by (unfold MAXIMUM_TIMEOUT_SECONDS in *; lia). done. }
  destruct (str_eqb a "--timeout").
  { destruct (argv !! S (argument_index s)) as [v|]; simpl; [|by repeat wp_step].
    destruct (parse_unsigned_limit v _) as [n|] eqn:En; [|by repeat wp_step].
    apply Hmod in En. wp_steps. unfold parsing_ok. simpl. split_and!; lia. }
  destruct (str_eqb a "--memory-kb").
  { destruct (argv !! S (argument_index s)) as [v|]; simpl; [|by repeat wp_step].
    destruct (parse_unsigned_limit v _) as [n|] eqn:En; [|by repeat wp_step].
    apply parse_unsigned_limit_bounds in En. wp_steps. unfold parsing_ok. simpl.
    split_and!; lia. }
  destruct (str_eqb a "--"); [wp_steps; unfold parsing_ok; simpl; split_and!; lia|].
  case_bool_decide; by repeat wp_step.
Qed.

Lemma parse_loop_spec {G} K argv (w : world ssys G) :
  wp K (loop (S (length argv)) (parse_step argv) (Parsing 1 DEFAULT_TIMEOUT_SECONDS 0))
    (post (λ x _, ∀ s, x = Some s → parsing_ok argv s) (λ _ _, False)) w.
Proof.
  apply (wp_loop K (λ i s _, parsing_ok argv s ∧
    (i ≤ argument_index s ∧ (i ≤ length argv))%nat)).
  - intros i s w' Hi (Hok & Hle). eapply wp_mono; [by apply parse_step_spec|].
    intros [[s'|[s'|]]|h] w''; simpl; [|by intros ? ? [= <-]|done|done].
    intros (? & ? & ?). split; [done|]. lia.
  - intros s w' (_ & Hle). lia.
  - unfold parsing_ok. simpl. unfold DEFAULT_TIMEOUT_SECONDS, MAXIMUM_TIMEOUT_SECONDS,
      MAXIMUM_MEMORY_LIMIT_KILOBYTES. lia.
Qed.

Lemma str_eqb_dash (l : list byte) s :
  head (txt s) = Some x2d → char_at l 0 ≠ x2d → str_eqb l s = false.
Proof.
  intros Hs Hl. unfold str_eqb. apply bool_decide_eq_false. intros Hc.
  rewrite <- Hc in Hs. destruct l as [|c l]; [done|]. unfold c_string in Hs.
  destruct (strlen (c :: l)); [done|]. injection Hs as ->. by apply Hl.
Qed.

(** One option is consumed by one iteration. *)
Lemma parse_step_option {G} K pre o rest t m (w : world ssys G) :
  option_valid o →
  parse_step (pre ++ option_words o ++ rest) (Parsing (length pre) t m) K w =
  (Ret (inl (Parsing (length pre + 2) (apply_option (t, m) o).1
                     (apply_option (t, m) o).2)), w).
Proof.
  intros Ho. unfold parse_step. cbn [argument_index].
  destruct o as [n|n]; cbn [option_words app apply_option fst snd] in *;
    rewrite list_lookup_middle by done.
  all: rewrite lookup_app_r, Nat.sub_succ_l, Nat.sub_diag by lia; cbn [lookup list_lookup mbind option_bind];
    cbn [option_valid] in Ho.
  - rewrite parse_unsigned_limit_pretty by (done || by vm_compute).
    change (str_eqb (txt "--timeout") "--timeout") with true.
    unfold ret. rewrite Z.mod_small; [done|].
    unfold MAXIMUM_TIMEOUT_SECONDS in Ho. lia.
  - change (str_eqb (txt "--memory-kb") "--timeout") with false.
    change (str_eqb (txt "--memory-kb") "--memory-kb") with true. cbv match.
    by rewrite parse_unsigned_limit_pretty by (done || by vm_compute).
Qed.

(** The words after the options end the loop at the target. *)
Lemma parse_step_target {G} K pre dashes target args t m (w : world ssys G) :
  target_valid dashes target →
  ∃ i, parse_step (pre ++ target_words dashes target ++ args) (Parsing (length pre) t m) K w =
       (Ret (inr (Some (Parsing i t m))), w) ∧
       drop i (pre ++ target_words dashes target ++ args) = target :: args ∧
       (pre ++ target_words dashes target ++ args) !! i = Some target.
Proof.
  intros [_ Hdash]. unfold parse_step, target_words. cbn [argument_index].
  destruct dashes; cbn [app].
  - exists (length pre + 1)%nat. rewrite list_lookup_middle by done.
    change (str_eqb (txt "--") "--timeout") with false.
    change (str_eqb (txt "--") "--memory-kb") with false.
    change (str_eqb (txt "--") "--") with true. split; [done|].
    rewrite drop_app_add. split; [done|].
    rewrite lookup_app_r by lia. by replace (length pre + 1 - length pre)%nat with 1%nat by lia.
  - exists (length pre). rewrite list_lookup_middle, drop_app_length by done.
    rewrite !(str_eqb_dash target) by (auto || reflexivity).
    rewrite bool_decide_false by auto. done.
Qed.

Lemma parse_loop_words {G} K pre opts dashes target args t m fuel (w : world ssys G) :
  Forall option_valid opts → target_valid dashes target → (length opts < fuel)%nat →
  let argv := pre ++ concat (option_words <$> opts) ++ target_words dashes target ++ args in
  ∃ i, loop fuel (parse_step argv) (Parsing (length pre) t m) K w =
       (Ret (Some (Parsing i (foldl apply_option (t, m) opts).1
                             (foldl apply_option (t, m) opts).2)), w) ∧
       drop i argv = target :: args ∧ argv !! i = Some target.
Proof.
  intros Hopts Htarget. revert pre t m fuel.
  induction Hopts as [|o opts Ho _ IH]; intros pre t m fuel Hfuel argv;
    (destruct fuel as [|fuel]; [simpl in *; lia|]).
  - destruct (parse_step_target (G:=G) K pre dashes target args t m w Htarget)
      as (i & Hstep & Hi).
    exists i. split; [|done]. subst argv. cbn [fmap list_fmap concat app].
    cbn [loop]. unfold bind. by rewrite Hstep.
  - simpl in Hfuel.
    destruct (IH (pre ++ option_words o) (apply_option (t, m) o).1
      (apply_option (t, m) o).2 fuel ltac:(lia)) as (i & Hloop & Hi).
    exists i. subst argv. cbn [fmap list_fmap concat] in *.
    rewrite <- !(assoc_L app) in *. split; [|done].
    cbn [loop]. unfold bind. rewrite parse_step_option by done.
    rewrite <- surjective_pairing in Hloop.
    replace (length pre + 2)%nat with (length (pre ++ option_words o))
      by (rewrite length_app; by destruct o).
    exact Hloop.
Qed.

(** ** Properties *)

(** C21. Reading the command line always ends, and whatever the user typed, an
    accepted command line has a timeout of 1 to 86400 seconds and a memory
    limit of at most 4194304 kB (0 when there is none), the target is a
    non-empty argument after the program name, and the target gets exactly
    the words from there on. *)
Theorem parse_options_bounds {G} K argv (w : world ssys G) :
  wp K (parse_options argv) (post (λ r _, ∀ o, r = Some o →
    1 ≤ timeout_seconds o ≤ MAXIMUM_TIMEOUT_SECONDS ∧
    0 ≤ memory_limit_kilobytes o ≤ MAXIMUM_MEMORY_LIMIT_KILOBYTES ∧
    char_at (target_path o) 0 ≠ NUL ∧
    ∃ i, (0 < i)%nat ∧ target_argv o = drop i argv ∧
         argv !! i = Some (target_path o)) (λ _ _, False)) w.
Proof.
  unfold parse_options. wp_steps. eapply wp_mono; [apply parse_loop_spec|].
  intros [[s|]|h] w'; simpl; [|by wp_steps|done].
  intros Hs. destruct (Hs s eq_refl) as (Ht & Hm & Hi).
  destruct (argv !! argument_index s) as [target|] eqn:E; [|by wp_steps].
  case_bool_decide; wp_steps; [done|]. intros o [= <-]. simpl.
  split_and!; try done; try lia. by exists (argument_index s).
Qed.

(** C22. The command lines the usage message describes are understood: any
    sequence of valid [--timeout] and [--memory-kb] options, an optional [--],
    a target and its arguments give exactly that target and those arguments,
    with the default limits overridden by the last option of each kind. *)
Theorem parse_options_round_trip {G} K program opts dashes target args
    (w : world ssys G) :
  Forall option_valid opts → target_valid dashes target →
  parse_options
    (program :: concat (option_words <$> opts) ++ target_words dashes target ++ args) K w =
  (Ret (Some (Options target (target :: args)
     (foldl apply_option (DEFAULT_TIMEOUT_SECONDS, 0) opts).1
     (foldl apply_option (DEFAULT_TIMEOUT_SECONDS, 0) opts).2)), w).
Proof.
  intros Hopts Htarget. unfold parse_options, bind.
  assert (length opts ≤ length (concat (option_words <$> opts)))%nat as Hlen.
  { clear. induction opts as [|o opts IH]; [done|].
    rewrite fmap_cons. cbn [concat length]. rewrite length_app.
    destruct o; cbn [option_words length]; lia. }
  set (argv := program :: _).
  destruct (parse_loop_words (G:=G) K [program] opts dashes target args
    DEFAULT_TIMEOUT_SECONDS 0 (S (length argv)) w Hopts Htarget)
    as (i & Hloop & Hdrop & Hi).
  { subst argv. cbn [length]. rewrite length_app. lia. }
  cbn [app length] in Hloop, Hdrop, Hi. fold argv in Hloop, Hdrop, Hi.
  rewrite Hloop. cbn [argument_index ps_timeout ps_memory]. rewrite Hi, Hdrop.
  by rewrite bool_decide_false by apply Htarget.
Qed.

Lemma parse_options_round_trip_witness :
  parse_options (txt <$> ["Sandbox"; "--timeout"; "7"; "--memory-kb"; "24576";
                          "--timeout"; "10"; "--"; "-prog"; "--timeout"])
    (scenario_kernel nothing) (World tt []) =
  (Ret (Some (Options (txt "-prog") [txt "-prog"; txt "--timeout"] 10 24576)), World tt []).
Proof.
  apply (parse_options_round_trip (scenario_kernel nothing) (txt "Sandbox") [Timeout 7; Memory_kb 24576; Timeout 10] true
    (txt "-prog") [txt "--timeout"]).
  - rewrite !Forall_cons, Forall_nil. cbn [option_valid].
    unfold MAXIMUM_TIMEOUT_SECONDS, MAXIMUM_MEMORY_LIMIT_KILOBYTES. lia.
  - split; [by vm_compute|done].
Defined.

(** A timeout is understood as [strtoul] understands it: signs and leading
    spaces are accepted, and a negative number wraps around. *)
Example wrapped_timeout_accepted :
  parse_unsigned_limit (txt "-18446744073709551615") MAXIMUM_TIMEOUT_SECONDS = Some 1 ∧
  parse_unsigned_limit (txt "  +7") MAXIMUM_TIMEOUT_SECONDS = Some 7.
Proof. vm_compute. auto. Qed.
