(* ===== verification/MonitorState.v ===== *)
(** * monitor.c: the state the threads share

    [SandboxState] and the operations on it, each a critical section of the
    mutex.  What the other threads did while this one was outside is in the
    answer to [Mutex_lock]; what this one does, they hear of ([Publish]). *)

From S2P Require Import Prelude.
From S2P Require Import CLib.
From S2P Require Import SandboxSys.
From S2P Require Import Logger.
Local Open Scope Z_scope.

(** The structure without its mutex; [SandboxStateSnapshot] has the same
    members. *)
Record SandboxState := State {
  supervisor_pid : Z;
  child_pid : Z;
  child_process_group_id : Z;
  leader_alive : bool;
  workload_alive : bool;
  termination_requested : bool;
  termination_reason : SandboxTerminationReason
}.
Notation SandboxStateSnapshot := SandboxState.

(** The memory of a thread of the controller: the shared state and
    [operator_signal_number]. *)
Record sandbox := Sandbox {
  sb_state : SandboxState;
  operator_signal_number : Z
}.
Notation Controller := (prog ssys sandbox).

Definition set_state (f : SandboxState → SandboxState) : Controller unit :=
  modify (λ g, Sandbox (f (sb_state g)) (operator_signal_number g)).

(** ** The critical sections *)

Definition with_workload (pid pgid : Z) (s : SandboxState) : SandboxState :=
  State (supervisor_pid s) pid pgid true true false TERMINATION_NONE.

Definition with_request (reason : SandboxTerminationReason) (s : SandboxState)
    : SandboxState :=
  State (supervisor_pid s) (child_pid s) (child_process_group_id s)
        (leader_alive s) (workload_alive s) true reason.

Definition can_request (s : SandboxState) : bool :=
  workload_alive s && negb (termination_requested s).

Definition with_leader_exited (s : SandboxState) : SandboxState :=
  State (supervisor_pid s) (child_pid s) (child_process_group_id s)
        false (workload_alive s) (termination_requested s) (termination_reason s).

Definition with_workload_exited (s : SandboxState) : SandboxState :=
  State (supervisor_pid s) (child_pid s) (child_process_group_id s)
        false false (termination_requested s) (termination_reason s).

Definition change (o : state_change) (s : SandboxState) : SandboxState :=
  match o with
  | Request reason =>
      if bool_decide (reason ≠ TERMINATION_NONE) && can_request s
      then with_request reason s else s
  | Mark_leader_exited => with_leader_exited s
  | Mark_workload_exited => with_workload_exited s
  end.

(** Oldest first. *)
Definition changes (os : list state_change) (s : SandboxState) : SandboxState :=
  foldl (λ s o, change o s) s os.

(** ** The operations *)

Definition lock_state : Controller Z :=
  let* r := call Mutex_lock in
  match r with
  | Err e => logger_error "shared-state mutex lock failed: %s" [AErrno e] ;;; ret (-1)
  | Ok os => set_state (changes os) ;;; ret 0
  end.

Definition unlock_state : Controller Z :=
  let* result := call Mutex_unlock in
  if bool_decide (result ≠ 0) then
    logger_error "shared-state mutex unlock failed: %s" [AErrno result] ;;; ret (-1)
  else ret 0.

Definition sandbox_state_init : Controller Z :=
  let* pid := call Getpid in
  set_state (λ _, State pid (-1) (-1) false false false TERMINATION_NONE) ;;;
  let* result := call Mutex_init in
  if bool_decide (result ≠ 0) then
    logger_error "shared-state mutex initialization failed: %s" [AErrno result] ;;; ret (-1)
  else ret 0.

Definition sandbox_state_set_workload (child_pid child_process_group_id : Z)
    : Controller Z :=
  if bool_decide (child_pid ≤ 0 ∨ child_process_group_id ≤ 0) then ret (-1) else
  let* r := lock_state in
  if bool_decide (r ≠ 0) then ret (-1) else
  set_state (with_workload child_pid child_process_group_id) ;;;
  unlock_state.

(** [None] is the result [-1], on which no caller looks at the snapshot. *)
Definition sandbox_state_snapshot : Controller (option SandboxStateSnapshot) :=
  let* r := lock_state in
  if bool_decide (r ≠ 0) then ret None else
  let* snapshot := get sb_state in
  let* r := unlock_state in
  if bool_decide (r ≠ 0) then ret None else ret (Some snapshot).

Definition sandbox_state_request_termination (reason : SandboxTerminationReason)
    : Controller Z :=
  if bool_decide (reason = TERMINATION_NONE) then ret (-1) else
  let* r := lock_state in
  if bool_decide (r ≠ 0) then ret (-1) else
  let* s := get sb_state in
  let* request_created :=
    (if can_request s
       then call (Publish (Request reason)) ;;; set_state (with_request reason) ;;; ret 1
       else ret 0) in
  let* r := unlock_state in
  if bool_decide (r ≠ 0) then ret (-1) else ret request_created.

Definition sandbox_state_mark_leader_exited : Controller Z :=
  let* r := lock_state in
  if bool_decide (r ≠ 0) then ret (-1) else
  call (Publish Mark_leader_exited) ;;;
  set_state with_leader_exited ;;;
  unlock_state.

Definition sandbox_state_mark_workload_exited : Controller Z :=
  let* r := lock_state in
  if bool_decide (r ≠ 0) then ret (-1) else
  call (Publish Mark_workload_exited) ;;;
  set_state with_workload_exited ;;;
  unlock_state.

Definition sandbox_state_destroy : Controller Z :=
  let* result := call Mutex_destroy in
  if bool_decide (result ≠ 0) then
    logger_error "shared-state mutex destruction failed: %s" [AErrno result] ;;; ret (-1)
  else ret 0.

(** The enumeration has no other values, so the [default] branch is dead. *)
Definition sandbox_termination_reason_name (reason : SandboxTerminationReason)
    : string :=
  match reason with
  | TERMINATION_NONE => "none"
  | TERMINATION_TIMEOUT => "timeout exceeded"
  | TERMINATION_MEMORY_LIMIT => "memory limit exceeded"
  | TERMINATION_MONITOR_ERROR => "monitor error"
  | TERMINATION_SUPERVISOR_ERROR => "supervisor error"
  | TERMINATION_OPERATOR_SIGNAL => "operator signal"
  end.

#[export] Typeclasses Opaque set_state lock_state unlock_state sandbox_state_init
  sandbox_state_set_workload sandbox_state_snapshot sandbox_state_request_termination
  sandbox_state_mark_leader_exited sandbox_state_mark_workload_exited sandbox_state_destroy.

(** ** The state machine

    One transition per critical section that changes the state; a workload is
    set once, before the other threads exist, and is no transition here. *)

Inductive state_step : SandboxState → SandboxState → Prop :=
  | Step_request reason s :
      reason ≠ TERMINATION_NONE →
      workload_alive s = true → termination_requested s = false →
      state_step s (with_request reason s)
  | Step_leader_exited s : state_step s (with_leader_exited s)
  | Step_workload_exited s : state_step s (with_workload_exited s).

Notation evolves := (rtc state_step).

Definition state_ok (s : SandboxState) : Prop :=
  (termination_requested s = true ↔ termination_reason s ≠ TERMINATION_NONE) ∧
  (leader_alive s = true → workload_alive s = true).

(** A program that changes the shared state only by those transitions, its
    own and those of the other threads, and has no other effect on it. *)
Definition state_evolves : relation sandbox := λ g g',
  evolves (sb_state g) (sb_state g').

#[export] Instance state_evolves_preorder : PreOrder state_evolves.
Proof.
  split; [intros g; unfold state_evolves; reflexivity|].
  intros g1 g2 g3 H1 H2. unfold state_evolves in *. by etrans.
Qed.

(** ** Lemmas: the state machine *)

Lemma can_request_true s :
  can_request s = true ↔ workload_alive s = true ∧ termination_requested s = false.
Proof. unfold can_request. by rewrite andb_true_iff, negb_true_iff. Qed.

Lemma request_evolves reason s :
  reason ≠ TERMINATION_NONE → can_request s = true →
  evolves s (with_request reason s).
Proof. intros ? []%can_request_true. apply rtc_once. by constructor. Qed.

Lemma change_evolves o s : evolves s (change o s).
Proof.
  destruct o as [reason| |]; simpl; [|apply rtc_once; constructor..].
  destruct (_ && _) eqn:E; [|reflexivity].
  apply andb_true_iff in E as [Hr%bool_decide_eq_true Hs]. by apply request_evolves.
Qed.

Lemma changes_evolves os s : evolves s (changes os s).
Proof.
  revert s. induction os as [|o os IH]; intros s; simpl; [reflexivity|].
  etrans; [apply change_evolves|apply IH].
Qed.

Lemma evolves_ok s s' : evolves s s' → state_ok s → state_ok s'.
Proof.
  induction 1 as [|s1 s2 s3 Hs _ IH]; [done|]. intros [Hr Ha]. apply IH.
  destruct Hs as [reason s ? ? ?|s|s]; split; simpl; try done; tauto.
Qed.

Lemma evolves_requested s s' :
  evolves s s' → termination_requested s = true →
  termination_requested s' = true ∧ termination_reason s' = termination_reason s.
Proof.
  induction 1 as [|s1 s2 s3 Hs _ IH]; [done|]. intros Hr.
  destruct Hs; simpl in *; [congruence|by apply IH..].
Qed.

(** A dead workload stays dead and its termination cannot be requested. *)
Lemma evolves_dead s s' :
  evolves s s' → workload_alive s = false →
  workload_alive s' = false ∧
  termination_requested s' = termination_requested s ∧
  termination_reason s' = termination_reason s.
Proof.
  induction 1 as [|s1 s2 s3 Hs _ IH]; [done|]. intros Hw.
  destruct Hs; simpl in *; [congruence|by apply IH..].
Qed.

(** The workload is identified once. *)
Lemma evolves_ids s s' :
  evolves s s' → supervisor_pid s' = supervisor_pid s ∧ child_pid s' = child_pid s ∧
                 child_process_group_id s' = child_process_group_id s.
Proof. induction 1 as [|s1 s2 s3 Hs _ IH]; [done|]. by destruct Hs. Qed.

(** ** Lemmas: the operations *)

#[export] Instance set_state_keeps f : Keeps operator_signal_number (set_state f).
Proof. unfold set_state. solve_keeps. Qed.

Lemma moves_set_state f :
  (∀ s, evolves s (f s)) → Moves state_evolves (set_state f).
Proof. intros Hf. unfold set_state. apply moves_modify. intros g. apply Hf. Qed.

#[export] Instance lock_state_moves : Moves state_evolves lock_state.
Proof.
  unfold lock_state. solve_moves. apply moves_set_state, changes_evolves.
Qed.

#[export] Instance unlock_state_keeps {B} (f : sandbox → B) : Keeps f unlock_state.
Proof. unfold unlock_state. solve_keeps. Qed.

#[export] Instance unlock_state_moves : Moves state_evolves unlock_state.
Proof. apply moves_keeps; apply _. Qed.

#[export] Instance snapshot_moves : Moves state_evolves sandbox_state_snapshot.
Proof. unfold sandbox_state_snapshot. solve_moves. Qed.

#[export] Instance mark_leader_moves :
  Moves state_evolves sandbox_state_mark_leader_exited.
Proof.
  unfold sandbox_state_mark_leader_exited. solve_moves.
  apply moves_set_state. intros s. apply rtc_once. constructor.
Qed.

#[export] Instance mark_workload_moves :
  Moves state_evolves sandbox_state_mark_workload_exited.
Proof.
  unfold sandbox_state_mark_workload_exited. solve_moves.
  apply moves_set_state. intros s. apply rtc_once. constructor.
Qed.

(** Entering and leaving a critical section. *)
Definition locked (os : list state_change) (g : sandbox) : sandbox :=
  Sandbox (changes os (sb_state g)) (operator_signal_number g).

(** The mutex and logging, without a change of the state. *)
Definition is_lock (e : event ssys) : Prop :=
  is_log e ∨ match e with Ev Mutex_lock _ | Ev Mutex_unlock _ => True | _ => False end.

(** The same with changes of the state. *)
Definition is_mutex (e : event ssys) : Prop :=
  is_lock e ∨ match e with Ev (Publish _) _ => True | _ => False end.

Lemma is_log_lock new : Forall is_log new → Forall is_lock new.
Proof. intros H. eapply Forall_impl; [exact H|]. intros e He. by left. Qed.

Lemma is_lock_mutex new : Forall is_lock new → Forall is_mutex new.
Proof. intros H. eapply Forall_impl; [exact H|]. intros e He. by left. Qed.

Lemma wp_lock_state (K : kernel ssys) (Q : outcome Z → world ssys sandbox → Prop) w :
  (∀ new, Forall is_lock new → Q (Ret (-1)) (World (globals w) (new ++ trace w))) →
  (∀ os, K _ (trace w) Mutex_lock = Ok os →
    Q (Ret 0) (World (locked os (globals w)) (Ev Mutex_lock (Ok os) :: trace w))) →
  wp K lock_state Q w.
Proof.
  intros Herr Hok. unfold lock_state. wp_steps.
  destruct (K _ _ Mutex_lock) as [os|e] eqn:E.
  - unfold set_state. wp_steps. by apply Hok.
  - wp_steps. apply wp_logger_write. intros new Hnew. wp_steps.
    rewrite cons_middle, app_assoc. apply Herr. apply Forall_app. split.
    + by apply is_log_lock.
    + apply Forall_singleton. by right.
Qed.

Lemma wp_unlock_state K (Q : outcome Z → world ssys sandbox → Prop) w :
  (∀ r new, Forall is_lock new → r = 0 ∨ r = -1 →
    Q (Ret r) (World (globals w) (new ++ trace w))) →
  wp K unlock_state Q w.
Proof.
  intros HQ. unfold unlock_state. wp_steps. case_bool_decide.
  - wp_steps. apply wp_logger_write. intros new Hnew. wp_steps.
    rewrite cons_middle, app_assoc. apply HQ; [|by right]. apply Forall_app. split.
    + by apply is_log_lock.
    + apply Forall_singleton. by right.
  - wp_steps. apply (HQ 0 [_]); [|by left]. apply Forall_singleton. by right.
Qed.

(** Taking a snapshot: it is the state the thread then believes in. *)
Lemma wp_snapshot K (Q : outcome (option SandboxStateSnapshot) → world ssys sandbox → Prop) w :
  (∀ s' sn new, Forall is_lock new → evolves (sb_state (globals w)) s' →
    sn = None ∨ sn = Some s' →
    Q (Ret sn) (World (Sandbox s' (operator_signal_number (globals w))) (new ++ trace w))) →
  wp K sandbox_state_snapshot Q w.
Proof.
  intros HQ. unfold sandbox_state_snapshot. wp_steps. apply wp_lock_state.
  - intros new Hnew. rewrite bool_decide_true by done. wp_steps.
    destruct w as [[s sig] tr]; simpl. apply HQ; [done|reflexivity|by left].
  - intros os Hos. rewrite bool_decide_false by auto. wp_steps. apply wp_unlock_state.
    intros r new Hnew Hr. cbn [globals trace]. rewrite cons_middle, app_assoc.
    assert (Forall is_lock (new ++ [Ev Mutex_lock (Ok os)])) as Hnew'.
    { apply Forall_app. split; [done|]. apply Forall_singleton. by right. }
    case_bool_decide; wp_steps; (apply HQ; [done|by apply changes_evolves|]); auto.
Qed.

(** Requesting termination: the request is recorded at most if the workload
    was alive and none was recorded before, and [1] says that it was. *)
Lemma wp_request K reason (Q : outcome Z → world ssys sandbox → Prop) w :
  reason ≠ TERMINATION_NONE →
  (∀ r s s' new, Forall is_mutex new → evolves (sb_state (globals w)) s →
    (r = -1 ∧ s' = s ∨
     can_request s = true ∧ s' = with_request reason s ∧ (r = 1 ∨ r = -1) ∨
     can_request s = false ∧ s' = s ∧ (r = 0 ∨ r = -1)) →
    Q (Ret r) (World (Sandbox s' (operator_signal_number (globals w))) (new ++ trace w))) →
  wp K (sandbox_state_request_termination reason) Q w.
Proof.
  intros Hreason HQ. unfold sandbox_state_request_termination.
  rewrite bool_decide_false by done. wp_steps. apply wp_lock_state.
  - intros new Hnew%is_lock_mutex. rewrite bool_decide_true by done. wp_steps.
    destruct w as [[s sig] tr]; simpl. eapply HQ; [done|reflexivity|by left].
  - intros os Hos. rewrite bool_decide_false by auto. wp_steps.
    assert (∀ e, is_mutex e → Forall is_mutex [e; Ev Mutex_lock (Ok os)]) as Hpair.
    { intros e He. apply Forall_cons; split; [done|]. apply Forall_singleton. left. by right. }
    destruct (can_request _) eqn:Ereq; simpl in Ereq; unfold set_state; wp_steps;
      apply wp_unlock_state; intros r new Hnew%is_lock_mutex Hr; cbn [globals trace].
    + change (new ++ ?a :: ?b :: trace w) with (new ++ [a; b] ++ trace w).
      rewrite app_assoc.
      case_bool_decide; wp_steps;
        (apply (HQ _ (changes os (sb_state (globals w)))); [|by apply changes_evolves|naive_solver]);
        (apply Forall_app; split; [done|]; apply Hpair; by right).
    + rewrite cons_middle, app_assoc.
      case_bool_decide; wp_steps;
        (apply (HQ _ (changes os (sb_state (globals w)))); [|by apply changes_evolves|naive_solver]);
        (apply Forall_app; split; [done|]; apply Forall_singleton; left; by right).
Qed.

#[export] Instance request_moves reason :
  Moves state_evolves (sandbox_state_request_termination reason).
Proof.
  intros K w. destruct (decide (reason = TERMINATION_NONE)) as [->|Hr].
  { unfold sandbox_state_request_termination. simpl. reflexivity. }
  apply (wp_request K reason (λ _ w', state_evolves (globals w) (globals w'))); [done|].
  intros r s s' new _ Hs Hcases. unfold state_evolves. simpl.
  destruct Hcases as [[_ ->]|[(Hc & -> & _)|(_ & -> & _)]]; [done| |done].
  etrans; [done|]. by apply request_evolves.
Qed.

Lemma wp_state_init K (Q : outcome Z → world ssys sandbox → Prop) w :
  (∀ r w', state_ok (sb_state (globals w')) → Q (Ret r) w') →
  wp K sandbox_state_init Q w.
Proof.
  intros HQ. unfold sandbox_state_init, set_state. wp_steps.
  case_bool_decide; [|by wp_steps; apply HQ].
  wp_steps. apply wp_logger_write. intros new _. wp_steps. by apply HQ.
Qed.

Lemma wp_set_workload K pid pgid (Q : outcome Z → world ssys sandbox → Prop) w :
  state_ok (sb_state (globals w)) →
  (∀ r w', state_ok (sb_state (globals w')) →
    (r = 0 → child_pid (sb_state (globals w')) = pid ∧
             child_process_group_id (sb_state (globals w')) = pgid) → Q (Ret r) w') →
  wp K (sandbox_state_set_workload pid pgid) Q w.
Proof.
  intros Hok HQ. unfold sandbox_state_set_workload.
  case_bool_decide; [by wp_steps; apply HQ|]. wp_steps. apply wp_lock_state.
  - intros new _. rewrite bool_decide_true by done. wp_steps. by apply HQ.
  - intros os _. rewrite bool_decide_false by auto. unfold set_state. wp_steps.
    apply wp_unlock_state. intros r new _ Hr. by apply HQ.
Qed.

(** ** Properties *)

(** C16. Once a thread's request for termination is accepted (result 1), the
    reason it gave is final: whatever the thread goes on to do with the
    shared state, and whatever requests and exits the other threads slip in
    between, the termination stays requested for that reason, and no second
    request is accepted. *)
Theorem request_termination_first_wins {A} K (m : Controller A) r1 r2 w :
  Moves state_evolves m →
  wp K (let* a := sandbox_state_request_termination r1 in
        let* _ := m in
        let* b := sandbox_state_request_termination r2 in
        let* s := get sb_state in
        ret (a, b, s))
    (post (λ '(a, b, s) _, a = 1 →
       b ≠ 1 ∧ termination_requested s = true ∧ termination_reason s = r1)
     (λ _ _, True)) w.
Proof.
  intros Hm. wp_steps. destruct (decide (r1 = TERMINATION_NONE)) as [->|Hr1].
  { unfold sandbox_state_request_termination at 1. simpl. wp_steps.
    eapply wp_mono; [apply wp_true|]. intros [x|h] w' _; [|done]. wp_steps.
    eapply wp_mono; [apply wp_true|]. intros [b|h] w'' _; [|done]. by wp_steps. }
  apply wp_request; [done|]. intros a s s1 new1 _ _ Hcases. wp_steps.
  eapply wp_mono; [apply wp_moves, Hm|]. intros [x|h] w' Hev; [|done]. wp_steps.
  unfold state_evolves in Hev. simpl in Hev.
  destruct (decide (r2 = TERMINATION_NONE)) as [->|Hr2].
  { unfold sandbox_state_request_termination. simpl. wp_steps. intros ->.
    destruct Hcases as [[? _]|[(_ & -> & _)|(_ & _ & ?)]]; [done| |lia].
    split; [lia|]. by apply evolves_requested in Hev as [-> ->]. }
  apply wp_request; [done|]. intros b s2 s3 new2 _ Hev2 Hcases2. wp_steps. intros ->.
  destruct Hcases as [[? _]|[(_ & -> & _)|(_ & _ & ?)]]; [done| |lia].
  apply evolves_requested in Hev as [Hq Hreason]; [|done].
  apply evolves_requested in Hev2 as [Hq2 Hreason2]; [|done].
  assert (can_request s2 = false) as Hno.
  { unfold can_request. rewrite Hq2. apply andb_false_r. }
  destruct Hcases2 as [[-> ->]|[(? & _)|(_ & -> & ?)]]; [|congruence|].
  - simpl in *. by rewrite Hreason2, Hreason.
  - simpl in *. rewrite Hreason2, Hreason. split_and!; try done. lia.
Qed.

(** C17. In every state the threads can reach after the controller registered
    its workload, a termination is requested exactly when it has a reason,
    and the leader is not alive in a dead workload; the workload keeps its
    identity; and a workload recorded as gone is never recorded as alive
    again, nor does its termination request change from then on. *)
Theorem sandbox_state_invariant {A B} K (m : Controller A) (n : Controller B) pid pgid w :
  Moves state_evolves m → Moves state_evolves n →
  wp K (sandbox_state_init ;;;
        let* b := sandbox_state_set_workload pid pgid in
        m ;;;
        let* s1 := get sb_state in
        n ;;;
        let* s2 := get sb_state in
        ret (b, s1, s2))
    (post (λ '(b, s1, s2) _,
       state_ok s1 ∧ state_ok s2 ∧
       (b = 0 → child_pid s2 = pid ∧ child_process_group_id s2 = pgid) ∧
       (workload_alive s1 = false →
        workload_alive s2 = false ∧
        termination_requested s2 = termination_requested s1 ∧
        termination_reason s2 = termination_reason s1))
     (λ _ _, True)) w.
Proof.
  intros Hm Hn. wp_steps. apply wp_state_init. intros a w1 Hok. wp_steps.
  apply wp_set_workload; [done|]. intros b w2 Hok2 Hids. wp_steps.
  eapply wp_mono; [apply wp_moves, Hm|]. intros [x|h] w3 H1; [|done]. wp_steps.
  eapply wp_mono; [apply wp_moves, Hn|]. intros [y|h] w4 H2; [|done]. wp_steps.
  unfold state_evolves in *.
  assert (state_ok (sb_state (globals w3))) by eauto using evolves_ok.
  assert (state_ok (sb_state (globals w4))) by eauto using evolves_ok.
  split_and!; [done|done| |].
  - intros Hb. apply evolves_ids in H1 as (_ & E1 & E2), H2 as (_ & E3 & E4).
    rewrite E3, E4, E1, E2. by apply Hids.
  - intros Hdead. by eapply evolves_dead.
Qed.

(** How often the mutex was asked for. *)
Definition locks (tr : strace) : nat :=
  count_events (λ e, match e with Ev Mutex_lock _ => true | _ => false end) tr.

(** An example run: the memory monitor's request slips in while the timeout
    monitor is outside the critical section. *)
Definition overtaken : kernel ssys :=
  scenario_kernel (Scenario (λ _, [Request TERMINATION_MEMORY_LIMIT])
    (λ _, WaitNone) (λ _, (0, 0)) (λ _, []) (λ _, None) (λ _ _, None) 200).

Definition running : sandbox :=
  Sandbox (State 100 200 200 true true false TERMINATION_NONE) 0.

Definition two_requests : Controller (Z * Z * SandboxState) :=
  let* a := sandbox_state_request_termination TERMINATION_TIMEOUT in
  let* _ := sandbox_state_mark_leader_exited in
  let* b := sandbox_state_request_termination TERMINATION_OPERATOR_SIGNAL in
  let* s := get sb_state in
  ret (a, b, s).

Lemma request_termination_first_wins_witness :
  (two_requests (scenario_kernel nothing) (World running [])).1 =
    Ret (1, 0, State 100 200 200 false true true TERMINATION_TIMEOUT) ∧
  (0 ≠ 1 ∧ true = true ∧ TERMINATION_TIMEOUT = TERMINATION_TIMEOUT).
Proof.
  assert ((two_requests (scenario_kernel nothing) (World running [])).1 =
    Ret (1, 0, State 100 200 200 false true true TERMINATION_TIMEOUT)) as E
    by (vm_compute; reflexivity).
  split; [exact E|].
  pose proof (request_termination_first_wins (scenario_kernel nothing)
    sandbox_state_mark_leader_exited TERMINATION_TIMEOUT TERMINATION_OPERATOR_SIGNAL
    (World running []) mark_leader_moves) as H.
  exact (wp_run _ two_requests _ _ _ _ H E eq_refl).
Defined.

Definition setup_and_exit : Controller (Z * SandboxState * SandboxState) :=
  sandbox_state_init ;;;
  let* b := sandbox_state_set_workload 200 200 in
  sandbox_state_mark_workload_exited ;;;
  let* s1 := get sb_state in
  sandbox_state_request_termination TERMINATION_TIMEOUT ;;;
  let* s2 := get sb_state in
  ret (b, s1, s2).

Lemma sandbox_state_invariant_witness :
  let s := State 100 200 200 false false true TERMINATION_MEMORY_LIMIT in
  (setup_and_exit overtaken (World running [])).1 = Ret (0, s, s) ∧
  state_ok s ∧ child_pid s = 200 ∧ workload_alive s = false.
Proof.
  intros s.
  assert ((setup_and_exit overtaken (World running [])).1 = Ret (0, s, s)) as E
    by (vm_compute; reflexivity).
  split; [exact E|].
  pose proof (sandbox_state_invariant overtaken sandbox_state_mark_workload_exited
    (sandbox_state_request_termination TERMINATION_TIMEOUT) 200 200 (World running [])
    mark_workload_moves (request_moves _)) as H.
  destruct (wp_run _ setup_and_exit _ _ _ _ H E) as (_ & Hok & Hids & Hdead). destruct (Hids eq_refl) as [Hpid _].
  destruct (Hdead eq_refl) as (? & _ & _). split; [exact Hok|]. by split.
Defined.
