(* ===== verification/History.v ===== *)
(** * The changes of the shared state a thread takes part in

    What a thread knows of the shared state is the outcome of its [history]:
    the changes it published and the ones it heard of, in the order in which
    they happened.  The history is read off the thread's trace. *)

From S2P Require Import Prelude.
From S2P Require Import CLib.
From S2P Require Import SandboxSys.
From S2P Require Import Logger.
From S2P Require Import MonitorState.
Local Open Scope Z_scope.

Inductive enacted : Type :=
  | Own (c : state_change)
  | Theirs (c : state_change).

Definition enacted_change (e : enacted) : state_change :=
  match e with Own c | Theirs c => c end.

Definition enacted_by (e : event ssys) : list enacted :=
  match e with
  | Ev (Publish c) _ => [Own c]
  | Ev Mutex_lock (Ok cs) => Theirs <$> cs
  | _ => []
  end.

(** Oldest first; a trace is newest first. *)
Fixpoint history (tr : strace) : list enacted :=
  match tr with
  | [] => []
  | e :: before => history before ++ enacted_by e
  end.

Definition replay (h : list enacted) (s : SandboxState) : SandboxState :=
  changes (enacted_change <$> h) s.

(** The state a thread has is the outcome of its history. *)
Class Accounts {A} (m : Controller A) : Prop :=
  accounts : ∀ K w, ∃ new, trace (m K w).2 = new ++ trace w ∧
    sb_state (globals (m K w).2) = replay (history new) (sb_state (globals w)).

(** The changes a thread publishes satisfy [P]. *)
Definition publishes (P : state_change → Prop) (e : event ssys) : Prop :=
  match e with Ev (Publish c) _ => P c | _ => True end.

(** ** Lemmas: histories *)

Lemma history_app new tr : history (new ++ tr) = history tr ++ history new.
Proof.
  induction new as [|e new IH]; simpl; [by rewrite app_nil_r|].
  by rewrite IH, (assoc_L app).
Qed.

Lemma changes_app cs cs' s : changes (cs ++ cs') s = changes cs' (changes cs s).
Proof. apply foldl_app. Qed.

Lemma replay_app h h' s : replay (h ++ h') s = replay h' (replay h s).
Proof. unfold replay. by rewrite fmap_app, changes_app. Qed.

Lemma replay_theirs cs s : replay (Theirs <$> cs) s = changes cs s.
Proof. unfold replay. rewrite <- list_fmap_compose. by rewrite list_fmap_id. Qed.

Lemma elem_of_history x tr : x ∈ history tr ↔ ∃ e, e ∈ tr ∧ x ∈ enacted_by e.
Proof.
  induction tr as [|e tr IH]; simpl; [set_solver|]. rewrite elem_of_app, IH.
  split; [intros [(e' & ? & ?)|?]; eexists; (split; [|eassumption]); set_solver|].
  intros (e' & [->|?]%elem_of_cons & ?); [by right|left; by exists e'].
Qed.

Lemma own_enacted_by c e : Own c ∈ enacted_by e ↔ ∃ r, e = Ev (Publish c) r.
Proof.
  split; [|intros [r ->]; by left].
  destruct e as [T call r]. destruct call; simpl; try by intros ?%elem_of_nil.
  - destruct r; [|by intros ?%elem_of_nil]. by intros (? & [=] & _)%list_elem_of_fmap.
  - intros [= ->]%list_elem_of_singleton. by eexists.
Qed.

Lemma theirs_enacted_by c e :
  Theirs c ∈ enacted_by e ↔ ∃ cs, e = Ev Mutex_lock (Ok cs) ∧ c ∈ cs.
Proof.
  split; [|intros (cs & -> & Hc); simpl; by apply list_elem_of_fmap_2].
  destruct e as [T call r]. destruct call; simpl; try by intros ?%elem_of_nil.
  - destruct r as [cs|]; [|by intros ?%elem_of_nil].
    intros (? & [= ->] & ?)%list_elem_of_fmap. by eexists.
  - by intros [=]%list_elem_of_singleton.
Qed.

(** A reason comes from a request for it. *)
Lemma changes_reason cs s R :
  termination_reason (changes cs s) = R → termination_reason s ≠ R → Request R ∈ cs.
Proof.
  revert s. induction cs as [|c cs IH]; intros s; simpl; [congruence|]. intros Hr Hs.
  destruct (decide (c = Request R)) as [->|Hc]; [by left|right].
  apply (IH (change c s)); [done|]. destruct c as [r| |]; simpl; [|done..].
  destruct (_ && _); [|done]. simpl. congruence.
Qed.

Lemma replay_reason h s R :
  termination_reason (replay h s) = R → termination_reason s ≠ R →
  Own (Request R) ∈ h ∨ Theirs (Request R) ∈ h.
Proof.
  intros H Hs. apply changes_reason in H as ([c|c] & -> & Hin)%list_elem_of_fmap; auto.
Qed.

(** ** Lemmas: programs *)

Section accounts.

Lemma accounts_quiet {A} (P : event ssys → Prop) (m : Controller A) :
  Emits P m → Keeps (λ g : sandbox, g) m → (∀ e, P e → enacted_by e = []) → Accounts m.
Proof.
  intros He Hk HP K w. destruct (He K w) as (new & Htr & Hall). exists new.
  split; [done|]. specialize (Hk K w). simpl in Hk. rewrite Hk.
  assert (history new = []) as ->; [|done].
  clear Htr. induction Hall as [|e new He' _ IH]; [done|]. simpl. by rewrite IH, HP.
Qed.

#[export] Instance accounts_ret {A} (a : A) : Accounts (ret a).
Proof. apply (accounts_quiet (λ _, False)); [apply _..|done]. Qed.

#[export] Instance accounts_halting {A} h : Accounts (halting h : Controller A).
Proof. apply (accounts_quiet (λ _, False)); [apply _..|done]. Qed.

#[export] Instance accounts_get {A} (f : sandbox → A) : Accounts (get f).
Proof. apply (accounts_quiet (λ _, False)); [apply _..|done]. Qed.

Lemma accounts_call {T} (c : ssys T) : (∀ r, enacted_by (Ev c r) = []) → Accounts (call c).
Proof.
  intros Hc. apply (accounts_quiet (λ e, enacted_by e = [])); [|apply _|done].
  by apply emits_call.
Qed.

Lemma accounts_bind {A B} (m : Controller A) (k : A → Controller B) :
  Accounts m → (∀ a, Accounts (k a)) → Accounts (bind m k).
Proof.
  intros Hm Hk K w. destruct (Hm K w) as (new & Htr & Hs). unfold bind.
  destruct (m K w) as [[a|h] w']; simpl in *; [|by exists new].
  destruct (Hk a K w') as (new' & Htr' & Hs'). exists (new' ++ new).
  rewrite Htr', Htr, Hs', Hs, (assoc_L app), history_app, replay_app. done.
Qed.

Lemma accounts_loop {S A} n (body : S → Controller (S + A)) s :
  (∀ s, Accounts (body s)) → Accounts (loop n body s).
Proof.
  intros Hb. revert s. induction n as [|n IH]; intros s; [apply accounts_halting|].
  apply accounts_bind; [done|]. intros [s'|a]; [done|apply accounts_ret].
Qed.

End accounts.

Lemma accounts_extends {A} K (m : Controller A) w :
  Accounts m → wp K m (λ _ w', extends (trace w) (trace w')) w.
Proof. intros Hm. destruct (Hm K w) as (new & Htr & _). by exists new. Qed.

(** Events of these kinds are no part of a history. *)
Lemma log_enacts e : is_log e → enacted_by e = [].
Proof. destruct e as [T c r]. by destruct c. Qed.

Lemma sleep_enacts e : is_sleep e → enacted_by e = [].
Proof. destruct e as [T c r]. by destruct c. Qed.

#[export] Hint Resolve log_enacts sleep_enacts : trace.

#[export] Instance logger_write_accounts s level format args :
  Accounts (logger_write s level format args).
Proof. apply (accounts_quiet is_log); [apply _..|apply log_enacts]. Qed.
#[export] Instance logger_info_accounts format args : Accounts (logger_info format args).
Proof. apply logger_write_accounts. Qed.
#[export] Instance logger_warn_accounts format args : Accounts (logger_warn format args).
Proof. apply logger_write_accounts. Qed.
#[export] Instance logger_error_accounts format args : Accounts (logger_error format args).
Proof. apply logger_write_accounts. Qed.
#[export] Instance sleep_accounts fuel ms : Accounts (sleep_milliseconds fuel ms).
Proof. apply (accounts_quiet is_sleep); [apply _..|apply sleep_enacts]. Qed.

Ltac accounts_step :=
  lazymatch goal with
  | |- Accounts (bind _ _) => apply accounts_bind; [|intros ?]
  | |- Accounts (loop _ _ _) => apply accounts_loop; intros ?
  | |- Accounts (if ?b then _ else _) => destruct b
  | |- Accounts (match ?x with _ => _ end) => destruct x
  | |- Accounts (call _) => first [apply _ | apply accounts_call; by intros ?]
  | |- Accounts _ => apply _
  end.
Ltac solve_accounts := repeat accounts_step.

(** Entering the critical section, and changing the state in it. *)
#[export] Instance lock_state_accounts : Accounts lock_state.
Proof.
  intros K w. unfold lock_state, bind, call.
  destruct (K _ (trace w) Mutex_lock) as [cs|e] eqn:E.
  - exists [Ev Mutex_lock (Ok cs)]. split; [done|]. cbn [history enacted_by app].
    by rewrite replay_theirs.
  - assert (Accounts (logger_error "shared-state mutex lock failed: %s" [AErrno e] ;;; ret (-1)))
      as H by solve_accounts.
    destruct (H K (World (globals w) (Ev Mutex_lock (Err e) :: trace w))) as (new & Htr & Hs).
    exists (new ++ [Ev Mutex_lock (Err e)]). rewrite <- (assoc_L app), history_app. by split.
Qed.

Lemma accounts_publish {A} c f (k : Controller A) :
  (∀ s, f s = change c s) → Accounts k →
  Accounts (call (Publish c) ;;; set_state f ;;; k).
Proof.
  intros Hf Hk K w. unfold bind, call, set_state, modify. simpl.
  destruct (Hk K (World (Sandbox (f (sb_state (globals w))) (operator_signal_number (globals w)))
    (Ev (Publish c) (K _ (trace w) (Publish c)) :: trace w))) as (new & Htr & Hs).
  exists (new ++ [Ev (Publish c) (K _ (trace w) (Publish c))]).
  rewrite Htr, <- (assoc_L app). split; [done|]. rewrite Hs, history_app, replay_app. simpl.
  by rewrite Hf.
Qed.

#[export] Instance unlock_state_accounts : Accounts unlock_state.
Proof. unfold unlock_state. solve_accounts. Qed.

#[export] Instance snapshot_accounts : Accounts sandbox_state_snapshot.
Proof. unfold sandbox_state_snapshot. solve_accounts. Qed.

#[export] Instance mark_leader_accounts : Accounts sandbox_state_mark_leader_exited.
Proof.
  unfold sandbox_state_mark_leader_exited. apply accounts_bind; [apply _|]. intros r.
  destruct (bool_decide _); [apply _|]. apply accounts_publish; [done|apply _].
Qed.

#[export] Instance mark_workload_accounts : Accounts sandbox_state_mark_workload_exited.
Proof.
  unfold sandbox_state_mark_workload_exited. apply accounts_bind; [apply _|]. intros r.
  destruct (bool_decide _); [apply _|]. apply accounts_publish; [done|apply _].
Qed.

(** A request is published where it is recorded. *)
#[export] Instance request_accounts reason : Accounts (sandbox_state_request_termination reason).
Proof.
  unfold sandbox_state_request_termination.
  destruct (bool_decide_reflect (reason = TERMINATION_NONE)) as [|Hr]; [apply _|].
  apply accounts_bind; [apply _|]. intros r. destruct (bool_decide _); [apply _|].
  intros K w. unfold bind, get.
  destruct (can_request (sb_state (globals w))) eqn:Hc.
  - set (f s := if can_request s then with_request reason s else s).
    assert (Accounts (call (Publish (Request reason)) ;;; set_state f ;;;
      let* r := unlock_state in if bool_decide (r ≠ 0) then ret (-1) else ret 1)) as H.
    { apply accounts_publish; [|solve_accounts]. intros s. simpl. by rewrite bool_decide_true. }
    destruct (H K w) as (new & Htr & Hs). exists new. revert Htr Hs.
    unfold bind, call, set_state, modify, ret. simpl. unfold f. by rewrite Hc.
  - assert (Accounts (let* r := unlock_state in
      if bool_decide (r ≠ 0) then ret (-1) else ret 0)) as H by solve_accounts.
    destruct (H K w) as (new & Htr & Hs). by exists new.
Qed.

(** ** A mutex that works *)

(** Locking and unlocking succeed, whatever the other threads do meanwhile. *)
Class Locking (K : kernel ssys) : Prop := {
  locking_lock tr : ∃ cs, K _ tr Mutex_lock = Ok cs;
  locking_unlock tr : K _ tr Mutex_unlock = 0
}.

#[export] Instance scenario_locking s : Locking (scenario_kernel s).
Proof. split; [intros tr; by eexists|done]. Qed.

Section locking.
Context (K : kernel ssys) `{!Locking K}.

Lemma wp_lock_locking (Q : outcome Z → world ssys sandbox → Prop) w :
  (∀ cs, Q (Ret 0) (World (locked cs (globals w)) (Ev Mutex_lock (Ok cs) :: trace w))) →
  wp K lock_state Q w.
Proof.
  intros HQ. unfold lock_state. wp_steps. destruct (locking_lock (trace w)) as [cs ->].
  unfold set_state. wp_steps. apply HQ.
Qed.

Lemma wp_unlock_locking (Q : outcome Z → world ssys sandbox → Prop) w :
  Q (Ret 0) (World (globals w) (Ev Mutex_unlock 0 :: trace w)) → wp K unlock_state Q w.
Proof. intros HQ. unfold unlock_state. wp_steps. by rewrite locking_unlock. Qed.

Lemma wp_snapshot_locking (Q : outcome (option SandboxStateSnapshot) → world ssys sandbox → Prop) w :
  (∀ cs, Q (Ret (Some (changes cs (sb_state (globals w)))))
           (World (locked cs (globals w)) (Ev Mutex_unlock 0 :: Ev Mutex_lock (Ok cs) :: trace w))) →
  wp K sandbox_state_snapshot Q w.
Proof.
  intros HQ. unfold sandbox_state_snapshot. wp_steps. apply wp_lock_locking. intros cs.
  rewrite bool_decide_false by auto. wp_steps. apply wp_unlock_locking.
  rewrite bool_decide_false by auto. wp_steps. apply HQ.
Qed.

(** A request that is accepted, and one that is not. *)
Lemma wp_request_locking reason (Q : outcome Z → world ssys sandbox → Prop) w :
  reason ≠ TERMINATION_NONE →
  (∀ cs r, let s := changes cs (sb_state (globals w)) in can_request s = true →
     Q (Ret 1) (World (Sandbox (with_request reason s) (operator_signal_number (globals w)))
       (Ev Mutex_unlock 0 :: Ev (Publish (Request reason)) r :: Ev Mutex_lock (Ok cs) :: trace w))) →
  (∀ cs, can_request (changes cs (sb_state (globals w))) = false →
     Q (Ret 0) (World (locked cs (globals w))
       (Ev Mutex_unlock 0 :: Ev Mutex_lock (Ok cs) :: trace w))) →
  wp K (sandbox_state_request_termination reason) Q w.
Proof.
  intros Hr Hyes Hno. unfold sandbox_state_request_termination, set_state.
  rewrite bool_decide_false by done. wp_steps. apply wp_lock_locking. intros cs.
  rewrite bool_decide_false by auto. wp_steps.
  destruct (can_request _) eqn:Hs; wp_steps; apply wp_unlock_locking;
    (rewrite bool_decide_false by auto); wp_steps; [by apply Hyes|by apply Hno].
Qed.

End locking.

(** ** Lemmas: what the operations publish *)

Lemma log_publishes P e : is_log e → publishes P e.
Proof. destruct e as [T c r]. by destruct c. Qed.

Lemma lock_publishes P e : is_lock e → publishes P e.
Proof. destruct e as [T c r]. intros [H|H]; [by apply log_publishes|]. by destruct c. Qed.

Lemma sleep_publishes P e : is_sleep e → publishes P e.
Proof. destruct e as [T c r]. by destruct c. Qed.

#[export] Instance lock_state_locks : Emits is_lock lock_state.
Proof.
  intros K w. apply (wp_lock_state K (λ _ w', ∃ new, trace w' = new ++ trace w ∧ Forall is_lock new)).
  - intros new Hnew. by exists new.
  - intros os _. exists [Ev Mutex_lock (Ok os)]. split; [done|]. apply Forall_singleton. by right.
Qed.

#[export] Instance unlock_state_locks : Emits is_lock unlock_state.
Proof.
  intros K w.
  apply (wp_unlock_state K (λ _ w', ∃ new, trace w' = new ++ trace w ∧ Forall is_lock new)).
  intros r new Hnew _. by exists new.
Qed.

#[export] Instance snapshot_locks : Emits is_lock sandbox_state_snapshot.
Proof. unfold sandbox_state_snapshot. solve_emits. Qed.

Section publishes.
Context (P : state_change → Prop).

#[export] Instance logger_write_publishes {G} s level format args :
  Emits (publishes P) (@logger_write G s level format args).
Proof. eapply emits_weaken; [apply _|apply log_publishes]. Qed.
#[export] Instance logger_info_publishes {G} format args :
  Emits (publishes P) (@logger_info G format args).
Proof. apply logger_write_publishes. Qed.
#[export] Instance logger_warn_publishes {G} format args :
  Emits (publishes P) (@logger_warn G format args).
Proof. apply logger_write_publishes. Qed.
#[export] Instance logger_error_publishes {G} format args :
  Emits (publishes P) (@logger_error G format args).
Proof. apply logger_write_publishes. Qed.
#[export] Instance sleep_publishes_ {G} fuel ms :
  Emits (publishes P) (@sleep_milliseconds G fuel ms).
Proof. eapply emits_weaken; [apply _|apply sleep_publishes]. Qed.
#[export] Instance lock_state_publishes : Emits (publishes P) lock_state.
Proof. eapply emits_weaken; [apply _|apply lock_publishes]. Qed.
#[export] Instance unlock_state_publishes : Emits (publishes P) unlock_state.
Proof. eapply emits_weaken; [apply _|apply lock_publishes]. Qed.
#[export] Instance snapshot_publishes : Emits (publishes P) sandbox_state_snapshot.
Proof. eapply emits_weaken; [apply _|apply lock_publishes]. Qed.

Lemma request_publishes reason :
  P (Request reason) → Emits (publishes P) (sandbox_state_request_termination reason).
Proof. intros HP. unfold sandbox_state_request_termination, set_state. solve_emits. Qed.

Lemma mark_leader_publishes :
  P Mark_leader_exited → Emits (publishes P) sandbox_state_mark_leader_exited.
Proof. intros HP. unfold sandbox_state_mark_leader_exited, set_state. solve_emits. Qed.

Lemma mark_workload_publishes :
  P Mark_workload_exited → Emits (publishes P) sandbox_state_mark_workload_exited.
Proof. intros HP. unfold sandbox_state_mark_workload_exited, set_state. solve_emits. Qed.

End publishes.

(** ** Guarded requests *)

(** The event publishes a request for [R]. *)
Definition asks (R : SandboxTerminationReason) (e : event ssys) : bool :=
  match e with Ev (Publish (Request r)) _ => bool_decide (r = R) | _ => false end.

Notation other_than R := (publishes (λ c, c ≠ Request R)).

Lemma other_than_asks R e : other_than R e → asks R e = false.
Proof.
  destruct e as [T c r]. destruct c; try done. match goal with c : state_change |- _ => destruct c end;
    [|done..]. simpl. intros H. apply bool_decide_eq_false. congruence.
Qed.

(** A part of a thread that does not request [R]. *)
Lemma wp_guarded {A} K R needs (m : Controller A) (Q : outcome A → world ssys sandbox → Prop) w :
  Emits (other_than R) m → guarded_by (asks R) needs (trace w) →
  (∀ o w', guarded_by (asks R) needs (trace w') → extends (trace w) (trace w') → Q o w') →
  wp K m Q w.
Proof.
  intros Hm Hg HQ. eapply wp_emitting; [exact Hm|]. intros o w' new Htr Hnew.
  apply HQ; [|by exists new]. rewrite Htr. apply guarded_by_app; [|done].
  eapply Forall_impl; [exact Hnew|]. apply other_than_asks.
Qed.

(** What was needed for a published request was there. *)
Lemma guarded_published R (needs : strace → Prop) tr :
  guarded_by (asks R) needs tr → (∀ t new, needs t → needs (new ++ t)) →
  Own (Request R) ∈ history tr → needs tr.
Proof.
  intros H Hmono Hown. apply elem_of_history in Hown as (e & He & [r ->]%own_enacted_by).
  apply list_elem_of_split in He as (post & pre & Hsplit).
  rewrite Hsplit, cons_middle, (assoc_L app). apply Hmono.
  eapply guarded_by_split; [exact H|exact Hsplit|]. simpl. by apply bool_decide_eq_true.
Qed.
