(* ===== verification/NetworkFilter.v ===== *)
(** * security.c: the seccomp network filter

    The BPF program [sandbox_child_install_network_filter] assembles, on
    x86-64, and what it decides under the documented semantics of the
    instructions it uses ([BPF]). *)

From S2P Require Import Prelude.
From S2P Require Import CLib.
From S2P Require Import SandboxSys.
Local Open Scope Z_scope.

(** ** Constants of the kernel's headers *)

Definition BPF_LD_W_ABS : Z := 32.      (* BPF_LD | BPF_W | BPF_ABS *)
Definition BPF_JMP_JEQ_K : Z := 21.     (* BPF_JMP | BPF_JEQ | BPF_K *)
Definition BPF_RET_K : Z := 6.          (* BPF_RET | BPF_K *)

Definition BPF_STMT (code k : Z) : sock_filter := SockFilter code 0 0 k.
Definition BPF_JUMP (code k jt jf : Z) : sock_filter := SockFilter code jt jf k.

Definition SECCOMP_RET_KILL_PROCESS : Z := 2147483648.
Definition SECCOMP_RET_ERRNO : Z := 327680.
Definition SECCOMP_RET_ALLOW : Z := 2147418112.

Definition AUDIT_ARCH_X86_64 : Z := 3221225534.
Definition SANDBOX_AUDIT_ARCH : Z := AUDIT_ARCH_X86_64.

(** [struct seccomp_data], as far as the filter looks at it. *)
Record seccomp_data := SeccompData { sd_nr : Z; sd_arch : Z }.
Definition offsetof_nr : Z := 0.
Definition offsetof_arch : Z := 4.

(** The system calls, in the order of the array, with their numbers. *)
Definition blocked_network_syscalls : list Z :=
  [41 (* socket *); 53 (* socketpair *); 42 (* connect *); 49 (* bind *);
   50 (* listen *); 43 (* accept *); 288 (* accept4 *); 44 (* sendto *);
   46 (* sendmsg *); 307 (* sendmmsg *); 45 (* recvfrom *); 47 (* recvmsg *);
   299 (* recvmmsg *); 48 (* shutdown *); 54 (* setsockopt *);
   55 (* getsockopt *)].

(** ** Assembling the program *)

(** [struct sock_filter filter[64]] *)
Definition FILTER_CAPACITY : nat := 64.

(** [filter[filter_length++] = i], the array being its first
    [filter_length] entries. *)
Definition emit (filter : list sock_filter) (i : sock_filter) : list sock_filter :=
  filter ++ [i].

Definition filter_prologue : list sock_filter :=
  emit (emit (emit (emit []
    (BPF_STMT BPF_LD_W_ABS offsetof_arch))
    (BPF_JUMP BPF_JMP_JEQ_K SANDBOX_AUDIT_ARCH 1 0))
    (BPF_STMT BPF_RET_K SECCOMP_RET_KILL_PROCESS))
    (BPF_STMT BPF_LD_W_ABS offsetof_nr).

Definition emit_blocked (filter : list sock_filter) (nr : Z) : list sock_filter :=
  emit (emit filter
    (BPF_JUMP BPF_JMP_JEQ_K (nr `mod` 2 ^ 32) 0 1))
    (BPF_STMT BPF_RET_K (Z.lor SECCOMP_RET_ERRNO EPERM)).

Definition network_filter : list sock_filter :=
  emit (foldl emit_blocked filter_prologue blocked_network_syscalls)
       (BPF_STMT BPF_RET_K SECCOMP_RET_ALLOW).

Definition sandbox_child_install_network_filter {G} : prog ssys G (res unit) :=
  let* r := call Set_no_new_privs in
  match r with
  | Err e => ret (Err e)
  | Ok _ => call (Set_seccomp_filter network_filter)
  end.

(** ** The semantics of the instructions *)

(** [run prog a d]: the verdict of a program on [d], started with the
    accumulator [a]. *)
Class BPF (run : list sock_filter → Z → seccomp_data → Z) : Prop := {
  bpf_ld_nr rest a d :
    run (BPF_STMT BPF_LD_W_ABS offsetof_nr :: rest) a d = run rest (sd_nr d) d;
  bpf_ld_arch rest a d :
    run (BPF_STMT BPF_LD_W_ABS offsetof_arch :: rest) a d = run rest (sd_arch d) d;
  bpf_jeq rest k jt jf a d :
    run (BPF_JUMP BPF_JMP_JEQ_K k jt jf :: rest) a d =
    run (drop (Z.to_nat (if bool_decide (a = k) then jt else jf)) rest) a d;
  bpf_ret rest k a d : run (BPF_STMT BPF_RET_K k :: rest) a d = k
}.

(** The policy for a native call of x86-64, by the kernel's table: 41 [socket]
    to 50 [listen], 53 [socketpair] to 55 [getsockopt], 288 [accept4],
    299 [recvmmsg], 307 [sendmmsg].  ([getsockname] and [getpeername], 51 and
    52, which only ask for addresses, are not denied.) *)
Definition denied_call (nr : Z) : bool :=
  bool_decide (41 ≤ nr ≤ 50 ∨ 53 ≤ nr ≤ 55 ∨ nr = 288 ∨ nr = 299 ∨ nr = 307).

(** A system call of the x32 ABI has bit 30 set in its number. *)
Definition X32_SYSCALL_BIT : Z := 2 ^ 30.

(** An interpreter that has the laws. *)
Fixpoint bpf_run (fuel : nat) (prog : list sock_filter) (a : Z) (d : seccomp_data) : Z :=
  match fuel, prog with
  | S n, i :: rest =>
      if bool_decide (bpf_code i = BPF_LD_W_ABS) then
        bpf_run n rest (if bool_decide (bpf_k i = offsetof_nr) then sd_nr d
                        else if bool_decide (bpf_k i = offsetof_arch) then sd_arch d
                        else 0) d
      else if bool_decide (bpf_code i = BPF_JMP_JEQ_K) then
        bpf_run n (drop (Z.to_nat (if bool_decide (a = bpf_k i) then bpf_jt i
                                   else bpf_jf i)) rest) a d
      else bpf_k i
  | _, _ => 0
  end.

Definition bpf_interpreter (prog : list sock_filter) : Z → seccomp_data → Z :=
  bpf_run (length prog) prog.

(** ** Lemmas *)

Lemma bpf_run_fuel n prog a d :
  (length prog ≤ n)%nat → bpf_run n prog a d = bpf_interpreter prog a d.
Proof.
  unfold bpf_interpreter. revert prog a.
  induction (lt_wf n) as [n _ IH]. intros [|i rest] a Hn; [by destruct n|].
  destruct n as [|n]; simpl in *; [lia|].
  repeat case_bool_decide; try done; rewrite ?(IH n) by (rewrite ?length_drop; lia);
    try done; symmetry; unfold bpf_interpreter.
  all: rewrite (IH (length rest)); [done|lia|rewrite ?length_drop; lia].
Qed.

#[export] Instance bpf_interpreter_laws : BPF bpf_interpreter.
Proof.
  split; intros; unfold bpf_interpreter at 1; cbn [length bpf_run]; try done.
  unfold BPF_JUMP. rewrite bool_decide_false by done. rewrite bool_decide_true by done.
  cbn [bpf_k bpf_jt bpf_jf].
  apply bpf_run_fuel. rewrite length_drop. lia.
Qed.

Section verdict.
Context (run : list sock_filter → Z → seccomp_data → Z) `{!BPF run}.

Lemma run_blocked nrs rest d :
  Forall (λ nr, 0 ≤ nr < 2 ^ 32) nrs →
  run (foldl emit_blocked [] nrs ++ rest) (sd_nr d) d =
  if bool_decide (sd_nr d ∈ nrs) then Z.lor SECCOMP_RET_ERRNO EPERM
  else run rest (sd_nr d) d.
Proof.
  assert (∀ nrs f, foldl emit_blocked f nrs = f ++ foldl emit_blocked [] nrs) as Hfold.
  { clear. induction nrs as [|nr nrs IH]; intros f; simpl; [by rewrite app_nil_r|].
    rewrite IH, (IH (emit_blocked [] nr)). unfold emit_blocked, emit.
    by rewrite <- !(assoc_L app). }
  induction 1 as [|nr nrs Hnr _ IH]; [done|].
  cbn [foldl]. rewrite Hfold, <- (assoc_L app). unfold emit_blocked at 1, emit. cbn [app].
  rewrite bpf_jeq, Z.mod_small by done.
  destruct (bool_decide_reflect (sd_nr d = nr)) as [Heq|Heq].
  - change (Z.to_nat 0) with 0%nat. cbn [drop]. rewrite bpf_ret, bool_decide_true; [done|].
    rewrite Heq. by left.
  - change (Z.to_nat 1) with 1%nat. cbn [drop]. rewrite drop_0, IH.
    destruct (decide (sd_nr d ∈ nrs)).
    + rewrite !bool_decide_true; [done|by right|done].
    + rewrite !bool_decide_false; [done|set_solver|done].
Qed.

(** The verdict, with the list of the source. *)
Lemma network_filter_verdict a d :
  run network_filter a d =
  if bool_decide (sd_arch d ≠ AUDIT_ARCH_X86_64) then SECCOMP_RET_KILL_PROCESS
  else if bool_decide (sd_nr d ∈ blocked_network_syscalls)
  then Z.lor SECCOMP_RET_ERRNO EPERM
  else SECCOMP_RET_ALLOW.
Proof.
  unfold network_filter, emit.
  assert (foldl emit_blocked filter_prologue blocked_network_syscalls =
          filter_prologue ++ foldl emit_blocked [] blocked_network_syscalls) as -> by done.
  unfold filter_prologue, emit. cbn [app].
  rewrite bpf_ld_arch, bpf_jeq. change SANDBOX_AUDIT_ARCH with AUDIT_ARCH_X86_64.
  case_bool_decide as Harch.
  - change (Z.to_nat 1) with 1%nat. cbn [drop]. rewrite bpf_ld_nr.
    rewrite (bool_decide_false (sd_arch d ≠ _)) by auto. rewrite run_blocked.
    + by rewrite bpf_ret.
    + apply (bool_decide_unpack _). by vm_compute.
  - change (Z.to_nat 0) with 0%nat. cbn [drop]. rewrite bpf_ret.
    by rewrite bool_decide_true.
Qed.

End verdict.

Lemma blocked_denied nr : bool_decide (nr ∈ blocked_network_syscalls) = denied_call nr.
Proof.
  apply bool_decide_ext. unfold blocked_network_syscalls. rewrite !elem_of_cons, elem_of_nil.
  lia.
Qed.

(** ** Properties *)

(** C13. What the filter decides, under the documented meaning of its
    instructions.  A call of any other architecture kills the process.  Of the
    native calls of x86-64 exactly those that make or use a socket are denied,
    with EPERM, and all others are allowed.  The calls of the x32 ABI, whose
    numbers have bit 30 set and whose architecture is that of x86-64, are all
    allowed, the network ones among them: that is not what README.md promises,
    and recorded as a finding. *)
Theorem network_filter_correct run a nr arch :
  BPF run →
  let verdict := run network_filter a (SeccompData nr arch) in
  (arch ≠ AUDIT_ARCH_X86_64 → verdict = SECCOMP_RET_KILL_PROCESS) ∧
  (arch = AUDIT_ARCH_X86_64 → 0 ≤ nr < X32_SYSCALL_BIT →
   verdict = if denied_call nr then SECCOMP_RET_ERRNO + EPERM else SECCOMP_RET_ALLOW) ∧
  (arch = AUDIT_ARCH_X86_64 → X32_SYSCALL_BIT ≤ nr → verdict = SECCOMP_RET_ALLOW).
Proof.
  intros HB. cbn zeta. rewrite network_filter_verdict by done. cbn [sd_nr sd_arch].
  split_and!; intros Harch.
  - by rewrite bool_decide_true.
  - intros _. by rewrite bool_decide_false, blocked_denied by auto.
  - intros Hnr. rewrite bool_decide_false, blocked_denied by auto. unfold denied_call.
    rewrite bool_decide_false; [done|]. unfold X32_SYSCALL_BIT in Hnr. lia.
Qed.

Lemma network_filter_correct_witness :
  bpf_interpreter network_filter 0 (SeccompData 42 AUDIT_ARCH_X86_64) = 327681 ∧
  bpf_interpreter network_filter 0 (SeccompData 0 AUDIT_ARCH_X86_64) = SECCOMP_RET_ALLOW ∧
  bpf_interpreter network_filter 0 (SeccompData 42 3) = SECCOMP_RET_KILL_PROCESS ∧
  bpf_interpreter network_filter 0 (SeccompData (41 + X32_SYSCALL_BIT) AUDIT_ARCH_X86_64) =
  SECCOMP_RET_ALLOW.
Proof.
  split_and!.
  - destruct (network_filter_correct bpf_interpreter 0 42 AUDIT_ARCH_X86_64
      bpf_interpreter_laws) as (_ & H & _).
    apply H; [done|]. split; [done|reflexivity].
  - destruct (network_filter_correct bpf_interpreter 0 0 AUDIT_ARCH_X86_64
      bpf_interpreter_laws) as (_ & H & _).
    apply H; [done|]. split; [done|reflexivity].
  - destruct (network_filter_correct bpf_interpreter 0 42 3
      bpf_interpreter_laws) as (H & _). by apply H.
  - destruct (network_filter_correct bpf_interpreter 0 (41 + X32_SYSCALL_BIT) AUDIT_ARCH_X86_64
      bpf_interpreter_laws) as (_ & _ & H). apply H; [done|]. by vm_compute.
Defined.

(** The program fits the array, and its length the 16-bit field. *)
Lemma network_filter_length :
  length network_filter = 37%nat ∧ (length network_filter ≤ FILTER_CAPACITY)%nat.
Proof. split; [done|]. unfold FILTER_CAPACITY. vm_compute. lia. Qed.
