(* ===== verification/ProcStat.v ===== *)
(** * process_tree.c: reading /proc/PID/stat and /proc/PID/status *)

From S2P Require Import Prelude.
From S2P Require Import CLib.
From S2P Require Import SandboxSys.
From stdpp Require Import pretty.
Local Open Scope Z_scope.

Definition PROC_PATH_MAX : nat := 64.
Definition PROC_STATUS_LINE_MAX : nat := 256.
Definition PROC_STAT_LINE_MAX : nat := 4096.

(** [ProcReadResult], with what a success delivers. *)
Inductive proc_read (A : Type) : Type :=
  | PROC_READ_ERROR
  | PROC_READ_SUCCESS (a : A)
  | PROC_READ_PROCESS_GONE.
Arguments PROC_READ_ERROR {A}.
Arguments PROC_READ_SUCCESS {A} a.
Arguments PROC_READ_PROCESS_GONE {A}.

Record ProcessTreeProcess := Process {
  pid : Z;
  parent_pid : Z;
  process_group_id : Z;
  p_state : byte;
  p_user_ticks : Z;
  p_system_ticks : Z
}.

(** The path when it fits the buffer. *)
Definition build_proc_path (pid : Z) (file_name : string) : option (list byte) :=
  let text := sprintf "/proc/%ld/%s" [AInt pid; AStr (txt file_name)] in
  if bool_decide (length text < PROC_PATH_MAX)%nat
  then Some (snprintf_into (zeros PROC_PATH_MAX) text) else None.

Definition process_gone_error (error_code : Z) : bool :=
  bool_decide (error_code = ENOENT) || bool_decide (error_code = ESRCH).

Definition parse_pid_token (token : list byte) : option Z :=
  let r := strtol token in
  if st_erange r || bool_decide (st_end r = 0%nat) ||
     bool_decide (char_at token (st_end r) ≠ NUL) ||
     (st_value r <? 0) || (st_value r >? INT_MAX)
  then None else Some (st_value r).

Definition parse_unsigned_token (token : list byte) : option Z :=
  let r := strtoul token in
  if negb (st_erange r) && negb (bool_decide (st_end r = 0%nat)) &&
     bool_decide (char_at token (st_end r) = NUL)
  then Some (st_value r) else None.

(** ** [read_process_stat] *)

Definition SEPARATORS : list byte := [x20; x09; x0d; x0a].  (* " \t\r\n" *)

(** The local [found_] flags. *)
Record found := Found {
  found_parent : bool; found_group : bool;
  found_user_ticks : bool; found_system_ticks : bool
}.

(** What the loop does with the token of field [field_number]: [None] is the
    early return of an error. *)
Definition stat_field (field_number : nat) (token : list byte)
    (p : ProcessTreeProcess) (f : found) : option (ProcessTreeProcess * found) :=
  match field_number with
  | 3%nat =>
      if bool_decide (char_at token 0 = NUL ∨ char_at token 1 ≠ NUL) then None
      else Some (Process (pid p) (parent_pid p) (process_group_id p)
                         (char_at token 0) (p_user_ticks p) (p_system_ticks p), f)
  | 4%nat =>
      (λ v, (Process (pid p) v (process_group_id p) (p_state p) (p_user_ticks p) (p_system_ticks p),
             Found true (found_group f) (found_user_ticks f) (found_system_ticks f)))
      <$> parse_pid_token token
  | 5%nat =>
      (λ v, (Process (pid p) (parent_pid p) v (p_state p) (p_user_ticks p) (p_system_ticks p),
             Found (found_parent f) true (found_user_ticks f) (found_system_ticks f)))
      <$> parse_pid_token token
  | 14%nat =>
      (λ v, (Process (pid p) (parent_pid p) (process_group_id p) (p_state p) v (p_system_ticks p),
             Found (found_parent f) (found_group f) true (found_system_ticks f)))
      <$> parse_unsigned_token token
  | 15%nat =>
      (λ v, (Process (pid p) (parent_pid p) (process_group_id p) (p_state p) (p_user_ticks p) v,
             Found (found_parent f) (found_group f) (found_user_ticks f) true))
      <$> parse_unsigned_token token
  | _ => Some (p, f)
  end.

(** [while (token != NULL && field_number <= 15u)]: [n] is the number of
    fields left up to the fifteenth, [s] what the save pointer points at. *)
Fixpoint stat_fields (n : nat) (s : list byte) (p : ProcessTreeProcess) (f : found)
    : option (ProcessTreeProcess * found) :=
  match n with
  | O => Some (p, f)
  | S n' =>
      match strtok SEPARATORS s with
      | None => Some (p, f)
      | Some (token, s') =>
          match stat_field (16 - n) token p f with
          | None => None
          | Some (p', f') => stat_fields n' s' p' f'
          end
      end
  end.

Definition parse_stat_line (the_pid : Z) (line : list byte) : proc_read ProcessTreeProcess :=
  match strrchr line x29 with
  | None => PROC_READ_ERROR
  | Some command_end =>
      if bool_decide (char_at line (command_end + 1) ≠ x20) then PROC_READ_ERROR else
      match stat_fields 13 (drop (command_end + 2) line)
              (Process the_pid 0 0 NUL 0 0) (Found false false false false) with
      | None => PROC_READ_ERROR
      | Some (p, f) =>
          if found_parent f && found_group f && found_user_ticks f && found_system_ticks f
          then PROC_READ_SUCCESS p else PROC_READ_ERROR
      end
  end.

Definition read_process_stat {G} (the_pid : Z)
    : prog ssys G (proc_read ProcessTreeProcess) :=
  match build_proc_path the_pid "stat" with
  | None => ret PROC_READ_ERROR
  | Some path =>
      let* r := call (Fopen path) in
      match r with
      | Err e => ret (if process_gone_error e then PROC_READ_PROCESS_GONE else PROC_READ_ERROR)
      | Ok (content, fails) =>
          match fgets (zeros PROC_STAT_LINE_MAX) (fopen_file content fails) with
          | (None, f) =>
              let* _ := call Fclose in
              ret (if f_feof f || process_gone_error (f_errno f)
                   then PROC_READ_PROCESS_GONE else PROC_READ_ERROR)
          | (Some line, _) =>
              let* r := call Fclose in
              match r with
              | Err _ => ret PROC_READ_ERROR
              | Ok _ => ret (parse_stat_line the_pid line)
              end
          end
      end
  end.

(** ** [read_process_memory]

    A success delivers the kilobytes and whether the virtual size stood in
    for the resident one. *)

(** [sscanf(line, label " %lu %7s", &value, unit) == 2 &&
    strcmp(unit, "kB") == 0] *)
Definition scan_kB (label : string) (line : list byte) : option Z :=
  match scan_value_unit label line with
  | Some (value, unit) => if str_eqb unit "kB" then Some value else None
  | None => None
  end.

(** One iteration over the lines; the loop state is the stream and the
    virtual size when one was found. *)
Definition memory_step {G} (s : FILE * option Z)
    : prog ssys G (FILE * option Z + proc_read (Z * bool)) :=
  let '(stream, virtual_size) := s in
  match fgets (zeros PROC_STATUS_LINE_MAX) stream with
  | (None, stream') =>
      let read_failed := f_ferror stream' in
      let* r := call Fclose in
      match r with
      | Err _ => ret (inr PROC_READ_ERROR)
      | Ok _ =>
          if read_failed : bool then ret (inr PROC_READ_ERROR)
          else match virtual_size with
               | Some size => ret (inr (PROC_READ_SUCCESS (size, true)))
               | None => ret (inr (PROC_READ_SUCCESS (0, false)))
               end
      end
  | (Some line, stream') =>
      match scan_kB "VmRSS:" line with
      | Some value =>
          let* r := call Fclose in
          match r with
          | Err _ => ret (inr PROC_READ_ERROR)
          | Ok _ => ret (inr (PROC_READ_SUCCESS (value, false)))
          end
      | None =>
          match scan_kB "VmSize:" line with
          | Some value => ret (inl (stream', Some value))
          | None => ret (inl (stream', virtual_size))
          end
      end
  end.

(** Every iteration but the last reads a byte, so the length of the file
    bounds them. *)
Definition read_process_memory {G} (the_pid : Z) : prog ssys G (proc_read (Z * bool)) :=
  match build_proc_path the_pid "status" with
  | None => ret PROC_READ_ERROR
  | Some path =>
      let* r := call (Fopen path) in
      match r with
      | Err e => ret (if process_gone_error e then PROC_READ_PROCESS_GONE else PROC_READ_ERROR)
      | Ok (content, fails) =>
          loop (S (length content)) memory_step (fopen_file content fails, None)
      end
  end.

(** [directory_name_to_pid] *)
Definition directory_name_to_pid (name : list byte) : option Z :=
  let digits := c_string name in
  if bool_decide (digits = []) then None
  else if negb (forallb is_digit digits) then None
  else parse_pid_token name.

(** ** What the kernel writes

    A [stat] line: the process ID, the command name in parentheses (any
    characters, parentheses and blanks included), and blank-separated words,
    of which the third to fifth, the fourteenth and the fifteenth matter. *)
Definition plain_word (w : list byte) : Prop :=
  w ≠ [] ∧ Forall (λ c, c ∉ NUL :: x29 :: SEPARATORS) w.

Definition stat_words (p : ProcessTreeProcess) (between : list (list byte))
    : list (list byte) :=
  [[p_state p]; txt (pretty (parent_pid p)); txt (pretty (process_group_id p))] ++
  between ++
  [txt (pretty (p_user_ticks p)); txt (pretty (p_system_ticks p))].

Definition words_text (ws : list (list byte)) : list byte :=
  concat (map (λ w, w ++ [x20]) ws).

Definition stat_text (p : ProcessTreeProcess) (comm : list byte)
    (between : list (list byte)) (tail : list byte) : list byte :=
  (txt (pretty (pid p)) ++ txt " (" ++ comm) ++ x29 :: x20 ::
  words_text (stat_words p between) ++ tail.

(** A process as the kernel describes it. *)
Definition process_ok (p : ProcessTreeProcess) : Prop :=
  0 ≤ pid p ≤ INT_MAX ∧ 0 ≤ parent_pid p ≤ INT_MAX ∧
  0 ≤ process_group_id p ≤ INT_MAX ∧ plain_word [p_state p] ∧
  0 ≤ p_user_ticks p ≤ ULONG_MAX ∧ 0 ≤ p_system_ticks p ≤ ULONG_MAX.

(** [content] is the [stat] file of [p]: one line that fits the buffer. *)
Definition stat_shows (content : list byte) (p : ProcessTreeProcess) : Prop :=
  ∃ comm between tail, process_ok p ∧ Forall plain_word between ∧ length between = 8%nat ∧
    NUL ∉ comm ∧ LF ∉ comm ∧ NUL ∉ tail ∧ LF ∉ tail ∧ x29 ∉ tail ∧
    (length (stat_text p comm between tail) + 2 ≤ PROC_STAT_LINE_MAX)%nat ∧
    content = stat_text p comm between tail ++ [LF].

(** A line of a [status] file: a label, blanks, kilobytes and the unit. *)
Definition kB_line (label : string) (blanks : list byte) (kB : Z) : list byte :=
  txt label ++ blanks ++ txt (pretty kB) ++ txt " kB".

Definition unlabelled (label : string) (line : list byte) : Prop :=
  ¬ txt label `prefix_of` line.

(** The figure the lines of a [status] file show for a process, and whether it
    is the virtual size: the resident size if there is one, else the virtual
    size if there is one, else none (a thread of the kernel, a zombie). *)
Inductive memory_shown : list (list byte) → Z * bool → Prop :=
  | shows_resident before blanks kB after :
      Forall (unlabelled "VmRSS:") before →
      Forall (λ c, is_space c = true) blanks → 0 ≤ kB ≤ ULONG_MAX →
      memory_shown (before ++ kB_line "VmRSS:" blanks kB :: after) (kB, false)
  | shows_virtual before blanks kB after :
      Forall (unlabelled "VmRSS:") (before ++ after) → Forall (unlabelled "VmSize:") after →
      Forall (λ c, is_space c = true) blanks → 0 ≤ kB ≤ ULONG_MAX →
      memory_shown (before ++ kB_line "VmSize:" blanks kB :: after) (kB, true)
  | shows_none lines :
      Forall (unlabelled "VmRSS:") lines → Forall (unlabelled "VmSize:") lines →
      memory_shown lines (0, false).

(** The memory figure a [status] file means: that of the first [VmRSS] line,
    or else that of the last [VmSize] line, or else nothing. *)
Fixpoint memory_of_lines (virtual_size : option Z) (lines : list (list byte)) : Z * bool :=
  match lines with
  | [] => match virtual_size with Some size => (size, true) | None => (0, false) end
  | l :: lines' =>
      match scan_kB "VmRSS:" l with
      | Some value => (value, false)
      | None => memory_of_lines (match scan_kB "VmSize:" l with
                                 | Some value => Some value
                                 | None => virtual_size
                                 end) lines'
      end
  end.

(** A line that fits the buffer of [read_process_memory]. *)
Definition status_line (l : list byte) : Prop :=
  NUL ∉ l ∧ LF ∉ l ∧ (length l + 2 ≤ PROC_STATUS_LINE_MAX)%nat.

(** [content] is a [status] file that shows the figure [m]. *)
Definition status_shows (content : list byte) (m : Z * bool) : Prop :=
  ∃ lines, content = text_of lines [] ∧ Forall status_line lines ∧ memory_shown lines m.

Definition proc_path (the_pid : Z) (file_name : string) : list byte :=
  txt "/proc/" ++ txt (pretty the_pid) ++ x2f :: txt file_name.

(** The calls [tr] read the [stat] file of [p], and [p] is what it shows. *)
Definition stat_was_read (p : ProcessTreeProcess) (tr : strace) : Prop :=
  ∃ content fails, file_read (proc_path (pid p) "stat") content fails tr ∧
    ∀ q, pid q = pid p → stat_shows content q → q = p.

(** The calls [tr] found no process [n]: no [stat] file, an empty one, or one
    that ended in the error of a process that is gone. *)
Definition found_gone (n : Z) (tr : strace) : Prop :=
  file_gone (proc_path n "stat") tr ∨ file_read (proc_path n "stat") [] None tr ∨
  ∃ content e, gone_error e ∧ file_read (proc_path n "stat") content (Some e) tr.

(** The calls [tr] read the [status] file of process [n], and [m] is what it
    shows; or the process was gone, and [m] is nothing. *)
Definition memory_was_read (n : Z) (m : Z * bool) (tr : strace) : Prop :=
  (∃ content fails, file_read (proc_path n "status") content fails tr ∧
     ∀ m', status_shows content m' → m' = m) ∨
  file_gone (proc_path n "status") tr ∧ m = (0, false).

(** The process ID a directory entry names: digits, in the range of [pid_t]. *)
Definition named_pid (name : list byte) : option Z :=
  let digits := c_string name in
  if forallb is_digit digits && negb (bool_decide (digits = [])) &&
     bool_decide (digits_value digits ≤ INT_MAX)
  then Some (digits_value digits) else None.

(** ** Lemmas: tokens *)

Lemma parse_pid_token_pretty n :
  0 ≤ n ≤ INT_MAX → parse_pid_token (txt (pretty n)) = Some n.
Proof.
  intros Hn. unfold parse_pid_token.
  pose proof (strtol_pretty n [] ltac:(unfold INT_MAX, LONG_MAX in *; lia) ltac:(done)) as H.
  rewrite app_nil_r in H. rewrite H. cbn [st_value st_end st_erange].
  destruct (pretty_digits n) as (_ & _ & Hne); [lia|].
  rewrite bool_decide_false by (intros E; by apply nil_length_inv in E).
  rewrite bool_decide_false.
  - destruct (Z.ltb_spec n 0); [lia|]. by destruct (Z.gtb_spec n INT_MAX); [lia|].
  - unfold char_at. rewrite lookup_ge_None_2 by done. by intros [].
Qed.

Lemma parse_unsigned_token_pretty n :
  0 ≤ n ≤ ULONG_MAX → parse_unsigned_token (txt (pretty n)) = Some n.
Proof.
  intros Hn. unfold parse_unsigned_token.
  pose proof (strtoul_pretty n [] Hn ltac:(done)) as H.
  rewrite app_nil_r in H. rewrite H. cbn [st_value st_end st_erange].
  destruct (pretty_digits n) as (_ & _ & Hne); [lia|].
  rewrite bool_decide_false by (intros E; by apply nil_length_inv in E).
  rewrite bool_decide_true; [done|].
  unfold char_at. by rewrite lookup_ge_None_2.
Qed.

Lemma plain_pretty n : 0 ≤ n → plain_word (txt (pretty n)).
Proof.
  intros Hn. destruct (pretty_digits n Hn) as (Hds & _ & Hne). split; [done|].
  eapply Forall_impl; [exact Hds|]. intros c Hc. apply (bool_decide_unpack _).
  revert Hc. by destruct c.
Qed.

Lemma plain_word_chars w c : plain_word w → c ∈ w → c ≠ NUL ∧ c ≠ x29 ∧ c ∉ SEPARATORS.
Proof.
  intros [_ Hw] Hc. rewrite Forall_forall in Hw. specialize (Hw c Hc).
  by rewrite !not_elem_of_cons in Hw.
Qed.

Lemma stat_fields_c_string n s p f :
  stat_fields n (c_string s) p f = stat_fields n s p f.
Proof. destruct n as [|n]; [done|]. cbn [stat_fields]. by rewrite strtok_c_string. Qed.

(** One word is consumed by one iteration. *)
Lemma stat_fields_word n w rest p f :
  plain_word w →
  stat_fields (S n) (w ++ x20 :: rest) p f =
  match stat_field (15 - n) w p f with
  | None => None
  | Some (p', f') => stat_fields n rest p' f'
  end.
Proof.
  intros Hw. cbn [stat_fields Nat.sub].
  rewrite strtok_token; [|apply Hw| | |by apply (bool_decide_unpack _)|done].
  - destruct (stat_field _ _ _ _) as [[p' f']|]; [|done]. apply stat_fields_c_string.
  - intros HN. by apply (plain_word_chars w NUL Hw) in HN as [? _].
  - intros c Hc. by apply (plain_word_chars w c Hw).
Qed.

Lemma words_text_cons w ws r :
  words_text (w :: ws) ++ r = w ++ x20 :: words_text ws ++ r.
Proof. unfold words_text. simpl. by rewrite <- !(assoc_L app). Qed.

(** The words of the other fields are skipped. *)
Lemma stat_fields_skip between k rest p f :
  Forall plain_word between → (length between + k ≤ 10)%nat → (2 ≤ k)%nat →
  stat_fields (length between + k) (words_text between ++ rest) p f =
  stat_fields k rest p f.
Proof.
  induction 1 as [|w ws Hw _ IH]; [done|]. cbn [length]. intros Hlen Hk.
  rewrite words_text_cons. cbn [Nat.add]. rewrite stat_fields_word by done.
  assert (∃ i, 15 - (length ws + k) = 6 + i ∧ i < 8)%nat as (i & -> & Hi).
  { exists (9 - (length ws + k))%nat. lia. }
  do 8 (destruct i as [|i]; [cbn [Nat.add stat_field]; apply IH; lia|]). lia.
Qed.

Lemma stat_fields_words p between tail the_pid :
  process_ok p → Forall plain_word between → length between = 8%nat → pid p = the_pid →
  stat_fields 13 (words_text (stat_words p between) ++ tail)
    (Process the_pid 0 0 NUL 0 0) (Found false false false false) =
  Some (p, Found true true true true).
Proof.
  intros (_ & Hpp & Hpg & Hst & Hut & Hsy) Hb Hlen Hpid. unfold stat_words.
  cbn [app]. rewrite !words_text_cons.
  rewrite stat_fields_word by done. cbn [Nat.sub stat_field char_at].
  rewrite bool_decide_false; [|by intros [H|H]; [destruct Hst as [_ [Hc _]%Forall_cons]; set_solver|]].
  rewrite stat_fields_word by (apply plain_pretty; lia). cbn [Nat.sub stat_field].
  rewrite parse_pid_token_pretty by done. cbn [fmap option_fmap option_map].
  rewrite stat_fields_word by (apply plain_pretty; lia). cbn [Nat.sub stat_field].
  rewrite parse_pid_token_pretty by done. cbn [fmap option_fmap option_map].
  assert (words_text (between ++ [txt (pretty (p_user_ticks p)); txt (pretty (p_system_ticks p))])
            ++ tail = words_text between ++ words_text
              [txt (pretty (p_user_ticks p)); txt (pretty (p_system_ticks p))] ++ tail) as ->.
  { unfold words_text. by rewrite map_app, concat_app, <- (assoc_L app). }
  change 10%nat with (8 + 2)%nat. rewrite <- Hlen at 1.
  rewrite stat_fields_skip by (done || lia). rewrite !words_text_cons.
  rewrite stat_fields_word by (apply plain_pretty; lia). cbn [Nat.sub stat_field].
  rewrite parse_unsigned_token_pretty by done. cbn [fmap option_fmap option_map].
  rewrite stat_fields_word by (apply plain_pretty; lia). cbn [Nat.sub stat_field].
  rewrite parse_unsigned_token_pretty by done. cbn [fmap option_fmap option_map stat_fields].
  by destruct p; simpl in *; subst.
Qed.

(** No closing parenthesis after the command name. *)
Lemma stat_words_plain p between :
  process_ok p → Forall plain_word between → Forall plain_word (stat_words p between).
Proof.
  intros (_ & ? & ? & ? & ? & ?) Hb. unfold stat_words.
  repeat (apply Forall_app; split); [|done|];
    repeat (apply Forall_cons; split); try done; apply plain_pretty; lia.
Qed.

Lemma words_text_chars ws c :
  Forall plain_word ws → c ∈ words_text ws → c ≠ NUL ∧ c ≠ x29 ∧ c ≠ LF.
Proof.
  unfold words_text. induction 1 as [|w ws Hw _ IH]; simpl; [by intros ?%elem_of_nil|].
  intros [[Hc| ->%list_elem_of_singleton]%elem_of_app|Hc]%elem_of_app; [|done|auto].
  apply (plain_word_chars w c Hw) in Hc as (? & ? & Hsep). split_and!; [done..|].
  intros ->. by apply Hsep, (bool_decide_unpack _).
Qed.

Lemma stat_text_app p comm between tail r :
  stat_text p comm between tail ++ r = stat_text p comm between (tail ++ r).
Proof. unfold stat_text. rewrite <- !(assoc_L app). cbn [app]. by rewrite <- (assoc_L app). Qed.

Lemma stat_text_line p comm between tail :
  process_ok p → Forall plain_word between → LF ∉ comm → LF ∉ tail →
  LF ∉ stat_text p comm between tail.
Proof.
  intros Hp Hb HLc HLt. unfold stat_text.
  rewrite !not_elem_of_app, !not_elem_of_cons, not_elem_of_app. split_and!; try done.
  - intros H. destruct (pretty_digits (pid p)) as (Hds & _); [by destruct Hp as [[??] _]|].
    rewrite Forall_forall in Hds. by apply Hds, is_digit_plain in H as (_ & _ & _ & _ & ?).
  - by apply (bool_decide_unpack _).
  - intros H. apply words_text_chars in H as (_ & _ & ?); [done|by apply stat_words_plain].
Qed.

Lemma parse_stat_text p comm between tail z :
  process_ok p → Forall plain_word between → length between = 8%nat →
  NUL ∉ comm → NUL ∉ tail → x29 ∉ tail →
  parse_stat_line (pid p) (stat_text p comm between tail ++ NUL :: z) = PROC_READ_SUCCESS p.
Proof.
  intros Hp Hb Hlen HNc HNt Ht. unfold parse_stat_line, stat_text.
  set (A := txt (pretty (pid p)) ++ _ ++ comm).
  set (R := words_text (stat_words p between) ++ tail).
  assert (∀ c, c ∈ R → c ≠ NUL ∧ c ≠ x29) as HR.
  { intros c [Hc|Hc]%elem_of_app; [|by split; intros ->].
    apply words_text_chars in Hc as (? & ? & _); [done|]. by apply stat_words_plain. }
  assert (NUL ∉ A) as HA.
  { unfold A. rewrite !not_elem_of_app. split_and!; [|by apply (bool_decide_unpack _)|done].
    apply digits_no_nul, pretty_digits. destruct Hp as ([? _] & _). done. }
  rewrite strrchr_app.
  - rewrite <- (assoc_L app). cbn [app].
    unfold char_at. rewrite lookup_app_r by lia.
    replace (length A + 1 - length A)%nat with 1%nat by lia. cbn [lookup list_lookup default].
    rewrite bool_decide_false by auto.
    rewrite drop_app_add'. 2: lia.
    replace (drop 2 _) with (R ++ NUL :: z) by done.
    rewrite <- stat_fields_c_string, c_string_app by (intros HN; by apply HR in HN as [? _]).
    unfold R. by rewrite stat_fields_words.
  - rewrite not_elem_of_app, !not_elem_of_cons. split_and!; try done.
    intros HN. by apply HR in HN as [? _].
  - rewrite not_elem_of_cons. split; [done|]. intros HN. by apply HR in HN as [_ ?].
Qed.

Lemma store0_line (l e : list byte) n :
  (length l + length e ≤ n)%nat →
  store 0 (l ++ e) (zeros n) = l ++ e ++ zeros (n - length l - length e).
Proof.
  intros H. unfold store, zeros. simpl. rewrite <- (assoc_L app), drop_replicate, length_app.
  do 3 f_equal. lia.
Qed.

(** The lines of a [status] file are read one by one. *)
Lemma scan_kB_text label l z : NUL ∉ l → scan_kB label (l ++ NUL :: z) = scan_kB label l.
Proof.
  intros H. unfold scan_kB, scan_value_unit.
  by rewrite c_string_app, (c_string_no_terminator l) by done.
Qed.

(** The path of any process ID fits its buffer. *)
Lemma build_proc_path_fits the_pid file_name :
  0 ≤ the_pid ≤ INT_MAX → NUL ∉ txt file_name → (length (txt file_name) ≤ 8)%nat →
  ∃ path, build_proc_path the_pid file_name = Some path ∧
          c_string path = proc_path the_pid file_name.
Proof.
  intros Hpid HN Hlen. unfold build_proc_path.
  assert (sprintf "/proc/%ld/%s" [AInt the_pid; AStr (txt file_name)] =
          proc_path the_pid file_name) as ->.
  { unfold proc_path, sprintf.
    change (txt "/proc/%ld/%s") with (txt "/proc/" ++ [x25; x6c; x64] ++ [x2f] ++ [x25; x73]).
    rewrite format_plain by (by apply (bool_decide_unpack _)). cbn [app].
    rewrite format_ld. change [x2f; x25; x73] with ([x2f] ++ [x25; x73]).
    rewrite format_plain by (by apply (bool_decide_unpack _)). rewrite format_s.
    cbn [arg_text format_text app]. by rewrite c_string_no_terminator, app_nil_r by done. }
  assert (length (txt (pretty the_pid)) ≤ 10)%nat as Hdig.
  { apply pretty_length; [lia|]. unfold INT_MAX in Hpid. simpl. lia. }
  assert (length (proc_path the_pid file_name) < PROC_PATH_MAX)%nat as Hlt.
  { unfold proc_path, PROC_PATH_MAX. rewrite !length_app. simpl. lia. }
  rewrite bool_decide_true by done. eexists. split; [done|].
  unfold snprintf_into. rewrite length_zeros.
  destruct PROC_PATH_MAX as [|cap] eqn:Ecap; [lia|].
  rewrite take_ge by lia. apply c_string_store.
  unfold proc_path. rewrite !not_elem_of_app, not_elem_of_cons. split_and!; try done.
  - by apply (bool_decide_unpack _).
  - apply digits_no_nul, pretty_digits; lia.
Qed.

(** ** Lemmas: the loop over the [status] lines *)

Lemma memory_step_measure {G} K stream size (w : world ssys G) :
  wp K (memory_step (stream, size)) (post (λ x _, match x with
    | inl (stream', _) => (length (f_rest stream') < length (f_rest stream))%nat
    | inr _ => True
    end) (λ _ _, False)) w.
Proof.
  unfold memory_step.
  destruct (fgets _ stream) as [[line|] stream'] eqn:E.
  - apply fgets_shorter in E; [|vm_compute; lia].
    destruct (scan_kB "VmRSS:" line).
    + wp_steps. by destruct (K _ _ Fclose).
    + destruct (scan_kB "VmSize:" line); by wp_steps.
  - wp_steps. destruct (K _ _ Fclose); [|by wp_steps].
    destruct (f_ferror stream'), size; by wp_steps.
Qed.

Lemma memory_loop_lines {G} (K : kernel ssys) lines size fails feof ferr fuel (w : world ssys G) :
  (∀ tr, K _ tr Fclose = Ok tt) → Forall status_line lines →
  fails = None → ferr = false → (length lines < fuel)%nat →
  wp K (loop fuel memory_step (File (text_of lines []) fails feof ferr, size))
    (λ o _, o = Ret (PROC_READ_SUCCESS
                       (memory_of_lines size ((λ l, l ++ [LF]) <$> lines)))) w.
Proof.
  intros HK Hlines -> ->. revert size fuel feof w.
  induction Hlines as [|l lines (HN & HL & Hl) _ IH]; intros size fuel feof w Hfuel;
    (destruct fuel as [|fuel]; [simpl in *; lia|]); cbn [loop]; rewrite wp_bind;
    unfold memory_step at 1.
  - rewrite fgets_end by (done || (vm_compute; lia)). wp_steps. rewrite HK.
    by destruct size.
  - assert (text_of (l :: lines) [] = l ++ LF :: text_of lines []) as ->.
    { unfold text_of. simpl. by rewrite <- !(assoc_L app). }
    erewrite (fgets_line _ _ l (text_of lines [])); [|done|done|rewrite length_zeros; exact Hl].
    change [LF; NUL] with ([LF] ++ [NUL]). rewrite (assoc_L app).
    rewrite store0_line by (rewrite length_app; simpl; lia). cbn [app].
    assert (NUL ∉ l ++ [LF]) as HN'.
    { rewrite not_elem_of_app, list_elem_of_singleton. by split. }
    rewrite !scan_kB_text by done.
    cbn [f_fails f_feof f_ferror fmap list_fmap memory_of_lines].
    destruct (scan_kB "VmRSS:" _); [wp_steps; by rewrite HK|].
    cbn [length] in Hfuel.
    destruct (scan_kB "VmSize:" _); wp_steps; apply IH; lia.
Qed.

(** The same for any end of the file and any answer to [fclose]: what the loop
    delivers is what the lines say. *)
Lemma memory_loop_partial {G} (K : kernel ssys) lines size fails feof ferr fuel (w : world ssys G) :
  Forall status_line lines →
  wp K (loop fuel memory_step (File (text_of lines []) fails feof ferr, size))
    (λ o _, ∀ m, o = Ret (PROC_READ_SUCCESS m) →
       memory_of_lines size ((λ l, l ++ [LF]) <$> lines) = m) w.
Proof.
  intros Hlines. revert size fuel feof ferr w.
  induction Hlines as [|l lines (HN & HL & Hl) _ IH]; intros size fuel feof ferr w;
    (destruct fuel as [|fuel]; [done|]); cbn [loop]; rewrite wp_bind; unfold memory_step at 1.
  - assert (∃ eof err, fgets (zeros PROC_STATUS_LINE_MAX)
      (File (text_of [] []) fails feof ferr) = (None, File [] fails eof err)) as (eof & err & ->).
    { unfold fgets, PROC_STATUS_LINE_MAX. cbn [f_rest text_of map concat app].
      rewrite length_zeros. cbn [Nat.sub take_line]. destruct (_ && _); by do 2 eexists. }
    wp_steps. destruct (K _ _ Fclose); [|by wp_steps]. destruct err; [by wp_steps|].
    destruct size; wp_steps; by intros m [= <-].
  - assert (text_of (l :: lines) [] = l ++ LF :: text_of lines []) as ->.
    { unfold text_of. simpl. by rewrite <- !(assoc_L app). }
    erewrite (fgets_line _ _ l (text_of lines [])); [|done|done|rewrite length_zeros; exact Hl].
    change [LF; NUL] with ([LF] ++ [NUL]). rewrite (assoc_L app).
    rewrite store0_line by (rewrite length_app; simpl; lia). cbn [app].
    assert (NUL ∉ l ++ [LF]) as HN'.
    { rewrite not_elem_of_app, list_elem_of_singleton. by split. }
    rewrite !scan_kB_text by done.
    cbn [f_fails f_feof f_ferror fmap list_fmap memory_of_lines].
    destruct (scan_kB "VmRSS:" _).
    { wp_steps. destruct (K _ _ Fclose); wp_steps; by intros m [= <-]. }
    destruct (scan_kB "VmSize:" _); wp_steps; apply IH.
Qed.

(** What the lines show is what they say. *)
Lemma scan_kB_unlabelled label l :
  LF ∉ txt label → NUL ∉ l → unlabelled label l → scan_kB label (l ++ [LF]) = None.
Proof.
  intros HL HN Hl. unfold scan_kB, scan_value_unit, has_prefix.
  rewrite !(c_string_no_terminator (l ++ [LF]))
    by (rewrite not_elem_of_app, list_elem_of_singleton; by split).
  rewrite bool_decide_false; [done|]. intros Htake. apply Hl. rewrite <- Htake.
  destruct (decide (length (txt label) ≤ length l)%nat).
  - rewrite take_app_le by done. apply prefix_take.
  - exfalso. apply HL. rewrite <- Htake. rewrite take_ge by (rewrite length_app; simpl; lia).
    apply elem_of_app. right. by left.
Qed.

Lemma numeral_blanks blanks ds r :
  Forall (λ c, is_space c = true) blanks → Forall (λ c, is_digit c = true) ds → ds ≠ [] →
  (∀ c, head r = Some c → is_digit c = false) →
  numeral (blanks ++ ds ++ r) = Some (false, digits_value ds, length blanks + length ds)%nat.
Proof.
  intros Hb Hds Hne Hr. destruct ds as [|d ds]; [done|]. clear Hne.
  pose proof Hds as [Hd _]%Forall_cons. apply is_digit_plain in Hd as (Hs & Hm & Hp & _).
  unfold numeral. rewrite (span_app is_space) by (done || by intros c [= <-]).
  cbn [app]. rewrite !bool_decide_false by done.
  rewrite app_comm_cons, span_app by done. f_equal. f_equal. lia.
Qed.

Lemma is_space_no_nul l : Forall (λ c, is_space c = true) l → NUL ∉ l.
Proof. intros Hl Hin. rewrite Forall_forall in Hl. by apply Hl in Hin. Qed.

Lemma scan_kB_line label blanks kB :
  NUL ∉ txt label → Forall (λ c, is_space c = true) blanks → 0 ≤ kB ≤ ULONG_MAX →
  scan_kB label (kB_line label blanks kB ++ [LF]) = Some kB.
Proof.
  intros HN Hb HkB. destruct (pretty_digits kB) as (Hds & Hv & Hne); [lia|].
  set (ds := txt (pretty kB)) in *. unfold scan_kB, scan_value_unit, kB_line, has_prefix.
  fold ds. set (tail := txt " kB" ++ [LF]).
  assert ((txt label ++ blanks ++ ds ++ txt " kB") ++ [LF] = txt label ++ blanks ++ ds ++ tail) as ->
    by by rewrite <- !(assoc_L app).
  assert (NUL ∉ blanks ++ ds ++ tail) as HNr.
  { rewrite !not_elem_of_app. split_and!; [by apply is_space_no_nul|by apply digits_no_nul|
      by apply (bool_decide_unpack _)..]. }
  rewrite !(c_string_no_terminator (txt label ++ _)) by (rewrite not_elem_of_app; by split).
  rewrite take_app_length, bool_decide_true by done. cbn [negb].
  rewrite drop_app_length. unfold strtoul. rewrite c_string_no_terminator by done.
  assert (∀ c, head tail = Some c → is_digit c = false) as Htail by by intros c [= <-].
  rewrite (numeral_blanks blanks ds tail), Hv by done.
  destruct (Z.gtb_spec kB ULONG_MAX); [lia|]. cbn [st_value st_end].
  rewrite bool_decide_false by (destruct ds; simpl; [done|lia]).
  rewrite (assoc_L app), <- length_app, drop_app_length. subst tail. done.
Qed.

Lemma memory_of_lines_skip size before rest :
  Forall (λ l, scan_kB "VmRSS:" l = None) before →
  ∃ size', memory_of_lines size (before ++ rest) = memory_of_lines size' rest ∧
    (Forall (λ l, scan_kB "VmSize:" l = None) before → size' = size).
Proof.
  intros Hb. revert size. induction Hb as [|l before Hl _ IH]; intros size; [by exists size|].
  cbn [app memory_of_lines]. rewrite Hl. destruct (IH (match scan_kB "VmSize:" l with
    Some value => Some value | None => size end)) as (size' & -> & Hs).
  exists size'. split; [done|]. intros [Hl' Hb']%Forall_cons. rewrite Hs by done. by rewrite Hl'.
Qed.

Lemma unlabelled_lines label lines :
  LF ∉ txt label → Forall status_line lines → Forall (unlabelled label) lines →
  Forall (λ l, scan_kB label l = None) ((λ l, l ++ [LF]) <$> lines).
Proof.
  intros HL Hlines Hun. apply Forall_fmap. rewrite Forall_forall in Hlines |- *.
  rewrite Forall_forall in Hun. intros l Hl. simpl.
  apply scan_kB_unlabelled; [done|by apply Hlines|by apply Hun].
Qed.

Lemma memory_of_lines_shown lines m :
  Forall status_line lines → memory_shown lines m →
  memory_of_lines None ((λ l, l ++ [LF]) <$> lines) = m.
Proof.
  assert (LF ∉ txt "VmRSS:" ∧ NUL ∉ txt "VmRSS:" ∧ LF ∉ txt "VmSize:" ∧ NUL ∉ txt "VmSize:")
    as (HL1 & HN1 & HL2 & HN2) by (split_and!; by apply (bool_decide_unpack _)).
  intros Hlines. destruct 1 as [before blanks kB after Hun Hb HkB
    |before blanks kB after Hun Hun2 Hb HkB|lines Hun Hun2].
  - apply Forall_app in Hlines as [Hbefore _]. rewrite fmap_app, fmap_cons.
    destruct (memory_of_lines_skip None ((λ l, l ++ [LF]) <$> before)
      ((kB_line "VmRSS:" blanks kB ++ [LF]) :: ((λ l, l ++ [LF]) <$> after)))
      as (size & -> & _); [by apply unlabelled_lines|].
    cbn [memory_of_lines]. by rewrite scan_kB_line.
  - apply Forall_app in Hlines as [Hbefore [Hline Hafter]%Forall_cons].
    apply Forall_app in Hun as [Hun Hun']. rewrite fmap_app, fmap_cons.
    destruct (memory_of_lines_skip None ((λ l, l ++ [LF]) <$> before)
      ((kB_line "VmSize:" blanks kB ++ [LF]) :: ((λ l, l ++ [LF]) <$> after)))
      as (size & -> & _); [by apply unlabelled_lines|].
    cbn [memory_of_lines]. rewrite (scan_kB_line "VmSize:") by done.
    assert (scan_kB "VmRSS:" (kB_line "VmSize:" blanks kB ++ [LF]) = None) as ->.
    { apply scan_kB_unlabelled; [done|apply Hline|]. intros [k Hk].
      unfold kB_line in Hk. by apply (f_equal (take 3)) in Hk. }
    destruct (memory_of_lines_skip (Some kB) ((λ l, l ++ [LF]) <$> after) [])
      as (size' & E & Hs); [by apply unlabelled_lines|].
    rewrite app_nil_r in E. rewrite E, Hs by (by apply unlabelled_lines). done.
  - destruct (memory_of_lines_skip None ((λ l, l ++ [LF]) <$> lines) [])
      as (size' & E & Hs); [by apply unlabelled_lines|].
    rewrite app_nil_r in E. rewrite E, Hs by (by apply unlabelled_lines). done.
Qed.

Lemma length_text_of lines : (length lines ≤ length (text_of lines []))%nat.
Proof.
  unfold text_of. rewrite app_nil_r. induction lines as [|l lines IH]; simpl; [lia|].
  rewrite !length_app. simpl. lia.
Qed.

#[export] Instance read_process_stat_returns {G} the_pid :
  Returns (@read_process_stat G the_pid).
Proof. unfold read_process_stat. solve_returns. Qed.

#[export] Instance read_process_memory_returns {G} the_pid :
  Returns (@read_process_memory G the_pid).
Proof.
  unfold read_process_memory. destruct (build_proc_path _ _); [|apply _].
  apply returns_bind; [apply _|]. intros [[content fails]|e]; [|apply _].
  apply (returns_loop (λ s : FILE * option Z, length (f_rest s.1))); [|simpl; lia].
  intros K [stream size] w. eapply wp_mono; [apply memory_step_measure|].
  by intros [[[stream' size']|r]|h] w'.
Qed.

(** ** Lemmas: what a reading shows *)

Lemma char_at_strlen l : char_at l (strlen l) = NUL.
Proof.
  rewrite <- length_c_string. destruct (c_string_cases l) as [(r & Hl & _)|[Hl _]].
  - rewrite Hl at 1. apply char_at_middle.
  - rewrite Hl at 1. unfold char_at. by rewrite lookup_ge_None_2.
Qed.

Lemma directory_name_named name : directory_name_to_pid name = named_pid name.
Proof.
  unfold directory_name_to_pid, named_pid. cbv zeta.
  case_bool_decide as Hne; [by rewrite andb_false_r|].
  destruct (forallb is_digit (c_string name)) eqn:Hds; [|done]. cbn [negb andb].
  assert (Forall (λ c, is_digit c = true) (c_string name)) as Hdigits.
  { apply Forall_forall. intros c Hc. rewrite forallb_forall in Hds.
    by apply Hds, list_elem_of_In. }
  pose proof (digits_value_nonneg _ Hdigits) as Hpos.
  unfold parse_pid_token, strtol.
  pose proof (numeral_digits (c_string name) [] Hdigits Hne ltac:(done)) as Hnum.
  rewrite app_nil_r in Hnum. rewrite Hnum. cbv zeta iota.
  destruct (Z.gtb_spec (digits_value (c_string name)) LONG_MAX) as [Hbig|Hsmall].
  { cbn [st_erange orb]. rewrite bool_decide_false; [done|]. unfold LONG_MAX, INT_MAX in *. lia. }
  destruct (Z.ltb_spec (digits_value (c_string name)) LONG_MIN); [unfold LONG_MIN in *; lia|].
  cbn [st_erange st_end st_value orb]. rewrite length_c_string.
  rewrite bool_decide_false by (intros Hz; apply Hne, nil_length_inv; by rewrite length_c_string).
  rewrite char_at_strlen, bool_decide_false by (intros Hx; by apply Hx). cbn [orb].
  destruct (Z.ltb_spec (digits_value (c_string name)) 0); [lia|]. cbn [orb].
  destruct (Z.gtb_spec (digits_value (c_string name)) INT_MAX).
  - by rewrite bool_decide_false by lia.
  - by rewrite bool_decide_true by lia.
Qed.

Lemma named_pid_range name n : named_pid name = Some n → 0 ≤ n ≤ INT_MAX.
Proof.
  unfold named_pid. destruct (forallb is_digit (c_string name)) eqn:Hds; [|done].
  cbn [andb]. destruct (negb _); [|done]. cbn [andb]. case_bool_decide; [|done]. intros [= <-].
  split; [|done]. apply digits_value_nonneg, Forall_forall. intros c Hc.
  rewrite forallb_forall in Hds. by apply Hds, list_elem_of_In.
Qed.

(** The numerals the kernel writes name their processes. *)
Lemma named_pid_pretty n : 0 ≤ n ≤ INT_MAX → named_pid (txt (pretty n)) = Some n.
Proof.
  intros Hn. destruct (pretty_digits n) as (Hds & Hv & Hne); [lia|]. unfold named_pid.
  rewrite c_string_no_terminator by by apply digits_no_nul. rewrite Hv.
  rewrite bool_decide_false, bool_decide_true by (done || lia).
  assert (forallb is_digit (txt (pretty n)) = true) as ->; [|done].
  apply forallb_forall. intros c Hc%list_elem_of_In. rewrite Forall_forall in Hds. by apply Hds.
Qed.

(** What [parse_stat_line] is given and makes of the file of a process. *)
Lemma parse_stat_shown content fails line stream q :
  stat_shows content q →
  fgets (zeros PROC_STAT_LINE_MAX) (fopen_file content fails) = (Some line, stream) →
  parse_stat_line (pid q) line = PROC_READ_SUCCESS q.
Proof.
  intros (comm & between & tail & Hq & Hb & Hlen & HNc & HLc & HNt & HLt & Ht & Hmax & ->).
  assert (LF ∉ stat_text q comm between tail) as HL by by apply stat_text_line.
  rewrite (fgets_line _ _ (stat_text q comm between tail) [])
    by (done || by rewrite length_zeros). intros [= <- _].
  change [LF; NUL] with ([LF] ++ [NUL]).
  rewrite (assoc_L app), store0_line by (rewrite length_app; simpl; lia).
  rewrite stat_text_app. cbn [app]. apply parse_stat_text; try done;
    rewrite not_elem_of_app, list_elem_of_singleton; by split.
Qed.

(** Why a file gives no first line. *)
Lemma fgets_none_gone content fails stream :
  fgets (zeros PROC_STAT_LINE_MAX) (fopen_file content fails) = (None, stream) →
  f_feof stream || process_gone_error (f_errno stream) = true →
  content = [] ∧ fails = None ∨ ∃ e, gone_error e ∧ fails = Some e.
Proof.
  intros Hf Hgone. pose proof Hf as Hrest.
  apply fgets_None_rest in Hrest; [|rewrite length_zeros; vm_compute; lia].
  unfold fgets in Hf. cbn [fopen_file f_rest f_feof f_ferror f_fails orb] in Hf.
  destruct (take_line _ _) as [[got rest] e] eqn:E. apply take_line_parts in E as (-> & _ & _).
  destruct fails as [err|].
  - right. exists err. split; [|done].
    assert (f_errno stream = err ∧ f_feof stream = false) as [He Hfe].
    { destruct e; cbn in Hf; [by simplify_eq|]. destruct got; by simplify_eq. }
    rewrite Hfe, He in Hgone. cbn [orb] in Hgone. unfold process_gone_error in Hgone.
    apply orb_true_iff in Hgone as [?%bool_decide_eq_true|?%bool_decide_eq_true]; [by left|by right].
  - left. split; [|done]. destruct e; cbn in Hf; destruct got; simplify_eq; cbn in Hrest; by subst.
Qed.

Lemma read_process_memory_spec {G} K n (w : world ssys G) :
  0 ≤ n ≤ INT_MAX →
  wp K (read_process_memory n) (λ o w', ∃ new, trace w' = new ++ trace w ∧
    match o with
    | Ret (PROC_READ_SUCCESS m) => memory_was_read n m new
    | Ret PROC_READ_PROCESS_GONE => memory_was_read n (0, false) new
    | _ => True
    end) w.
Proof.
  intros Hn. unfold read_process_memory.
  destruct (build_proc_path_fits n "status") as (path & -> & Hpath);
    [done|by apply (bool_decide_unpack _)|simpl; lia|]. wp_steps.
  destruct (K _ _ (Fopen path)) as [[content fails]|e]; wp_steps.
  - set (w1 := World _ _). eapply wp_mono.
    { apply wp_conj; [apply (emits_wp (λ _, True)); unfold memory_step; apply _ || solve_emits|].
      apply wp_conj.
      - apply (wp_loop_inv K (λ _ _, True) (λ o _, o ≠ Ret PROC_READ_PROCESS_GONE)); [|done..].
        intros [stream size] w2 _. unfold memory_step. destruct (fgets _ _) as [[line|] stream'].
        + destruct (scan_kB "VmRSS:" _); [wp_steps; by destruct (K _ _ Fclose)|].
          by destruct (scan_kB "VmSize:" _).
        + wp_steps. destruct (K _ _ Fclose); [|by wp_steps].
          by destruct (f_ferror stream'), size.
      - assert (wp K (loop (S (length content)) memory_step (fopen_file content fails, None))
          (λ o _, ∀ m', status_shows content m' →
             ∀ m, o = Ret (PROC_READ_SUCCESS m) → m' = m) w1) as H; [|exact H].
        intros m' (lines & -> & Hlines & Hshown).
        rewrite <- (memory_of_lines_shown _ _ Hlines Hshown).
        exact (memory_loop_partial K lines None fails false false _ w1 Hlines). }
    intros o w2 ((new & Htr & _) & Hgone & Hshown). subst w1. cbn [trace] in Htr.
    exists (new ++ [Ev (Fopen path) (Ok (content, fails))]). rewrite <- (assoc_L app).
    split; [done|]. destruct o as [[|m|]|h]; try done. left. exists content, fails. split.
    + exists path. split; [done|]. apply elem_of_app. right. by left.
    + intros m' Hm'. by apply (Hshown m' Hm' m).
  - eexists [_]. split; [reflexivity|]. destruct (process_gone_error e) eqn:He; [|done].
    right. split; [|done]. exists path, e. split_and!; [|done|apply happened_here].
    unfold process_gone_error in He.
    apply orb_true_iff in He as [?%bool_decide_eq_true|?%bool_decide_eq_true]; [by left|by right].
Qed.

(** ** Properties *)

(** C23. The process description is read correctly whatever the command name
    is, closing parentheses and blanks in it included: if [/proc/PID/stat]
    holds the line the kernel writes for a process, [read_process_stat]
    delivers exactly that process. *)
Theorem read_process_stat_line {G} (K : kernel ssys) p comm between tail
    (w : world ssys G) :
  process_ok p → Forall plain_word between → length between = 8%nat →
  NUL ∉ comm → LF ∉ comm → NUL ∉ tail → LF ∉ tail → x29 ∉ tail →
  (length (stat_text p comm between tail) + 2 ≤ PROC_STAT_LINE_MAX)%nat →
  (∀ tr path, c_string path = proc_path (pid p) "stat" →
     K _ tr (Fopen path) = Ok (stat_text p comm between tail ++ [LF], None)) →
  (∀ tr, K _ tr Fclose = Ok tt) →
  (read_process_stat (pid p) K w).1 = Ret (PROC_READ_SUCCESS p).
Proof.
  intros Hp Hb Hlen HNc HLc HNt HLt Ht Hmax Hopen Hclose.
  cut (wp K (read_process_stat (pid p)) (λ o _, o = Ret (PROC_READ_SUCCESS p)) w); [done|].
  unfold read_process_stat.
  destruct (build_proc_path_fits (pid p) "stat") as (path & -> & Hpath);
    [by destruct Hp|by apply (bool_decide_unpack _)|simpl; lia|].
  wp_steps. rewrite (Hopen _ _ Hpath).
  assert (LF ∉ stat_text p comm between tail) as HL by by apply stat_text_line.
  erewrite (fgets_line _ _ (stat_text p comm between tail) []);
    [|done|done|by rewrite length_zeros].
  wp_steps. rewrite Hclose. change [LF; NUL] with ([LF] ++ [NUL]).
  rewrite (assoc_L app), store0_line by (rewrite length_app; simpl; lia).
  rewrite stat_text_app. cbn [app]. rewrite parse_stat_text; try done.
  - rewrite not_elem_of_app, list_elem_of_singleton. by split.
  - rewrite not_elem_of_app, list_elem_of_singleton. by split.
Qed.

(** A process named [a) b] with parent 100. *)
Definition sample_process : ProcessTreeProcess := Process 4242 100 4242 x53 1234 56.
Definition sample_between : list (list byte) :=
  txt <$> ["4242"; "0"; "-1"; "4194304"; "120"; "0"; "0"; "0"].

Definition proc_file (the_pid : Z) (file_name : string) (content : list byte)
    (path : list byte) : option (list byte) :=
  if bool_decide (c_string path = proc_path the_pid file_name) then Some content else None.

Definition sample_files (path : list byte) : option (list byte) :=
  match proc_file 4242 "stat"
          (stat_text sample_process (txt "a) b") sample_between (txt "0 0 20 0") ++ [LF]) path with
  | Some content => Some content
  | None => proc_file 4242 "status"
      (text_of (txt <$> ["Name: x"; "VmSize:	   5000 kB"; "VmRSS:	    812 kB"; "VmData: 1 kB"]) []) path
  end.

Definition sample_proc : kernel ssys :=
  scenario_kernel (Scenario (λ _, []) (λ _, WaitNone) (λ _, (0, 0)) (λ _, [])
    (λ _, None) (λ _, sample_files) 200).

Lemma read_process_stat_line_witness :
  (read_process_stat 4242 sample_proc (World tt [])).1 =
  Ret (PROC_READ_SUCCESS (Process 4242 100 4242 x53 1234 56)).
Proof.
  apply (read_process_stat_line sample_proc sample_process (txt "a) b") sample_between
    (txt "0 0 20 0") (World tt [])); try (apply (bool_decide_unpack _); vm_compute; exact I).
  - intros tr path Hpath. cbn. unfold sample_files, proc_file.
    by rewrite bool_decide_true by exact Hpath.
  - done.
Defined.

(** Reading the memory of a process always ends, and the figure is the one
    the kernel's [status] file gives: the resident size where there is one,
    else the last virtual size, flagged as a fallback, else 0. *)
Theorem read_process_memory_figure {G} (K : kernel ssys) the_pid lines (w : world ssys G) :
  0 ≤ the_pid ≤ INT_MAX → Forall status_line lines →
  (∀ tr path, c_string path = proc_path the_pid "status" →
     K _ tr (Fopen path) = Ok (text_of lines [], None)) →
  (∀ tr, K _ tr Fclose = Ok tt) →
  (read_process_memory the_pid K w).1 =
  Ret (PROC_READ_SUCCESS (memory_of_lines None ((λ l, l ++ [LF]) <$> lines))).
Proof.
  intros Hpid Hlines Hopen Hclose.
  cut (wp K (read_process_memory the_pid) (λ o _, o = Ret (PROC_READ_SUCCESS
    (memory_of_lines None ((λ l, l ++ [LF]) <$> lines)))) w); [done|].
  unfold read_process_memory.
  destruct (build_proc_path_fits the_pid "status") as (path & -> & Hpath);
    [done|by apply (bool_decide_unpack _)|simpl; lia|].
  wp_steps. rewrite (Hopen _ _ Hpath). apply memory_loop_lines; try done.
  pose proof (length_text_of lines). lia.
Qed.

Lemma read_process_memory_figure_witness :
  (read_process_memory 4242 sample_proc (World tt [])).1 =
  Ret (PROC_READ_SUCCESS (812, false)).
Proof.
  etrans; [apply (read_process_memory_figure sample_proc 4242
    (txt <$> ["Name: x"; "VmSize:	   5000 kB"; "VmRSS:	    812 kB"; "VmData: 1 kB"])
    (World tt []))|vm_compute; reflexivity].
  - unfold INT_MAX. lia.
  - repeat (apply Forall_cons; split; [split_and!; apply (bool_decide_unpack _); by vm_compute|]).
    constructor.
  - intros tr path Hpath. cbn. unfold sample_files, proc_file.
    rewrite bool_decide_false; [by rewrite bool_decide_true by exact Hpath|].
    rewrite Hpath. by vm_compute.
  - done.
Defined.
