(* ===== verification/ProcessTree.v ===== *)
(** * process_tree.c: the processes of the workload

    Reading all of [/proc], selecting the leader, the controller's children
    and all their descendants, and adding up what they use. *)

From S2P Require Import Prelude.
From S2P Require Import CLib.
From S2P Require Import SandboxSys.
From S2P Require Import ProcStat.
Local Open Scope Z_scope.

Definition SIZE_MAX : Z := 2 ^ 64 - 1.
Definition ULLONG_MAX : Z := 2 ^ 64 - 1.
Definition sizeof_ProcessTreeProcess : Z := 32.

Record ProcessTreeSample := Sample {
  processes : list ProcessTreeProcess;
  memory_kilobytes : Z;
  user_ticks : Z;
  system_ticks : Z;
  used_virtual_memory_fallback : bool
}.
Definition process_count (s : ProcessTreeSample) : nat := length (processes s).

(** ** Collecting *)

(** The array, whose entries in use are the list, with its capacity. *)
Definition append_process {G} (array : list ProcessTreeProcess) (capacity : Z)
    (process : ProcessTreeProcess)
    : prog ssys G (option (list ProcessTreeProcess * Z)) :=
  if bool_decide (Z.of_nat (length array) < capacity)
  then ret (Some (array ++ [process], capacity))
  else
    let new_capacity :=
      if bool_decide (capacity = 0) then 128 else (capacity * 2) `mod` 2 ^ 64 in
    if bool_decide (new_capacity < capacity ∨
                    SIZE_MAX `div` sizeof_ProcessTreeProcess < new_capacity)
    then ret None
    else
    let* resized := call (Realloc (new_capacity * sizeof_ProcessTreeProcess)) in
    if negb resized then ret None
    else ret (Some (array ++ [process], new_capacity)).

(** One directory entry; [None] is the result [-1], the memory being freed. *)
Definition collect_step {G} (s : list ProcessTreeProcess * Z)
    : prog ssys G (list ProcessTreeProcess * Z + option (list ProcessTreeProcess)) :=
  let '(array, capacity) := s in
  let* r := call Readdir in
  match r with
  | Err _ => let* _ := call Closedir in ret (inr None)
  | Ok None => ret (inr (Some array))
  | Ok (Some name) =>
      match directory_name_to_pid name with
      | None => ret (inl (array, capacity))
      | Some the_pid =>
          let* read_result := read_process_stat the_pid in
          match read_result with
          | PROC_READ_PROCESS_GONE => ret (inl (array, capacity))
          | PROC_READ_ERROR => let* _ := call Closedir in ret (inr None)
          | PROC_READ_SUCCESS process =>
              let* r := append_process array capacity process in
              match r with
              | None => let* _ := call Closedir in ret (inr None)
              | Some s' => ret (inl s')
              end
          end
      end
  end.

Definition collect_all_processes {G} (fuel : nat)
    : prog ssys G (option (list ProcessTreeProcess)) :=
  let* r := call (Opendir "/proc") in
  match r with
  | Err _ => ret None
  | Ok _ =>
      let* r := loop fuel collect_step ([], 0) in
      match r with
      | None => ret None
      | Some all =>
          let* c := call Closedir in
          match c with Err _ => ret None | Ok _ => ret (Some all) end
      end
  end.

(** ** Selecting *)

Definition process_is_selected_parent (all : list ProcessTreeProcess)
    (selected : list bool) (parent : Z) : bool :=
  existsb (λ x : ProcessTreeProcess * bool, x.2 && bool_decide (pid x.1 = parent))
          (zip all selected).

Definition initially_selected (supervisor_pid leader_pid : Z) (leader_alive : bool)
    (p : ProcessTreeProcess) : bool :=
  leader_alive && bool_decide (pid p = leader_pid) ||
  bool_decide (parent_pid p = supervisor_pid).

(** The body of the [for] loop of one pass, at an index. *)
Definition select_at (all : list ProcessTreeProcess) (s : list bool * bool) (index : nat)
    : list bool * bool :=
  let '(selected, changed) := s in
  match all !! index with
  | Some p =>
      if negb (default false (selected !! index)) &&
         process_is_selected_parent all selected (parent_pid p)
      then (<[index := true]> selected, true)
      else (selected, changed)
  | None => (selected, changed)
  end.

Definition select_pass (all : list ProcessTreeProcess) (selected : list bool)
    : list bool * bool :=
  foldl (select_at all) (selected, false) (seq 0 (length all)).

(** [do ... while (changed)] *)
Fixpoint select_loop (fuel : nat) (all : list ProcessTreeProcess) (selected : list bool)
    : option (list bool) :=
  match fuel with
  | O => None
  | S n => let '(selected', changed) := select_pass all selected in
           if changed : bool then select_loop n all selected' else Some selected'
  end.

(** Every pass but the last selects a process, so one more pass than there
    are processes is enough. *)
Definition select_processes (supervisor_pid leader_pid : Z) (leader_alive : bool)
    (all : list ProcessTreeProcess) : option (list bool) :=
  select_loop (S (length all)) all
    (initially_selected supervisor_pid leader_pid leader_alive <$> all).

(** ** Sampling *)

(** [if (max - a < b) a = max; else a += b;] *)
Definition saturating_add (max a b : Z) : Z := if max - a <? b then max else a + b.

(** The loop over the selected processes; [None] is the result [-1]. *)
Fixpoint sample_processes {G} (l : list (ProcessTreeProcess * bool))
    (s : ProcessTreeSample) : prog ssys G (option ProcessTreeSample) :=
  match l with
  | [] => ret (Some s)
  | (p, selected) :: l' =>
      if negb selected then sample_processes l' s else
      let s1 := Sample (processes s ++ [p]) (memory_kilobytes s)
        (saturating_add ULLONG_MAX (user_ticks s) (p_user_ticks p))
        (saturating_add ULLONG_MAX (system_ticks s) (p_system_ticks p))
        (used_virtual_memory_fallback s) in
      let* memory_result := read_process_memory (pid p) in
      match memory_result with
      | PROC_READ_ERROR => ret None
      | PROC_READ_PROCESS_GONE => sample_processes l' s1
      | PROC_READ_SUCCESS (process_memory, used_virtual_fallback) =>
          sample_processes l' (Sample (processes s1)
            (saturating_add ULONG_MAX (memory_kilobytes s1) process_memory)
            (user_ticks s1) (system_ticks s1)
            (used_virtual_memory_fallback s1 || used_virtual_fallback))
      end
  end.

Definition empty_sample : ProcessTreeSample := Sample [] 0 0 0 false.

Definition process_tree_sample {G} (fuel : nat) (supervisor_pid leader_pid : Z)
    (leader_alive : bool) : prog ssys G (option ProcessTreeSample) :=
  if bool_decide (supervisor_pid ≤ 0) then ret None else
  let* r := collect_all_processes fuel in
  match r with
  | None => ret None
  | Some all =>
      let* allocated := call (Calloc (if bool_decide (length all = 0%nat) then 1
                                      else Z.of_nat (length all)) 1) in
      if negb allocated then ret None else
      match select_processes supervisor_pid leader_pid leader_alive all with
      | None => halting OutOfFuel
      | Some selected =>
          let selected_count := length (filter (λ b, b = true) selected) in
          let* allocated := (if bool_decide (0 < selected_count)%nat
                             then call (Calloc (Z.of_nat selected_count)
                                               sizeof_ProcessTreeProcess)
                             else ret true) in
          if negb allocated then ret None
          else sample_processes (zip all selected) empty_sample
      end
  end.

(** ** What a sample means *)

(** The workload among the processes of the system: the leader while it is
    alive, the controller's children, and every process whose parent is in
    the workload. *)
Inductive in_workload (all : list ProcessTreeProcess) (supervisor_pid leader_pid : Z)
    (leader_alive : bool) : ProcessTreeProcess → Prop :=
  | Leader p : p ∈ all → leader_alive = true → pid p = leader_pid →
      in_workload all supervisor_pid leader_pid leader_alive p
  | Child p : p ∈ all → parent_pid p = supervisor_pid →
      in_workload all supervisor_pid leader_pid leader_alive p
  | Descendant p q : in_workload all supervisor_pid leader_pid leader_alive q →
      p ∈ all → parent_pid p = pid q →
      in_workload all supervisor_pid leader_pid leader_alive p.

Definition sum (f : ProcessTreeProcess → Z) (l : list ProcessTreeProcess) : Z :=
  foldr (λ p n, f p + n) 0 l.

(** The number of processes not selected yet. *)
Definition unselected (selected : list bool) : nat :=
  length (filter (λ b, b = false) selected).

(** The names a program saw in a directory, in their order. *)
Definition listed (e : event ssys) : option (list byte) :=
  match e with
  | Ev Readdir r => match r with Ok name => name | Err _ => None end
  | _ => None
  end.
Definition names_listed (tr : strace) : list (list byte) := reverse (omap listed tr).

(** What the program read about a process at some moment of its run. *)
Definition read_as {G} (K : kernel ssys) (the_pid : Z) (r : proc_read ProcessTreeProcess)
    : Prop := ∃ w : world ssys G, (read_process_stat the_pid K w).1 = Ret r.

(** [all] is the table of the processes listed by the calls [tr]: each is what
    its [stat] file shows, in the order of the list, and every process that
    was listed is there, unless it was found gone. *)
Definition table_read (tr : strace) (all : list ProcessTreeProcess) : Prop :=
  sublist (pid <$> all) (omap named_pid (names_listed tr)) ∧
  Forall (λ p, stat_was_read p tr) all ∧
  ∀ name n, name ∈ names_listed tr → named_pid name = Some n →
    (∃ p, p ∈ all ∧ pid p = n) ∨ found_gone n tr.

(** The calls [tr] read the whole of [/proc], from its opening to its end, and
    [all] is the table they read. *)
Definition proc_read_whole (tr : strace) (all : list ProcessTreeProcess) : Prop :=
  happened (Opendir "/proc") (Ok tt) tr ∧ happened Readdir (Ok None) tr ∧ table_read tr all.

(** What a sample says of the processes [all]: the workload in the order of
    the directory, and its totals, which stop at the maximum of their type;
    the memory is what the calls [tr] read for each process. *)
Definition sample_of (tr : strace) (all : list ProcessTreeProcess)
    (supervisor_pid leader_pid : Z) (leader_alive : bool) (s : ProcessTreeSample) : Prop :=
  sublist (processes s) all ∧
  (∀ p, p ∈ processes s ↔ in_workload all supervisor_pid leader_pid leader_alive p) ∧
  user_ticks s = Z.min ULLONG_MAX (sum p_user_ticks (processes s)) ∧
  system_ticks s = Z.min ULLONG_MAX (sum p_system_ticks (processes s)) ∧
  ∃ mems, Forall2 (λ p m, memory_was_read (pid p) m tr) (processes s) mems ∧
    memory_kilobytes s = Z.min ULONG_MAX (foldr (λ m n, m.1 + n) 0 mems) ∧
    used_virtual_memory_fallback s = existsb snd mems.

(** ** Lemmas: selection *)

Section selection.
Context (all : list ProcessTreeProcess) (sup leader : Z) (alive : bool).

Definition sound (selected : list bool) : Prop :=
  length selected = length all ∧
  ∀ i p, all !! i = Some p → selected !! i = Some true → in_workload all sup leader alive p.

Definition more (selected selected' : list bool) : Prop :=
  ∀ i, selected !! i = Some true → selected' !! i = Some true.

(** Index [i] has nothing left to do. *)
Definition closed_at (selected : list bool) (i : nat) : Prop :=
  ∀ p, all !! i = Some p → process_is_selected_parent all selected (parent_pid p) = true →
  selected !! i = Some true.

Lemma in_workload_elem p : in_workload all sup leader alive p → p ∈ all.
Proof. by destruct 1. Qed.

Lemma selected_parent_true selected parent :
  process_is_selected_parent all selected parent = true ↔
  ∃ j q, all !! j = Some q ∧ selected !! j = Some true ∧ pid q = parent.
Proof.
  unfold process_is_selected_parent. rewrite existsb_exists. split.
  - intros ([q b] & Hin & Hb). apply list_elem_of_In, list_elem_of_lookup in Hin as [j Hj].
    apply lookup_zip_with_Some in Hj as (q' & b' & [= -> ->] & Hq & Hsel).
    cbn [fst snd] in Hb. apply andb_true_iff in Hb as [-> Hp%bool_decide_eq_true]. by exists j, q'.
  - intros (j & q & Hq & Hsel & Hp). exists (q, true). split.
    + apply list_elem_of_In, list_elem_of_lookup. exists j.
      apply lookup_zip_with_Some. by exists q, true.
    + simpl. by apply bool_decide_eq_true.
Qed.

Lemma unselected_insert selected i :
  selected !! i = Some false →
  unselected selected = S (unselected (<[i := true]> selected)).
Proof.
  unfold unselected. revert i. induction selected as [|b selected IH]; intros [|i] Hi; simpl in *;
    [done|done| |].
  - injection Hi as ->. by rewrite filter_cons_True, filter_cons_False by done.
  - rewrite !filter_cons. destruct (decide (b = false)); simpl; by rewrite (IH i).
Qed.

Lemma select_at_cases selected changed i :
  sound selected →
  (select_at all (selected, changed) i = (selected, changed) ∧ closed_at selected i) ∨
  (select_at all (selected, changed) i = (<[i := true]> selected, true) ∧
   selected !! i = Some false ∧ sound (<[i := true]> selected)).
Proof.
  intros [Hlen Hsound]. unfold select_at.
  destruct (all !! i) as [p|] eqn:Hp; [|left; split; [done|]; intros q Hq; congruence].
  destruct (selected !! i) as [[]|] eqn:Hi; simpl.
  - left. split; [done|]. by intros q Hq _.
  - destruct (process_is_selected_parent _ _ _) eqn:Hpar.
    + right. split_and!; [done|done|]. split; [by rewrite length_insert|].
      intros j q Hq Hj. destruct (decide (i = j)) as [<-|Hne].
      * assert (q = p) as -> by congruence.
        apply selected_parent_true in Hpar as (k & r & Hr & Hsel & Hpid).
        apply (Descendant _ _ _ _ p r); [by eapply Hsound| |done].
        by apply list_elem_of_lookup_2 in Hp.
      * rewrite list_lookup_insert_ne in Hj by done. by eapply Hsound.
    + left. split; [done|]. intros q Hq Hq'. congruence.
  - apply lookup_ge_None in Hi. apply lookup_lt_Some in Hp. lia.
Qed.

Lemma select_fold_cases idx selected changed :
  sound selected →
  let '(selected', changed') := foldl (select_at all) (selected, changed) idx in
  sound selected' ∧ more selected selected' ∧
  ((changed' = changed ∧ selected' = selected ∧ ∀ i, i ∈ idx → closed_at selected i) ∨
   (changed' = true ∧ unselected selected' < unselected selected)%nat).
Proof.
  revert selected changed. induction idx as [|i idx IH]; intros selected changed Hs; cbn [foldl].
  { split_and!; [done|by intros ?|]. left. split_and!; try done. by intros ? ?%elem_of_nil. }
  destruct (select_at_cases selected changed i Hs) as [[-> Hc]|(-> & Hi & Hs')].
  - specialize (IH selected changed Hs). destruct (foldl _ _ idx) as [selected' changed'].
    destruct IH as (? & ? & [(? & ? & ?)|?]); split_and!; try done; [|by right].
    left. split_and!; try done. intros j [->|?]%elem_of_cons; auto.
  - specialize (IH (<[i := true]> selected) true Hs').
    destruct (foldl _ _ idx) as [selected' changed']. destruct IH as (? & Hmore & Hcases).
    pose proof (unselected_insert selected i Hi).
    split_and!; [done| |].
    + intros j Hj. apply Hmore. destruct (decide (i = j)) as [->|].
      * rewrite list_lookup_insert_eq; [done|]. by eapply lookup_lt_Some.
      * by rewrite list_lookup_insert_ne.
    + right. destruct Hcases as [(-> & -> & _)|[-> ?]]; split; try done; lia.
Qed.

(** The fixpoint ends, above what it started from and closed. *)
Lemma select_loop_spec fuel selected :
  sound selected → (unselected selected < fuel)%nat →
  ∃ selected', select_loop fuel all selected = Some selected' ∧ sound selected' ∧
    more selected selected' ∧ ∀ i, closed_at selected' i.
Proof.
  revert selected. induction fuel as [|fuel IH]; intros selected Hs Hfuel; [lia|].
  cbn [select_loop]. unfold select_pass.
  pose proof (select_fold_cases (seq 0 (length all)) selected false Hs) as H.
  destruct (foldl _ _ _) as [selected1 changed]. destruct H as (Hs1 & Hmore & Hcases).
  destruct changed.
  - destruct Hcases as [(? & _)|[_ Hlt]]; [done|].
    destruct (IH selected1 Hs1 ltac:(lia)) as (selected' & Heq & ? & Hmore' & ?).
    exists selected'. split_and!; try done. intros i Hi. by apply Hmore', Hmore.
  - destruct Hcases as [(_ & -> & Hclosed)|[? _]]; [|done].
    exists selected. split_and!; try done. intros i p Hp. apply Hclosed; [|done].
    apply elem_of_seq. apply lookup_lt_Some in Hp. lia.
Qed.

Lemma select_spec :
  ∃ selected, select_processes sup leader alive all = Some selected ∧
    length selected = length all ∧
    ∀ i p, all !! i = Some p →
      (selected !! i = Some true ↔ in_workload all sup leader alive p).
Proof.
  assert (sound (initially_selected sup leader alive <$> all)) as Hs.
  { split; [by rewrite length_fmap|]. intros i p Hp. rewrite list_lookup_fmap, Hp. simpl.
    intros [= H]. apply list_elem_of_lookup_2 in Hp.
    apply orb_true_iff in H as [[Ha ?%bool_decide_eq_true]%andb_true_iff|?%bool_decide_eq_true].
    - by apply Leader.
    - by apply Child. }
  destruct (select_loop_spec (S (length all)) _ Hs) as (selected & Hsel & [Hlen Hsound] & Hmore & Hclosed).
  { unfold unselected. eapply Nat.le_lt_trans; [apply length_filter|]. rewrite length_fmap. lia. }
  exists selected. split_and!; [done..|]. intros i p Hp. split; [by apply Hsound|].
  intros Hin. revert i Hp. induction Hin as [p Hall Ha Hl|p Hall Hpar|p q Hq IH Hall Hpar];
    intros i Hp.
  - apply Hmore. rewrite list_lookup_fmap, Hp. simpl. unfold initially_selected.
    by rewrite (bool_decide_true (pid p = leader)), Ha.
  - apply Hmore. rewrite list_lookup_fmap, Hp. simpl. unfold initially_selected.
    by rewrite (bool_decide_true (parent_pid p = sup)), orb_true_r.
  - assert (∃ j, all !! j = Some q) as [j Hj]; [|apply (Hclosed i p Hp)].
    { apply list_elem_of_lookup. by eapply in_workload_elem. }
    apply selected_parent_true. exists j, q. split_and!; [done|by apply IH|done].
Qed.

End selection.

(** ** Lemmas: totals *)

Lemma saturating_add_min max a b :
  0 ≤ a → 0 ≤ b → saturating_add max (Z.min max a) b = Z.min max (a + b).
Proof. intros. unfold saturating_add. destruct (Z.ltb_spec (max - Z.min max a) b); lia. Qed.

Definition ticks_ok (p : ProcessTreeProcess) : Prop :=
  0 ≤ p_user_ticks p ∧ 0 ≤ p_system_ticks p.

Lemma sum_app f l1 l2 : sum f (l1 ++ l2) = sum f l1 + sum f l2.
Proof. induction l1 as [|p l1 IH]; simpl; [done|]. rewrite IH. lia. Qed.

Lemma sum_nonneg f l : Forall (λ p, 0 ≤ f p) l → 0 ≤ sum f l.
Proof. induction 1; simpl; lia. Qed.

(** What has been added up over a list of processes. *)
Definition totals (tr : strace) (done : list ProcessTreeProcess)
    (s : ProcessTreeSample) : Prop :=
  processes s = done ∧
  user_ticks s = Z.min ULLONG_MAX (sum p_user_ticks done) ∧
  system_ticks s = Z.min ULLONG_MAX (sum p_system_ticks done) ∧
  ∃ mems, Forall2 (λ p m, memory_was_read (pid p) m tr) done mems ∧
    Forall (λ m, 0 ≤ m.1) mems ∧
    memory_kilobytes s = Z.min ULONG_MAX (foldr (λ m n, m.1 + n) 0 mems) ∧
    used_virtual_memory_fallback s = existsb snd mems.

Lemma memory_was_read_extends n m tr tr' :
  extends tr tr' → memory_was_read n m tr → memory_was_read n m tr'.
Proof.
  intros He [(content & fails & Hf & Hm)|[Hg Hm]].
  - left. exists content, fails. split; [by eapply file_read_extends|done].
  - right. split; [by eapply file_gone_extends|done].
Qed.

Lemma totals_extends tr tr' done s : extends tr tr' → totals tr done s → totals tr' done s.
Proof.
  intros He (? & ? & ? & mems & Hm & ? & ? & ?). unfold totals. split_and!; [done..|].
  exists mems. split_and!; [|done..]. eapply Forall2_impl; [exact Hm|].
  intros p m. by apply memory_was_read_extends.
Qed.

Lemma memory_sum_app (l1 l2 : list (Z * bool)) :
  foldr (λ m n, m.1 + n) 0 (l1 ++ l2) =
  foldr (λ m n, m.1 + n) 0 l1 + foldr (λ m n, m.1 + n) 0 l2.
Proof. induction l1 as [|m l1 IH]; simpl; [done|]. rewrite IH. lia. Qed.

Lemma memory_sum_nonneg (l : list (Z * bool)) :
  Forall (λ m, 0 ≤ m.1) l → 0 ≤ foldr (λ m n, m.1 + n) 0 l.
Proof. induction 1; simpl; lia. Qed.

Lemma totals_empty : totals [] [] empty_sample.
Proof. split_and!; try done. by exists []. Qed.

(** One more process, whose memory is [m]. *)
Lemma totals_add tr before s p m :
  totals tr before s → Forall ticks_ok (before ++ [p]) →
  memory_was_read (pid p) m tr → 0 ≤ m.1 →
  totals tr (before ++ [p])
    (Sample (processes s ++ [p]) (saturating_add ULONG_MAX (memory_kilobytes s) m.1)
       (saturating_add ULLONG_MAX (user_ticks s) (p_user_ticks p))
       (saturating_add ULLONG_MAX (system_ticks s) (p_system_ticks p))
       (used_virtual_memory_fallback s || m.2)).
Proof.
  intros (Hp & Hu & Hs & mems & Hmems & Hpos & Hm & Hf) Ht Hread Hm0.
  apply Forall_app in Ht as [Ht Htp]. apply Forall_singleton in Htp as [Hu0 Hs0].
  assert (0 ≤ sum p_user_ticks before).
  { apply sum_nonneg. eapply Forall_impl; [exact Ht|]. by intros ? []. }
  assert (0 ≤ sum p_system_ticks before).
  { apply sum_nonneg. eapply Forall_impl; [exact Ht|]. by intros ? []. }
  pose proof (memory_sum_nonneg mems Hpos). unfold totals. cbn [processes user_ticks
    system_ticks memory_kilobytes used_virtual_memory_fallback].
  rewrite Hp, Hu, Hs, Hm, Hf, !saturating_add_min, !sum_app by done. cbn [sum foldr].
  rewrite !Z.add_0_r. split_and!; try done.
  exists (mems ++ [m]). split_and!.
  - apply Forall2_app; [done|]. by constructor.
  - by apply Forall_app; split; [|apply Forall_singleton].
  - rewrite memory_sum_app. cbn [foldr]. by rewrite Z.add_0_r.
  - rewrite existsb_app. cbn [existsb]. by rewrite orb_false_r.
Qed.

(** The figures a [status] file can give. *)
Lemma scan_kB_nonneg label l n : scan_kB label l = Some n → 0 ≤ n.
Proof.
  unfold scan_kB, scan_value_unit. destruct (negb _); [done|].
  case_bool_decide; [done|]. destruct (span is_space _) as [a b].
  destruct (take 7 _); [done|]. destruct (str_eqb _ _); [|done]. intros [= <-].
  apply strtoul_range.
Qed.

Lemma memory_loop_nonneg {G} K fuel stream size (w : world ssys G) :
  (∀ n, size = Some n → 0 ≤ n) →
  wp K (loop fuel memory_step (stream, size))
    (post (λ r _, ∀ m, r = PROC_READ_SUCCESS m → 0 ≤ m.1) (λ _ _, True)) w.
Proof.
  revert stream size w. induction fuel as [|fuel IH]; intros stream size w Hsize; [done|].
  cbn [loop]. rewrite wp_bind. unfold memory_step at 1.
  destruct (fgets _ _) as [[line|] stream'].
  - destruct (scan_kB "VmRSS:" line) as [n|] eqn:En.
    + wp_steps. apply scan_kB_nonneg in En.
      destruct (K _ _ Fclose); wp_steps; [by intros m [= <-]|done].
    + destruct (scan_kB "VmSize:" line) as [n|] eqn:En'; wp_steps; apply IH; [|done].
      intros k [= <-]. by eapply scan_kB_nonneg.
  - wp_steps. destruct (K _ _ Fclose); [|by wp_steps].
    destruct (f_ferror stream'); [by wp_steps|].
    destruct size as [n|]; wp_steps; intros m [= <-]; simpl; [by apply Hsize|lia].
Qed.

Lemma read_memory_nonneg {G} K the_pid (w : world ssys G) m :
  (read_process_memory the_pid K w).1 = Ret (PROC_READ_SUCCESS m) → 0 ≤ m.1.
Proof.
  assert (wp K (read_process_memory the_pid)
    (post (λ r _, ∀ m, r = PROC_READ_SUCCESS m → 0 ≤ m.1) (λ _ _, True)) w) as H.
  { unfold read_process_memory. destruct (build_proc_path _ _); [|by wp_steps].
    wp_steps. destruct (K _ _ (Fopen _)) as [[content fails]|e].
    - by apply memory_loop_nonneg.
    - by destruct (process_gone_error e). }
  unfold wp in H. intros E. rewrite E in H. by apply H.
Qed.

Lemma parse_unsigned_token_nonneg token n : parse_unsigned_token token = Some n → 0 ≤ n.
Proof.
  unfold parse_unsigned_token. pose proof (strtoul_range token).
  destruct (_ && _); [|done]. intros [= <-]. lia.
Qed.

Lemma stat_field_ticks k token p f p' f' :
  ticks_ok p → stat_field k token p f = Some (p', f') → ticks_ok p' ∧ pid p' = pid p.
Proof.
  intros [Hu Hs] H. unfold stat_field in H. unfold ticks_ok.
  repeat case_match; simplify_eq; try done;
    match goal with
    | E : _ <$> ?x = Some _ |- _ => destruct x as [v|] eqn:Ev; [|done]; injection E as <- <-
    end; try done; apply parse_unsigned_token_nonneg in Ev; by split_and!.
Qed.

Lemma stat_fields_ticks n s p f p' f' :
  ticks_ok p → stat_fields n s p f = Some (p', f') → ticks_ok p' ∧ pid p' = pid p.
Proof.
  revert s p f. induction n as [|n IH]; intros s p f Hp; cbn [stat_fields];
    [by intros [= <- _]|].
  destruct (strtok _ _) as [[token s']|]; [|by intros [= <- _]].
  destruct (stat_field _ _ _ _) as [[p1 f1]|] eqn:E; [|done].
  apply stat_field_ticks in E as [Hp1 <-]; [|done]. by apply IH.
Qed.

Lemma parse_stat_line_ticks the_pid line p :
  parse_stat_line the_pid line = PROC_READ_SUCCESS p → ticks_ok p ∧ pid p = the_pid.
Proof.
  unfold parse_stat_line. destruct (strrchr _ _); [|done]. case_bool_decide; [done|].
  destruct (stat_fields _ _ _ _) as [[p' f]|] eqn:E; [|done].
  apply stat_fields_ticks in E as [Hok Hpid]; [|by split].
  destruct (_ && _); [|done]. by intros [= <-].
Qed.

(** Reading a process, seen from the loop over the directory. *)
Lemma wp_read_process_stat {G} K the_pid (Q : outcome (proc_read ProcessTreeProcess) →
    world ssys G → Prop) w :
  0 ≤ the_pid ≤ INT_MAX →
  (∀ r new, omap listed new = [] → read_as (G:=G) K the_pid r →
    match r with
    | PROC_READ_SUCCESS p => ticks_ok p ∧ pid p = the_pid ∧ stat_was_read p new
    | PROC_READ_PROCESS_GONE => found_gone the_pid new
    | PROC_READ_ERROR => True
    end →
    Q (Ret r) (World (globals w) (new ++ trace w))) →
  wp K (read_process_stat the_pid) Q w.
Proof.
  intros Hpid HQ.
  assert (wp K (read_process_stat the_pid) (λ o w', ∃ r new, o = Ret r ∧
    w' = World (globals w) (new ++ trace w) ∧ omap listed new = [] ∧
    match r with
    | PROC_READ_SUCCESS p => ticks_ok p ∧ pid p = the_pid ∧ stat_was_read p new
    | PROC_READ_PROCESS_GONE => found_gone the_pid new
    | PROC_READ_ERROR => True
    end) w) as H.
  { destruct w as [g t]. unfold read_process_stat.
    destruct (build_proc_path_fits the_pid "stat") as (path & -> & Hpath);
      [done|by apply (bool_decide_unpack _)|simpl; lia|].
    wp_steps. destruct (K _ _ (Fopen path)) as [[content fails]|e] eqn:Eo.
    - assert (∀ new : strace, file_read (proc_path the_pid "stat") content fails
        (new ++ [Ev (Fopen path) (Ok (content, fails))])) as Hfile.
      { intros new. exists path. split; [done|]. apply elem_of_app. right. by left. }
      destruct (fgets _ _) as [[line|] f] eqn:Ef; wp_steps.
      + destruct (K _ _ Fclose) as [u|e] eqn:Ec; wp_steps; eexists _, [_; _]; split_and!; try done.
        destruct (parse_stat_line the_pid line) as [|p|] eqn:Ep; [done| |].
        * pose proof (parse_stat_line_ticks _ _ _ Ep) as [Ht Hp]. split_and!; [done..|].
          exists content, fails. rewrite Hp. split; [apply (Hfile [_])|].
          intros q Hq Hshow. pose proof (parse_stat_shown content fails line f q Hshow Ef) as Eq.
          congruence.
        * unfold parse_stat_line in Ep. by repeat case_match.
      + eexists _, [_; _]. split_and!; try done.
        destruct (_ || _) eqn:Egone; [|done].
        destruct (fgets_none_gone _ _ _ Ef Egone) as [[-> ->]|(e & He & ->)].
        * right; left. apply (Hfile [_]).
        * right; right. exists content, e. split; [done|]. apply (Hfile [_]).
    - wp_steps. eexists _, [_]. split_and!; try done.
      destruct (process_gone_error e) eqn:He; [|done]. left. exists path, e.
      split_and!; [|done|apply happened_here]. unfold process_gone_error in He.
      apply orb_true_iff in He as [?%bool_decide_eq_true|?%bool_decide_eq_true]; [by left|by right]. }
  unfold wp in H |- *. destruct H as (r & new & Ho & Hw & Hnew & Hp).
  rewrite Hw, Ho. apply HQ; try done. by exists w.
Qed.

(** ** Lemmas: collecting *)

Lemma stat_was_read_extends p tr tr' : extends tr tr' → stat_was_read p tr → stat_was_read p tr'.
Proof.
  intros He (content & fails & Hf & Hq). exists content, fails.
  split; [by eapply file_read_extends|done].
Qed.

Lemma found_gone_extends n tr tr' : extends tr tr' → found_gone n tr → found_gone n tr'.
Proof.
  intros He [Hg|[Hf|(content & e & Hge & Hf)]].
  - left. by eapply file_gone_extends.
  - right; left. by eapply file_read_extends.
  - right; right. exists content, e. split; [done|]. by eapply file_read_extends.
Qed.

Lemma names_listed_app new tr :
  names_listed (new ++ tr) = names_listed tr ++ names_listed new.
Proof. unfold names_listed. by rewrite omap_app, reverse_app. Qed.

(** More calls, that list nothing. *)
Lemma table_read_quiet es tr array :
  omap listed es = [] → table_read tr array → table_read (es ++ tr) array.
Proof.
  intros Hes (Hs & Hr & Hc). assert (extends tr (es ++ tr)) as He by by exists es.
  assert (names_listed (es ++ tr) = names_listed tr) as Hn.
  { rewrite names_listed_app. unfold names_listed at 2. by rewrite Hes, app_nil_r. }
  unfold table_read. rewrite Hn. split_and!; [done| |].
  - eapply Forall_impl; [exact Hr|]. intros p. exact (stat_was_read_extends p _ _ He).
  - intros name n Hin Hname. destruct (Hc name n Hin Hname) as [?|?]; [by left|right].
    by eapply found_gone_extends.
Qed.

(** One more entry, with the calls [es] that dealt with it. *)
Lemma table_read_entry es name tr array add :
  omap listed es = [] → table_read tr array →
  match add with
  | Some p => named_pid name = Some (pid p) ∧ stat_was_read p es
  | None => ∀ n, named_pid name = Some n → found_gone n es
  end →
  table_read (es ++ Ev Readdir (Ok (Some name)) :: tr) (array ++ option_list add).
Proof.
  intros Hes (Hs & Hr & Hc) Hadd. set (tr' := es ++ _ :: tr).
  assert (extends tr tr') as He by (exists (es ++ [Ev Readdir (Ok (Some name))]); by rewrite <- (assoc_L app)).
  assert (names_listed tr' = names_listed tr ++ [name]) as Hn.
  { subst tr'. rewrite names_listed_app. unfold names_listed at 2. rewrite Hes, app_nil_r.
    unfold names_listed. cbn [omap list_omap listed]. by rewrite reverse_cons. }
  assert (∀ p, stat_was_read p es → stat_was_read p tr') as Hstat.
  { intros p (content & fails & (b & Hb & Hin) & Hq). exists content, fails. split; [|done].
    exists b. split; [done|]. apply elem_of_app. by left. }
  assert (∀ n, found_gone n es → found_gone n tr') as Hgone.
  { intros n [(b & e & ? & ? & Hin)|[(b & ? & Hin)|(content & e & ? & (b & ? & Hin))]].
    - left. exists b, e. split_and!; [done..|]. apply elem_of_app. by left.
    - right; left. exists b. split; [done|]. apply elem_of_app. by left.
    - right; right. exists content, e. split; [done|]. exists b. split; [done|].
      apply elem_of_app. by left. }
  unfold table_read. rewrite Hn, fmap_app, omap_app. split_and!.
  - apply sublist_app; [done|]. destruct add as [p|]; [|apply sublist_nil_l].
    destruct Hadd as [Hname _]. cbn. by rewrite Hname.
  - apply Forall_app. split.
    + eapply Forall_impl; [exact Hr|]. intros p. exact (stat_was_read_extends p _ _ He).
    + destruct add as [p|]; [|constructor]. apply Forall_singleton.
      destruct Hadd as [_ Hadd]. by apply Hstat.
  - intros name' n [Hin| ->%list_elem_of_singleton]%elem_of_app Hname.
    + destruct (Hc name' n Hin Hname) as [(p & Hp & ?)|?].
      * left. exists p. split; [|done]. apply elem_of_app. by left.
      * right. by eapply found_gone_extends.
    + destruct add as [p|].
      * left. exists p. split; [|destruct Hadd; congruence]. apply elem_of_app. right. by left.
      * right. by apply Hgone, Hadd.
Qed.

Definition collecting {G} (K : kernel ssys) (w0 : world ssys G)
    (array : list ProcessTreeProcess) (w : world ssys G) : Prop :=
  ∃ new, w = World (globals w0) (new ++ trace w0) ∧
    happened (Opendir "/proc") (Ok tt) new ∧ table_read new array ∧
    Forall (λ p, read_as (G:=G) K (pid p) (PROC_READ_SUCCESS p)) array ∧ Forall ticks_ok array.

(** Events that list no name change nothing. *)
Lemma collecting_quiet {G} K (w0 : world ssys G) array w es :
  omap listed es = [] → collecting K w0 array w →
  collecting K w0 array (World (globals w) (es ++ trace w)).
Proof.
  intros Hes (new & -> & Ho & Ht & H). exists (es ++ new). cbn [globals trace].
  split_and!; [by rewrite (assoc_L app)| |by apply table_read_quiet|apply H|apply H].
  eapply happened_extends; [by exists es|done].
Qed.

(** An entry of the directory that was dealt with. *)
Lemma collecting_entry {G} K (w0 : world ssys G) array w es name add :
  omap listed es = [] →
  match add with
  | Some p => named_pid name = Some (pid p) ∧ stat_was_read p es ∧
      read_as (G:=G) K (pid p) (PROC_READ_SUCCESS p) ∧ ticks_ok p
  | None => ∀ n, named_pid name = Some n → found_gone n es
  end →
  collecting K w0 array w →
  collecting K w0 (array ++ option_list add)
    (World (globals w) (es ++ Ev Readdir (Ok (Some name)) :: trace w)).
Proof.
  intros Hes Hadd (new & -> & Ho & Ht & Hr & Hk).
  exists (es ++ Ev Readdir (Ok (Some name)) :: new). cbn [globals trace].
  split_and!; [by rewrite <- (assoc_L app)| | | |].
  - eapply happened_extends; [|exact Ho].
    exists (es ++ [Ev Readdir (Ok (Some name))]). by rewrite <- (assoc_L app).
  - apply table_read_entry; [done..|]. destruct add; [|done]. by destruct Hadd as (? & ? & _).
  - apply Forall_app. split; [done|]. destruct add as [p|]; [|constructor].
    apply Forall_singleton. by destruct Hadd as (_ & _ & ? & _).
  - apply Forall_app. split; [done|]. destruct add as [p|]; [|constructor].
    apply Forall_singleton. by destruct Hadd as (_ & _ & _ & ?).
Qed.

Lemma append_process_spec {G} K array capacity p (w : world ssys G) :
  wp K (append_process array capacity p) (post (λ r w',
    (∃ es, omap listed es = [] ∧ w' = World (globals w) (es ++ trace w)) ∧
    ∀ array' capacity', r = Some (array', capacity') → array' = array ++ [p])
    (λ _ _, False)) w.
Proof.
  destruct w as [g t]. unfold append_process. case_bool_decide.
  { wp_steps. split; [by exists []|]. by intros ? ? [= <- <-]. }
  cbv zeta. destruct (bool_decide (_ ∨ _)); wp_steps; [by split; [exists []|]|].
  destruct (K _ _ (Realloc _)); wp_steps; (split; [eexists [_]; split; [|reflexivity]; done|]); [|done].
  by intros ? ? [= <- <-].
Qed.

(** The end of the directory was reached. *)
Definition collected {G} (K : kernel ssys) (w0 : world ssys G)
    (array : list ProcessTreeProcess) (w : world ssys G) : Prop :=
  ∃ new, w = World (globals w0) (new ++ trace w0) ∧ proc_read_whole new array ∧
    Forall (λ p, read_as (G:=G) K (pid p) (PROC_READ_SUCCESS p)) array ∧ Forall ticks_ok array.

(** Reading [/proc] collects the processes, whatever happens in between. *)
Lemma collect_step_spec {G} K (w0 : world ssys G) array capacity w :
  collecting K w0 array w →
  wp K (collect_step (array, capacity)) (post (λ x w', match x with
    | inl (array', _) => collecting K w0 array' w'
    | inr (Some array') => collected K w0 array' w'
    | inr None => True
    end) (λ _ _, False)) w.
Proof.
  intros Hinv. unfold collect_step. wp_steps.
  destruct (K _ _ Readdir) as [[name|]|e] eqn:Er; [| |by wp_steps].
  2:{ wp_steps. destruct Hinv as (new & -> & Ho & Ht & Hr & Hk). cbn [globals trace].
      exists (Ev Readdir (Ok None) :: new). unfold proc_read_whole. split_and!; try done.
      - by apply list_elem_of_further.
      - apply happened_here.
      - by apply (table_read_quiet [_]). }
  assert (∀ es, omap listed es = [] → (∀ n, named_pid name = Some n → found_gone n es) →
    collecting K w0 array (World (globals w) (es ++ Ev Readdir (Ok (Some name)) :: trace w)))
    as Hskip.
  { intros es Hes Hgone. rewrite <- (app_nil_r array). by apply (collecting_entry _ _ _ _ _ _ None). }
  rewrite directory_name_named.
  destruct (named_pid name) as [the_pid|] eqn:Ed; wp_steps; [|by apply (Hskip [])].
  apply wp_read_process_stat; [by eapply named_pid_range|]. intros r new Hnew Hread Hr.
  cbn [globals trace]. destruct r as [|p|].
  - by wp_steps.
  - destruct Hr as (Ht & <- & Hstat).
    wp_steps. eapply wp_mono; [apply append_process_spec|].
    intros [r|h] w'; [|done]. intros [(es & Hes & ->) Harr].
    destruct r as [[array' capacity']|]; [|by wp_steps]. wp_steps.
    rewrite (Harr array' capacity' eq_refl). cbn [globals trace]. rewrite (assoc_L app).
    apply (collecting_entry _ _ _ _ _ _ (Some p)); [by rewrite omap_app, Hes|split_and!; try done|done].
    by eapply stat_was_read_extends; [exists es|].
  - wp_steps. apply Hskip; [done|]. intros n [= <-]. exact Hr.
Qed.

Lemma collect_all_spec {G} K fuel (w : world ssys G) :
  wp K (collect_all_processes fuel) (post (λ r w', ∀ all, r = Some all →
    collected K w all w') (λ h _, h = OutOfFuel)) w.
Proof.
  unfold collect_all_processes. wp_steps.
  destruct (K _ _ (Opendir _)) as [[]|e]; wp_steps; [|done].
  assert (collecting K w [] (World (globals w) (Ev (Opendir "/proc") (Ok tt) :: trace w))) as Hempty.
  { exists [Ev (Opendir "/proc") (Ok tt)]. split_and!; try done; [apply happened_here|].
    split_and!; [done..|]. by intros ? ? ?%elem_of_nil. }
  apply (wp_loop_inv K (λ s w', collecting K w s.1 w')); [|done..].
  intros [array capacity] w' Hinv. eapply wp_mono; [by apply collect_step_spec|].
  intros [[[array' c]|[all|]]|h] w''; simpl; [done| | |done]; wp_steps; [|done].
  intros (new & -> & (Ho & He & Ht) & Hr & Hk). cbn [globals trace].
  destruct (K _ _ Closedir) as [u|e]; wp_steps; [|done]. intros all' [= <-].
  exists (Ev Closedir (Ok u) :: new). unfold proc_read_whole. cbn [globals trace].
  split_and!; try done; [by apply list_elem_of_further..|by apply (table_read_quiet [_])].
Qed.

(** ** Lemmas: sampling *)

Definition pid_ok (p : ProcessTreeProcess) : Prop := 0 ≤ pid p ≤ INT_MAX.

(** Whatever is in the table was named by an entry. *)
Lemma table_read_pids tr all : table_read tr all → Forall pid_ok all.
Proof.
  intros (Hs & _). apply Forall_forall. intros p Hp.
  assert (pid p ∈ omap named_pid (names_listed tr)) as Hin.
  { eapply elem_of_sublist; [|exact Hs]. by apply list_elem_of_fmap_2. }
  apply list_elem_of_omap in Hin as (name & _ & Hname). by apply named_pid_range in Hname.
Qed.

Lemma sample_processes_spec {G} K l before s base tr (w : world ssys G) :
  trace w = tr ++ base → totals tr before s →
  Forall (λ p, ticks_ok p ∧ pid_ok p) (before ++ (filter (λ x, x.2 = true) l).*1) →
  wp K (sample_processes l s) (post (λ r w', ∃ new, trace w' = new ++ tr ++ base ∧
    ∀ s', r = Some s' → totals (new ++ tr) (before ++ (filter (λ x, x.2 = true) l).*1) s')
    (λ _ _, False)) w.
Proof.
  revert before s tr w. induction l as [|[p selected] l IH]; intros before s tr w Htr Htot Hok;
    cbn [sample_processes].
  { wp_steps. exists []. split; [done|]. intros s' [= <-]. simpl. by rewrite app_nil_r. }
  destruct selected; simpl negb; cbv match.
  2:{ rewrite filter_cons_False in Hok |- * by done. by apply IH. }
  rewrite filter_cons_True in Hok |- * by done. cbn [fmap list_fmap fst] in *.
  rewrite (cons_middle p), (assoc_L app) in Hok.
  rewrite (cons_middle p before), (assoc_L app before).
  assert (Forall (λ p, ticks_ok p ∧ pid_ok p) (before ++ [p])) as Hok1
    by by apply Forall_app in Hok as [? _].
  assert (Forall ticks_ok (before ++ [p])) as Ht1 by by eapply Forall_impl; [exact Hok1|intros ? []].
  assert (pid_ok p) as Hp by by apply Forall_app in Hok1 as [_ [[_ ?] _]%Forall_cons].
  wp_steps. pose proof (read_process_memory_returns (pid p) K w) as [r Hr].
  pose proof (read_process_memory_spec K (pid p) w Hp) as Hspec. unfold wp in Hspec |- * at 1.
  rewrite Hr in Hspec |- *. destruct Hspec as (new1 & Htr1 & Hspec). rewrite Htr in Htr1.
  rewrite (assoc_L app) in Htr1.
  assert (∀ s1, totals (new1 ++ tr) (before ++ [p]) s1 →
    wp K (sample_processes l s1) (post (λ r w', ∃ new, trace w' = new ++ tr ++ base ∧
      ∀ s', r = Some s' →
        totals (new ++ tr) ((before ++ [p]) ++ (filter (λ x, x.2 = true) l).*1) s')
      (λ _ _, False)) (read_process_memory (pid p) K w).2) as Hrest.
  { intros s1 Hs1. eapply wp_mono; [by apply (IH (before ++ [p]) s1 (new1 ++ tr))|].
    intros [r'|h] w'; [|done]. intros (new & Hnew & Hs). exists (new ++ new1).
    rewrite <- !(assoc_L app) in *. split; [done|]. exact Hs. }
  assert (totals (new1 ++ tr) before s) as Htot1 by (eapply totals_extends; [by exists new1|done]).
  assert (∀ m, memory_was_read (pid p) m new1 → memory_was_read (pid p) m (new1 ++ tr)) as Hmem1.
  { intros m [(content & fails & (b & Hb & Hin) & Hm)|[(b & e & Hg & Hb & Hin) Hm]].
    - left. exists content, fails. split; [|done]. exists b. split; [done|]. apply elem_of_app. by left.
    - right. split; [|done]. exists b, e. split_and!; [done..|]. apply elem_of_app. by left. }
  destruct r as [|m|].
  - wp_steps. exists new1. split; [by rewrite <- (assoc_L app) in Htr1|done].
  - destruct m as [memory fallback]. apply Hrest.
    apply (totals_add _ before s p (memory, fallback)); [done|done|by apply Hmem1|].
    by apply (read_memory_nonneg K (pid p) w).
  - apply Hrest.
    assert (0 ≤ memory_kilobytes s ≤ ULONG_MAX) as Hmem.
    { destruct Htot as (_ & _ & _ & mems & _ & Hpos & -> & _).
      pose proof (memory_sum_nonneg mems Hpos). unfold ULONG_MAX. lia. }
    pose proof (totals_add (new1 ++ tr) before s p (0, false) Htot1 Ht1) as H.
    simpl in H. rewrite orb_false_r in H.
    replace (saturating_add ULONG_MAX (memory_kilobytes s) 0) with (memory_kilobytes s) in H.
    + apply H; [by apply Hmem1|lia].
    + unfold saturating_add. destruct (Z.ltb_spec (ULONG_MAX - memory_kilobytes s) 0); lia.
Qed.

(** The selected processes are the workload. *)
Lemma filter_zip_sublist {A} (l : list A) (bs : list bool) :
  sublist (filter (λ x : A * bool, x.2 = true) (zip l bs)).*1 l.
Proof.
  revert bs. induction l as [|a l IH]; intros [|b bs]; try apply sublist_nil_l.
  cbn [zip_with]. destruct b; [rewrite filter_cons_True by done|rewrite filter_cons_False by done];
    [by apply sublist_skip|by apply sublist_cons].
Qed.

Lemma elem_of_filter_zip {A} (l : list A) (bs : list bool) a :
  a ∈ (filter (λ x : A * bool, x.2 = true) (zip l bs)).*1 ↔
  ∃ i, l !! i = Some a ∧ bs !! i = Some true.
Proof.
  rewrite list_elem_of_fmap. split.
  - intros ([a' b] & -> & [Hb Hin]%list_elem_of_filter). simpl in *. subst.
    apply list_elem_of_lookup in Hin as [i Hi].
    apply lookup_zip_with_Some in Hi as (a'' & b' & [= -> ->] & ? & ?). by exists i.
  - intros (i & Ha & Hb). exists (a, true). split; [done|]. apply list_elem_of_filter.
    split; [done|]. apply list_elem_of_lookup. exists i.
    apply lookup_zip_with_Some. by exists a, true.
Qed.

(** The calls a sample makes. *)
Definition is_proc (e : event ssys) : Prop :=
  match e with
  | Ev (Fopen _) _ | Ev Fclose _ | Ev (Opendir _) _ | Ev Readdir _ | Ev Closedir _
  | Ev (Realloc _) _ | Ev (Calloc _ _) _ => True
  | _ => False
  end.

(** Sampling the selected processes lists nothing. *)
Definition is_sampling (e : event ssys) : Prop :=
  match e with Ev (Fopen _) _ | Ev Fclose _ => True | _ => False end.

#[export] Instance sample_processes_samples {G} l s :
  Emits is_sampling (@sample_processes G l s).
Proof.
  revert s. induction l as [|[p []] l IH]; intros s; cbn [sample_processes negb];
    unfold read_process_memory, memory_step; solve_emits.
Qed.

#[export] Instance read_process_stat_emits {G} the_pid :
  Emits is_proc (@read_process_stat G the_pid).
Proof. unfold read_process_stat. solve_emits. Qed.
#[export] Instance read_process_stat_keeps {G} the_pid :
  Keeps (λ g : G, g) (@read_process_stat G the_pid).
Proof. unfold read_process_stat. solve_keeps. Qed.
#[export] Instance memory_step_emits {G} s : Emits is_proc (@memory_step G s).
Proof. unfold memory_step. solve_emits. Qed.
#[export] Instance memory_step_keeps {G} s : Keeps (λ g : G, g) (@memory_step G s).
Proof. unfold memory_step. solve_keeps. Qed.
#[export] Instance read_process_memory_emits {G} the_pid :
  Emits is_proc (@read_process_memory G the_pid).
Proof. unfold read_process_memory. solve_emits. Qed.
#[export] Instance read_process_memory_keeps {G} the_pid :
  Keeps (λ g : G, g) (@read_process_memory G the_pid).
Proof. unfold read_process_memory. solve_keeps. Qed.
#[export] Instance append_process_emits {G} l c p : Emits is_proc (@append_process G l c p).
Proof. unfold append_process. solve_emits. Qed.
#[export] Instance append_process_keeps {G} l c p :
  Keeps (λ g : G, g) (@append_process G l c p).
Proof. unfold append_process. solve_keeps. Qed.
#[export] Instance collect_all_emits {G} fuel : Emits is_proc (@collect_all_processes G fuel).
Proof. unfold collect_all_processes, collect_step. solve_emits. Qed.
#[export] Instance collect_all_keeps {G} fuel :
  Keeps (λ g : G, g) (@collect_all_processes G fuel).
Proof. unfold collect_all_processes, collect_step. solve_keeps. Qed.
#[export] Instance sample_processes_emits {G} l s : Emits is_proc (@sample_processes G l s).
Proof.
  revert s. induction l as [|[p []] l IH]; intros s; cbn [sample_processes negb]; solve_emits.
Qed.
#[export] Instance sample_processes_keeps {G} l s :
  Keeps (λ g : G, g) (@sample_processes G l s).
Proof.
  revert s. induction l as [|[p []] l IH]; intros s; cbn [sample_processes negb]; solve_keeps.
Qed.
#[export] Instance process_tree_sample_emits {G} fuel sup leader alive :
  Emits is_proc (@process_tree_sample G fuel sup leader alive).
Proof. unfold process_tree_sample. solve_emits. Qed.
#[export] Instance process_tree_sample_keeps {G} fuel sup leader alive :
  Keeps (λ g : G, g) (@process_tree_sample G fuel sup leader alive).
Proof. unfold process_tree_sample. solve_keeps. Qed.

(** Sampling the process tree. *)
Lemma tree_sample_spec {G} K fuel supervisor leader alive (w : world ssys G) :
  wp K (process_tree_sample fuel supervisor leader alive) (post (λ r w', ∀ s, r = Some s →
    ∃ new all, trace w' = new ++ trace w ∧
      Forall (λ p, read_as (G:=G) K (pid p) (PROC_READ_SUCCESS p)) all ∧
      proc_read_whole new all ∧ sample_of new all supervisor leader alive s)
    (λ h _, h = OutOfFuel)) w.
Proof.
  unfold process_tree_sample. case_bool_decide; [by wp_steps|]. wp_steps.
  eapply wp_mono; [apply collect_all_spec|]. intros [[all|]|h] w1; [|by wp_steps|done].
  intros Hall. destruct (Hall all eq_refl) as (new & -> & Hwhole & Hread & Hticks). wp_steps.
  destruct (K _ _ (Calloc _ 1)) eqn:E; cbn [negb]; [|by wp_steps].
  destruct (select_spec all supervisor leader alive) as (selected & -> & Hlen & Hsel).
  assert (∀ es, omap listed es = [] →
    wp K (sample_processes (zip all selected) empty_sample) (post (λ r w', ∀ s, r = Some s →
      ∃ new all, trace w' = new ++ trace w ∧
        Forall (λ p, read_as (G:=G) K (pid p) (PROC_READ_SUCCESS p)) all ∧
        proc_read_whole new all ∧ sample_of new all supervisor leader alive s)
      (λ h _, h = OutOfFuel)) (World (globals w) (es ++ new ++ trace w))) as Hsample.
  { intros es Hes. rewrite (assoc_L app es). eapply wp_mono; [apply wp_conj;
      [apply (emits_wp is_sampling), _|
       apply (sample_processes_spec K _ [] empty_sample (trace w) (es ++ new))]|].
    - done.
    - eapply totals_extends; [|apply totals_empty]. exists (es ++ new). by rewrite app_nil_r.
    - apply Forall_forall. intros p Hp.
      assert (p ∈ all) as Hpall by (eapply elem_of_sublist; [exact Hp|apply filter_zip_sublist]).
      destruct Hwhole as (_ & _ & Htab%table_read_pids). rewrite Forall_forall in Hticks, Htab. auto.
    - intros [[s|]|h] w' [(es' & Htr' & Hes') Hspec]; try done. destruct Hspec as (new' & Htr & Hs).
      cbn [app trace] in *. intros s' [= <-].
      destruct (Hs s eq_refl) as (Hproc & Hu & Hsys & mems & Hmems & _ & Hmem & Hfb).
      rewrite Htr' in Htr. apply (inj (.++ _)) in Htr as <-.
      exists (es' ++ es ++ new), all. split_and!; [by rewrite Htr', <- !(assoc_L app)|done| |].
      + assert (omap listed es' = []) as Hl'.
        { clear -Hes'. induction Hes' as [|e es' He _ IH]; [done|]. cbn [omap list_omap].
          rewrite IH. destruct e as [T c r]. by destruct c. }
        destruct Hwhole as (Ho & He & Ht).
        split; [do 2 (apply elem_of_app; right); done|].
        split; [do 2 (apply elem_of_app; right); done|]. apply table_read_quiet; [done|].
        by apply table_read_quiet.
      + unfold sample_of. rewrite Hproc. split_and!; try done; [apply filter_zip_sublist| |by exists mems].
        intros p. rewrite elem_of_filter_zip. split.
        * intros (i & Hp & Hb). by apply (Hsel i).
        * intros Hin. pose proof (in_workload_elem _ _ _ _ _ Hin) as [i Hi]%list_elem_of_lookup.
          exists i. split; [done|]. by apply (Hsel i p). }
  wp_steps. wp_decide Hpos; wp_steps.
  - destruct (K _ _ (Calloc _ sizeof_ProcessTreeProcess)) eqn:E'; cbn [negb]; [|by wp_steps].
    by apply (Hsample [_; _]).
  - by apply (Hsample [_]).
Qed.

(** ** Properties *)

(** The repeated passes over the table always end, and mark exactly the
    workload: the leader while it is alive, the controller's children, and
    every descendant of one of them, whatever the order of the table and
    however deep the descent. *)
Theorem select_processes_workload all supervisor leader alive :
  ∃ selected, select_processes supervisor leader alive all = Some selected ∧
    length selected = length all ∧
    ∀ i p, all !! i = Some p →
      (selected !! i = Some true ↔ in_workload all supervisor leader alive p).
Proof. apply select_spec. Qed.

(** C15. A sample that succeeds comes from one whole reading of [/proc], done
    by the calls of this run, from opening the directory to its end: the table
    [all] has, in the order of the directory, each process whose numeral was
    listed, with what its [stat] file shows, and a listed process is missing
    only if its file showed it gone.  Of that table the sample has exactly the
    workload, the sums of its processor ticks and of the memory the [status]
    file of each process shows (0 for one that is gone by then), every total
    stopping at the maximum of its type instead of wrapping.  Apart from that
    it can only fail, unless the directory never ends. *)
Theorem process_tree_sample_spec {G} K fuel supervisor leader alive (w : world ssys G) :
  wp K (process_tree_sample fuel supervisor leader alive) (post (λ r w', ∀ s, r = Some s →
    ∃ new all, trace w' = new ++ trace w ∧ proc_read_whole new all ∧
      sample_of new all supervisor leader alive s)
    (λ h _, h = OutOfFuel)) w.
Proof.
  eapply wp_mono; [apply tree_sample_spec|]. intros [r|h] w' H; [|done]. intros s Hs.
  destruct (H s Hs) as (new & all & ? & _ & ? & ?). by exists new, all.
Qed.

(** A controller 100 with its child 200, a grandchild 201, a process 300 that
    vanishes after it was listed, and a stranger 999. *)
Definition small_names : list (list byte) :=
  txt <$> ["self"; "999"; "200"; "300"; "201"; "100"].
Definition small_table : list ProcessTreeProcess :=
  [Process 999 1 999 x53 7 7; Process 200 100 200 x53 30 4; Process 201 200 200 x52 12 1;
   Process 100 1 100 x53 5 5].

Definition small_files (path : list byte) : option (list byte) :=
  foldr (λ p other,
    if bool_decide (c_string path = proc_path (pid p) "stat") then
      Some (stat_text p (txt "w") sample_between (txt "0 0") ++ [LF])
    else if bool_decide (c_string path = proc_path (pid p) "status") then
      Some (text_of (txt <$> ["Name: w"; "VmRSS:	    812 kB"]) [])
    else other) None small_table.

Definition small_proc : kernel ssys :=
  scenario_kernel (Scenario (λ _, []) (λ _, WaitNone) (λ _, (0, 0)) (λ _, [])
    (λ tr, small_names !! length (names_listed tr)) (λ _, small_files) 200).

Example small_sample :
  (process_tree_sample 10 100 200 true small_proc (World tt [])).1 =
  Ret (Some (Sample [Process 200 100 200 x53 30 4; Process 201 200 200 x52 12 1] 1624 42 5 false)).
Proof. vm_compute. reflexivity. Qed.
