(* ===== verification/Cgroup.v ===== *)
(** * security.c: the cgroup of the workload

    Reading and writing the files of a cgroup v2 directory, and the life of
    the directory the controller makes for the workload.  A path that is
    passed to the kernel is the string in the buffer it was printed into. *)

From S2P Require Import Prelude.
From S2P Require Import CLib.
From S2P Require Import SandboxSys.
From S2P Require Import Logger.
From stdpp Require Import pretty.
Local Open Scope Z_scope.

Definition SANDBOX_CGROUP_PATH_CAPACITY : nat := 4096.

Record SandboxCgroup := Cgroup {
  cg_path : list byte;            (**r [char path[SANDBOX_CGROUP_PATH_CAPACITY]] *)
  active : bool
}.

(** [snprintf] into a buffer of the given capacity: the string when it fits. *)
Definition print_path (capacity : nat) (fmt : string) (args : list arg)
    : option (list byte) :=
  let text := sprintf fmt args in
  if bool_decide (length text < capacity)%nat then Some text else None.

(** ** The files of a cgroup *)

(** [do { written = write(...); } while (written < 0 && errno == EINTR);] *)
Definition write_retry {G} (fuel fd : nat) (value : list byte) : prog ssys G (res nat) :=
  loop fuel (λ _ : unit,
    let* r := call (Write fd value) in
    match r with
    | Err e => if is_eintr e then ret (inl tt) else ret (inr (Err e))
    | Ok n => ret (inr (Ok n))
    end) tt.

Definition write_text_file {G} (fuel : nat) (directory : list byte) (name : string)
    (value : list byte) : prog ssys G (res unit) :=
  match print_path SANDBOX_CGROUP_PATH_CAPACITY "%s/%s" [AStr directory; AStr (txt name)] with
  | None => ret (Err ENAMETOOLONG)
  | Some path =>
      let* r := call (Open_write path) in
      match r with
      | Err e => ret (Err e)
      | Ok descriptor =>
          let* written := write_retry fuel descriptor value in
          match written with
          | Err e => call (Close descriptor) ;;; ret (Err e)
          | Ok n =>
              if bool_decide (n ≠ length value)
              then call (Close descriptor) ;;; ret (Err EIO)
              else call (Close descriptor)
          end
      end
  end.

Definition read_unsigned_file {G} (directory : list byte) (name : string)
    : prog ssys G (res Z) :=
  match print_path SANDBOX_CGROUP_PATH_CAPACITY "%s/%s" [AStr directory; AStr (txt name)] with
  | None => ret (Err ENAMETOOLONG)
  | Some path =>
      let* r := call (Fopen path) in
      match r with
      | Err e => ret (Err e)
      | Ok (content, fails) =>
          match fgets (zeros 128) (fopen_file content fails) with
          | (None, stream) =>
              let saved_errno := if f_ferror stream then f_errno stream else EIO in
              call Fclose ;;; ret (Err saved_errno)
          | (Some buffer, _) =>
              let* r := call Fclose in
              match r with
              | Err e => ret (Err e)
              | Ok _ =>
                  let parsed := strtoul buffer in
                  let end_char := char_at buffer (st_end parsed) in
                  if st_erange parsed || bool_decide (st_end parsed = 0%nat) ||
                     bool_decide (end_char ≠ LF ∧ end_char ≠ NUL)
                  then ret (Err EINVAL) else ret (Ok (st_value parsed))
              end
          end
      end
  end.

(** One line of [/proc/self/cgroup]. *)
Definition cgroup_line_step {G} (capacity : nat) (stream : FILE)
    : prog ssys G (FILE + res (list byte)) :=
  match fgets (zeros SANDBOX_CGROUP_PATH_CAPACITY) stream with
  | (None, _) => call Fclose ;;; ret (inr (Err ENOTSUP))
  | (Some line, stream') =>
      if negb (has_prefix "0::" line) then ret (inl stream') else
      let path := drop 3 line in
      let path := <[strcspn path [CR; LF] := NUL]> path in
      if bool_decide (char_at path 0 ≠ x2f) then call Fclose ;;; ret (inr (Err EINVAL)) else
      match print_path capacity "/sys/fs/cgroup%s" [AStr path] with
      | None => call Fclose ;;; ret (inr (Err ENAMETOOLONG))
      | Some directory => call Fclose ;;; ret (inr (Ok directory))
      end
  end.

(** Every iteration but the last reads a byte. *)
Definition current_cgroup_directory {G} (capacity : nat) : prog ssys G (res (list byte)) :=
  let* r := call (Fopen (txt "/proc/self/cgroup")) in
  match r with
  | Err e => ret (Err e)
  | Ok (content, fails) =>
      loop (S (length content)) (cgroup_line_step capacity) (fopen_file content fails)
  end.

(** ** The cgroup of the workload *)

Definition no_path : list byte := zeros SANDBOX_CGROUP_PATH_CAPACITY.

(** [cgroup->path[0] = '\0'] *)
Definition forget_path (cgroup : SandboxCgroup) : SandboxCgroup :=
  Cgroup (<[0%nat := NUL]> (cg_path cgroup)) (active cgroup).

(** The settings whose failure is only logged. *)
Definition prepare_optional {G} (fuel : nat) (path : list byte) : prog ssys G unit :=
  let* r := write_text_file fuel path "memory.oom.group" (txt "1") in
  match r with
  | Err e => logger_warn "could not enable cgroup OOM group handling: %s" [AErrno e]
  | Ok _ => ret tt
  end ;;;
  let* r := write_text_file fuel path "memory.swap.max" (txt "0") in
  match r with
  | Err e => if bool_decide (e ≠ ENOENT)
             then logger_warn "could not disable cgroup swap: %s" [AErrno e]
             else ret tt
  | Ok _ => ret tt
  end.

(** The limit and the other settings of the memory controller; [false] is the
    early return that gives the cgroup up. *)
Definition prepare_memory {G} (fuel : nat) (path : list byte) (limit_kilobytes : Z)
    : prog ssys G bool :=
  if bool_decide (0 < limit_kilobytes) then
    let memory_bytes := (limit_kilobytes * 1024) `mod` 2 ^ 64 in
    let value := sprintf "%llu" [AInt memory_bytes] in
    let* r := write_text_file fuel path "memory.max" value in
    match r with
    | Err e =>
        logger_warn "cgroup memory controller unavailable: %s" [AErrno e] ;;;
        call (Rmdir path) ;;;
        ret false
    | Ok _ =>
        prepare_optional fuel path ;;;
        ret true
    end
  else ret true.

(** The return value with the structure. *)
Definition sandbox_cgroup_prepare {G} (fuel : nat) (memory_limit_kilobytes : Z)
    : prog ssys G (Z * SandboxCgroup) :=
  let cleared := Cgroup no_path false in
  let* parent := current_cgroup_directory SANDBOX_CGROUP_PATH_CAPACITY in
  match parent with
  | Err e =>
      logger_warn "cgroup v2 unavailable: %s" [AErrno e] ;;; ret (0, cleared)
  | Ok parent =>
      let* self := call Getpid in
      let text := sprintf "%s/st5039cmd-%ld" [AStr parent; AInt self] in
      let cgroup := Cgroup (snprintf_into no_path text) false in
      if bool_decide (SANDBOX_CGROUP_PATH_CAPACITY ≤ length text)%nat then
        logger_warn "cgroup path is too long; using process-tree fallback" [] ;;;
        ret (0, forget_path cgroup)
      else
      let path := c_string (cg_path cgroup) in
      let* r := call (Mkdir path 448) in
      match r with
      | Err e =>
          logger_warn "cgroup delegation unavailable at %s: %s" [AStr parent; AErrno e] ;;;
          ret (0, forget_path cgroup)
      | Ok _ =>
          let* ok := prepare_memory fuel path memory_limit_kilobytes in
          if negb ok then ret (0, forget_path cgroup) else
          logger_info "dedicated cgroup v2 prepared: %s" [AStr path] ;;;
          ret (1, Cgroup (cg_path cgroup) true)
      end
  end.

Definition sandbox_cgroup_attach {G} (fuel : nat) (cgroup : SandboxCgroup) (child_pid : Z)
    : prog ssys G (res unit) :=
  if negb (active cgroup) then ret (Ok tt)
  else write_text_file fuel (cg_path cgroup) "cgroup.procs" (sprintf "%ld" [AInt child_pid]).

(** The conversion to [unsigned long] loses nothing: both types have 64 bits. *)
Definition sandbox_cgroup_read_memory_kilobytes {G} (cgroup : SandboxCgroup)
    : prog ssys G (res Z) :=
  if negb (active cgroup) then ret (Err 0) else
  let* r := read_unsigned_file (cg_path cgroup) "memory.current" in
  match r with
  | Err e => ret (Err e)
  | Ok memory_bytes =>
      if bool_decide (ULONG_MAX < memory_bytes `div` 1024) then ret (Ok ULONG_MAX)
      else ret (Ok (memory_bytes `div` 1024))
  end.

(** One line of [cgroup.events]. *)
Definition populated_step {G} (stream : FILE) : prog ssys G (FILE + res bool) :=
  match fgets (zeros 128) stream with
  | (None, _) => call Fclose ;;; ret (inr (Err EIO))
  | (Some line, stream') =>
      match scan_int "populated" line with
      | Some populated => call Fclose ;;; ret (inr (Ok (bool_decide (populated ≠ 0))))
      | None => ret (inl stream')
      end
  end.

(** [Err] is the result [-1]. *)
Definition sandbox_cgroup_is_populated {G} (cgroup : SandboxCgroup) : prog ssys G (res bool) :=
  if negb (active cgroup) then ret (Ok false) else
  match print_path SANDBOX_CGROUP_PATH_CAPACITY "%s/cgroup.events" [AStr (cg_path cgroup)] with
  | None => ret (Err ENAMETOOLONG)
  | Some path =>
      let* r := call (Fopen path) in
      match r with
      | Err e => ret (Err e)
      | Ok (content, fails) =>
          loop (S (length content)) populated_step (fopen_file content fails)
      end
  end.

Definition sandbox_cgroup_kill {G} (fuel : nat) (cgroup : SandboxCgroup) : prog ssys G (res unit) :=
  if negb (active cgroup) then ret (Ok tt)
  else write_text_file fuel (cg_path cgroup) "cgroup.kill" (txt "1").

(** The return value with the structure. *)
Definition sandbox_cgroup_destroy {G} (cgroup : SandboxCgroup)
    : prog ssys G (Z * SandboxCgroup) :=
  if negb (active cgroup) then ret (0, cgroup) else
  let path := c_string (cg_path cgroup) in
  let* r := call (Rmdir path) in
  match r with
  | Err e =>
      logger_warn "could not remove sandbox cgroup %s: %s" [AStr path; AErrno e] ;;;
      ret (-1, cgroup)
  | Ok _ => ret (0, forget_path (Cgroup (cg_path cgroup) false))
  end.

(** ** What happened to the files *)

Definition cgroup_file (directory : list byte) (name : string) : list byte :=
  c_string directory ++ x2f :: txt name.

(** The file was opened and the whole text went into it in one call. *)
Definition wrote_file (path value : list byte) (tr : strace) : Prop :=
  ∃ fd, happened (Open_write path) (Ok fd) tr ∧
        happened (Write fd value) (Ok (length value)) tr.

(** ** Lemmas *)

Lemma wrote_file_extends path value tr tr' :
  extends tr tr' → wrote_file path value tr → wrote_file path value tr'.
Proof.
  intros He (fd & ? & ?). exists fd. split; by eapply happened_extends.
Qed.

Lemma format_file directory name :
  NUL ∉ txt name →
  sprintf "%s/%s" [AStr directory; AStr (txt name)] = cgroup_file directory name.
Proof.
  intros Hn. unfold sprintf, cgroup_file.
  change (txt "%s/%s") with (x25 :: x73 :: [x2f] ++ [x25; x73]).
  rewrite format_s, format_plain by (by apply (bool_decide_unpack _)). rewrite format_s.
  cbn [arg_text format_text app]. by rewrite (c_string_no_terminator (txt name)), app_nil_r.
Qed.

Lemma write_retry_spec {G} K fuel fd value (w : world ssys G) :
  wp K (write_retry fuel fd value) (post (λ r w',
    extends (trace w) (trace w') ∧ globals w' = globals w ∧
    ∀ n, r = Ok n → happened (Write fd value) (Ok n) (trace w'))
    (λ h _, h = OutOfFuel)) w.
Proof.
  unfold write_retry.
  apply (wp_loop_inv K (λ _ w', extends (trace w) (trace w') ∧ globals w' = globals w));
    [|done|by split; [apply extends_refl|]].
  intros [] w' [He Hg]. wp_steps.
  destruct (K _ _ (Write fd value)) as [n|e] eqn:E.
  - wp_steps. split_and!; [by apply extends_cons|done|].
    intros n' [= <-]. apply happened_here.
  - destruct (is_eintr e); wp_steps; split_and!; try done; by apply extends_cons.
Qed.

Lemma write_text_file_spec {G} K fuel directory name value (w : world ssys G) :
  NUL ∉ txt name →
  wp K (write_text_file fuel directory name value) (post (λ r w',
    extends (trace w) (trace w') ∧ globals w' = globals w ∧
    ∀ u, r = Ok u → wrote_file (cgroup_file directory name) value (trace w'))
    (λ h _, h = OutOfFuel)) w.
Proof.
  intros Hn. unfold write_text_file, print_path. rewrite format_file by done.
  case_bool_decide; [|wp_steps; by split_and!; [apply extends_refl|..]]. wp_steps.
  destruct (K _ _ (Open_write _)) as [fd|e] eqn:Eo.
  2:{ wp_steps. split_and!; [by apply extends_cons, extends_refl|done..]. }
  wp_steps. eapply wp_mono; [apply write_retry_spec|].
  intros [[n|e]|h] w1; [| |done]; intros (He & Hg & Hok); cbn [trace globals] in *.
  - specialize (Hok n eq_refl).
    assert (extends (trace w) (trace w1)) by (eapply extends_trans; [|exact He]; eauto with trace).
    case_bool_decide as Hlen; wp_steps; (split_and!; [by apply extends_cons|done|]); [done|].
    assert (n = length value) as -> by (destruct (decide (n = length value)); tauto).
    intros u _. eapply wrote_file_extends; [apply extends_cons, extends_refl|].
    exists fd. split; [|done]. eapply happened_extends; [exact He|]. apply happened_here.
  - wp_steps. split_and!; [|done|done]. apply extends_cons.
    eapply extends_trans; [|exact He]. eauto with trace.
Qed.

Lemma cgroup_line_measure {G} K capacity stream (w : world ssys G) :
  wp K (cgroup_line_step capacity stream) (post (λ x _, match x with
    | inl stream' => (length (f_rest stream') < length (f_rest stream))%nat
    | inr _ => True
    end) (λ _ _, False)) w.
Proof.
  unfold cgroup_line_step. destruct (fgets _ stream) as [[line|] stream'] eqn:E; [|by wp_steps].
  apply fgets_shorter in E; [|vm_compute; lia].
  destruct (negb _); [by wp_steps|]. case_bool_decide; [by wp_steps|].
  destruct (print_path _ _ _); by wp_steps.
Qed.

Lemma populated_measure {G} K stream (w : world ssys G) :
  wp K (populated_step stream) (post (λ x _, match x with
    | inl stream' => (length (f_rest stream') < length (f_rest stream))%nat
    | inr _ => True
    end) (λ _ _, False)) w.
Proof.
  unfold populated_step. destruct (fgets _ stream) as [[line|] stream'] eqn:E; [|by wp_steps].
  apply fgets_shorter in E; [|vm_compute; lia]. destruct (scan_int _ _); by wp_steps.
Qed.

(** Calls that read or write files and log. *)
Definition is_file (e : event ssys) : Prop :=
  match e with
  | Ev (Fopen _) _ | Ev Fclose _ | Ev (Open_write _) _ | Ev (Write _ _) _
  | Ev (Close _) _ => True
  | _ => False
  end.

#[export] Instance current_cgroup_returns {G} capacity :
  Returns (@current_cgroup_directory G capacity).
Proof.
  unfold current_cgroup_directory. apply returns_bind; [apply _|].
  intros [[content fails]|e]; [|apply _].
  apply (returns_loop (λ s : FILE, length (f_rest s))); [|simpl; lia].
  intros K s w. eapply wp_mono; [apply cgroup_line_measure|]. by intros [[]|h] w'.
Qed.
#[export] Instance current_cgroup_emits {G} capacity :
  Emits is_file (@current_cgroup_directory G capacity).
Proof. unfold current_cgroup_directory, cgroup_line_step. solve_emits. Qed.
#[export] Instance current_cgroup_keeps {G} capacity :
  Keeps (λ g : G, g) (@current_cgroup_directory G capacity).
Proof. unfold current_cgroup_directory, cgroup_line_step. solve_keeps. Qed.

#[export] Instance is_populated_returns {G} cgroup :
  Returns (@sandbox_cgroup_is_populated G cgroup).
Proof.
  unfold sandbox_cgroup_is_populated. destruct (negb _); [apply _|].
  destruct (print_path _ _ _); [|apply _]. apply returns_bind; [apply _|].
  intros [[content fails]|e]; [|apply _].
  apply (returns_loop (λ s : FILE, length (f_rest s))); [|simpl; lia].
  intros K s w. eapply wp_mono; [apply populated_measure|]. by intros [[]|h] w'.
Qed.
#[export] Instance is_populated_emits {G} cgroup :
  Emits is_file (@sandbox_cgroup_is_populated G cgroup).
Proof. unfold sandbox_cgroup_is_populated, populated_step. solve_emits. Qed.
#[export] Instance is_populated_keeps {G} cgroup :
  Keeps (λ g : G, g) (@sandbox_cgroup_is_populated G cgroup).
Proof. unfold sandbox_cgroup_is_populated, populated_step. solve_keeps. Qed.

#[export] Instance write_text_file_emits {G} fuel d n v :
  Emits is_file (@write_text_file G fuel d n v).
Proof. unfold write_text_file, write_retry. solve_emits. Qed.
#[export] Instance write_text_file_keeps {G} fuel d n v :
  Keeps (λ g : G, g) (@write_text_file G fuel d n v).
Proof. unfold write_text_file, write_retry. solve_keeps. Qed.
#[export] Instance read_unsigned_file_emits {G} d n :
  Emits is_file (@read_unsigned_file G d n).
Proof. unfold read_unsigned_file. solve_emits. Qed.
#[export] Instance read_unsigned_file_keeps {G} d n :
  Keeps (λ g : G, g) (@read_unsigned_file G d n).
Proof. unfold read_unsigned_file. solve_keeps. Qed.
#[export] Instance read_unsigned_file_returns {G} d n :
  Returns (@read_unsigned_file G d n).
Proof. unfold read_unsigned_file. solve_returns. Qed.

Lemma forget_path_empty text a :
  c_string (cg_path (forget_path (Cgroup (snprintf_into no_path text) a))) = [].
Proof.
  unfold forget_path, snprintf_into, no_path. rewrite length_zeros.
  change SANDBOX_CGROUP_PATH_CAPACITY with (S 4095). cbn [cg_path].
  unfold store. simpl take at 1. cbn [app].
  by destruct (take 4095 text ++ [NUL]) as [|c l] eqn:E; [destruct (take _ _)|].
Qed.

(** The buffer is never looked into from here on. *)
#[local] Opaque no_path.

Lemma limit_text limit :
  0 < limit ≤ 4194304 →
  sprintf "%llu" [AInt ((limit * 1024) `mod` 2 ^ 64)] = txt (pretty (limit * 1024)).
Proof.
  intros H. rewrite Z.mod_small by lia. unfold sprintf.
  change (txt "%llu") with [x25; x6c; x6c; x75]. rewrite format_llu. by rewrite app_nil_r.
Qed.

(** Logging, in a proof that only follows what happened and the memory. *)
Ltac log_step :=
  apply wp_logger_write; intros ?logs ?Hlogs; cbn [globals trace]; wp_steps.

Lemma prepare_optional_spec {G} K fuel path (w : world ssys G) :
  wp K (prepare_optional fuel path) (post (λ _ w', extends (trace w) (trace w'))
    (λ h _, h = OutOfFuel)) w.
Proof.
  unfold prepare_optional. wp_steps.
  eapply wp_mono; [apply write_text_file_spec; by apply (bool_decide_unpack _)|].
  intros [r1|h] w1; [|done]. intros (He1 & _ & _).
  assert (∀ w2 : world ssys G, extends (trace w) (trace w2) →
    wp K (let* r := write_text_file fuel path "memory.swap.max" (txt "0") in
          match r with
          | Err e => if bool_decide (e ≠ ENOENT)
                     then logger_warn "could not disable cgroup swap: %s" [AErrno e]
                     else ret tt
          | Ok _ => ret tt
          end) (post (λ _ w', extends (trace w) (trace w')) (λ h _, h = OutOfFuel)) w2) as Hswap.
  { intros w2 He2. wp_steps.
    eapply wp_mono; [apply write_text_file_spec; by apply (bool_decide_unpack _)|].
    intros [r2|h] w3; [|done]. intros (He3 & _ & _).
    assert (extends (trace w) (trace w3)) by by eapply extends_trans.
    destruct r2 as [u|e]; [by wp_steps|]. case_bool_decide; [|by wp_steps]. log_step.
    eapply extends_trans; [done|]. by eexists. }
  setoid_rewrite wp_bind in Hswap.
  wp_steps. destruct r1 as [u|e]; wp_steps; [by apply Hswap|]. log_step. apply Hswap.
  eapply extends_trans; [exact He1|]. by eexists.
Qed.

Lemma prepare_memory_spec {G} K fuel path limit (w : world ssys G) :
  0 ≤ limit ≤ 4194304 →
  wp K (prepare_memory fuel path limit) (post (λ ok w',
    extends (trace w) (trace w') ∧
    (ok = true → 0 < limit →
     wrote_file (cgroup_file path "memory.max") (txt (pretty (limit * 1024))) (trace w')))
    (λ h _, h = OutOfFuel)) w.
Proof.
  intros Hlimit. unfold prepare_memory. wp_decide Hpos.
  2:{ wp_steps. split; [apply extends_refl|lia]. }
  rewrite limit_text by lia. wp_steps.
  eapply wp_mono; [apply write_text_file_spec; by apply (bool_decide_unpack _)|].
  intros [[[]|e]|h] w1; [| |done]; intros (He & _ & Hwrote); wp_steps.
  2:{ log_step. split; [|done]. apply extends_cons. eapply extends_trans; [exact He|].
      by eexists. }
  specialize (Hwrote tt eq_refl).
  eapply wp_mono; [apply prepare_optional_spec|]. intros [[]|h] w2; [|done].
  intros He2. wp_steps. split; [by eapply extends_trans|].
  intros _ _. by eapply wrote_file_extends.
Qed.

#[export] Instance read_memory_emits {G} cgroup :
  Emits is_file (@sandbox_cgroup_read_memory_kilobytes G cgroup).
Proof. unfold sandbox_cgroup_read_memory_kilobytes. solve_emits. Qed.
#[export] Instance read_memory_keeps {G} cgroup :
  Keeps (λ g : G, g) (@sandbox_cgroup_read_memory_kilobytes G cgroup).
Proof. unfold sandbox_cgroup_read_memory_kilobytes. solve_keeps. Qed.

(** ** Properties *)

(** C20. Preparing the cgroup never fails halfway unseen: either it is reported
    active, and then its directory was made and, when there is a memory limit,
    exactly that many bytes were written in full to its [memory.max]; or it is
    reported inactive and its path is forgotten. *)
Theorem sandbox_cgroup_prepare_enforces {G} K fuel limit (w : world ssys G) :
  0 ≤ limit ≤ 4194304 →
  wp K (sandbox_cgroup_prepare fuel limit) (post (λ '(r, cgroup) w',
    (r = 1 ∧ active cgroup = true ∧
     happened (Mkdir (c_string (cg_path cgroup)) 448) (Ok tt) (trace w') ∧
     (0 < limit → wrote_file (cgroup_file (cg_path cgroup) "memory.max")
                             (txt (pretty (limit * 1024))) (trace w'))) ∨
    (r = 0 ∧ active cgroup = false ∧ c_string (cg_path cgroup) = []))
    (λ h _, h = OutOfFuel)) w.
Proof.
  intros Hlimit. unfold sandbox_cgroup_prepare. wp_steps.
  apply (wp_quiet is_file); try apply _. intros [parent|e] new0 _; wp_steps.
  2:{ log_step. by right. }
  wp_decide Hlen; wp_steps.
  { log_step. right. split_and!; try done. apply forget_path_empty. }
  set (text := sprintf _ _). set (path := c_string _).
  destruct (K _ _ (Mkdir path 448)) as [[]|e] eqn:Emk; wp_steps.
  2:{ log_step. right. split_and!; try done. apply forget_path_empty. }
  eapply wp_mono; [by apply prepare_memory_spec|].
  intros [ok|h] w2; [|done]. intros [He Hwrote]. destruct ok; cbn [negb]; wp_steps.
  2:{ right. split_and!; try done. apply forget_path_empty. }
  log_step. left. split_and!; try done.
  - eapply happened_extends; [|apply happened_here].
    eapply extends_trans; [exact He|]. by eexists.
  - intros Hpos. specialize (Hwrote eq_refl Hpos). unfold cgroup_file, path in *.
    rewrite c_string_c_string in Hwrote.
    eapply wrote_file_extends; [|exact Hwrote]. by eexists.
Qed.

(** A kernel where the cgroup can be made. *)
Definition delegated : kernel ssys :=
  scenario_kernel (Scenario (λ _, []) (λ _, WaitNone) (λ _, (0, 0)) (λ _, [])
    (λ _, None) (λ _ path, if bool_decide (path = txt "/proc/self/cgroup")
                           then Some (txt "0::/user.slice" ++ [LF]) else None) 200).

Definition delegated_cgroup : SandboxCgroup :=
  Cgroup (snprintf_into no_path (txt "/sys/fs/cgroup/user.slice/st5039cmd-100")) true.

Lemma sandbox_cgroup_prepare_enforces_witness :
  (sandbox_cgroup_prepare 1 24576 delegated (World tt [])).1 = Ret (1, delegated_cgroup) ∧
  wrote_file (txt "/sys/fs/cgroup/user.slice/st5039cmd-100/memory.max") (txt "25165824")
    (trace (sandbox_cgroup_prepare 1 24576 delegated (World tt [])).2).
Proof.
  assert ((sandbox_cgroup_prepare 1 24576 delegated (World tt [])).1 =
    Ret (1, delegated_cgroup)) as E by (vm_compute; reflexivity).
  split; [exact E|].
  pose proof (sandbox_cgroup_prepare_enforces delegated 1 24576 (World tt []) ltac:(lia)) as H.
  destruct (wp_run _ _ _ _ _ _ H E) as [(_ & _ & _ & Hw)|(? & _)]; [|done].
  specialize (Hw ltac:(lia)).
  replace (txt "/sys/fs/cgroup/user.slice/st5039cmd-100/memory.max")
    with (cgroup_file (cg_path delegated_cgroup) "memory.max") by (vm_compute; reflexivity).
  replace (txt "25165824") with (txt (pretty (24576 * 1024))) by (vm_compute; reflexivity).
  exact Hw.
Defined.
