(* ===== verification/Trouble.v ===== *)
(** * What counts as trouble

    The calls of a thread of the controller that fail, and the files it reads
    that are not what the kernel writes; and that each part that reports an
    error met one of them. *)

From S2P Require Import Prelude.
From S2P Require Import CLib.
From S2P Require Import SandboxSys.
From S2P Require Import Logger.
From S2P Require Import MonitorState.
From S2P Require Import ProcStat.
From S2P Require Import ProcessTree.
From S2P Require Import Cgroup.
From stdpp Require Import pretty.
Local Open Scope Z_scope.

Definition failed {A} (r : res A) : Prop := match r with Ok _ => False | Err _ => True end.

(** What the kernel writes into the files of a cgroup. *)
Definition memory_current_shows (content : list byte) (bytes : Z) : Prop :=
  0 ≤ bytes ≤ ULONG_MAX ∧ content = txt (pretty bytes) ++ [LF].
Definition events_shown (content : list byte) : Prop :=
  ∃ populated rest, (populated = "0" ∨ populated = "1") ∧
    content = txt "populated " ++ txt populated ++ LF :: rest.

(** A file of a cgroup that the controller reads. *)
Definition cgroup_path (directory path : list byte) : Prop :=
  path = cgroup_file directory "cgroup.events" ∨ path = cgroup_file directory "memory.current".

(** The file of the path was opened, but is not the file the kernel writes. *)
Definition strange (path content : list byte) : Prop :=
  (∃ n, path = proc_path n "stat" ∧ ∀ q, pid q = n → ¬ stat_shows content q) ∨
  (∃ directory, path = cgroup_file directory "cgroup.events" ∧ ¬ events_shown content) ∨
  (∃ directory, path = cgroup_file directory "memory.current" ∧
     ∀ bytes, ¬ memory_current_shows content bytes).

(** A call that failed, or a file that could not be read or understood.  That
    a process is gone, that there is no child and that a signal interrupted a
    call is no trouble. *)
Definition troubled (e : event ssys) : Prop :=
  match e with
  | Ev Mutex_lock r => failed r
  | Ev Mutex_unlock r => r ≠ 0
  | Ev Waitpid_any r => ∃ e, r = WaitErr e ∧ e ≠ EINTR ∧ e ≠ ECHILD
  | Ev (Nanosleep _ _) r => ∃ e sec nsec, r = SleepErr e sec nsec ∧ e ≠ EINTR
  | Ev Clock_gettime r => failed r
  | Ev Sysconf_clk_tck r => r ≤ 0
  | Ev (Opendir _) r => failed r
  | Ev Readdir r => failed r
  | Ev Closedir r => failed r
  | Ev Fclose r => failed r
  | Ev (Realloc _) r => r = false
  | Ev (Calloc _ _) r => r = false
  | Ev (Fopen path) r =>
      match r with
      | Err e => ¬ gone_error e ∨ ∃ directory, cgroup_path directory (c_string path)
      | Ok (content, fails) => is_Some fails ∨ strange (c_string path) content
      end
  | _ => False
  end.

(** The calls added since [tr0] met trouble. *)
Definition trouble_since (tr0 tr : strace) : Prop :=
  ∃ new, tr = new ++ tr0 ∧ Exists troubled new.

Lemma trouble_later tr0 tr new : trouble_since tr0 tr → trouble_since tr0 (new ++ tr).
Proof.
  intros (new0 & -> & H). exists (new ++ new0). split; [by rewrite (assoc_L app)|].
  apply Exists_app. by right.
Qed.

Lemma trouble_extends tr0 tr tr' : extends tr tr' → trouble_since tr0 tr → trouble_since tr0 tr'.
Proof. intros [new ->]. apply trouble_later. Qed.

Lemma trouble_earlier tr0 tr tr' : extends tr0 tr → trouble_since tr tr' → trouble_since tr0 tr'.
Proof.
  intros [n ->] (new & -> & H). exists (new ++ n). split; [by rewrite (assoc_L app)|].
  apply Exists_app. by left.
Qed.

(** ** Reading [/proc] *)

Section trouble.
Context (K : kernel ssys).

Lemma fgets_flags buf f l f' :
  fgets buf f = (l, f') →
  f_fails f' = f_fails f ∧ (f_ferror f' = true → f_ferror f = true ∨ is_Some (f_fails f)).
Proof.
  unfold fgets. destruct (take_line _ _) as [[got rest] e]. intros H.
  assert (f' = File rest (f_fails f) (f_feof f || (e && negb (ends_in_error f)))
                (f_ferror f || (e && ends_in_error f))) as ->.
  { destruct (e && ends_in_error f); [by injection H|]. by destruct got; injection H. }
  split; [done|]. cbn [f_ferror]. intros [Hf|[_ Hf]%andb_true_iff]%orb_true_iff; [by left|].
  right. by apply bool_decide_eq_true in Hf.
Qed.

Lemma fgets_none_end n content f :
  (1 < n)%nat → fgets (zeros n) (fopen_file content None) = (None, f) → f_feof f = true.
Proof.
  intros Hn. unfold fgets. cbn [fopen_file f_rest f_feof f_ferror f_fails ends_in_error].
  rewrite length_zeros. destruct (take_line _ _) as [[got rest] e] eqn:E.
  change (bool_decide (is_Some (@None Z))) with false. rewrite andb_false_r.
  destruct got; [|done]. intros [= <-]. cbn. destruct e; [done|].
  destruct (n - 1)%nat eqn:?; [lia|]. destruct content as [|c content]; [done|]. simpl in E.
  case_bool_decide; [done|]. by destruct (take_line _ _) as [[??]?].
Qed.

Lemma not_gone e : process_gone_error e = false → ¬ gone_error e.
Proof.
  unfold process_gone_error. intros [H1%bool_decide_eq_false H2%bool_decide_eq_false]%orb_false_iff.
  by intros [|].
Qed.

Lemma stat_troubled {G} n (w : world ssys G) :
  0 ≤ n ≤ INT_MAX →
  wp K (read_process_stat n) (post (λ r w', ∃ new, trace w' = new ++ trace w ∧
    (r = PROC_READ_ERROR → Exists troubled new)) (λ _ _, False)) w.
Proof.
  intros Hn. unfold read_process_stat.
  destruct (build_proc_path_fits n "stat") as (path & -> & Hpath);
    [done|by apply (bool_decide_unpack _)|simpl; lia|]. wp_steps.
  destruct (K _ _ (Fopen path)) as [[content fails]|e] eqn:Eo.
  - destruct (fgets _ _) as [[line|] f] eqn:Ef; wp_steps.
    + destruct (K _ _ Fclose) as [u|e] eqn:Ec; wp_steps; eexists [_; _]; (split; [reflexivity|]);
        intros H; [|by left].
      right; left. right. left. exists n. split; [done|]. intros q <- Hshow.
      by rewrite (parse_stat_shown content fails line f q Hshow Ef) in H.
    + eexists [_; _]. split; [reflexivity|]. intros H. right; left. left.
      destruct fails as [e|]; [by exists e|].
      apply fgets_none_end in Ef; [by rewrite Ef in H|vm_compute; lia].
  - wp_steps. eexists [_]. split; [reflexivity|].
    destruct (process_gone_error e) eqn:He; [done|]. intros _. left. left. by apply not_gone.
Qed.

Lemma memory_troubled {G} n (w : world ssys G) :
  0 ≤ n ≤ INT_MAX →
  wp K (read_process_memory n) (λ o w', ∃ new, trace w' = new ++ trace w ∧
    (o = Ret PROC_READ_ERROR → Exists troubled new)) w.
Proof.
  intros Hn. unfold read_process_memory.
  destruct (build_proc_path_fits n "status") as (path & -> & Hpath);
    [done|by apply (bool_decide_unpack _)|simpl; lia|]. wp_steps.
  destruct (K _ _ (Fopen path)) as [[content fails]|e] eqn:Eo.
  2:{ wp_steps. eexists [_]. split; [reflexivity|].
      destruct (process_gone_error e) eqn:He; [done|]. intros _. left. left. by apply not_gone. }
  set (w1 := World _ _).
  eapply (wp_mono _ _ _ (λ o w', ∃ new, trace w' = new ++ trace w1 ∧
    (o = Ret PROC_READ_ERROR → is_Some fails ∨ Exists troubled new))).
  - apply (wp_loop_inv K (λ s w', f_fails s.1 = fails ∧ (f_ferror s.1 = true → is_Some fails) ∧
      trace w' = trace w1)); [|by intros s w' (_ & _ & ->); exists []|by split_and!].
    intros [stream size] w2 (Hf & Hferr & Htr). cbn [fst] in *. unfold memory_step.
    destruct (fgets _ stream) as [[line|] stream'] eqn:E; apply fgets_flags in E as [E1 E2].
    + destruct (scan_kB "VmRSS:" _); wp_steps.
      * destruct (K _ _ Fclose) eqn:Ec; wp_steps; eexists [_]; (split; [by rewrite Htr|]);
          [done|intros _; right; by left].
      * destruct (scan_kB "VmSize:" _); wp_steps; split_and!; cbn [fst]; try done; try congruence;
          intros H; destruct (E2 H) as [?|?]; try tauto; by rewrite <- Hf.
    + wp_steps. destruct (K _ _ Fclose) eqn:Ec; wp_steps.
      * destruct (f_ferror stream') eqn:Efe.
        -- wp_steps. eexists [_]. split; [by rewrite Htr|]. intros _. left.
           destruct (E2 eq_refl) as [?|?]; [tauto|by rewrite <- Hf].
        -- destruct size; wp_steps; (eexists [_]; split; [by rewrite Htr|done]).
      * eexists [_]. split; [by rewrite Htr|]. intros _. right. by left.
  - intros o w' (new & Htr & H). subst w1. cbn [trace] in Htr.
    exists (new ++ [Ev (Fopen path) (Ok (content, fails))]). rewrite <- (assoc_L app).
    split; [done|]. intros Ho. apply Exists_app.
    destruct (H Ho) as [?|?]; [right; left; by left|by left].
Qed.

(** The table of a directory of at most [2 ^ 50] entries has a size the
    arithmetic on [size_t] can hold. *)
Definition table_fits (i : nat) (array : list ProcessTreeProcess) (capacity : Z) : Prop :=
  (length array ≤ i)%nat ∧ Z.of_nat (length array) ≤ capacity ≤ 128 + 2 * Z.of_nat (length array).

Lemma append_troubled {G} i array capacity p (w : world ssys G) :
  table_fits i array capacity → Z.of_nat i ≤ 2 ^ 50 →
  wp K (append_process array capacity p) (post (λ r w', ∃ new, trace w' = new ++ trace w ∧
    match r with
    | None => Exists troubled new
    | Some (array', capacity') => table_fits (S i) array' capacity'
    end) (λ _ _, False)) w.
Proof.
  intros [Hi Hc] Hmax. unfold append_process. case_bool_decide as Hlt.
  { wp_steps. exists []. split; [done|]. unfold table_fits. rewrite length_app. simpl. lia. }
  set (c := if bool_decide (capacity = 0) then 128 else _).
  assert (0 < c ≤ 2 ^ 53 ∧ Z.of_nat (length array) + 1 ≤ c ≤ 128 + 2 * (Z.of_nat (length array) + 1))
    as [Hcb Hc'].
  { subst c. case_bool_decide; [lia|]. rewrite Z.mod_small by lia. lia. }
  rewrite bool_decide_eq_false_2.
  2:{ assert (SIZE_MAX `div` sizeof_ProcessTreeProcess = 576460752303423487) as -> by done.
      subst c. case_bool_decide; [lia|]. rewrite Z.mod_small by lia. lia. }
  wp_steps. destruct (K _ _ (Realloc _)) eqn:E; wp_steps; (eexists [_]; split; [reflexivity|]).
  - unfold table_fits. rewrite length_app. simpl. lia.
  - by left.
Qed.

Lemma collect_step_troubled {G} i array capacity (w : world ssys G) :
  table_fits i array capacity → Z.of_nat i ≤ 2 ^ 50 →
  wp K (collect_step (array, capacity)) (post (λ x w', ∃ new, trace w' = new ++ trace w ∧
    match x with
    | inl (array', capacity') => table_fits (S i) array' capacity'
    | inr r => r = None → Exists troubled new
    end) (λ _ _, False)) w.
Proof.
  intros Hfits Hmax.
  assert (table_fits (S i) array capacity) as Hfits' by (unfold table_fits in *; lia).
  unfold collect_step. wp_steps.
  destruct (K _ _ Readdir) as [[name|]|e] eqn:Er.
  2:{ wp_steps. by eexists [_]. }
  2:{ wp_steps. eexists [_; _]. split; [reflexivity|]. intros _. right. by left. }
  rewrite directory_name_named. destruct (named_pid name) as [n|] eqn:Ed; wp_steps;
    [|by eexists [_]].
  eapply wp_mono; [apply stat_troubled; by eapply named_pid_range|].
  intros [r|h] w1; [|done]. intros (new & Htr & Hbad). cbn [trace] in Htr.
  destruct r as [|p|]; wp_steps.
  - eexists (_ :: new ++ [_]). split; [rewrite Htr; cbn; by rewrite <- (assoc_L app)|]. intros _.
    right. apply Exists_app. left. by apply Hbad.
  - eapply wp_mono; [by apply (append_troubled i)|]. intros [r|h] w2; [|done].
    intros (new2 & Htr2 & Hr). destruct r as [[array' capacity']|]; wp_steps.
    + exists (new2 ++ new ++ [Ev Readdir (Ok (Some name))]).
      split; [by rewrite Htr2, Htr, <- !(assoc_L app)|done].
    + eexists (_ :: new2 ++ new ++ [Ev Readdir (Ok (Some name))]).
      split; [rewrite Htr2, Htr; cbn; by rewrite <- !(assoc_L app)|].
      intros _. right. apply Exists_app. by left.
  - exists (new ++ [Ev Readdir (Ok (Some name))]). by rewrite Htr, <- (assoc_L app).
Qed.

Lemma collect_troubled {G} fuel (w : world ssys G) :
  Z.of_nat fuel ≤ 2 ^ 50 →
  wp K (collect_all_processes fuel) (post (λ r w', r = None → trouble_since (trace w) (trace w'))
    (λ _ _, True)) w.
Proof.
  intros Hmax. unfold collect_all_processes. wp_steps.
  destruct (K _ _ (Opendir _)) as [u|e] eqn:Eo; wp_steps.
  2:{ intros _. eexists [_]. split; [reflexivity|]. by left. }
  apply (wp_loop K (λ i s w', table_fits i s.1 s.2 ∧ extends (trace w) (trace w'))).
  - intros i [array capacity] w1 Hi [Hfits He]. eapply wp_mono.
    { apply (collect_step_troubled i); [done|lia]. }
    intros [[[array' c]|r]|h] w2; [| |done]; intros (new & Htr & H).
    + split; [done|]. cbn [fst snd]. eapply extends_trans; [exact He|]. by exists new.
    + assert (r = None → trouble_since (trace w) (trace w2)) as Hr.
      { intros Hnone. eapply trouble_earlier; [exact He|]. exists new. auto. }
      destruct r as [all|]; wp_steps; [|by intros _; apply Hr].
      destruct (K _ _ Closedir) as [u'|e] eqn:Ec; wp_steps; [done|]. intros _.
      eapply trouble_earlier; [exact He|].
      exists (Ev Closedir (Err e) :: new). split; [by rewrite Htr|]. by left.
  - done.
  - split; [unfold table_fits; simpl; lia|]. by eexists [_].
Qed.

Lemma sample_processes_troubled {G} l s (w : world ssys G) :
  Forall (λ x, pid_ok x.1) l →
  wp K (sample_processes l s) (post (λ r w', r = None → trouble_since (trace w) (trace w'))
    (λ _ _, True)) w.
Proof.
  intros Hl. revert s w. induction Hl as [|[p selected] l Hp _ IH]; intros s w; cbn [sample_processes].
  { by wp_steps. }
  destruct selected; cbn [negb]; [|apply IH]. wp_steps.
  pose proof (read_process_memory_returns (pid p) K w) as [r Hr].
  pose proof (memory_troubled (pid p) w Hp) as Hbad. unfold wp in Hbad |- * at 1.
  rewrite Hr in Hbad |- *. destruct Hbad as (new & Htr & Hbad).
  assert (∀ s', wp K (sample_processes l s')
    (post (λ r w', r = None → trouble_since (trace w) (trace w')) (λ _ _, True))
    (read_process_memory (pid p) K w).2) as Hrest.
  { intros s'. eapply wp_mono; [apply IH|]. intros [r'|h] w'; [|done]. intros H Hnone.
    eapply trouble_earlier; [|by apply H]. by exists new. }
  destruct r as [|[memory fallback]|]; [|apply Hrest..].
  wp_steps. intros _. exists new. auto.
Qed.

(** A sample fails only on trouble. *)
Lemma sample_troubled {G} fuel supervisor leader alive (w : world ssys G) :
  0 < supervisor → Z.of_nat fuel ≤ 2 ^ 50 →
  wp K (process_tree_sample fuel supervisor leader alive)
    (post (λ r w', r = None → trouble_since (trace w) (trace w')) (λ _ _, True)) w.
Proof.
  intros Hsup Hmax. unfold process_tree_sample. rewrite bool_decide_eq_false_2 by lia. wp_steps.
  eapply wp_mono; [apply wp_conj; [by apply collect_troubled|apply collect_all_spec]|].
  intros [[all|]|h] w1 [Hbad Hall]; [| |done]; wp_steps; [|intros _; by apply Hbad].
  destruct (Hall all eq_refl) as (new & -> & (_ & _ & Htab%table_read_pids) & _). cbn [trace globals].
  destruct (K _ _ (Calloc _ 1)) eqn:E; cbn [negb]; wp_steps.
  2:{ intros _. eexists (_ :: new). split; [reflexivity|]. by left. }
  destruct (select_processes _ _ _ all) as [selected|] eqn:Esel; [|done].
  assert (∀ t, extends (trace w) t →
    wp K (sample_processes (zip all selected) empty_sample)
      (post (λ r w', r = None → trouble_since (trace w) (trace w')) (λ _ _, True))
      (World (globals w) t)) as Hsample.
  { intros t Ht. eapply wp_mono; [apply sample_processes_troubled|].
    - apply Forall_forall. intros [p b] Hin. rewrite Forall_forall in Htab. apply Htab.
      apply list_elem_of_lookup in Hin as [i Hi].
      apply lookup_zip_with_Some in Hi as (p' & b' & [= -> ->] & Hp & _).
      by apply list_elem_of_lookup_2 in Hp.
    - intros [r|h] w'; [|done]. intros H Hnone. eapply trouble_earlier; [exact Ht|]. by apply H. }
  wp_steps. wp_decide Hpos; wp_steps.
  - destruct (K _ _ (Calloc _ sizeof_ProcessTreeProcess)) eqn:E'; cbn [negb]; wp_steps.
    + apply Hsample. by exists (Ev (Calloc (Z.of_nat (length (filter (λ b : bool, b = true) selected)))
        sizeof_ProcessTreeProcess) true :: Ev (Calloc (if bool_decide (length all = 0%nat) then 1
          else Z.of_nat (length all)) 1) true :: new).
    + intros _. eexists (_ :: _ :: new). split; [reflexivity|]. by left.
  - apply Hsample. by eexists (_ :: new).
Qed.

(** ** The files of the cgroup *)

(** The path of its longest file does not fit the buffer. *)
Definition too_long (cgroup : SandboxCgroup) : Prop :=
  (SANDBOX_CGROUP_PATH_CAPACITY ≤ length (cgroup_file (cg_path cgroup) "memory.current"))%nat.

Lemma cgroup_file_string directory name :
  NUL ∉ txt name → c_string (cgroup_file directory name) = cgroup_file directory name.
Proof.
  intros Hn. apply c_string_no_terminator. unfold cgroup_file.
  rewrite not_elem_of_app, not_elem_of_cons. split_and!; [apply c_string_no_nul|done|done].
Qed.

Lemma events_first {G} content fails n (w : world ssys G) :
  events_shown content →
  wp K (loop (S n) populated_step (fopen_file content fails)) (λ o _, ∃ b, o = Ret (Ok b)) w.
Proof.
  intros (v & rest & Hv & ->). cbn [loop]. rewrite wp_bind. unfold populated_step.
  assert (LF ∉ txt "populated " ++ txt v ∧ length (txt "populated " ++ txt v) = 11%nat) as [HL Hl]
    by (destruct Hv as [-> | ->]; (split; [by apply (bool_decide_unpack _)|done])).
  rewrite (fgets_line _ _ (txt "populated " ++ txt v) rest)
    by (done || by rewrite <- (assoc_L app) || (rewrite length_zeros, Hl; lia)).
  assert (∃ i, scan_int "populated" (store 0 ((txt "populated " ++ txt v) ++ [LF; NUL]) (zeros 128))
    = Some i) as [i ->] by (destruct Hv as [-> | ->]; eexists; vm_compute; reflexivity).
  wp_steps. by eexists.
Qed.

Lemma populated_troubled {G} cgroup (w : world ssys G) :
  wp K (sandbox_cgroup_is_populated cgroup) (post (λ r w', ∃ new, trace w' = new ++ trace w ∧
    match r with Err _ => active cgroup = true ∧ too_long cgroup ∨ Exists troubled new | Ok _ => True end)
    (λ _ _, False)) w.
Proof.
  unfold sandbox_cgroup_is_populated. destruct (active cgroup) eqn:Ha; cbn [negb];
    [|wp_steps; by exists []].
  assert (sprintf "%s/cgroup.events" [AStr (cg_path cgroup)] =
          cgroup_file (cg_path cgroup) "cgroup.events") as Hp.
  { unfold sprintf. change (txt "%s/cgroup.events") with (x25 :: x73 :: txt "/cgroup.events").
    rewrite format_s, format_end by by apply (bool_decide_unpack _). done. }
  unfold print_path. rewrite Hp. case_bool_decide as Hlen.
  2:{ wp_steps. exists []. split; [done|]. left. split; [done|]. unfold too_long, cgroup_file in *.
      rewrite length_app in *. simpl in *. lia. }
  wp_steps. destruct (K _ _ (Fopen _)) as [[content fails]|e] eqn:Eo; wp_steps.
  2:{ eexists [_]. split; [reflexivity|]. right. left. right. eexists.
      left. apply cgroup_file_string. by apply (bool_decide_unpack _). }
  set (w1 := World _ _). eapply wp_mono.
  { apply wp_conj; [|apply wp_conj].
    - apply (emits_wp (λ _, True)). unfold populated_step. solve_emits.
    - assert (wp K (loop (S (length content)) populated_step (fopen_file content fails))
        (λ o _, events_shown content → ∃ b, o = Ret (Ok b)) w1) as H; [|exact H].
      exact (λ Hs, events_first content fails _ w1 Hs).
    - assert (Returns (G:=G) (loop (S (length content)) populated_step (fopen_file content fails)))
        as HR.
      { apply (returns_loop (λ s : FILE, length (f_rest s))); [|simpl; lia].
        intros K' s' w'. eapply wp_mono; [apply populated_measure|]. by intros [[]|h] w2. }
      assert (wp K (loop (S (length content)) populated_step (fopen_file content fails))
        (λ o _, ∃ r, o = Ret r) w1) as H by apply HR. exact H. }
  intros o w2 ((new & Htr & _) & Hshown & [r ->]). subst w1. cbn [trace] in Htr.
  exists (new ++ [Ev (Fopen (cgroup_file (cg_path cgroup) "cgroup.events")) (Ok (content, fails))]).
  rewrite <- (assoc_L app). split; [done|]. destruct r as [b|e]; [done|]. right.
  apply Exists_app. right. left. right. right; left. exists (cg_path cgroup).
  split; [apply cgroup_file_string; by apply (bool_decide_unpack _)|].
  intros Hs. by destruct (Hshown Hs) as [b [=]].
Qed.

Lemma memory_kilobytes_read {G} cgroup (w : world ssys G) :
  active cgroup = true →
  wp K (sandbox_cgroup_read_memory_kilobytes cgroup) (post (λ r w',
    ∃ new, trace w' = new ++ trace w ∧
    match r with
    | Err _ => too_long cgroup ∨ Exists troubled new
    | Ok kB => ∃ content fails,
        file_read (cgroup_file (cg_path cgroup) "memory.current") content fails new ∧
        ∀ bytes, memory_current_shows content bytes → kB = bytes `div` 1024
    end) (λ _ _, False)) w.
Proof.
  intros Ha. unfold sandbox_cgroup_read_memory_kilobytes. rewrite Ha. cbn [negb].
  assert (NUL ∉ txt "memory.current") as HN by by apply (bool_decide_unpack _).
  unfold read_unsigned_file, print_path. rewrite format_file by done. wp_steps.
  case_bool_decide as Hlen.
  2:{ wp_steps. exists []. split; [done|]. left. unfold too_long. lia. }
  wp_steps. destruct (K _ _ (Fopen _)) as [[content fails]|e] eqn:Eo; wp_steps.
  2:{ eexists [_]. split; [reflexivity|]. right. left. right. eexists.
      right. by apply cgroup_file_string. }
  set (path := cgroup_file _ _) in *. set (opened := Ev (Fopen path) (Ok (content, fails))).
  assert (∀ new : strace, (∀ bytes, ¬ memory_current_shows content bytes) →
    Exists troubled (new ++ [opened])) as Hstrange.
  { intros new Hno. apply Exists_app. right. left. right. right; right.
    exists (cg_path cgroup). split; [by apply cgroup_file_string|done]. }
  assert (∀ bytes, memory_current_shows content bytes → ∃ stream,
    fgets (zeros 128) (fopen_file content fails) =
      (Some (txt (pretty bytes) ++ LF :: zeros (127 - length (txt (pretty bytes)))), stream) ∧
    strtoul (txt (pretty bytes) ++ LF :: zeros (127 - length (txt (pretty bytes)))) =
      Strto bytes (length (txt (pretty bytes))) false) as Hline.
  { intros bytes [Hb ->]. destruct (pretty_digits bytes) as (Hds & _ & _); [lia|].
    assert (LF ∉ txt (pretty bytes)) as HL.
    { intros Hin. rewrite Forall_forall in Hds. by apply Hds, is_digit_plain in Hin as (_ & _ & _ & _ & ?). }
    assert (length (txt (pretty bytes)) ≤ 20)%nat as Hl
      by (apply pretty_length; [lia|]; unfold ULONG_MAX in Hb; simpl; lia).
    eexists. rewrite (fgets_line _ _ (txt (pretty bytes)) [])
      by (done || rewrite length_zeros; lia). split.
    - f_equal. f_equal. change [LF; NUL] with ([LF] ++ [NUL]).
      rewrite (assoc_L app), store0_line by (rewrite length_app; simpl; lia).
      rewrite <- !(assoc_L app). f_equal. cbn [app]. f_equal. unfold zeros.
      rewrite length_app. cbn [length].
      replace (127 - length (txt (pretty bytes)))%nat
        with (S (128 - (length (txt (pretty bytes)) + 1) - 1)) by lia. done.
    - apply strtoul_pretty; [done|]. by intros c [= <-]. }
  destruct (fgets _ _) as [[line|] f] eqn:Ef; wp_steps.
  - destruct (K _ _ Fclose) as [u|e] eqn:Ec; wp_steps.
    2:{ eexists [_; _]. split; [reflexivity|]. right. by left. }
    destruct (_ || _) eqn:Ebad; wp_steps.
    + eexists [_; _]. split; [reflexivity|]. right. apply (Hstrange [_]). intros bytes Hs.
      destruct (Hline bytes Hs) as (stream & [= -> _] & Hv). rewrite Hv in Ebad.
      cbn [st_erange st_end st_value orb] in Ebad. rewrite char_at_middle in Ebad.
      rewrite (bool_decide_false (LF ≠ LF ∧ _)) in Ebad by (by intros [? _]).
      rewrite orb_false_r in Ebad. apply bool_decide_eq_true in Ebad.
      destruct (pretty_digits bytes) as (_ & _ & Hne); [by destruct Hs as [[??] _]|].
      by apply nil_length_inv in Ebad.
    + assert (∀ kB, kB = st_value (strtoul line) `div` 1024 →
        ∃ new : strace, Ev Fclose (Ok u) :: opened :: trace w = new ++ trace w ∧
        ∃ content fails, file_read path content fails new ∧
          ∀ bytes, memory_current_shows content bytes → kB = bytes `div` 1024) as Hok.
      { intros kB ->. exists [Ev Fclose (Ok u); opened]. split; [done|]. exists content, fails. split.
        - exists path. split; [by apply cgroup_file_string|]. right. by left.
        - intros bytes Hs. by destruct (Hline bytes Hs) as (stream & [= -> _] & ->). }
      wp_decide Hbig; wp_steps; [|by apply Hok].
      pose proof (strtoul_range line). exfalso. unfold ULONG_MAX in *.
      assert (st_value (strtoul line) `div` 1024 ≤ st_value (strtoul line)); [|lia].
      apply Z.div_le_upper_bound; lia.
  - eexists [_; _]. split; [reflexivity|]. right. apply (Hstrange [_]). intros bytes Hs.
    by destruct (Hline bytes Hs) as (stream & [=] & _).
Qed.

(** ** The shared state and sleeping *)

Lemma wp_snapshot_troubled (Q : outcome (option SandboxStateSnapshot) → world ssys sandbox → Prop) w :
  (∀ s' sn new, evolves (sb_state (globals w)) s' → Forall is_lock new →
    match sn with Some s => s = s' | None => Exists troubled new end →
    Q (Ret sn) (World (Sandbox s' (operator_signal_number (globals w))) (new ++ trace w))) →
  wp K sandbox_state_snapshot Q w.
Proof.
  intros HQ. unfold sandbox_state_snapshot, lock_state, set_state, unlock_state. wp_steps.
  assert (∀ r, is_lock (Ev Mutex_lock r)) as Hlock by by right.
  assert (∀ r, is_lock (Ev Mutex_unlock r)) as Hunlock by by right.
  destruct w as [[s sig] tr]. cbn [globals trace sb_state operator_signal_number] in *.
  destruct (K _ _ Mutex_lock) as [os|e] eqn:E; wp_steps.
  - rewrite bool_decide_false by auto. wp_steps. cbn [sb_state operator_signal_number].
    wp_decide Hu; wp_steps.
    + apply wp_logger_write. intros new Hnew. wp_steps. rewrite bool_decide_true by done. wp_steps.
      set (u := K Z _ Mutex_unlock) in *.
      pose proof (HQ (changes os s) None (new ++ [Ev Mutex_unlock u; Ev Mutex_lock (Ok os)])) as H.
      rewrite <- (assoc_L app) in H. apply H; [by apply changes_evolves| |].
      * apply Forall_app. split; [by apply is_log_lock|by repeat constructor].
      * apply Exists_app. right. by left.
    + rewrite bool_decide_false by auto. wp_steps.
      apply (HQ (changes os s) (Some (changes os s)) [_; _]); [by apply changes_evolves| |done].
      by repeat constructor.
  - apply wp_logger_write. intros new Hnew. wp_steps. rewrite bool_decide_true by done. wp_steps.
    pose proof (HQ s None (new ++ [Ev Mutex_lock (Err e)])) as H.
    rewrite <- (assoc_L app) in H. apply H; [reflexivity| |].
    + apply Forall_app. split; [by apply is_log_lock|by repeat constructor].
    + apply Exists_app. right. by left.
Qed.

Lemma sleep_troubled {G} fuel ms (w : world ssys G) :
  wp K (sleep_milliseconds fuel ms) (post (λ r w',
    ∀ e, r = Err e → trouble_since (trace w) (trace w')) (λ _ _, True)) w.
Proof.
  unfold sleep_milliseconds.
  apply (wp_loop_inv K (λ _ w', extends (trace w) (trace w'))); [|done|apply extends_refl].
  intros delay w1 He. unfold sleep_step. wp_steps.
  destruct (K _ _ (Nanosleep _ _)) as [|e sec nsec] eqn:E; wp_steps; [done|].
  unfold is_eintr. case_bool_decide as Hi; cbn [negb]; wp_steps; [by apply extends_cons|].
  intros e' [= <-]. eapply trouble_earlier; [exact He|]. eexists [_]. split; [reflexivity|].
  left. by exists e, sec, nsec.
Qed.

End trouble.
