(* ===== verification/Hardening.v ===== *)
(** * security.c: the hardening of the child

    Parent-death signal, resource limits, the Landlock allowlist, closing of
    descriptors and the environment.  An [Err] result is the return value [-1]
    with [errno]. *)

From S2P Require Import Prelude.
From S2P Require Import CLib.
From S2P Require Import SandboxSys.
From S2P Require Import NetworkFilter.
Local Open Scope Z_scope.

Definition sandbox_child_set_parent_death_signal {G} (expected_parent : Z)
    : prog ssys G (res unit) :=
  let* r := call (Set_pdeathsig SIGKILL) in
  match r with
  | Err e => ret (Err e)
  | Ok _ =>
      let* parent := call Getppid in
      if bool_decide (parent ≠ expected_parent) then ret (Err ESRCH) else ret (Ok tt)
  end.

Definition sandbox_child_set_resource_limits {G} (memory_limit_kilobytes : Z)
    : prog ssys G (res unit) :=
  let* r := call (Setrlimit RLIMIT_CORE 0 0) in
  match r with
  | Err e => ret (Err e)
  | Ok _ =>
      if bool_decide (0 < memory_limit_kilobytes) then
        let bytes := (memory_limit_kilobytes * 1024) `mod` 2 ^ 64 in
        let rlim := bytes `mod` 2 ^ 64 in      (* rlim_t has 64 bits *)
        if bool_decide (rlim ≠ bytes) then ret (Err EOVERFLOW)
        else call (Setrlimit RLIMIT_AS rlim rlim)
      else ret (Ok tt)
  end.

(** ** Landlock *)

Definition LANDLOCK_ACCESS_FS_EXECUTE : Z := 1.
Definition LANDLOCK_ACCESS_FS_WRITE_FILE : Z := 2.
Definition LANDLOCK_ACCESS_FS_READ_FILE : Z := 4.
Definition LANDLOCK_ACCESS_FS_READ_DIR : Z := 8.
Definition LANDLOCK_ACCESS_FS_REMOVE_DIR : Z := 16.
Definition LANDLOCK_ACCESS_FS_REMOVE_FILE : Z := 32.
Definition LANDLOCK_ACCESS_FS_MAKE_CHAR : Z := 64.
Definition LANDLOCK_ACCESS_FS_MAKE_DIR : Z := 128.
Definition LANDLOCK_ACCESS_FS_MAKE_REG : Z := 256.
Definition LANDLOCK_ACCESS_FS_MAKE_SOCK : Z := 512.
Definition LANDLOCK_ACCESS_FS_MAKE_FIFO : Z := 1024.
Definition LANDLOCK_ACCESS_FS_MAKE_BLOCK : Z := 2048.
Definition LANDLOCK_ACCESS_FS_MAKE_SYM : Z := 4096.
Definition LANDLOCK_ACCESS_FS_REFER : Z := 8192.
Definition LANDLOCK_ACCESS_FS_TRUNCATE : Z := 16384.

Definition runtime_directory_access : Z :=
  Z.lor (Z.lor LANDLOCK_ACCESS_FS_EXECUTE LANDLOCK_ACCESS_FS_READ_FILE)
        LANDLOCK_ACCESS_FS_READ_DIR.
Definition runtime_file_access : Z :=
  Z.lor LANDLOCK_ACCESS_FS_EXECUTE LANDLOCK_ACCESS_FS_READ_FILE.

Definition base_access : Z :=
  foldr Z.lor 0
    [LANDLOCK_ACCESS_FS_EXECUTE; LANDLOCK_ACCESS_FS_WRITE_FILE;
     LANDLOCK_ACCESS_FS_READ_FILE; LANDLOCK_ACCESS_FS_READ_DIR;
     LANDLOCK_ACCESS_FS_REMOVE_DIR; LANDLOCK_ACCESS_FS_REMOVE_FILE;
     LANDLOCK_ACCESS_FS_MAKE_CHAR; LANDLOCK_ACCESS_FS_MAKE_DIR;
     LANDLOCK_ACCESS_FS_MAKE_REG; LANDLOCK_ACCESS_FS_MAKE_SOCK;
     LANDLOCK_ACCESS_FS_MAKE_FIFO; LANDLOCK_ACCESS_FS_MAKE_BLOCK;
     LANDLOCK_ACCESS_FS_MAKE_SYM].

Definition handled_access (abi : Z) : Z :=
  let h := base_access in
  let h := if bool_decide (2 ≤ abi) then Z.lor h LANDLOCK_ACCESS_FS_REFER else h in
  if bool_decide (3 ≤ abi) then Z.lor h LANDLOCK_ACCESS_FS_TRUNCATE else h.

Definition add_landlock_path_rule {G} (ruleset_descriptor : nat) (path : list byte)
    (allowed_access : Z) (required : bool) : prog ssys G (res unit) :=
  let* r := call (Open_path path) in
  match r with
  | Err e => ret (if required then Err e else Ok tt)
  | Ok path_descriptor =>
      let* r := call (Landlock_add_rule ruleset_descriptor allowed_access path_descriptor) in
      match r with
      | Err e => call (Close path_descriptor) ;;; ret (Err e)
      | Ok _ => call (Close path_descriptor) ;;; ret (Ok tt)
      end
  end.

Definition resolve_target_directory {G} (target_path : list byte) (capacity : nat)
    : prog ssys G (res (list byte)) :=
  let* r := call (Realpath target_path) in
  match r with
  | Err e => ret (Err e)
  | Ok path =>
      let resolved := path ++ [NUL] in
      match strrchr resolved x2f with
      | None => ret (Err EINVAL)
      | Some separator =>
          let resolved := if bool_decide (separator = 0%nat)
                          then <[1%nat := NUL]> resolved
                          else <[separator := NUL]> resolved in
          if bool_decide (capacity ≤ strlen resolved)%nat then ret (Err ENAMETOOLONG)
          else ret (Ok (c_string resolved))
      end
  end.

(** The rules, in the order of the source: path, access, required. *)
Definition landlock_rules (target_path target_directory : list byte)
    : list (list byte * Z * bool) :=
  [(target_path, runtime_file_access, true);
   (target_directory, runtime_directory_access, true);
   (txt "/usr", runtime_directory_access, true);
   (txt "/lib", runtime_directory_access, false);
   (txt "/lib64", runtime_directory_access, false);
   (txt "/etc/ld.so.cache", LANDLOCK_ACCESS_FS_READ_FILE, false);
   (txt "/etc/ld.so.preload", LANDLOCK_ACCESS_FS_READ_FILE, false);
   (txt "/dev/null", Z.lor LANDLOCK_ACCESS_FS_READ_FILE LANDLOCK_ACCESS_FS_WRITE_FILE, false);
   (txt "/dev/urandom", LANDLOCK_ACCESS_FS_READ_FILE, false);
   (txt "/dev/random", LANDLOCK_ACCESS_FS_READ_FILE, false)].

(** [add_landlock_path_rule(...) != 0 || add_landlock_path_rule(...) != 0 ...] *)
Fixpoint add_rules {G} (ruleset_descriptor : nat) (rules : list (list byte * Z * bool))
    : prog ssys G (res unit) :=
  match rules with
  | [] => ret (Ok tt)
  | (path, access, required) :: rules' =>
      let* r := add_landlock_path_rule ruleset_descriptor path access required in
      match r with
      | Err e => ret (Err e)
      | Ok _ => add_rules ruleset_descriptor rules'
      end
  end.

Definition sandbox_child_restrict_filesystem {G} (target_path : list byte)
    : prog ssys G (res unit) :=
  let* r := resolve_target_directory target_path 4096 in
  match r with
  | Err e => ret (Err e)
  | Ok target_directory =>
      let* r := call Landlock_abi in
      match r with
      | Err e => ret (Err e)
      | Ok abi =>
          if bool_decide (abi < 1) then ret (Err ENOTSUP) else
          let* r := call (Landlock_create_ruleset (handled_access abi)) in
          match r with
          | Err e => ret (Err e)
          | Ok ruleset_descriptor =>
              let* r := add_rules ruleset_descriptor
                          (landlock_rules target_path target_directory) in
              match r with
              | Err e => call (Close ruleset_descriptor) ;;; ret (Err e)
              | Ok _ =>
                  let* r := (let* r := call Set_no_new_privs in
                             match r with
                             | Err e => ret (Err e)
                             | Ok _ => call (Landlock_restrict_self ruleset_descriptor)
                             end) in
                  match r with
                  | Err e => call (Close ruleset_descriptor) ;;; ret (Err e)
                  | Ok _ => call (Close ruleset_descriptor)
                  end
              end
          end
      end
  end.

(** ** Descriptors and environment *)

(** [for (descriptor = first; ...; descriptor++) (void)close(descriptor);] for
    [n] descriptors. *)
Fixpoint close_from {G} (first n : nat) : prog ssys G unit :=
  match n with
  | O => ret tt
  | S n' => call (Close first) ;;; close_from (S first) n'
  end.

Definition sandbox_child_close_descriptors {G} : prog ssys G (res unit) :=
  let* r := call (Close_range 3) in
  match r with
  | Ok _ => ret (Ok tt)
  | Err e =>
      if bool_decide (e ≠ ENOSYS ∧ e ≠ EINVAL) then ret (Err e) else
      let* maximum := call Sysconf_open_max in
      let maximum := if bool_decide (maximum < 0 ∨ 1048576 < maximum)
                     then 1048576 else maximum in
      close_from 3 (Z.to_nat maximum - 3) ;;; ret (Ok tt)
  end.

Definition sandbox_child_environment : list string :=
  ["PATH=/usr/bin:/bin"; "LANG=C"; "LC_ALL=C"; "HOME=/nonexistent"; "TMPDIR=/tmp"].

(** ** What the ruleset grants

    Rights are read bit by bit, in the numbering of the kernel's Landlock
    interface: 0 execute, 1 write_file, 2 read_file, 3 read_dir, 4 to 12 the
    removals and creations, 13 refer (since ABI 2), 14 truncate (since ABI 3). *)

Definition reads_only (access : Z) : Prop :=
  ∀ bit, 0 ≤ bit → Z.testbit access bit = true → bit = 0 ∨ bit = 2 ∨ bit = 3.

Definition reads_or_writes (access : Z) : Prop :=
  ∀ bit, 0 ≤ bit → Z.testbit access bit = true → bit = 1 ∨ bit = 2.

(** The filesystem rights there are in a version of the interface, up to the
    third, the latest the program knows. *)
Definition landlock_rights (abi : Z) : Z :=
  Z.ones (if bool_decide (abi = 1) then 13 else if bool_decide (abi = 2) then 14 else 15).

(** [directory] is the directory part of the absolute path [path]. *)
Definition directory_of (path directory : list byte) : Prop :=
  ∃ name, x2f ∉ name ∧
    (path = directory ++ x2f :: name ∧ directory ≠ [] ∨
     path = x2f :: name ∧ directory = [x2f]).

Definition system_paths : list (list byte) :=
  txt <$> ["/usr"; "/lib"; "/lib64"; "/etc/ld.so.cache"; "/etc/ld.so.preload";
           "/dev/urandom"; "/dev/random"].

(** What a rule may grant below a path, after the calls [before]. *)
Definition rule_allowed (target : list byte) (before : strace) (path : list byte)
    (access : Z) : Prop :=
  (path = target ∨ path ∈ system_paths ∨
   ∃ real, happened (Realpath target) (Ok real) before ∧
     directory_of (c_string real) path) ∧ reads_only access ∨
  path = txt "/dev/null" ∧ reads_or_writes access.

(** Every rule added in the trace is allowed for the path whose descriptor it
    names, opened just before. *)
Fixpoint rules_allowed (target : list byte) (tr : strace) : Prop :=
  match tr with
  | [] => True
  | e :: before =>
      match e with
      | Ev (Landlock_add_rule _ access fd) _ =>
          ∃ path rest, before = Ev (Open_path path) (Ok fd) :: rest ∧
            rule_allowed target before path access
      | _ => True
      end ∧ rules_allowed target before
  end.

(** The process confined itself for good: the kernel told its version, made a
    ruleset that handles all the rights of that version, and enforced it. *)
Definition confined (tr : strace) : Prop :=
  ∃ abi fd, 1 ≤ abi ∧ happened Landlock_abi (Ok abi) tr ∧
    happened (Landlock_create_ruleset (landlock_rights abi)) (Ok fd) tr ∧
    happened Set_no_new_privs (Ok tt) tr ∧
    happened (Landlock_restrict_self fd) (Ok tt) tr.

Definition rule_path (r : list byte * Z * bool) : list byte := r.1.1.
Definition rule_access (r : list byte * Z * bool) : Z := r.1.2.

(** ** Lemmas *)

Lemma handled_access_all abi : 1 ≤ abi → handled_access abi = landlock_rights abi.
Proof.
  intros H. unfold handled_access, landlock_rights.
  repeat case_bool_decide; try lia; reflexivity.
Qed.

(** A bit of one of the three access values of the source. *)
Lemma access_bits access bit n :
  0 ≤ bit → Z.testbit access bit = true → 0 ≤ access < 2 ^ n → 0 ≤ n → bit < n.
Proof.
  intros Hb Ht Ha Hn. destruct (Z.lt_ge_cases bit n) as [|Hge]; [done|].
  rewrite (Z.bits_above_log2 access bit) in Ht; [done|lia|].
  destruct (decide (access = 0)) as [->|]; [by rewrite Z.testbit_0_l in Ht|].
  assert (Z.log2 access < n) by (apply Z.log2_lt_pow2; lia). lia.
Qed.

Ltac by_bits :=
  intros bit Hb Ht; assert (bit < 4) by (eapply access_bits; [done|exact Ht|by vm_compute|lia]);
  assert (bit = 0 ∨ bit = 1 ∨ bit = 2 ∨ bit = 3) as [->|[->|[->| ->]]] by lia;
  auto; by vm_compute in Ht.

Lemma runtime_directory_reads : reads_only runtime_directory_access.
Proof. by_bits. Qed.

Lemma runtime_file_reads : reads_only runtime_file_access.
Proof. by_bits. Qed.

Lemma read_file_reads : reads_only LANDLOCK_ACCESS_FS_READ_FILE.
Proof. by_bits. Qed.

Lemma null_device_reads_or_writes :
  reads_or_writes (Z.lor LANDLOCK_ACCESS_FS_READ_FILE LANDLOCK_ACCESS_FS_WRITE_FILE).
Proof. by_bits. Qed.

Lemma last_index_Some p l i :
  last_index p l = Some i →
  ∃ front c back, l = front ++ c :: back ∧ p c = true ∧
    Forall (λ d, p d = false) back ∧ length front = i.
Proof.
  revert i. induction l as [|c l IH]; intros i; simpl; [done|].
  destruct (last_index p l) as [j|] eqn:E.
  - intros [= <-]. destruct (IH j eq_refl) as (front & d & back & -> & ? & ? & <-).
    by exists (c :: front), d, back.
  - destruct (p c) eqn:Hc; [|done]. intros [= <-]. exists [], c, l. split_and!; try done.
    clear IH Hc. induction l as [|d l IH]; [done|]. simpl in E.
    destruct (last_index p l); [done|]. destruct (p d) eqn:Hd; [done|]. auto.
Qed.

(** The directory the code computes from the resolved path. *)
Lemma directory_of_resolved path separator :
  strrchr (path ++ [NUL]) x2f = Some separator →
  directory_of (c_string path)
    (c_string (if bool_decide (separator = 0%nat) then <[1%nat := NUL]> (path ++ [NUL])
               else <[separator := NUL]> (path ++ [NUL]))).
Proof.
  assert (∃ r, path ++ [NUL] = c_string path ++ NUL :: r) as (r & Hr).
  { destruct (c_string_cases path) as [(r & Hp & _)|[Hp _]]; [exists (r ++ [NUL])|exists []].
    - by rewrite Hp at 1; rewrite <- (assoc_L app).
    - by rewrite <- Hp. }
  rewrite Hr. pose proof (c_string_no_nul path) as HN. unfold strrchr.
  rewrite c_string_app by done.
  intros (front & c & back & Hq & Hc%bool_decide_eq_true & Hback & Hi)%last_index_Some.
  subst c. rewrite Hq in *. exists back. split.
  { intros Hin. rewrite Forall_forall in Hback. apply Hback, bool_decide_eq_false in Hin. done. }
  apply not_elem_of_app in HN as [HN _].
  destruct front as [|f front]; simpl in Hi; subst separator.
  - right. split; [done|]. simpl. by destruct back.
  - left. rewrite bool_decide_false by done. rewrite <- (assoc_L app).
    change (S (length front)) with (length (f :: front)).
    assert (c_string (<[length (f :: front) := NUL]>
              ((f :: front) ++ (x2f :: back) ++ NUL :: r)) = f :: front) as ->; [|done].
    etrans; [exact (f_equal c_string (insert_middle (f :: front) (back ++ NUL :: r) x2f NUL))|].
    by apply c_string_app.
Qed.

(** What the source grants, for a directory computed as above. *)
Lemma landlock_rules_allowed target real directory (before : strace) :
  happened (Realpath target) (Ok real) before → directory_of (c_string real) directory →
  Forall (λ r, ∀ new, rule_allowed target (new ++ before) (rule_path r) (rule_access r))
    (landlock_rules target directory).
Proof.
  intros Hreal Hdir. unfold landlock_rules, rule_path, rule_access.
  repeat (apply Forall_cons; split; [intros new; cbn [fst snd]|]); [..|constructor].
  1: by left; split; [left|apply runtime_file_reads].
  1: { left. split; [|apply runtime_directory_reads]. right; right. exists real.
       split; [|done]. eapply happened_extends; [by eexists|done]. }
  all: try (by right; split; [|apply null_device_reads_or_writes]).
  all: left; (split; [right; left; by apply (bool_decide_unpack _)|]);
    first [apply runtime_directory_reads|apply read_file_reads].
Qed.

Lemma add_rules_allowed {G} K target fd rules (w : world ssys G) :
  Forall (λ r, ∀ new, rule_allowed target (new ++ trace w) (rule_path r) (rule_access r)) rules →
  rules_allowed target (trace w) →
  wp K (add_rules fd rules) (post (λ _ w', rules_allowed target (trace w') ∧
    extends (trace w) (trace w')) (λ _ _, False)) w.
Proof.
  intros Hrules. revert w Hrules. induction rules as [|[[path access] required] rules IH];
    intros w Hrules Hw; cbn [add_rules]; wp_steps; [by split; [|apply extends_refl]|].
  apply Forall_cons in Hrules as [Hr Hrules]. cbn [rule_path rule_access fst snd] in Hr.
  assert (∀ w1 : world ssys G, rules_allowed target (trace w1) → extends (trace w) (trace w1) →
    wp K (add_rules fd rules)
      (post (λ _ w', rules_allowed target (trace w') ∧ extends (trace w) (trace w'))
            (λ _ _, False)) w1) as Hrest.
  { intros w1 Hw1 [new He]. eapply wp_mono; [apply IH; [|done]|].
    - eapply Forall_impl; [exact Hrules|]. cbn beta. intros r Hok n. rewrite He, (assoc_L app).
      apply Hok.
    - intros [r|h] w2; [|done]. intros [? ?]. split; [done|].
      eapply extends_trans; [|done]. by exists new. }
  unfold add_landlock_path_rule. wp_steps.
  destruct (K _ _ (Open_path path)) as [pfd|e] eqn:Eo; wp_steps.
  - destruct (K _ _ (Landlock_add_rule _ _ _)) as [[]|e] eqn:Er; wp_steps; [apply Hrest|split];
      try (by do 3 apply extends_cons; apply extends_refl); cbn [trace rules_allowed];
      (split; [done|]); (split; [|by split]); eexists _, _;
      (split; [reflexivity|]); exact (Hr [_]).
  - destruct required; wp_steps; [split|apply Hrest];
      try (by apply extends_cons, extends_refl); by split.
Qed.

(** ** Properties *)

