(* ===== verification/SandboxChild.v ===== *)
(** * Sandbox.c: the child, from [fork] to [execve]

    The launch pipe, the reset of the signal handlers, and
    [run_sandbox_child], which never returns. *)

From S2P Require Import Prelude.
From S2P Require Import CLib.
From S2P Require Import SandboxSys.
From S2P Require Import SandboxOptions.
From S2P Require Import NetworkFilter.
From S2P Require Import Hardening.
Local Open Scope Z_scope.

(** [sigaction] for each signal of a list, stopping at the first failure. *)
Fixpoint set_actions {G} (signals : list Z) (d : disposition) : prog ssys G (res unit) :=
  match signals with
  | [] => ret (Ok tt)
  | s :: signals' =>
      let* r := call (Sigaction s d) in
      match r with
      | Err e => ret (Err e)
      | Ok _ => set_actions signals' d
      end
  end.

Definition reset_child_signal_handlers {G} : prog ssys G (res unit) :=
  set_actions [SIGINT; SIGTERM; SIGHUP; SIGPIPE] Default.

Definition wait_for_launch_permission {G} (fuel descriptor : nat) : prog ssys G (res unit) :=
  let* r := loop fuel (λ _ : unit,
    let* r := call (Read descriptor 1) in
    match r with
    | Err e => if is_eintr e then ret (inl tt) else ret (inr (Err e))
    | Ok data => ret (inr (Ok data))
    end) tt in
  match r with
  | Err e => ret (Err e)
  | Ok data =>
      if bool_decide (length data ≠ 1%nat ∨ char_at data 0 ≠ x01)
      then ret (Err ECANCELED) else ret (Ok tt)
  end.

(** The error number is only set when [write] failed. *)
Definition release_child {G} (fuel descriptor : nat) : prog ssys G (res unit) :=
  let* r := loop fuel (λ _ : unit,
    let* r := call (Write descriptor [x01]) in
    match r with
    | Err e => if is_eintr e then ret (inl tt) else ret (inr (Err e))
    | Ok n => ret (inr (Ok n))
    end) tt in
  match r with
  | Err e => ret (Err e)
  | Ok n => if bool_decide (n = 1%nat) then ret (Ok tt) else ret (Err 0)
  end.

(** A step of the child: on an error it says so and exits. *)
Definition child_step {G} (message : string) (m : prog ssys G (res unit)) : prog ssys G unit :=
  let* r := m in
  match r with
  | Err e => dprintf message [AErrno e] ;;; halting (Exited 127)
  | Ok _ => ret tt
  end.

Definition run_sandbox_child {G} (fuel : nat) (options : SandboxOptions)
    (launch_read_descriptor launch_write_descriptor : nat) (expected_parent : Z)
    : prog ssys G unit :=
  call (Close launch_write_descriptor) ;;;
  child_step "sandbox child: could not reset signal handlers: %s\n"
    reset_child_signal_handlers ;;;
  child_step "sandbox child: setpgid() failed: %s\n" (call (Setpgid 0 0)) ;;;
  child_step "sandbox child: PR_SET_PDEATHSIG failed: %s\n"
    (sandbox_child_set_parent_death_signal expected_parent) ;;;
  child_step "sandbox child: resource-limit setup failed: %s\n"
    (sandbox_child_set_resource_limits (memory_limit_kilobytes options)) ;;;
  child_step "sandbox child: launch cancelled before isolation: %s\n"
    (wait_for_launch_permission fuel launch_read_descriptor) ;;;
  call (Close launch_read_descriptor) ;;;
  child_step "sandbox child: Landlock filesystem isolation failed: %s\n"
    (sandbox_child_restrict_filesystem (target_path options)) ;;;
  child_step "sandbox child: seccomp network isolation failed: %s\n"
    sandbox_child_install_network_filter ;;;
  child_step "sandbox child: descriptor cleanup failed: %s\n"
    sandbox_child_close_descriptors ;;;
  let* r := call (Execve (target_path options) (target_argv options)
                         sandbox_child_environment) in
  match r with
  | None => halting Replaced
  | Some e =>
      dprintf "sandbox child: execve(%s) failed: %s\n"
        [AStr (target_path options); AErrno e] ;;;
      halting (Exited 127)
  end.

(** ** What must have happened before the target runs *)

Definition is_execve (e : event ssys) : bool :=
  match e with Ev (Execve _ _ _) _ => true | _ => false end.

Definition limits_set (limit_kilobytes : Z) (tr : strace) : Prop :=
  happened (Setrlimit RLIMIT_CORE 0 0) (Ok tt) tr ∧
  (0 < limit_kilobytes →
   happened (Setrlimit RLIMIT_AS (limit_kilobytes * 1024) (limit_kilobytes * 1024)) (Ok tt) tr).

(** The process restricted itself to a ruleset that handles every access
    right of the Landlock version of the kernel. *)
Definition filesystem_restricted (tr : strace) : Prop :=
  ∃ abi fd, 1 ≤ abi ∧ happened Landlock_abi (Ok abi) tr ∧
    happened (Landlock_create_ruleset (landlock_rights abi)) (Ok fd) tr ∧
    happened (Landlock_restrict_self fd) (Ok tt) tr.

Definition descriptors_closed (tr : strace) : Prop :=
  happened (Close_range 3) (Ok tt) tr ∨
  ∃ maximum, happened Sysconf_open_max maximum tr ∧
    ∀ fd : nat, (3 ≤ fd)%nat → Z.of_nat fd < 1048576 →
      (0 ≤ maximum ≤ 1048576 → Z.of_nat fd < maximum) →
      ∃ r, happened (Close fd) r tr.

Record hardened (limit_kilobytes expected_parent : Z) (launch_read_descriptor : nat)
    (tr : strace) : Prop := {
  own_group : happened (Setpgid 0 0) (Ok tt) tr;
  dies_with_parent : happened (Set_pdeathsig SIGKILL) (Ok tt) tr;
  parent_checked : happened Getppid expected_parent tr;
  limited : limits_set limit_kilobytes tr;
  permitted : happened (Read launch_read_descriptor 1) (Ok [x01]) tr;
  restricted : filesystem_restricted tr;
  no_new_privs : happened Set_no_new_privs (Ok tt) tr;
  filtered : happened (Set_seccomp_filter network_filter) (Ok tt) tr;
  closed : descriptors_closed tr
}.

(** ** Lemmas *)

(** The trace grew by events that are no [execve]. *)
Notation grows := (grown (λ e, is_execve e = false)).

Lemma emits_grows {G A} (m : prog ssys G A) K w :
  Emits (λ e, is_execve e = false) m →
  wp K m (λ _ w', grows (trace w) (trace w')) w.
Proof. intros H. apply H. Qed.

#[export] Instance set_actions_emits {G} l d :
  Emits (λ e, is_execve e = false) (@set_actions G l d).
Proof. induction l as [|s l IH]; cbn [set_actions]; solve_emits. Qed.

#[export] Instance add_rules_emits {G} fd rules :
  Emits (λ e, is_execve e = false) (@add_rules G fd rules).
Proof.
  induction rules as [|[[p a] r] rules IH]; cbn [add_rules];
    unfold add_landlock_path_rule; solve_emits.
Qed.

#[export] Instance close_from_emits {G} first n :
  Emits (λ e, is_execve e = false) (@close_from G first n).
Proof. revert first. induction n as [|n IH]; intros first; cbn [close_from]; solve_emits. Qed.

(** A step whose success is a fact about the trace. *)
Definition step_spec {G} (K : kernel ssys) (m : prog ssys G (res unit))
    (fact : strace → Prop) : Prop :=
  ∀ w, wp K m (post (λ r w', grows (trace w) (trace w') ∧
                             ∀ u, r = Ok u → fact (trace w'))
                    (λ h w', h = OutOfFuel ∧ grows (trace w) (trace w'))) w.

(** A step that failed, or whose success says nothing. *)
Ltac grown :=
  cbn [trace]; repeat (apply grown_cons; [done|]); first [reflexivity|done].
Ltac no_fact := split; [grown|by intros].

Lemma step_call {G} (K : kernel ssys) (c : ssys (res unit)) :
  (∀ r, is_execve (Ev c r) = false) →
  step_spec K (call c : prog ssys G _) (happened c (Ok tt)).
Proof.
  intros Hc w. wp_steps. split; [grown|]. intros [] ->. apply happened_here.
Qed.

Lemma step_weaken {G} (K : kernel ssys) (m : prog ssys G (res unit)) (P Q : strace → Prop) :
  step_spec K m P → (∀ tr, P tr → Q tr) → step_spec K m Q.
Proof.
  intros Hm HPQ w. eapply wp_mono; [apply Hm|]. intros [r|h] w'; simpl; [|done].
  intros [Hg Hok]. split; [done|]. eauto.
Qed.


Lemma step_reset {G} K : step_spec (G:=G) K reset_child_signal_handlers (λ _, True).
Proof.
  intros w. unfold reset_child_signal_handlers. cbn [set_actions].
  repeat (wp_steps; match goal with |- context [K ?T ?t ?c] => destruct (K T t c) eqn:? end;
          wp_steps; try no_fact).
Qed.

Lemma step_parent_death {G} K parent :
  step_spec (G:=G) K (sandbox_child_set_parent_death_signal parent)
    (λ tr, happened (Set_pdeathsig SIGKILL) (Ok tt) tr ∧ happened Getppid parent tr).
Proof.
  intros w. unfold sandbox_child_set_parent_death_signal. wp_steps.
  destruct (K _ _ (Set_pdeathsig _)) as [[]|e] eqn:E; wp_steps; [|no_fact].
  wp_decide Hp; wp_steps; [no_fact|]. split; [grown|].
  intros u _. apply dec_stable in Hp as ->.
  split; [|apply happened_here]. did.
Qed.

Lemma step_limits {G} K limit :
  0 ≤ limit ≤ 4194304 →
  step_spec (G:=G) K (sandbox_child_set_resource_limits limit) (limits_set limit).
Proof.
  intros Hlimit w. unfold sandbox_child_set_resource_limits, limits_set. wp_steps.
  destruct (K _ _ (Setrlimit RLIMIT_CORE 0 0)) as [[]|e] eqn:E; wp_steps; [|no_fact].
  case_bool_decide.
  2:{ wp_steps. split; [grown|]. intros u _. split; [apply happened_here|lia]. }
  rewrite !Z.mod_mod, !Z.mod_small by lia. rewrite bool_decide_false by auto. wp_steps.
  split; [grown|]. intros [] Hr. rewrite Hr. split.
  - did.
  - intros _. apply happened_here.
Qed.

Lemma step_permission {G} K fuel fd :
  step_spec (G:=G) K (wait_for_launch_permission fuel fd) (happened (Read fd 1) (Ok [x01])).
Proof.
  intros w. unfold wait_for_launch_permission. wp_steps.
  apply (wp_loop_inv K (λ _ w', grows (trace w) (trace w'))); [|done|done].
  intros [] w' Hg. wp_steps. destruct (K _ _ (Read fd 1)) as [data|e] eqn:E.
  - wp_steps. case_bool_decide as Hdata; wp_steps; [no_fact|].
    split; [grown|]. intros u _.
    assert (data = [x01]) as ->; [|apply happened_here].
    destruct data as [|c [|]]; unfold char_at in Hdata; simpl in Hdata.
    + destruct Hdata. by left.
    + destruct (decide (c = x01)); [by subst|]. tauto.
    + destruct Hdata. by left.
  - destruct (is_eintr e); wp_steps; [grown|no_fact].
Qed.

Lemma step_filter {G} K :
  step_spec (G:=G) K sandbox_child_install_network_filter
    (λ tr, happened Set_no_new_privs (Ok tt) tr ∧
           happened (Set_seccomp_filter network_filter) (Ok tt) tr).
Proof.
  intros w. unfold sandbox_child_install_network_filter. wp_steps.
  destruct (K _ _ Set_no_new_privs) as [[]|e] eqn:E; wp_steps; [|no_fact].
  split; [grown|]. intros [] ->. split; [|apply happened_here].
  did.
Qed.

#[export] Instance resolve_target_returns {G} path capacity :
  Returns (@resolve_target_directory G path capacity).
Proof. unfold resolve_target_directory. solve_returns. Qed.
#[export] Instance resolve_target_emits {G} path capacity :
  Emits (λ e, is_execve e = false) (@resolve_target_directory G path capacity).
Proof. unfold resolve_target_directory. solve_emits. Qed.
#[export] Instance resolve_target_keeps {G} path capacity :
  Keeps (λ g : G, g) (@resolve_target_directory G path capacity).
Proof. unfold resolve_target_directory. solve_keeps. Qed.
#[export] Instance add_rules_returns {G} fd rules : Returns (@add_rules G fd rules).
Proof.
  induction rules as [|[[p a] r] rules IH]; cbn [add_rules];
    unfold add_landlock_path_rule; solve_returns.
Qed.
#[export] Instance add_rules_keeps {G} fd rules :
  Keeps (λ g : G, g) (@add_rules G fd rules).
Proof.
  induction rules as [|[[p a] r] rules IH]; cbn [add_rules];
    unfold add_landlock_path_rule; solve_keeps.
Qed.

Lemma step_filesystem {G} K path :
  step_spec (G:=G) K (sandbox_child_restrict_filesystem path) filesystem_restricted.
Proof.
  intros w. unfold sandbox_child_restrict_filesystem. wp_steps.
  apply (wp_quiet (λ e, is_execve e = false)); try apply _. intros [dir|e] new0 H0; wp_steps.
  2:{ split; [by exists new0|done]. }
  assert (grows (trace w) (new0 ++ trace w)) as Hg0 by by exists new0.
  destruct (K _ _ Landlock_abi) as [abi|e] eqn:Eabi; wp_steps; [|no_fact].
  case_bool_decide as Habi; wp_steps; [no_fact|]. rewrite handled_access_all by lia.
  destruct (K _ _ (Landlock_create_ruleset _)) as [fd|e] eqn:Efd; wp_steps; [|no_fact].
  apply (wp_quiet (λ e, is_execve e = false)); try apply _. intros [[]|e] new1 H1; wp_steps.
  - match goal with |- context [new1 ++ ?t] =>
      assert (grows (trace w) (new1 ++ t)) as Hg1 by
        (transitivity t; [grown|by exists new1]) end.
    destruct (K _ _ Set_no_new_privs) as [[]|e] eqn:Enp; wp_steps; [|no_fact].
    destruct (K _ _ (Landlock_restrict_self _)) as [[]|e] eqn:Ers; wp_steps; [|no_fact].
    split; [grown|]. intros u _. exists abi, fd. split; [lia|]. split_and!; did.
  - match goal with |- context [new1 ++ ?t] =>
      assert (grows (trace w) (new1 ++ t)) as Hg1 by
        (transitivity t; [grown|by exists new1]) end. no_fact.
Qed.

Lemma close_from_closes {G} K first n (w : world ssys G) :
  wp K (close_from first n) (post (λ _ w', grows (trace w) (trace w') ∧
    ∀ fd, (first ≤ fd < first + n)%nat → ∃ r, happened (Close fd) r (trace w'))
    (λ _ _, False)) w.
Proof.
  revert first w. induction n as [|n IH]; intros first w; cbn [close_from]; wp_steps.
  { split; [grown|]. intros fd ?. lia. }
  eapply wp_mono; [apply IH|]. intros [[]|h] w'; [|done]. intros [Hg Hall].
  split; [transitivity (Ev (Close first) (K (res ()) (trace w) (Close first)) :: trace w); [grown|done]|].
  intros fd Hfd. destruct (decide (fd = first)) as [->|]; [|apply Hall; lia].
  eexists. eapply happened_extends; [by eapply grown_extends|]. apply happened_here.
Qed.

Lemma step_close {G} K :
  step_spec (G:=G) K sandbox_child_close_descriptors descriptors_closed.
Proof.
  intros w. unfold sandbox_child_close_descriptors. wp_steps.
  destruct (K _ _ (Close_range 3)) as [[]|e] eqn:Ec; wp_steps.
  { split; [grown|]. intros u _. left. did. }
  case_bool_decide; wp_steps; [no_fact|].
  set (maximum := K _ _ Sysconf_open_max). set (limit := if bool_decide _ then _ else maximum).
  eapply wp_mono; [apply close_from_closes|]. intros [[]|h] w'; [|done]. intros [Hg Hall].
  wp_steps. cbn [trace] in Hg. split.
  { etrans; [|exact Hg]. grown. }
  intros u _. right. exists maximum. split.
  { eapply happened_extends; [by eapply grown_extends|]. did. }
  intros fd Hfd Hmax Hle. apply Hall. subst limit. case_bool_decide; [lia|].
  assert (0 ≤ maximum ≤ 1048576) by lia. specialize (Hle ltac:(done)). lia.
Qed.

(** A step of the child either succeeds, or ends the child. *)
Lemma wp_child_step {G} (K : kernel ssys) message (m : prog ssys G (res unit)) fact
    (Q : outcome unit → world ssys G → Prop) w :
  step_spec K m fact →
  (∀ w1, grows (trace w) (trace w1) → fact (trace w1) → Q (Ret tt) w1) →
  (∀ h w1, grows (trace w) (trace w1) → h = Exited 127 ∨ h = OutOfFuel → Q (Halt h) w1) →
  wp K (child_step message m) Q w.
Proof.
  intros Hm Hok Hfail. unfold child_step. rewrite wp_bind. unfold wp at 1.
  specialize (Hm w). unfold wp in Hm. destruct (m K w) as [[[u|e]|h] w1]; simpl in *.
  - destruct Hm as [Hg Hf]. wp_steps. apply Hok; [done|]. by apply (Hf u).
  - destruct Hm as [Hg _]. unfold dprintf. wp_steps. apply Hfail; [|by left]. by apply grown_cons.
  - destruct Hm as [-> Hg]. apply Hfail; [done|by right].
Qed.

(** The outcome of the child, [tr0] being its trace when it started. *)
Definition child_outcome {G} (options : SandboxOptions) (fd : nat) (parent : Z)
    (o : outcome unit) (w : world ssys G) : Prop :=
  (o = Halt Replaced ∨ o = Halt (Exited 127) ∨ o = Halt OutOfFuel) ∧
  guarded_by is_execve (hardened (memory_limit_kilobytes options) parent fd) (trace w) ∧
  (∀ path argv envp r, happened (Execve path argv envp) r (trace w) →
     path = target_path options ∧ argv = target_argv options ∧
     envp = sandbox_child_environment) ∧
  (o = Halt Replaced →
   happened (Execve (target_path options) (target_argv options) sandbox_child_environment)
            None (trace w)).

(** The child that ended before its [execve]. *)
Lemma child_failed {G} options fd parent h (w : world ssys G) :
  grows [] (trace w) → h = Exited 127 ∨ h = OutOfFuel →
  child_outcome options fd parent (Halt h) w.
Proof.
  intros (new & Htr & Hnew) Hh. rewrite app_nil_r in Htr. unfold child_outcome.
  rewrite Htr. split_and!.
  - destruct Hh as [->| ->]; auto.
  - rewrite <- (app_nil_r new). by apply guarded_by_app.
  - intros path argv envp r Hin. rewrite Forall_forall in Hnew. by apply Hnew in Hin.
  - intros [= ->]. by destruct Hh.
Qed.

Lemma limits_set_extends limit tr tr' :
  extends tr tr' → limits_set limit tr → limits_set limit tr'.
Proof.
  intros He [H1 H2]. split; [by eapply happened_extends|].
  intros Hpos. by eapply happened_extends; [|apply H2].
Qed.

Lemma filesystem_restricted_extends tr tr' :
  extends tr tr' → filesystem_restricted tr → filesystem_restricted tr'.
Proof.
  intros He (abi & fd & ? & ? & ? & ?). exists abi, fd.
  split_and!; [done|by eapply happened_extends..].
Qed.

(** The child that got as far as its [execve]. *)
Lemma child_executed {G} options fd parent r o (w : world ssys G) tr :
  grows [] tr → hardened (memory_limit_kilobytes options) parent fd tr →
  (o = Halt Replaced ∧ r = None ∧
   trace w = Ev (Execve (target_path options) (target_argv options) sandbox_child_environment) r :: tr) ∨
  (∃ e message args, o = Halt (Exited 127) ∧ r = Some e ∧
   trace w = Ev (Dprintf message args) tt ::
     Ev (Execve (target_path options) (target_argv options) sandbox_child_environment) r :: tr) →
  child_outcome options fd parent o w.
Proof.
  intros (new & Htr & Hnew) Hhard Hcases. rewrite app_nil_r in Htr. subst new.
  assert (guarded_by is_execve (hardened (memory_limit_kilobytes options) parent fd) tr) as Hg.
  { rewrite <- (app_nil_r tr). by apply guarded_by_app. }
  rewrite Forall_forall in Hnew.
  assert (∀ path argv envp r', Ev (Execve path argv envp) r' ∉ tr) as Hno
    by by intros path argv envp r' Hin%Hnew.
  destruct Hcases as [(-> & -> & Hw)|(e & message & args & -> & -> & Hw)];
    unfold child_outcome; rewrite Hw; (split_and!; [by auto| | |]).
  - by split.
  - intros path argv envp r [Heq|Hin]%elem_of_cons; [|by destruct (Hno _ _ _ _ Hin)].
    by inversion Heq.
  - intros _. did.
  - split; [done|]. by split.
  - intros path argv envp r [Heq|[Heq|Hin]%elem_of_cons]%elem_of_cons;
      [done|by inversion Heq|by destruct (Hno _ _ _ _ Hin)].
  - done.
Qed.

(** One step of the child: the goal's world is a variable, whose trace grew
    from the start. *)
Ltac child_step_by spec :=
  wp_steps;
  match goal with
  | H : grows [] (trace ?w) |- wp _ (child_step _ _) _ ?w =>
      eapply wp_child_step; [by apply spec| |];
      [ let w' := fresh "w" in
        intros w' ?Hgrow ?Hfact; cbn beta in *;
        assert (grows [] (trace w')) by (etrans; [exact H|eassumption])
      | intros ? ? ? ?; apply child_failed; [etrans; [exact H|eassumption]|done] ]
  end.

(** The goal's world becomes a variable, whose trace grew from that of [w]. *)
Ltac forget_world w :=
  let w' := fresh "w" in
  set (w' := World _ _);
  assert (grows (trace w) (trace w')) by (subst w'; grown);
  assert (grows [] (trace w')) by (subst w'; grown);
  clearbody w'.

(** Everything that grew into a trace [fin] is known to be part of it. *)
Ltac all_extend fin :=
  repeat match goal with
  | Hg : grows (trace ?a) (trace ?b), E : extends (trace ?b) fin |- _ =>
      lazymatch goal with
      | _ : extends (trace a) fin |- _ => fail
      | _ => assert (extends (trace a) fin) by
               (eapply extends_trans; [by eapply grown_extends|exact E])
      end
  end.

(** ** Properties *)

(** C7. The target program never runs unhardened.  Whatever the kernel answers,
    the child never returns to the controller's code: it is replaced by the
    target or exits with 127.  It calls [execve] at most with the target, the
    arguments after it and the fixed environment, and only after the process
    got its own group, dies with its parent, which is still the controller,
    cannot dump core and has its memory limit when there is one, was released
    by the controller's byte, restricted itself to a Landlock ruleset handling
    every access right, gave up new privileges, installed the network filter,
    and closed the descriptors from 3 on. *)
Theorem run_sandbox_child_hardens {G} K fuel options fd wfd parent (g : G) :
  0 ≤ memory_limit_kilobytes options ≤ 4194304 →
  wp K (run_sandbox_child fuel options fd wfd parent)
    (child_outcome options fd parent) (World g []).
Proof.
  intros Hlimit. unfold run_sandbox_child. wp_steps. set (w0 := World _ _).
  assert (grows [] (trace w0)) by (subst w0; grown). clearbody w0.
  child_step_by (step_reset (G:=G) K).
  child_step_by (step_call (G:=G) K (Setpgid 0 0)).
  child_step_by (step_parent_death (G:=G) K parent).
  child_step_by (step_limits (G:=G) K _ Hlimit).
  child_step_by (step_permission (G:=G) K fuel fd).
  wp_steps. forget_world w4.
  child_step_by (step_filesystem (G:=G) K (target_path options)).
  child_step_by (step_filter (G:=G) K).
  child_step_by (step_close (G:=G) K).
  wp_steps. match goal with H : descriptors_closed (trace ?w) |- _ =>
    pose proof (extends_refl (trace w)); all_extend (trace w);
    assert (hardened (memory_limit_kilobytes options) parent fd (trace w)) end.
  { destruct_and!. split; try done; first
      [ by eapply happened_extends; [|eassumption]
      | by eapply limits_set_extends; [|eassumption]
      | by eapply filesystem_restricted_extends; [|eassumption] ]. }
  destruct (K _ _ (Execve _ _ _)) as [e|] eqn:E; unfold dprintf; wp_steps;
    (match goal with H : hardened _ _ _ (trace ?w) |- _ =>
       eapply (child_executed _ _ _ _ _ _ (trace w)); [done|done|] end).
  - right. eexists e, _, _. split_and!; [done|reflexivity|]. cbn [trace].
    by destruct (K unit _ (Dprintf _ _)).
  - left. split_and!; [done|reflexivity|]. cbn [trace]. reflexivity.
Qed.

Definition sample_options : SandboxOptions :=
  Options (txt "/opt/build/target") [txt "/opt/build/target"; txt "-x"] 5 24576.

Lemma run_sandbox_child_hardens_witness :
  (run_sandbox_child 1 sample_options 3 4 100 (scenario_kernel nothing) (World tt [])).1 =
    Halt Replaced ∧
  child_outcome sample_options 3 100 (Halt Replaced)
    (run_sandbox_child 1 sample_options 3 4 100 (scenario_kernel nothing) (World tt [])).2.
Proof.
  assert ((run_sandbox_child 1 sample_options 3 4 100 (scenario_kernel nothing) (World tt [])).1 =
    Halt Replaced) as E by (vm_compute; reflexivity).
  split; [exact E|]. rewrite <- E.
  apply (run_sandbox_child_hardens (scenario_kernel nothing) 1 sample_options 3 4 100 tt).
  split; discriminate.
Defined.
