(* ===== verification/Monitors.v ===== *)
(** * monitor.c: the three monitor threads

    Each is a loop that looks at the shared state, takes a measurement, may
    request the termination of the workload, and sleeps.  [fuel] bounds the
    iterations of the loop and of the loops inside it. *)

From S2P Require Import Prelude.
From S2P Require Import CLib.
From S2P Require Import SandboxSys.
From S2P Require Import Logger.
From S2P Require Import MonitorState.
From S2P Require Import History.
From S2P Require Import ProcStat.
From S2P Require Import ProcessTree.
From S2P Require Import Cgroup.
Local Open Scope Z_scope.

(** [int64_t] arithmetic on times of a monotonic clock, which does not come
    near its bounds; the conversion to [uint64_t] wraps. *)
Definition elapsed_milliseconds (start current : Z * Z) : Z :=
  ((current.1 - start.1) * 1000 + Z.quot (current.2 - start.2) 1000000) `mod` 2 ^ 64.

(** [request] with its result dropped. *)
Definition request_ (reason : SandboxTerminationReason) : Controller unit :=
  let* _ := sandbox_state_request_termination reason in ret tt.

Definition monitor_error (format : string) (args : list arg) : Controller unit :=
  logger_error format args ;;; request_ TERMINATION_MONITOR_ERROR.

(** Looking at the shared state: [None] when the thread is to end. *)
Definition still_supervised : Controller (option SandboxStateSnapshot) :=
  let* r := sandbox_state_snapshot in
  match r with
  | None => ret None
  | Some snapshot =>
      if negb (workload_alive snapshot) || termination_requested snapshot
      then ret None else ret (Some snapshot)
  end.

(** The end of an iteration. *)
Definition monitor_sleep {S} (fuel : nat) (poll : Z) (message : string) (s : S)
    : Controller (S + unit) :=
  let* r := sleep_milliseconds fuel poll in
  match r with
  | Err e => monitor_error message [AErrno e] ;;; ret (inr tt)
  | Ok _ => ret (inl s)
  end.

(** ** The timeout *)

Definition timeout_step (fuel : nat) (timeout_seconds poll : Z) (start : Z * Z) (_ : unit)
    : Controller (unit + unit) :=
  let* supervised := still_supervised in
  match supervised with
  | None => ret (inr tt)
  | Some snapshot =>
      let* r := call Clock_gettime in
      match r with
      | Err e =>
          monitor_error "timeout monitor could not update monotonic clock: %s" [AErrno e] ;;;
          ret (inr tt)
      | Ok current =>
          if bool_decide (timeout_seconds * 1000 ≤ elapsed_milliseconds start current) then
            let* request_result := sandbox_state_request_termination TERMINATION_TIMEOUT in
            if bool_decide (0 < request_result) then
              logger_warn "timeout exceeded after %u seconds; termination requested for process tree rooted at PID %ld"
                [AInt timeout_seconds; AInt (child_pid snapshot)] ;;;
              ret (inr tt)
            else ret (inr tt)
          else monitor_sleep fuel poll "timeout monitor sleep failed: %s" tt
      end
  end.

Definition timeout_monitor_thread (fuel : nat) (timeout_seconds poll : Z) : Controller unit :=
  let* r := call Clock_gettime in
  match r with
  | Err e =>
      monitor_error "timeout monitor could not read monotonic clock: %s" [AErrno e]
  | Ok start =>
      logger_info "timeout monitor started: limit=%u seconds" [AInt timeout_seconds] ;;;
      loop fuel (timeout_step fuel timeout_seconds poll start) tt
  end.

(** ** The memory limit *)

(** A measurement: kilobytes, processes, and the name of its source; [None]
    when the thread is to end. *)
Definition measure_memory (fuel : nat) (cgroup : SandboxCgroup)
    (snapshot : SandboxStateSnapshot) : Controller (option (Z * Z * string)) :=
  if active cgroup then
    let* populated := sandbox_cgroup_is_populated cgroup in
    match populated with
    | Err e =>
        monitor_error "memory monitor could not read cgroup state: %s" [AErrno e] ;;; ret None
    | Ok populated =>
        let* r := sandbox_cgroup_read_memory_kilobytes cgroup in
        match r with
        | Err e =>
            monitor_error "memory monitor could not read cgroup state: %s" [AErrno e] ;;;
            ret None
        | Ok sampled_memory =>
            if negb populated then ret None
            else ret (Some (sampled_memory, 0, "cgroup memory.current"%string))
        end
    end
  else
    let* r := process_tree_sample fuel (supervisor_pid snapshot) (child_pid snapshot)
                (leader_alive snapshot) in
    match r with
    | None =>
        monitor_error "memory monitor could not sample the process tree" [] ;;; ret None
    | Some sample =>
        if bool_decide (process_count sample = 0%nat) then ret None
        else ret (Some (memory_kilobytes sample, Z.of_nat (process_count sample),
                        if used_virtual_memory_fallback sample
                        then "aggregate VmRSS/VmSize"%string else "aggregate VmRSS"%string))
    end.

(** The end of an iteration: over the limit, or another round. *)
Definition check_memory (fuel : nat) (limit poll sampled_memory : Z) (sample_source : string)
    (last_logged_memory : Z) : Controller (Z + unit) :=
  if bool_decide (limit ≤ sampled_memory) then
    let* request_result := sandbox_state_request_termination TERMINATION_MEMORY_LIMIT in
    if bool_decide (0 < request_result) then
      logger_warn "memory limit exceeded: source=%s memory=%lu kB limit=%lu kB"
        [AStr (txt sample_source); AInt sampled_memory; AInt limit] ;;;
      ret (inr tt)
    else ret (inr tt)
  else monitor_sleep fuel poll "memory monitor sleep failed: %s" last_logged_memory.

(** The loop state is [last_logged_memory], initially [ULONG_MAX]. *)
Definition memory_monitor_step (fuel : nat) (cgroup : SandboxCgroup) (limit poll : Z)
    (last_logged_memory : Z) : Controller (Z + unit) :=
  let* supervised := still_supervised in
  match supervised with
  | None => ret (inr tt)
  | Some snapshot =>
      let* m := measure_memory fuel cgroup snapshot in
      match m with
      | None => ret (inr tt)
      | Some (sampled_memory, sampled_processes, sample_source) =>
          let memory_change :=
            if bool_decide (last_logged_memory ≠ ULONG_MAX)
            then if bool_decide (last_logged_memory ≤ sampled_memory)
                 then sampled_memory - last_logged_memory
                 else last_logged_memory - sampled_memory
            else 0 in
          let* last_logged_memory' :=
            (if bool_decide (last_logged_memory = ULONG_MAX ∨ limit ≤ sampled_memory ∨
                             1024 ≤ memory_change)
             then
               logger_info "memory sample: source=%s tree_processes=%zu memory=%lu kB limit=%lu kB"
                 [AStr (txt sample_source); AInt sampled_processes; AInt sampled_memory;
                  AInt limit] ;;;
               ret sampled_memory
             else ret last_logged_memory) in
          check_memory fuel limit poll sampled_memory sample_source last_logged_memory'
      end
  end.

Definition memory_monitor_thread (fuel : nat) (cgroup : SandboxCgroup) (limit poll : Z)
    : Controller unit :=
  logger_info "memory monitor started: source=%s limit=%lu kB"
    [AStr (txt (if active cgroup then "cgroup v2 memory.current"
                else "process-tree /proc accounting")); AInt limit] ;;;
  loop fuel (memory_monitor_step fuel cgroup limit poll) ULONG_MAX.

(** ** Processor time *)

Section cpu.
(** The text [printf] gives for the percentage, a [double] computed from the
    ticks used, the ticks per second and the milliseconds passed; it is only
    logged. *)
Context (cpu_percent : Z → Z → Z → list byte).

(** The loop state is the previous total with its time, when there is one. *)
Definition cpu_step (fuel : nat) (ticks_per_second poll : Z)
    (previous : option (Z * (Z * Z))) : Controller (option (Z * (Z * Z)) + unit) :=
  let* supervised := still_supervised in
  match supervised with
  | None => ret (inr tt)
  | Some snapshot =>
      let* r := process_tree_sample fuel (supervisor_pid snapshot) (child_pid snapshot)
                  (leader_alive snapshot) in
      match r with
      | None => monitor_error "CPU monitor could not sample the process tree" [] ;;; ret (inr tt)
      | Some sample =>
          if bool_decide (process_count sample = 0%nat) then ret (inr tt) else
          let* r := call Clock_gettime in
          match r with
          | Err e =>
              monitor_error "CPU monitor could not read monotonic clock: %s" [AErrno e] ;;;
              ret (inr tt)
          | Ok current_time =>
              let total_ticks := saturating_add ULLONG_MAX (user_ticks sample) (system_ticks sample) in
              let baseline :=
                logger_info "CPU baseline: tree_processes=%zu utime=%llu stime=%llu"
                  [AInt (Z.of_nat (process_count sample)); AInt (user_ticks sample);
                   AInt (system_ticks sample)] in
              match previous with
              | Some (previous_total_ticks, previous_time) =>
                  if bool_decide (previous_total_ticks ≤ total_ticks) then
                    let wall_milliseconds := elapsed_milliseconds previous_time current_time in
                    if bool_decide (0 < wall_milliseconds) then
                      let delta_ticks := total_ticks - previous_total_ticks in
                      logger_info "CPU sample: tree_processes=%zu usage=%.1f%% delta_ticks=%llu utime=%llu stime=%llu"
                        [AInt (Z.of_nat (process_count sample));
                         AStr (cpu_percent delta_ticks ticks_per_second wall_milliseconds);
                         AInt delta_ticks; AInt (user_ticks sample); AInt (system_ticks sample)]
                    else ret tt
                  else baseline
              | None => baseline
              end ;;;
              monitor_sleep fuel poll "CPU monitor sleep failed: %s"
                (Some (total_ticks, current_time))
          end
      end
  end.

Definition cpu_monitor_thread (fuel : nat) (poll : Z) : Controller unit :=
  let* ticks_per_second := call Sysconf_clk_tck in
  if bool_decide (ticks_per_second ≤ 0) then
    monitor_error "CPU monitor could not determine clock ticks per second" []
  else
  logger_info "CPU monitor started for process tree: clock_ticks_per_second=%ld"
    [AInt ticks_per_second] ;;;
  loop fuel (cpu_step fuel ticks_per_second poll) None.

End cpu.

(** ** Lemmas: the state is only moved along its transitions *)

#[export] Instance request__moves reason : Moves state_evolves (request_ reason).
Proof. unfold request_. solve_moves. Qed.

#[export] Instance monitor_error_moves format args :
  Moves state_evolves (monitor_error format args).
Proof. unfold monitor_error. solve_moves. Qed.

#[export] Instance still_supervised_moves : Moves state_evolves still_supervised.
Proof. unfold still_supervised. solve_moves. Qed.

#[export] Instance monitor_sleep_moves {S} fuel poll message (s : S) :
  Moves state_evolves (monitor_sleep fuel poll message s).
Proof. unfold monitor_sleep. solve_moves. Qed.

#[export] Instance measure_memory_moves fuel cgroup snapshot :
  Moves state_evolves (measure_memory fuel cgroup snapshot).
Proof.
  unfold measure_memory, sandbox_cgroup_read_memory_kilobytes. solve_moves.
Qed.

#[export] Instance timeout_moves fuel timeout_seconds poll :
  Moves state_evolves (timeout_monitor_thread fuel timeout_seconds poll).
Proof. unfold timeout_monitor_thread, timeout_step. solve_moves. Qed.

#[export] Instance memory_moves fuel cgroup limit poll :
  Moves state_evolves (memory_monitor_thread fuel cgroup limit poll).
Proof. unfold memory_monitor_thread, memory_monitor_step, check_memory. solve_moves. Qed.

#[export] Instance cpu_moves percent fuel poll :
  Moves state_evolves (cpu_monitor_thread percent fuel poll).
Proof. unfold cpu_monitor_thread, cpu_step. solve_moves. Qed.

(** ** Lemmas: what the monitors take part in *)

Lemma proc_enacts e : is_proc e → enacted_by e = [].
Proof. destruct e as [T c r]. by destruct c. Qed.

Lemma file_enacts e : is_file e → enacted_by e = [].
Proof. destruct e as [T c r]. by destruct c. Qed.

#[export] Instance sample_accounts fuel s c alive :
  Accounts (process_tree_sample fuel s c alive).
Proof. apply (accounts_quiet is_proc); [apply _..|apply proc_enacts]. Qed.
#[export] Instance populated_accounts cgroup : Accounts (sandbox_cgroup_is_populated cgroup).
Proof. apply (accounts_quiet is_file); [apply _..|apply file_enacts]. Qed.
#[export] Instance memory_kilobytes_accounts cgroup :
  Accounts (sandbox_cgroup_read_memory_kilobytes cgroup).
Proof. apply (accounts_quiet is_file); [apply _..|apply file_enacts]. Qed.
#[export] Instance request__accounts reason : Accounts (request_ reason).
Proof. unfold request_. solve_accounts. Qed.
#[export] Instance monitor_error_accounts format args : Accounts (monitor_error format args).
Proof. unfold monitor_error. solve_accounts. Qed.
#[export] Instance still_supervised_accounts : Accounts still_supervised.
Proof. unfold still_supervised. solve_accounts. Qed.
#[export] Instance monitor_sleep_accounts {S} fuel poll message (s : S) :
  Accounts (monitor_sleep fuel poll message s).
Proof. unfold monitor_sleep. solve_accounts. Qed.
#[export] Instance measure_memory_accounts fuel cgroup snapshot :
  Accounts (measure_memory fuel cgroup snapshot).
Proof. unfold measure_memory. solve_accounts. Qed.
#[export] Instance timeout_accounts fuel timeout_seconds poll :
  Accounts (timeout_monitor_thread fuel timeout_seconds poll).
Proof. unfold timeout_monitor_thread, timeout_step. solve_accounts. Qed.
#[export] Instance memory_accounts fuel cgroup limit poll :
  Accounts (memory_monitor_thread fuel cgroup limit poll).
Proof. unfold memory_monitor_thread, memory_monitor_step, check_memory. solve_accounts. Qed.
#[export] Instance cpu_accounts percent fuel poll :
  Accounts (cpu_monitor_thread percent fuel poll).
Proof. unfold cpu_monitor_thread, cpu_step. solve_accounts. Qed.

Section publishes.
Context (P : state_change → Prop).

#[export] Instance sample_publishes {G} fuel s c alive :
  Emits (publishes P) (@process_tree_sample G fuel s c alive).
Proof.
  eapply emits_weaken; [apply _|]. intros [T call r] H. by destruct call.
Qed.
Lemma file_publishes {G A} (m : prog ssys G A) : Emits is_file m → Emits (publishes P) m.
Proof.
  intros Hm. eapply emits_weaken; [exact Hm|]. intros [T call r] H. by destruct call.
Qed.
#[export] Instance populated_publishes {G} cgroup :
  Emits (publishes P) (@sandbox_cgroup_is_populated G cgroup).
Proof. apply file_publishes, _. Qed.
#[export] Instance memory_kilobytes_publishes {G} cgroup :
  Emits (publishes P) (@sandbox_cgroup_read_memory_kilobytes G cgroup).
Proof. apply file_publishes, _. Qed.
#[export] Instance still_supervised_publishes : Emits (publishes P) still_supervised.
Proof. unfold still_supervised. solve_emits. Qed.

Hypothesis error_allowed : P (Request TERMINATION_MONITOR_ERROR).

Lemma monitor_error_publishes format args : Emits (publishes P) (monitor_error format args).
Proof.
  unfold monitor_error, request_. solve_emits. by apply request_publishes.
Qed.

Lemma monitor_sleep_publishes {S} fuel poll message (s : S) :
  Emits (publishes P) (monitor_sleep fuel poll message s).
Proof. unfold monitor_sleep. solve_emits; try apply _. apply monitor_error_publishes. Qed.

Lemma measure_memory_publishes fuel cgroup snapshot :
  Emits (publishes P) (measure_memory fuel cgroup snapshot).
Proof. unfold measure_memory. solve_emits; apply monitor_error_publishes. Qed.

End publishes.

(** ** The end of the monitors *)

(** The next look of the thread at the state ends it. *)
Definition told_to_stop (K : kernel ssys) (w : world ssys sandbox) : Prop :=
  ∀ cs, K _ (trace w) Mutex_lock = Ok cs → can_request (changes cs (sb_state (globals w))) = false.

Lemma can_request_false s :
  can_request s = false → negb (workload_alive s) || termination_requested s = true.
Proof. unfold can_request. by destruct (workload_alive s), (termination_requested s). Qed.

Lemma still_supervised_stops K w :
  told_to_stop K w →
  wp K still_supervised (post (λ r w', r = None ∧ grown is_lock (trace w) (trace w'))
    (λ _ _, False)) w.
Proof.
  intros Hstop. unfold still_supervised, sandbox_state_snapshot. wp_steps. apply wp_lock_state.
  { intros new Hnew. rewrite bool_decide_true by done. wp_steps. split; [done|by exists new]. }
  intros cs Hcs. rewrite bool_decide_false by auto. wp_steps. apply wp_unlock_state.
  intros r new Hnew _. cbn [globals trace]. apply Hstop, can_request_false in Hcs.
  assert (grown is_lock (trace w) (new ++ Ev Mutex_lock (Ok cs) :: trace w)).
  { apply grown_app; [done|]. apply grown_cons; [by right|done]. }
  case_bool_decide; wp_steps; [done|]. cbn [locked sb_state]. rewrite Hcs. by wp_steps.
Qed.

(** A loop that looks at the state first. *)
Lemma loop_stops {S} K fuel (body : SandboxStateSnapshot → S → Controller (S + unit)) s w :
  told_to_stop K w → (0 < fuel)%nat →
  wp K (loop fuel (λ s, let* supervised := still_supervised in
                        match supervised with
                        | None => ret (inr tt)
                        | Some snapshot => body snapshot s
                        end) s)
    (post (λ _ w', grown is_lock (trace w) (trace w')) (λ _ _, False)) w.
Proof.
  intros Hstop Hf. destruct fuel as [|fuel]; [lia|]. cbn [loop]. wp_steps.
  eapply wp_mono; [by apply still_supervised_stops|].
  intros [r|h] w'; [|done]. intros [-> Hg]. by wp_steps.
Qed.

(** C19. The monitors end when they are told to: in whatever iteration a monitor
    is, once the state it sees at its next look has no live workload or has a
    termination requested, or cannot be looked at, its loop returns, without
    another measurement, request or sleep. *)
Theorem monitors_stop K fuel w :
  told_to_stop K w → (0 < fuel)%nat →
  let stops := post (λ _ w', grown is_lock (trace w) (trace w')) (λ _ _, False) in
  (∀ timeout_seconds poll start,
     wp K (loop fuel (timeout_step fuel timeout_seconds poll start) tt) stops w) ∧
  (∀ cgroup limit poll last_logged_memory,
     wp K (loop fuel (memory_monitor_step fuel cgroup limit poll) last_logged_memory) stops w) ∧
  (∀ percent ticks_per_second poll previous,
     wp K (loop fuel (cpu_step percent fuel ticks_per_second poll) previous) stops w).
Proof.
  intros Hstop Hf stops. split_and!; intros.
  - by apply (loop_stops K fuel (λ _ _, _)).
  - by apply (loop_stops K fuel (λ _ _, _)).
  - by apply (loop_stops K fuel (λ _ _, _)).
Qed.

(** ** The timeout comes *)

(** Sleeping is never interrupted. *)
Definition sleeps_through (K : kernel ssys) : Prop :=
  ∀ tr sec nsec, K _ tr (Nanosleep sec nsec) = SleptAll.

Definition is_nanosleep (e : event ssys) : bool :=
  match e with Ev (Nanosleep _ _) _ => true | _ => false end.

Definition sleeps (tr : strace) : Z := Z.of_nat (count_events is_nanosleep tr).

Lemma sleeps_nil : sleeps [] = 0.
Proof. done. Qed.

(** A clock that advances by at least [poll] milliseconds per sleep, over the
    sleeps a 64-bit counter of milliseconds lasts for. *)
Definition clock_advances (K : kernel ssys) (poll : Z) : Prop :=
  ∀ tr tr', extends tr tr' → sleeps tr' - sleeps tr ≤ 2 ^ 50 → ∃ start current,
    K _ tr Clock_gettime = Ok start ∧ K _ tr' Clock_gettime = Ok current ∧
    poll * (sleeps tr' - sleeps tr) ≤ elapsed_milliseconds start current.

(** The workload has been ended, by this thread's request for [reason] unless
    another thread did something. *)
Definition ended_for (reason : SandboxTerminationReason) (w : world ssys sandbox) : Prop :=
  can_request (sb_state (globals w)) = false ∧
  ((∀ c, Theirs c ∉ history (trace w)) →
   termination_requested (sb_state (globals w)) = true ∧
   termination_reason (sb_state (globals w)) = reason).

(** What another thread did when the workload is found ended. *)
Lemma ended_by_others reason cs g e tr :
  can_request (sb_state g) = true → can_request (changes cs (sb_state g)) = false →
  ended_for reason (World (locked cs g) (e :: Ev Mutex_lock (Ok cs) :: tr)).
Proof.
  intros Hs Hcs. split; [done|]. intros Hno. destruct cs as [|c cs]; [simpl in Hcs; congruence|].
  destruct (Hno c). cbn [trace history enacted_by]. rewrite !elem_of_app. left; right.
  simpl. left.
Qed.

Section ending.
Context (K : kernel ssys) `{!Locking K}.

Lemma wp_supervised_locking reason
    (Q : outcome (option SandboxStateSnapshot) → world ssys sandbox → Prop) w :
  can_request (sb_state (globals w)) = true →
  (∀ g tr', can_request (sb_state g) = true → extends (trace w) tr' →
     sleeps tr' = sleeps (trace w) → Q (Ret (Some (sb_state g))) (World g tr')) →
  (∀ w', ended_for reason w' → sleeps (trace w') = sleeps (trace w) → Q (Ret None) w') →
  wp K still_supervised Q w.
Proof.
  intros Hs Hgo Hend. unfold still_supervised. wp_steps. apply wp_snapshot_locking; [done|].
  intros cs. wp_steps. destruct (can_request (changes cs (sb_state (globals w)))) eqn:Hcs.
  - pose proof Hcs as [E1 E2]%can_request_true. rewrite E1, E2. cbn [negb orb]. wp_steps.
    apply (Hgo (locked cs (globals w))); [done|by eexists [_; _]|].
    unfold sleeps. by rewrite !count_events_cons.
  - rewrite can_request_false by done. wp_steps. apply Hend; [by apply ended_by_others|].
    unfold sleeps. by cbn [trace]; rewrite !count_events_cons.
Qed.

Lemma wp_sleep_through {S} fuel poll message (s : S)
    (Q : outcome (S + unit) → world ssys sandbox → Prop) w :
  sleeps_through K → (0 < fuel)%nat →
  (∀ tr', extends (trace w) tr' → sleeps tr' = sleeps (trace w) + 1 →
     Q (Ret (inl s)) (World (globals w) tr')) →
  wp K (monitor_sleep fuel poll message s) Q w.
Proof.
  intros Hsl Hf HQ. destruct fuel as [|fuel]; [lia|].
  unfold monitor_sleep, sleep_milliseconds. cbn [loop]. unfold sleep_step at 1. wp_steps.
  rewrite Hsl. wp_steps. apply HQ; [by eexists [_]|].
  unfold sleeps. rewrite count_events_cons. cbn [is_nanosleep]. lia.
Qed.

Lemma wp_request_ends reason (Q : outcome Z → world ssys sandbox → Prop) w :
  reason ≠ TERMINATION_NONE → can_request (sb_state (globals w)) = true →
  (∀ r w', ended_for reason w' → sleeps (trace w') = sleeps (trace w) → Q (Ret r) w') →
  wp K (sandbox_state_request_termination reason) Q w.
Proof.
  intros Hr Hs HQ. apply wp_request_locking; [done|done| |].
  - intros cs r s Hcs. apply HQ; [|unfold sleeps; cbn [trace]; by rewrite !count_events_cons].
    split; [|done]. cbn [globals sb_state]. unfold can_request. apply andb_false_r.
  - intros cs Hcs. apply HQ; [by apply ended_by_others|].
    unfold sleeps; cbn [trace]; by rewrite !count_events_cons.
Qed.

End ending.

Lemma ended_for_log reason w new :
  Forall is_log new → ended_for reason w → ended_for reason (World (globals w) (new ++ trace w)).
Proof.
  intros Hnew [H1 H2]. split; [done|]. intros Hno. apply H2. intros c Hc. apply (Hno c).
  cbn [trace]. rewrite history_app. apply elem_of_app. by left.
Qed.

Lemma sleeps_log new tr : Forall is_log new → sleeps (new ++ tr) = sleeps tr.
Proof.
  intros Hnew. unfold sleeps. rewrite count_events_app, count_events_none; [done|].
  eapply Forall_impl; [exact Hnew|]. by intros [? []].
Qed.

(** The monitor returns, with the workload ended, before it slept for an
    interval more than the limit. *)
Lemma timeout_monitor_ends (K : kernel ssys) fuel timeout_seconds poll (g : sandbox) :
  Locking K → sleeps_through K → clock_advances K poll → 0 < poll → 0 ≤ timeout_seconds →
  can_request (sb_state g) = true →
  timeout_seconds * 1000 ≤ poll * (Z.of_nat fuel - 1) → Z.of_nat fuel ≤ 2 ^ 50 →
  wp K (timeout_monitor_thread fuel timeout_seconds poll)
    (post (λ _ w', ended_for TERMINATION_TIMEOUT w' ∧
      poll * sleeps (trace w') < timeout_seconds * 1000 + poll) (λ _ _, False)) (World g []).
Proof.
  intros HK Hsleep Hclock Hpoll Hlimit Hs Hfuel Hwrap. unfold timeout_monitor_thread. wp_steps.
  destruct (Hclock [] [] (extends_refl _)) as (start & _ & Hstart & _); [lia|].
  rewrite Hstart. wp_steps. apply wp_logger_write. intros new Hnew. cbn [globals trace].
  set (tr1 := new ++ _).
  assert (sleeps tr1 = 0) as Hsl1.
  { subst tr1. by rewrite sleeps_log. }
  clearbody tr1.
  apply (wp_loop K (λ i (_ : unit) w', can_request (sb_state (globals w')) = true ∧
    sleeps (trace w') = Z.of_nat i ∧
    (i = 0%nat ∨ poll * (Z.of_nat i - 1) < timeout_seconds * 1000))).
  - intros i [] w' Hi (Hs' & Hsl & Hin). unfold timeout_step. wp_steps.
    assert (poll * sleeps (trace w') < timeout_seconds * 1000 + poll) as Htime
      by (rewrite Hsl; destruct Hin as [-> |]; lia).
    apply (wp_supervised_locking K TERMINATION_TIMEOUT); [done| |intros w2 Hw2 E2; wp_steps; split; [done|cbn [trace]; by rewrite E2]].
    intros g2 tr2 Hs2 _ Hsl2. wp_steps.
    destruct (Hclock [] tr2) as (start' & current & Hst' & Hcur & Hel);
      [by exists tr2; rewrite app_nil_r|rewrite sleeps_nil; lia|].
    rewrite Hst' in Hstart. injection Hstart as ->. rewrite Hcur. rewrite Hsl2, Hsl, sleeps_nil in Hel.
    wp_decide Hexc; wp_steps.
    + assert (sleeps (Ev Clock_gettime (Ok current) :: tr2) = sleeps (trace w')) as E2.
      { rewrite <- Hsl2. unfold sleeps. by rewrite count_events_cons. }
      apply wp_request_ends; [done..|]. cbn [trace]. rewrite E2. intros r w3 Hw3 E3.
      wp_decide Hr; wp_steps; [|split; [done|cbn [trace]; by rewrite E3]].
      apply wp_logger_write. intros logs Hlogs. wp_steps.
      split; [by apply ended_for_log|]. cbn [trace]. by rewrite sleeps_log, E3.
    + apply wp_sleep_through; [done|lia|]. cbn [trace globals]. intros tr3 Hext3 Hsl3.
      split_and!; [done| |].
      * unfold sleeps in Hsl3 |- *. rewrite Hsl3, count_events_cons. cbn [is_nanosleep].
        unfold sleeps in *. lia.
      * right. nia.
  - intros [] w' (_ & _ & [Hn|Hlt]); [subst fuel; nia|]. nia.
  - split_and!; [done|done|by left].
Qed.

(** ** Properties *)

(** C18. No workload outlives its timeout: if the mutex and sleeping work and the
    clock advances by the polling interval per sleep, the timeout monitor
    returns, within one iteration per polling interval of the limit and one
    more, whatever the other threads do, and then the workload is gone or its
    termination requested; unless another thread changed the state, it is
    requested for the timeout. *)
Theorem timeout_monitor_fires (K : kernel ssys) fuel timeout_seconds poll (g : sandbox) :
  Locking K → sleeps_through K → clock_advances K poll → 0 < poll → 0 ≤ timeout_seconds →
  can_request (sb_state g) = true →
  timeout_seconds * 1000 ≤ poll * (Z.of_nat fuel - 1) → Z.of_nat fuel ≤ 2 ^ 50 →
  wp K (timeout_monitor_thread fuel timeout_seconds poll)
    (post (λ _ w', ended_for TERMINATION_TIMEOUT w') (λ _ _, False)) (World g []).
Proof.
  intros. eapply wp_mono; [by apply timeout_monitor_ends|]. by intros [u|h] w' H'; [apply H'|].
Qed.

(** A clock that shows 100 ms per sleep since it was started. *)
Definition ticking (os : list state_change) : kernel ssys :=
  scenario_kernel (Scenario (λ _, os) (λ _, WaitNone)
    (λ tr, (sleeps tr `div` 10, (sleeps tr `mod` 10) * 100000000))
    (λ _, []) (λ _, None) (λ _ _, None) 200).

Lemma ticking_elapsed a b :
  0 ≤ a → 0 ≤ b - a ≤ 2 ^ 50 →
  elapsed_milliseconds (a `div` 10, (a `mod` 10) * 100000000)
                       (b `div` 10, (b `mod` 10) * 100000000) = 100 * (b - a).
Proof.
  intros Ha Hb. unfold elapsed_milliseconds. cbn [fst snd].
  replace ((b `mod` 10) * 100000000 - (a `mod` 10) * 100000000)
    with (((b `mod` 10 - a `mod` 10) * 100) * 1000000) by lia.
  rewrite Z.quot_mul by lia.
  pose proof (Z.div_mod a 10 ltac:(lia)). pose proof (Z.div_mod b 10 ltac:(lia)).
  rewrite Z.mod_small; lia.
Qed.

Lemma ticking_advances : clock_advances (ticking []) 100.
Proof.
  intros tr tr' [new ->] Hle.
  exists (sleeps tr `div` 10, (sleeps tr `mod` 10) * 100000000),
    (sleeps (new ++ tr) `div` 10, (sleeps (new ++ tr) `mod` 10) * 100000000).
  split_and!; [reflexivity..|].
  rewrite ticking_elapsed; [lia|unfold sleeps; lia|]. split; [|exact Hle].
  unfold sleeps. rewrite count_events_app. lia.
Qed.

(** A run of 2 seconds with nothing else happening. *)
Lemma timeout_monitor_fires_witness :
  let w := (timeout_monitor_thread 21 2 100 (ticking []) (World running [])).2 in
  ended_for TERMINATION_TIMEOUT w ∧ termination_reason (sb_state (globals w)) = TERMINATION_TIMEOUT.
Proof.
  intros w.
  assert ((timeout_monitor_thread 21 2 100 (ticking []) (World running [])).1 = Ret tt) as E
    by (vm_compute; reflexivity).
  pose proof (timeout_monitor_fires (ticking []) 21 2 100 running (scenario_locking _)
    (λ _ _ _, eq_refl) ticking_advances ltac:(lia) ltac:(lia) eq_refl ltac:(lia) ltac:(lia)) as H.
  pose proof (wp_run _ _ _ _ _ _ H E) as Hend. split; [exact Hend|].
  apply (proj2 Hend). intros c. vm_compute. intros Hin. inversion Hin as [|? ? ? Hin']; inversion Hin'.
Defined.

(** A cgroup that is populated and holds 4096 kB. *)
Definition hungry_cgroup : SandboxCgroup := Cgroup (txt "/sys/fs/cgroup/x" ++ [NUL]) true.

Definition hungry : kernel ssys :=
  scenario_kernel (Scenario (λ _, []) (λ _, WaitNone) (λ _, (0, 0)) (λ _, []) (λ _, None)
    (λ _ path, if bool_decide (path = txt "/sys/fs/cgroup/x/cgroup.events")
               then Some (txt "populated 1" ++ [LF])
               else if bool_decide (path = txt "/sys/fs/cgroup/x/memory.current")
               then Some (txt "4194304" ++ [LF]) else None) 200).

(** The memory limit was requested by another thread. *)
Lemma monitors_stop_witness :
  let w := World running [] in
  told_to_stop overtaken w ∧
  (loop 10 (memory_monitor_step 10 hungry_cgroup 4000 25) ULONG_MAX overtaken w).1 = Ret tt ∧
  grown is_lock []
    (trace (loop 10 (memory_monitor_step 10 hungry_cgroup 4000 25) ULONG_MAX overtaken w).2).
Proof.
  intros w. assert (told_to_stop overtaken w) as Hstop by by intros cs [= <-].
  split; [exact Hstop|]. destruct (monitors_stop overtaken 10 w Hstop ltac:(lia)) as (_ & H & _).
  assert ((loop 10 (memory_monitor_step 10 hungry_cgroup 4000 25) ULONG_MAX overtaken w).1 = Ret tt)
    as E by (vm_compute; reflexivity).
  split; [exact E|]. exact (wp_run _ _ _ _ _ _ (H hungry_cgroup 4000 25 ULONG_MAX) E).
Defined.
