(* ===== verification/Supervisor.v ===== *)
(** * Sandbox.c: the supervision of the workload

    Reaping, polling, signalling and terminating the workload, the loop of the
    supervisor and the report of the final status.  [WorkloadStatus] is a
    local of [main] passed by pointer: here it is passed and returned. *)

From S2P Require Import Prelude.
From S2P Require Import CLib.
From S2P Require Import SandboxSys.
From S2P Require Import Logger.
From S2P Require Import MonitorState.
From S2P Require Import History.
From S2P Require Import ProcStat.
From S2P Require Import ProcessTree.
From S2P Require Import Cgroup.
From S2P Require Import SandboxChild.
Local Open Scope Z_scope.

Definition MONITOR_POLL_MILLISECONDS : Z := 100.
Definition MEMORY_POLL_MILLISECONDS : Z := 25.
Definition CPU_POLL_MILLISECONDS : Z := 250.
Definition SUPERVISOR_POLL_MILLISECONDS : Z := 50.
Definition TERMINATION_GRACE_MILLISECONDS : Z := 1000.
Definition FORCE_KILL_WAIT_MILLISECONDS : Z := 5000.

(** [leader_status] is only looked at when it is available: an [option]. *)
Record WorkloadStatus := Status {
  leader_status : option Z;
  reaped_processes : Z
}.

(** ** Signals to the controller *)

Definition handle_operator_signal (signal_number : Z) (g : sandbox) : sandbox :=
  Sandbox (sb_state g) signal_number.

(** Reading [operator_signal_number]: the signals that came since the last
    time have run their handlers before. *)
Definition read_operator_signal : Controller Z :=
  let* signals := call Pending_signals in
  modify (λ g, foldl (λ g s, handle_operator_signal s g) g signals) ;;;
  get operator_signal_number.

Definition install_operator_signal_handlers {G} : prog ssys G (res unit) :=
  let* r := set_actions [SIGINT; SIGTERM; SIGHUP] Handle in
  match r with
  | Err e => ret (Err e)
  | Ok _ => call (Sigaction SIGPIPE Ignore)
  end.

(** [false] is the result [-1]. *)
Definition enable_child_subreaper {G} : prog ssys G bool :=
  let* r := call Set_child_subreaper in
  match r with
  | Err e => logger_error "PR_SET_CHILD_SUBREAPER failed: %s" [AErrno e] ;;; ret false
  | Ok _ => logger_info "controller registered as a Linux child subreaper" [] ;;; ret true
  end.

(** ** Reaping and polling *)

(** [unsigned long] wraps. *)
Definition count_reaped (status : WorkloadStatus) : WorkloadStatus :=
  Status (leader_status status) ((reaped_processes status + 1) `mod` 2 ^ 64).

(** An iteration of [reap_available_children]. *)
Definition reap_step (workload_status : WorkloadStatus)
    : Controller (WorkloadStatus + WorkloadStatus * bool) :=
  let* r := call Waitpid_any in
  match r with
  | WaitChild reaped_pid status =>
      let workload_status := count_reaped workload_status in
      let* child := get (λ g, child_pid (sb_state g)) in
      if bool_decide (reaped_pid = child) && bool_decide (leader_status workload_status = None)
      then
        let* _ := sandbox_state_mark_leader_exited in
        logger_info "reaped original workload leader PID %ld" [AInt reaped_pid] ;;;
        ret (inl (Status (Some status) (reaped_processes workload_status)))
      else
        logger_info "reaped descendant workload PID %ld" [AInt reaped_pid] ;;;
        ret (inl workload_status)
  | WaitNone => ret (inr (workload_status, true))
  | WaitErr e =>
      if is_eintr e then ret (inl workload_status) else
      if bool_decide (e = ECHILD) then ret (inr (workload_status, true)) else
      logger_error "waitpid(-1) failed: %s" [AErrno e] ;;;
      ret (inr (workload_status, false))
  end.

(** [false] is the result [-1]. *)
Definition reap_available_children (fuel : nat) (workload_status : WorkloadStatus)
    : Controller (WorkloadStatus * bool) :=
  loop fuel reap_step workload_status.

(** Whether processes of the workload remain; [None] is the result [-1]. *)
Definition observe_workload (fuel : nat) (cgroup : SandboxCgroup)
    (snapshot : SandboxStateSnapshot) : Controller (option bool) :=
  if active cgroup then
    let* populated := sandbox_cgroup_is_populated cgroup in
    match populated with
    | Err e =>
        logger_error "supervisor could not read cgroup membership: %s" [AErrno e] ;;; ret None
    | Ok populated =>
        (if negb populated
         then let* _ := sandbox_state_mark_workload_exited in ret tt else ret tt) ;;;
        ret (Some populated)
    end
  else
    let* r := process_tree_sample fuel (supervisor_pid snapshot) (child_pid snapshot)
                (leader_alive snapshot) in
    match r with
    | None => logger_error "supervisor could not sample the workload process tree" [] ;;; ret None
    | Some sample =>
        let workload_alive := bool_decide (0 < process_count sample)%nat in
        (if negb workload_alive
         then let* _ := sandbox_state_mark_workload_exited in ret tt else ret tt) ;;;
        ret (Some workload_alive)
    end.

Definition poll_workload (fuel : nat) (cgroup : SandboxCgroup)
    (workload_status : WorkloadStatus) : Controller (WorkloadStatus * option bool) :=
  let* (workload_status, reaped) := reap_available_children fuel workload_status in
  if negb reaped then ret (workload_status, None) else
  let* r := sandbox_state_snapshot in
  match r with
  | None => ret (workload_status, None)
  | Some snapshot =>
      let* workload_alive := observe_workload fuel cgroup snapshot in
      ret (workload_status, workload_alive)
  end.

(** ** Signalling *)

(** The signal for each process of the sample that the group signal did not
    reach; the state is [signalled_processes] with [result]. *)
Fixpoint signal_processes (snapshot : SandboxStateSnapshot) (signal_number : Z)
    (group_signalled : bool) (l : list ProcessTreeProcess) (s : Z * Z) : Controller (Z * Z) :=
  match l with
  | [] => ret s
  | process :: l' =>
      let '(signalled_processes, result) := s in
      if bool_decide (pid process ≤ 0) || bool_decide (pid process = supervisor_pid snapshot) ||
         (group_signalled &&
          bool_decide (process_group_id process = child_process_group_id snapshot))
      then signal_processes snapshot signal_number group_signalled l' s else
      let* r := call (Kill (pid process) signal_number) in
      match r with
      | Ok _ =>
          signal_processes snapshot signal_number group_signalled l'
            (signalled_processes + 1, result)
      | Err e =>
          if bool_decide (e ≠ ESRCH) then
            logger_error "signal %d delivery to workload PID %ld failed: %s"
              [AInt signal_number; AInt (pid process); AErrno e] ;;;
            signal_processes snapshot signal_number group_signalled l' (signalled_processes, -1)
          else signal_processes snapshot signal_number group_signalled l' s
      end
  end.

(** The signals that reach the workload as a whole: the cgroup's [SIGKILL]
    and the group's signal; whether the group was signalled, with [result]. *)
Definition signal_group (fuel : nat) (cgroup : SandboxCgroup)
    (snapshot : SandboxStateSnapshot) (signal_number : Z) : Controller (bool * Z) :=
  let* result :=
    (if bool_decide (signal_number = SIGKILL) && active cgroup then
       let* r := sandbox_cgroup_kill fuel cgroup in
       match r with
       | Ok _ => logger_warn "SIGKILL delivered atomically through cgroup.kill" [] ;;; ret 0
       | Err e => logger_error "cgroup.kill failed: %s" [AErrno e] ;;; ret (-1)
       end
     else ret 0) in
  if bool_decide (0 < child_process_group_id snapshot) then
    let* r := call (Kill (- child_process_group_id snapshot) signal_number) in
    match r with
    | Ok _ => ret (true, result)
    | Err e =>
        if bool_decide (e ≠ ESRCH) then
          logger_error "signal %d delivery to PGID %ld failed: %s"
            [AInt signal_number; AInt (child_process_group_id snapshot); AErrno e] ;;;
          ret (false, -1)
        else ret (false, result)
    end
  else ret (false, result).

Definition signal_workload (fuel : nat) (cgroup : SandboxCgroup) (signal_number : Z)
    : Controller Z :=
  let* r := sandbox_state_snapshot in
  match r with
  | None => ret (-1)
  | Some snapshot =>
      let* (group_signalled, result) := signal_group fuel cgroup snapshot signal_number in
      let* r := process_tree_sample fuel (supervisor_pid snapshot) (child_pid snapshot)
                  (leader_alive snapshot) in
      match r with
      | None =>
          logger_error "could not collect process tree before signal %d" [AInt signal_number] ;;;
          ret (-1)
      | Some sample =>
          let* (signalled_processes, result) :=
            signal_processes snapshot signal_number group_signalled (processes sample)
              (0, result) in
          logger_warn "signal %d delivered to workload tree: PGID=%ld discovered_processes=%zu individually_signalled=%zu"
            [AInt signal_number; AInt (child_process_group_id snapshot);
             AInt (Z.of_nat (process_count sample)); AInt signalled_processes] ;;;
          ret result
      end
  end.

(** ** Terminating *)

(** An iteration of [wait_for_workload_exit]; the state is
    [waited_milliseconds] with the workload's status. *)
Definition wait_step (fuel : nat) (cgroup : SandboxCgroup) (timeout_milliseconds : Z)
    (repeat_sigkill : bool) (s : Z * WorkloadStatus)
    : Controller (Z * WorkloadStatus + WorkloadStatus * Z) :=
  let '(waited_milliseconds, workload_status) := s in
  let* (workload_status, workload_alive) := poll_workload fuel cgroup workload_status in
  match workload_alive with
  | None => ret (inr (workload_status, -1))
  | Some false => ret (inr (workload_status, 0))
  | Some true =>
      (if repeat_sigkill
       then let* _ := signal_workload fuel cgroup SIGKILL in ret tt else ret tt) ;;;
      if bool_decide (timeout_milliseconds ≤ waited_milliseconds)
      then ret (inr (workload_status, 1)) else
      let* r := sleep_milliseconds fuel SUPERVISOR_POLL_MILLISECONDS in
      match r with
      | Err e =>
          logger_error "workload wait sleep failed: %s" [AErrno e] ;;;
          ret (inr (workload_status, -1))
      | Ok _ =>
          ret (inl ((waited_milliseconds + SUPERVISOR_POLL_MILLISECONDS) `mod` 2 ^ 32,
                    workload_status))
      end
  end.

Definition wait_for_workload_exit (fuel : nat) (cgroup : SandboxCgroup)
    (workload_status : WorkloadStatus) (timeout_milliseconds : Z) (repeat_sigkill : bool)
    : Controller (WorkloadStatus * Z) :=
  loop fuel (wait_step fuel cgroup timeout_milliseconds repeat_sigkill) (0, workload_status).

(** [true] is the result 0, [false] the result [-1]. *)
Definition terminate_workload (fuel : nat) (cgroup : SandboxCgroup)
    (reason : SandboxTerminationReason) (workload_status : WorkloadStatus)
    : Controller (WorkloadStatus * bool) :=
  logger_warn "termination policy activated for workload tree: %s"
    [AStr (txt (sandbox_termination_reason_name reason))] ;;;
  let* _ := signal_workload fuel cgroup SIGTERM in
  logger_warn "waiting %u ms for workload-wide SIGTERM shutdown"
    [AInt TERMINATION_GRACE_MILLISECONDS] ;;;
  let* (workload_status, wait_result) :=
    wait_for_workload_exit fuel cgroup workload_status TERMINATION_GRACE_MILLISECONDS false in
  if bool_decide (wait_result = 0) then
    logger_info "entire workload exited during the SIGTERM grace period" [] ;;;
    ret (workload_status, true)
  else
  logger_warn "workload descendants remain; escalating tree to SIGKILL" [] ;;;
  let* _ := signal_workload fuel cgroup SIGKILL in
  let* (workload_status, wait_result) :=
    wait_for_workload_exit fuel cgroup workload_status FORCE_KILL_WAIT_MILLISECONDS true in
  if bool_decide (wait_result = 0) then
    logger_info "entire workload tree terminated and reaped" [] ;;;
    ret (workload_status, true)
  else
  logger_error "unable to confirm termination of the entire workload tree" [] ;;;
  ret (workload_status, false).

(** ** The loop of the supervisor *)

(** The result of [supervise_workload]: [*workload_status], whether it
    returned 0, and [*termination_reason]. *)
Notation supervised := (WorkloadStatus * bool * SandboxTerminationReason)%type.

(** [*termination_reason = reason; return terminate_workload(...)] *)
Definition terminate_for (fuel : nat) (cgroup : SandboxCgroup)
    (reason : SandboxTerminationReason) (workload_status : WorkloadStatus)
    : Controller (WorkloadStatus + supervised) :=
  let* (workload_status, result) := terminate_workload fuel cgroup reason workload_status in
  ret (inr (workload_status, result, reason)).

Definition supervise_step (fuel : nat) (cgroup : SandboxCgroup)
    (workload_status : WorkloadStatus) : Controller (WorkloadStatus + supervised) :=
  let* operator_signal := read_operator_signal in
  if bool_decide (operator_signal ≠ 0) then
    let* shown := read_operator_signal in
    logger_warn "controller received operator signal %d" [AInt shown] ;;;
    let* _ := sandbox_state_request_termination TERMINATION_OPERATOR_SIGNAL in
    terminate_for fuel cgroup TERMINATION_OPERATOR_SIGNAL workload_status
  else
  let* (workload_status, workload_alive) := poll_workload fuel cgroup workload_status in
  match workload_alive with
  | None => terminate_for fuel cgroup TERMINATION_SUPERVISOR_ERROR workload_status
  | Some false => ret (inr (workload_status, true, TERMINATION_NONE))
  | Some true =>
      let* r := sandbox_state_snapshot in
      match r with
      | None => terminate_for fuel cgroup TERMINATION_SUPERVISOR_ERROR workload_status
      | Some snapshot =>
          if termination_requested snapshot
          then terminate_for fuel cgroup (termination_reason snapshot) workload_status else
          let* r := sleep_milliseconds fuel SUPERVISOR_POLL_MILLISECONDS in
          match r with
          | Err e =>
              logger_error "supervisor sleep failed: %s" [AErrno e] ;;;
              terminate_for fuel cgroup TERMINATION_SUPERVISOR_ERROR workload_status
          | Ok _ => ret (inl workload_status)
          end
      end
  end.

Definition supervise_workload (fuel : nat) (cgroup : SandboxCgroup)
    (workload_status : WorkloadStatus) : Controller supervised :=
  loop fuel (supervise_step fuel cgroup) workload_status.

(** ** The final report *)

Definition WIFEXITED (status : Z) : bool := bool_decide (Z.land status 127 = 0).
Definition WEXITSTATUS (status : Z) : Z := Z.land (Z.shiftr status 8) 255.
Definition WTERMSIG (status : Z) : Z := Z.land status 127.
(** [((signed char)((status & 0x7f) + 1) >> 1) > 0] *)
Definition WIFSIGNALED (status : Z) : bool :=
  let n := Z.land status 127 + 1 in
  bool_decide (0 < Z.shiftr (if bool_decide (n < 128) then n else n - 256) 1).

Definition report_child_status {G} (child_status : Z)
    (termination_reason : SandboxTerminationReason) : prog ssys G Z :=
  if WIFEXITED child_status then
    let exit_code := WEXITSTATUS child_status in
    if bool_decide (exit_code = 0) && bool_decide (termination_reason = TERMINATION_NONE) then
      logger_info "final workload status: normal leader exit (code=0) and no descendants remain"
        [] ;;;
      ret EXIT_SUCCESS
    else
      logger_warn "final workload status: leader exit code=%d reason=%s"
        [AInt exit_code; AStr (txt (sandbox_termination_reason_name termination_reason))] ;;;
      ret EXIT_FAILURE
  else if WIFSIGNALED child_status then
    logger_warn "final workload status: leader signal=%d reason=%s"
      [AInt (WTERMSIG child_status);
       AStr (txt (sandbox_termination_reason_name termination_reason))] ;;;
    ret EXIT_FAILURE
  else
    logger_error "final workload status: unrecognized waitpid status 0x%x"
      [AInt child_status] ;;;
    ret EXIT_FAILURE.

#[export] Typeclasses Opaque read_operator_signal install_operator_signal_handlers
  enable_child_subreaper reap_available_children observe_workload poll_workload
  signal_group signal_workload wait_for_workload_exit terminate_workload supervise_workload
  report_child_status.

(** ** What the supervisor does *)

(** Calls that start or end nothing and signal nobody. *)
Definition mild (e : event ssys) : Prop :=
  match e with
  | Ev (Kill _ _) _ | Ev (Pthread_create _) _ | Ev (Pthread_join _) _ | Ev Mutex_init _
  | Ev Mutex_destroy _ | Ev Pipe2 _ | Ev Fork _ | Ev (Mkdir _ _) _ | Ev (Rmdir _) _
  | Ev (Execve _ _ _) _ => False
  | _ => True
  end.

(** The controller [s] supervises the leader [c] of the process group [c]. *)
Definition supervises (s c : Z) (g : sandbox) : Prop :=
  supervisor_pid (sb_state g) = s ∧ child_pid (sb_state g) = c ∧
  child_process_group_id (sb_state g) = c ∧ state_ok (sb_state g).

(** A process of the workload, according to a reading of [/proc]. *)
Definition workload_process (K : kernel ssys) (s c target : Z) : Prop :=
  0 < target ∧ target ≠ s ∧ ∃ all alive p,
    Forall (λ p, read_as (G:=sandbox) K (pid p) (PROC_READ_SUCCESS p)) all ∧
    in_workload all s c alive p ∧ pid p = target.

(** Signals go to the group of the workload or to its processes, and nothing
    else is started or ended. *)
Definition proper (K : kernel ssys) (s c : Z) (e : event ssys) : Prop :=
  match e with
  | Ev (Kill target _) _ => 0 < c ∧ target = - c ∨ workload_process K s c target
  | _ => mild e
  end.

(** Nothing of the workload was left at some moment before [tr]: the cgroup
    was not populated or, without a cgroup, the process tree was empty. *)
Definition workload_gone (K : kernel ssys) (fuel : nat) (cgroup : SandboxCgroup) (s c : Z)
    (tr : strace) : Prop :=
  if active cgroup then
    ∃ w : world ssys sandbox,
      (sandbox_cgroup_is_populated cgroup K w).1 = Ret (Ok false) ∧
      extends (trace (sandbox_cgroup_is_populated cgroup K w).2) tr
  else
    ∃ alive sample (w : world ssys sandbox),
      (process_tree_sample fuel s c alive K w).1 = Ret (Some sample) ∧ processes sample = [] ∧
      extends (trace (process_tree_sample fuel s c alive K w).2) tr.

(** A status that is available is the one [waitpid] gave for the leader. *)
Definition tracked (c : Z) (status : WorkloadStatus) (tr : strace) : Prop :=
  ∀ st, leader_status status = Some st → happened Waitpid_any (WaitChild c st) tr.

(** What the supervisor knows: whom it supervises, and the leader's status. *)
Definition informed (s c : Z) (status : WorkloadStatus) (w : world ssys sandbox) : Prop :=
  supervises s c (globals w) ∧ tracked c status (trace w).

(** The routine calls of the controller: logging, the mutex, reading and
    writing files, [/proc], and looking for children and signals.  What allows
    them allows most of the supervisor's work. *)
Definition is_poll (e : event ssys) : Prop :=
  match e with Ev Waitpid_any _ | Ev Pending_signals _ => True | _ => False end.

Class Routine (P : event ssys → Prop) : Prop := {
  routine_mutex e : is_mutex e → P e;
  routine_file e : is_file e → P e;
  routine_proc e : is_proc e → P e;
  routine_poll e : is_poll e → P e
}.

(** ** Lemmas: the kinds of calls *)

#[export] Instance logger_write_mutex {G} s level format args :
  Emits is_mutex (@logger_write G s level format args).
Proof. eapply emits_weaken; [apply logger_write_emits|]. intros e He. by left; left. Qed.
#[export] Instance logger_info_mutex {G} format args : Emits is_mutex (@logger_info G format args).
Proof. apply logger_write_mutex. Qed.
#[export] Instance logger_warn_mutex {G} format args : Emits is_mutex (@logger_warn G format args).
Proof. apply logger_write_mutex. Qed.
#[export] Instance logger_error_mutex {G} format args :
  Emits is_mutex (@logger_error G format args).
Proof. apply logger_write_mutex. Qed.
#[export] Instance set_state_emits P f : Emits P (set_state f).
Proof. unfold set_state. apply _. Qed.
#[export] Instance lock_state_mutex : Emits is_mutex lock_state.
Proof. eapply emits_weaken; [apply lock_state_locks|]. intros e He. by left. Qed.
#[export] Instance unlock_state_mutex : Emits is_mutex unlock_state.
Proof. eapply emits_weaken; [apply unlock_state_locks|]. intros e He. by left. Qed.
#[export] Instance snapshot_mutex : Emits is_mutex sandbox_state_snapshot.
Proof. unfold sandbox_state_snapshot. solve_emits. Qed.
#[export] Instance request_mutex reason : Emits is_mutex (sandbox_state_request_termination reason).
Proof. unfold sandbox_state_request_termination. solve_emits. by right. Qed.
#[export] Instance mark_leader_mutex : Emits is_mutex sandbox_state_mark_leader_exited.
Proof. unfold sandbox_state_mark_leader_exited. solve_emits. by right. Qed.
#[export] Instance mark_workload_mutex : Emits is_mutex sandbox_state_mark_workload_exited.
Proof. unfold sandbox_state_mark_workload_exited. solve_emits. by right. Qed.

Section routine.
Context (P : event ssys → Prop) `{!Routine P}.

#[export] Instance routine_emits_mutex {G A} (m : prog ssys G A) : Emits is_mutex m → Emits P m.
Proof. intros H. eapply emits_weaken; [exact H|apply routine_mutex]. Qed.
#[export] Instance routine_emits_file {G A} (m : prog ssys G A) : Emits is_file m → Emits P m.
Proof. intros H. eapply emits_weaken; [exact H|apply routine_file]. Qed.
#[export] Instance sample_routine {G} fuel s c alive :
  Emits P (@process_tree_sample G fuel s c alive).
Proof. eapply emits_weaken; [apply process_tree_sample_emits|apply routine_proc]. Qed.
#[export] Instance cgroup_kill_routine {G} fuel cgroup : Emits P (@sandbox_cgroup_kill G fuel cgroup).
Proof. unfold sandbox_cgroup_kill. solve_emits. Qed.
#[export] Instance read_signal_routine : Emits P read_operator_signal.
Proof. unfold read_operator_signal. solve_emits. by apply routine_poll. Qed.
#[export] Instance reap_routine fuel status : Emits P (reap_available_children fuel status).
Proof. unfold reap_available_children, reap_step. solve_emits. by apply routine_poll. Qed.
#[export] Instance observe_routine fuel cgroup snapshot :
  Emits P (observe_workload fuel cgroup snapshot).
Proof. unfold observe_workload. solve_emits. Qed.
#[export] Instance poll_routine fuel cgroup status : Emits P (poll_workload fuel cgroup status).
Proof. unfold poll_workload. solve_emits. Qed.

End routine.

#[export] Instance mild_routine : Routine mild.
Proof. split; intros [T c x]; destruct c; unfold is_mutex, is_lock, is_log; simpl; tauto. Qed.
#[export] Instance sleep_mild {G} fuel ms : Emits mild (@sleep_milliseconds G fuel ms).
Proof. eapply emits_weaken; [apply sleep_emits|]. by intros [? []]. Qed.

(** ** Lemmas: the state is only moved along its transitions *)

Lemma handle_signals_state signals g :
  sb_state (foldl (λ g s, handle_operator_signal s g) g signals) = sb_state g.
Proof. revert g. induction signals as [|n signals IH]; intros g; simpl; [done|]. by rewrite IH. Qed.

#[export] Instance read_signal_moves : Moves state_evolves read_operator_signal.
Proof.
  unfold read_operator_signal. solve_moves. unfold state_evolves.
  by rewrite handle_signals_state.
Qed.
#[export] Instance reap_moves fuel status : Moves state_evolves (reap_available_children fuel status).
Proof. unfold reap_available_children, reap_step. solve_moves. Qed.
#[export] Instance observe_moves fuel cgroup snapshot :
  Moves state_evolves (observe_workload fuel cgroup snapshot).
Proof. unfold observe_workload. solve_moves. Qed.
#[export] Instance poll_moves fuel cgroup status :
  Moves state_evolves (poll_workload fuel cgroup status).
Proof. unfold poll_workload. solve_moves. Qed.
#[export] Instance kill_keeps {G B} (f : G → B) fuel cgroup :
  Keeps f (@sandbox_cgroup_kill G fuel cgroup).
Proof.
  unfold sandbox_cgroup_kill, write_text_file, write_retry. solve_keeps.
Qed.
#[export] Instance signal_group_moves fuel cgroup snapshot n :
  Moves state_evolves (signal_group fuel cgroup snapshot n).
Proof. unfold signal_group. solve_moves. Qed.
#[export] Instance signal_processes_moves snapshot n b l st :
  Moves state_evolves (signal_processes snapshot n b l st).
Proof.
  revert st. induction l as [|p l IH]; intros st; cbn [signal_processes]; [apply _|].
  destruct st as [k r]. solve_moves.
Qed.
#[export] Instance signal_workload_moves fuel cgroup n :
  Moves state_evolves (signal_workload fuel cgroup n).
Proof. unfold signal_workload. solve_moves. Qed.

Lemma supervises_evolves s c g g' :
  state_evolves g g' → supervises s c g → supervises s c g'.
Proof.
  intros H (H1 & H2 & H3 & H4). unfold state_evolves in H.
  pose proof (evolves_ok _ _ H H4). apply evolves_ids in H as (E1 & E2 & E3).
  unfold supervises. by rewrite E1, E2, E3.
Qed.

(** ** Lemmas: supervising stays proper *)

Section proper.
Context (K : kernel ssys) (s c : Z).
Notation Proper_ := (Within K (supervises s c) (proper K s c)).

Lemma mild_proper e : mild e → proper K s c e.
Proof. by destruct e as [? []]. Qed.

Lemma within_mild {A} (m : Controller A) :
  Moves state_evolves m → Emits mild m → Proper_ m.
Proof.
  intros. eapply within_frame; [done|done|apply supervises_evolves|apply mild_proper].
Qed.

Ltac mild_part := solve [apply within_mild; [solve_moves|solve_emits]].

Lemma within_signal_group fuel cgroup snapshot n :
  child_process_group_id snapshot = c → Proper_ (signal_group fuel cgroup snapshot n).
Proof.
  intros Hg. unfold signal_group. rewrite Hg. apply within_bind.
  { mild_part. }
  intros r. case_bool_decide as Hc; [|mild_part].
  apply within_bind; [|intros [u|e]; mild_part].
  intros w Hw. split; [done|]. eexists [_]. split; [done|]. apply Forall_singleton.
  by left.
Qed.

Lemma within_signal_processes snapshot n b l st :
  supervisor_pid snapshot = s →
  Forall (λ p, 0 < pid p → pid p ≠ s → workload_process K s c (pid p)) l →
  Proper_ (signal_processes snapshot n b l st).
Proof.
  intros Hs Hl. revert st. induction Hl as [|p l Hp _ IH]; intros [k r]; cbn [signal_processes].
  { mild_part. }
  rewrite Hs. destruct (bool_decide (pid p ≤ 0)) eqn:E1; [apply IH|].
  destruct (bool_decide (pid p = s)) eqn:E2; [apply IH|]. cbn [orb].
  destruct (_ && _); [apply IH|].
  apply bool_decide_eq_false in E1, E2. specialize (Hp ltac:(lia) E2).
  apply within_bind.
  - intros w Hw. split; [done|]. eexists [_]. split; [done|]. apply Forall_singleton. by right.
  - intros [u|e]; [apply IH|]. case_bool_decide; [|apply IH].
    apply within_bind; [mild_part|intros _; apply IH].
Qed.

(** What a snapshot and a sample say of the workload. *)
Lemma snapshot_supervises w :
  supervises s c (globals w) →
  wp K sandbox_state_snapshot (post (λ r _, ∀ snapshot, r = Some snapshot →
    supervisor_pid snapshot = s ∧ child_pid snapshot = c ∧
    child_process_group_id snapshot = c ∧ state_ok snapshot) (λ _ _, True)) w.
Proof.
  intros Hw. apply wp_snapshot. intros s' sn new _ Hint Hsn.
  intros snapshot ->. destruct Hsn as [|[= ->]]; [done|].
  by apply (supervises_evolves s c (globals w) (Sandbox s' 0)) in Hint.
Qed.

Lemma sample_workload fuel alive (w : world ssys sandbox) :
  wp K (process_tree_sample fuel s c alive) (post (λ r _, ∀ sample, r = Some sample →
    Forall (λ p, 0 < pid p → pid p ≠ s → workload_process K s c (pid p)) (processes sample))
    (λ _ _, True)) w.
Proof.
  eapply wp_mono; [apply tree_sample_spec|]. intros [r|h] w' Hr; [|done].
  intros sample ->. destruct (Hr _ eq_refl) as (new & all & _ & Hread & _ & _ & Hin & _).
  apply Forall_forall. intros p Hp Hpos Hne. split; [done|]. split; [done|].
  exists all, alive, p. split_and!; [done|by apply Hin|done].
Qed.

Lemma within_signal_workload fuel cgroup n : Proper_ (signal_workload fuel cgroup n).
Proof.
  unfold signal_workload.
  eapply within_bind_post; [intros w Hw; by apply snapshot_supervises|mild_part|].
  intros [snapshot|] Hsn; [|mild_part]. destruct (Hsn _ eq_refl) as (E1 & E2 & E3 & _).
  apply within_bind; [by apply within_signal_group|]. intros [b r]. rewrite E1, E2.
  eapply within_bind_post; [intros w _; apply sample_workload|mild_part|].
  intros [sample|] Hsample; [|mild_part].
  apply within_bind; [by apply within_signal_processes; [|apply Hsample]|].
  intros [k r']. mild_part.
Qed.

(** The repeated [SIGKILL]. *)
Lemma within_repeat fuel cgroup (repeat_sigkill : bool) :
  Proper_ (if repeat_sigkill
           then let* _ := signal_workload fuel cgroup SIGKILL in ret tt else ret tt).
Proof.
  destruct repeat_sigkill; [|mild_part].
  apply within_bind; [apply within_signal_workload|intros _; mild_part].
Qed.

Lemma within_wait fuel cgroup status timeout_milliseconds repeat_sigkill :
  Proper_ (wait_for_workload_exit fuel cgroup status timeout_milliseconds repeat_sigkill).
Proof.
  unfold wait_for_workload_exit. apply within_loop. intros [waited st]. unfold wait_step.
  apply within_bind; [mild_part|]. intros [st' [[]|]]; [|mild_part..].
  apply within_bind; [apply within_repeat|]. intros _. mild_part.
Qed.

Lemma within_terminate fuel cgroup reason status :
  Proper_ (terminate_workload fuel cgroup reason status).
Proof.
  unfold terminate_workload. repeat first
    [ mild_part | apply within_signal_workload | apply within_wait
    | apply within_bind; [|intros ?] | case_match ].
Qed.

Lemma within_supervise fuel cgroup status : Proper_ (supervise_workload fuel cgroup status).
Proof.
  unfold supervise_workload, supervise_step, terminate_for. apply within_loop. intros st.
  repeat first
    [ mild_part | apply within_terminate | apply within_bind; [|intros ?] | case_match ].
Qed.

End proper.

(** ** Lemmas: what the results of supervising mean *)

Lemma tracked_extends c status tr tr' :
  extends tr tr' → tracked c status tr → tracked c status tr'.
Proof. intros He Ht st Hst. eapply happened_extends; [exact He|]. by apply Ht. Qed.

Lemma workload_gone_extends K fuel cgroup s c tr tr' :
  extends tr tr' → workload_gone K fuel cgroup s c tr → workload_gone K fuel cgroup s c tr'.
Proof.
  unfold workload_gone. intros He. destruct (active cgroup).
  - intros (w & Hr & Hx). exists w. split; [done|]. by eapply extends_trans.
  - intros (alive & sample & w & Hr & Hp & Hx). exists alive, sample, w.
    split_and!; [done|done|]. by eapply extends_trans.
Qed.

Section results.
Context (K : kernel ssys) (s c : Z) (fuel : nat) (cgroup : SandboxCgroup).
Notation informed := (informed s c).
Notation gone := (workload_gone K fuel cgroup s c).

Lemma informed_later status w w' :
  informed status w → supervises s c (globals w') → extends (trace w) (trace w') →
  informed status w'.
Proof. intros [_ Ht] Hs He. split; [done|]. by eapply tracked_extends. Qed.

(** A part whose result does not matter. *)
Lemma wp_mild {A} (m : Controller A) (Q : outcome A → world ssys sandbox → Prop) status w :
  Moves state_evolves m → Emits mild m → informed status w →
  (∀ o w', m K w = (o, w') → informed status w' → grown mild (trace w) (trace w') → Q o w') →
  wp K m Q w.
Proof.
  intros Hm He Hw HQ. destruct (He K w) as (new & Htr & Hnew).
  assert (grown mild (trace w) (trace (m K w).2)) as Hg by by exists new.
  apply HQ; [by destruct (m K w)| |done]. eapply informed_later; [exact Hw| |by eapply grown_extends].
  eapply supervises_evolves; [apply Hm|apply Hw].
Qed.

(** A part that may signal the workload. *)
Lemma wp_proper {A} (m : Controller A) (Q : outcome A → world ssys sandbox → Prop) status w :
  Within K (supervises s c) (proper K s c) m → informed status w →
  (∀ o w', informed status w' → extends (trace w) (trace w') → Q o w') → wp K m Q w.
Proof.
  intros Hm Hw HQ. destruct (Hm w (proj1 Hw)) as (Hs & new & Htr & _).
  assert (extends (trace w) (trace (m K w).2)) by by exists new.
  apply HQ; [|done]. by eapply informed_later.
Qed.

Ltac mild_run Hw := wp_steps; eapply wp_mild; [solve_moves|solve_emits|exact Hw|].

Lemma reap_step_spec status w :
  informed status w →
  wp K (reap_step status) (post (λ r w', grown mild (trace w) (trace w') ∧ match r with
    | inl status' => informed status' w'
    | inr (status', _) => informed status' w'
    end) (λ _ _, True)) w.
Proof.
  intros Hw. unfold reap_step. wp_steps.
  destruct (K _ _ Waitpid_any) as [p st| |e] eqn:E.
  - wp_steps. set (w1 := World _ _).
    assert (informed (count_reaped status) w1 ∧ grown mild (trace w) (trace w1)) as [Hw1 Hg1].
    { split; [|by apply grown_cons]. apply (informed_later status w); try apply Hw.
      apply extends_cons, extends_refl. }
    assert (happened Waitpid_any (WaitChild p st) (trace w1)) as Hst by apply happened_here.
    pose proof (proj1 Hw) as (_ & Hc & _). rewrite Hc. clearbody w1.
    destruct (bool_decide (p = c) && _) eqn:Eb; wp_steps.
    + apply andb_true_iff in Eb as [->%bool_decide_eq_true _].
      mild_run Hw1. intros [r|h] w2 _ Hw2 Hg2; [|done].
      mild_run Hw2. intros [r'|h] w3 _ Hw3 Hg3; [|done].
      assert (grown mild (trace w1) (trace w3)) by by etrans.
      wp_steps. split; [by etrans|]. split; [apply Hw3|].
      intros st' [= <-]. eapply happened_extends; [by eapply grown_extends|exact Hst].
    + mild_run Hw1. intros [r'|h] w3 _ Hw3 Hg3; [|done].
      wp_steps. split; [by etrans|done].
  - wp_steps. split; [by apply grown_cons|]. apply (informed_later status w); try apply Hw.
    apply extends_cons, extends_refl.
  - set (w1 := World _ _).
    assert (informed status w1 ∧ grown mild (trace w) (trace w1)) as [Hw1 Hg1].
    { split; [|by apply grown_cons]. apply (informed_later status w); try apply Hw.
      apply extends_cons, extends_refl. }
    clearbody w1. destruct (is_eintr e); [by wp_steps|]. case_bool_decide; [by wp_steps|]. wp_steps.
    mild_run Hw1. intros [r'|h] w3 _ Hw3 Hg3; [|done].
    wp_steps. split; [by etrans|done].
Qed.

Lemma reap_spec status w :
  informed status w →
  wp K (reap_available_children fuel status) (post (λ '(status', _) w',
    informed status' w' ∧ grown mild (trace w) (trace w')) (λ _ _, True)) w.
Proof.
  intros Hw. unfold reap_available_children.
  apply (wp_loop_inv K (λ st w', informed st w' ∧ grown mild (trace w) (trace w'))); [|done|done].
  intros st w1 [Hw1 Hg1]. eapply wp_mono; [by apply reap_step_spec|].
  intros [[st'|[st' b]]|h] w2; [| |done]; intros [Hg2 Hw2]; (split; [done|]); by etrans.
Qed.

Lemma observe_spec snapshot status w :
  informed status w → supervisor_pid snapshot = s → child_pid snapshot = c →
  wp K (observe_workload fuel cgroup snapshot) (post (λ r w',
    informed status w' ∧ grown mild (trace w) (trace w') ∧ (r = Some false → gone (trace w')))
    (λ _ _, True)) w.
Proof.
  intros Hw E1 E2. unfold observe_workload, workload_gone.
  destruct (active cgroup) eqn:Ea; wp_steps; [|rewrite E1, E2];
    mild_run Hw; intros [r|h] w1 Hrun Hw1 Hg1; try done.
  - destruct r as [populated|e]; wp_steps.
    + mild_run Hw1. intros [[]|h] w2 _ Hw2 Hg2; [|done].
      wp_steps. split; [done|]. split; [by etrans|]. intros [= ->]. exists w. rewrite Hrun.
      split; [done|]. by eapply grown_extends.
    + mild_run Hw1. intros [[]|h] w2 _ Hw2 Hg2; [|done].
      wp_steps. split; [done|]. by split; [etrans|].
  - destruct r as [sample|]; wp_steps.
    + mild_run Hw1. intros [[]|h] w2 _ Hw2 Hg2; [|done].
      wp_steps. split; [done|]. split; [by etrans|]. intros [= Hz%bool_decide_eq_false].
      exists (leader_alive snapshot), sample, w. rewrite Hrun. split; [done|].
      split; [|by eapply grown_extends]. apply nil_length_inv. unfold process_count in Hz. lia.
    + mild_run Hw1. intros [[]|h] w2 _ Hw2 Hg2; [|done].
      wp_steps. split; [done|]. by split; [etrans|].
Qed.

Lemma poll_spec status w :
  informed status w →
  wp K (poll_workload fuel cgroup status) (post (λ '(status', r) w',
    informed status' w' ∧ grown mild (trace w) (trace w') ∧ (r = Some false → gone (trace w')))
    (λ _ _, True)) w.
Proof.
  intros Hw. unfold poll_workload. wp_steps.
  eapply wp_mono; [by apply reap_spec|]. intros [[st []]|h] w1; [| |done]; intros [Hw1 Hg1];
    wp_steps; [|done].
  eapply wp_mono; [apply wp_conj; [by apply snapshot_supervises, Hw1|]|].
  { mild_run Hw1.
    intros o w2 _ Hw2 Hg2. exact (conj Hw2 Hg2). }
  intros [[snapshot|]|h] w2 [Hsn [Hw2 Hg2]]; wp_steps; [| |done].
  2:{ split; [done|]. by split; [etrans|]. }
  destruct (Hsn _ eq_refl) as (E1 & E2 & _).
  eapply wp_mono; [by apply observe_spec|]. intros [r|h] w3; [|done].
  intros (Hw3 & Hg3 & Hr). wp_steps. split; [done|]. split; [|done].
  etrans; [done|]. by etrans.
Qed.

Lemma wait_spec status timeout_milliseconds repeat_sigkill w :
  informed status w →
  wp K (wait_for_workload_exit fuel cgroup status timeout_milliseconds repeat_sigkill)
    (post (λ '(status', r) w', informed status' w' ∧ extends (trace w) (trace w') ∧
      (r = 0 → gone (trace w'))) (λ _ _, True)) w.
Proof.
  intros Hw. unfold wait_for_workload_exit.
  apply (wp_loop_inv K (λ st w', informed st.2 w' ∧ extends (trace w) (trace w'))); [|done|done].
  intros [waited st] w1 [Hw1 Hg1]. unfold wait_step. wp_steps.
  eapply wp_mono; [by apply poll_spec|].
  intros [[st' [[]|]]|h] w2; try done; intros (Hw2 & Hg2%grown_extends & Hr);
    (assert (extends (trace w) (trace w2)) by by eapply extends_trans); wp_steps;
    [|by split_and!; auto|done].
  eapply (wp_proper _ _ st'); [apply within_repeat|exact Hw2|].
  intros [[]|h] w3 Hw3 He3; [|done]. assert (extends (trace w) (trace w3)) by by eapply extends_trans.
  case_bool_decide; wp_steps; [by split_and!|].
  mild_run Hw3. intros [[u|e]|h] w4 _ Hw4 Hg4%grown_extends;
    wp_steps; [split; [done|by eapply extends_trans]| |done].
  mild_run Hw4. intros [u|h] w5 _ Hw5 Hg5%grown_extends;
    wp_steps; [|done].
  split; [done|]. split; [|done]. do 2 (eapply extends_trans; [eassumption|]). done.
Qed.

Lemma terminate_spec reason status w :
  informed status w →
  wp K (terminate_workload fuel cgroup reason status) (post (λ '(status', r) w',
    informed status' w' ∧ extends (trace w) (trace w') ∧ (r = true → gone (trace w')))
    (λ _ _, True)) w.
Proof.
  intros Hw.
  cut (wp K (terminate_workload fuel cgroup reason status) (post (λ '(status', r) w',
    informed status' w' ∧ (r = true → gone (trace w'))) (λ _ _, True)) w).
  { intros H. eapply wp_mono; [apply wp_conj; [exact H|eapply within_wp;
      [apply within_terminate|apply Hw]]|].
    intros [[st r]|h] w'; [|done]. intros [[H1 H2] (_ & new & Htr & _)].
    split; [done|]. split; [by exists new|done]. }
  unfold terminate_workload.
  mild_run Hw. intros [[]|h] w1 _ Hw1 _; [|done]. wp_steps.
  eapply wp_proper; [apply within_signal_workload|exact Hw1|]. intros [r|h] w2 Hw2 _; [|done].
  mild_run Hw2. intros [[]|h] w3 _ Hw3 _; [|done]. wp_steps.
  eapply wp_mono; [by apply wait_spec|]. intros [[st1 r1]|h] w4; [|done]. intros (Hw4 & _ & Hr1).
  wp_steps. case_bool_decide as E1.
  { specialize (Hr1 E1). mild_run Hw4. intros [[]|h] w5 _ Hw5 Hg5%grown_extends; [|done]. wp_steps.
    split; [done|]. intros _. by eapply workload_gone_extends. }
  mild_run Hw4. intros [[]|h] w5 _ Hw5 _; [|done]. wp_steps.
  eapply wp_proper; [apply within_signal_workload|exact Hw5|]. intros [r2|h] w6 Hw6 _; [|done].
  wp_steps. eapply wp_mono; [by apply wait_spec|].
  intros [[st2 r3]|h] w7; [|done]. intros (Hw7 & _ & Hr3). wp_steps. case_bool_decide as E2;
    mild_run Hw7; intros [[]|h] w8 _ Hw8 Hg8%grown_extends; try done; wp_steps; (split; [done|]);
    try done.
  intros _. eapply workload_gone_extends; [exact Hg8|by apply Hr3].
Qed.

Definition supervised_ok (w : world ssys sandbox) (r : supervised) (w' : world ssys sandbox)
    : Prop :=
  let '(status, result, reason) := r in
  informed status w' ∧ extends (trace w) (trace w') ∧ (result = true → gone (trace w')) ∧
  (reason = TERMINATION_NONE → result = true ∧ grown mild (trace w) (trace w')).

Lemma terminate_for_spec w0 reason status w :
  informed status w → extends (trace w0) (trace w) → reason ≠ TERMINATION_NONE →
  wp K (terminate_for fuel cgroup reason status) (post (λ r w', match r with
    | inl _ => False
    | inr r => supervised_ok w0 r w'
    end) (λ _ _, True)) w.
Proof.
  intros Hw He Hr. unfold terminate_for. wp_steps.
  eapply wp_mono; [by apply terminate_spec|]. intros [[st r]|h] w'; [|done].
  intros (Hw' & He' & Hgone). wp_steps. split; [done|].
  split; [by eapply extends_trans|]. by split.
Qed.

Lemma supervise_step_spec w0 status w :
  informed status w → grown mild (trace w0) (trace w) →
  wp K (supervise_step fuel cgroup status) (post (λ r w', match r with
    | inl status' => informed status' w' ∧ grown mild (trace w0) (trace w')
    | inr r => supervised_ok w0 r w'
    end) (λ _ _, True)) w.
Proof.
  intros Hw Hg. unfold supervise_step.
  assert (∀ reason st w1, informed st w1 → grown mild (trace w) (trace w1) →
    reason ≠ TERMINATION_NONE → wp K (terminate_for fuel cgroup reason st)
      (post (λ r w', match r with
        | inl status' => informed status' w' ∧ grown mild (trace w0) (trace w')
        | inr r => supervised_ok w0 r w'
        end) (λ _ _, True)) w1) as Hterminate.
  { intros reason st w1 Hw1 Hg1 Hr. eapply wp_mono; [apply (terminate_for_spec w0); try done|].
    - eapply grown_extends. by etrans.
    - by intros [[st'|r]|h] w2. }
  mild_run Hw. intros [n|h] w1 _ Hw1 Hg1; [|done]. wp_decide Hn.
  { mild_run Hw1. intros [shown|h] w2 _ Hw2 Hg2; [|done].
    mild_run Hw2. intros [[]|h] w3 _ Hw3 Hg3; [|done].
    mild_run Hw3. intros [r|h] w4 _ Hw4 Hg4; [|done]. apply Hterminate; [done| |done].
    do 2 (etrans; [eassumption|]). by etrans. }
  wp_steps. eapply wp_mono; [by apply poll_spec|].
  intros [[st [[]|]]|h] w2; try done; intros (Hw2 & Hg2 & Hr2); wp_steps;
    (assert (grown mild (trace w) (trace w2)) as Hg2' by by etrans).
  - eapply wp_mono; [apply wp_conj; [by apply snapshot_supervises, Hw2|]|].
    { mild_run Hw2. intros o w3 _ Hw3 Hg3. exact (conj Hw3 Hg3). }
    intros [[snapshot|]|h] w3 [Hsn [Hw3 Hg3]]; wp_steps; [| |done];
      (assert (grown mild (trace w) (trace w3)) as Hg3' by by etrans); [|by apply Hterminate].
    destruct (Hsn _ eq_refl) as (_ & _ & _ & Hok & _).
    destruct (termination_requested snapshot) eqn:Er; [by apply Hterminate, Hok|].
    mild_run Hw3. intros [[u|e]|h] w4 _ Hw4 Hg4; wp_steps; [| |done];
      (assert (grown mild (trace w) (trace w4)) as Hg4' by by etrans).
    + split; [done|]. by etrans.
    + mild_run Hw4. intros [[]|h] w5 _ Hw5 Hg5; [|done].
      apply Hterminate; [done|by etrans|done].
  - assert (grown mild (trace w0) (trace w2)) by by etrans.
    split; [done|]. split; [by eapply grown_extends|]. split; [by intros _; apply Hr2|done].
  - by apply Hterminate.
Qed.

Lemma supervise_spec status w :
  informed status w →
  wp K (supervise_workload fuel cgroup status) (post (supervised_ok w) (λ _ _, True)) w.
Proof.
  intros Hw. unfold supervise_workload.
  apply (wp_loop_inv K (λ st w', informed st w' ∧ grown mild (trace w) (trace w'))); [|done|done].
  intros st w1 [Hw1 Hg1]. eapply wp_mono; [by apply (supervise_step_spec w)|].
  by intros [[st'|r]|h] w2.
Qed.

End results.

(** The same steps outside the sections. *)
Ltac mild_part := solve [apply within_mild; [solve_moves|solve_emits]].
Ltac mild_run Hw := wp_steps; eapply wp_mild; [solve_moves|solve_emits|exact Hw|].
