(* ===== verification/Supervision.v ===== *)
(** * What supervising guarantees

    The properties of [Supervisor.v]: whom the supervisor signals, how long it
    waits, and that terminating ends and a recorded request is acted upon. *)

From S2P Require Import Prelude.
From S2P Require Import CLib.
From S2P Require Import SandboxSys.
From S2P Require Import Logger.
From S2P Require Import MonitorState.
From S2P Require Import History.
From S2P Require Import ProcStat.
From S2P Require Import ProcessTree.
From S2P Require Import Cgroup.
From S2P Require Import SandboxChild.
From S2P Require Import Monitors.
From S2P Require Import Supervisor.
Local Open Scope Z_scope.

(** Whether a call slept to the end. *)
Definition is_nap (e : event ssys) : bool :=
  match e with
  | Ev (Nanosleep _ _) r => match r with SleptAll => true | SleepErr _ _ _ => false end
  | _ => false
  end.

(** The sleeps that went to their end, the last part of an interrupted sleep
    counting for all of it. *)
Definition naps (tr : strace) : Z := Z.of_nat (count_events is_nap tr).

(** The program returns, on this kernel. *)
Definition returns_on {A} (K : kernel ssys) (m : Controller A) : Prop :=
  ∀ w, ∃ a, (m K w).1 = Ret a.

(** The kernel lets the inner loops of the supervisor end: children that
    changed state, directory entries and interruptions run out. *)
Record responsive (K : kernel ssys) (fuel : nat) (cgroup : SandboxCgroup) : Prop := {
  resp_reap status : returns_on K (reap_available_children fuel status);
  resp_sample s c alive : returns_on K (process_tree_sample fuel s c alive);
  resp_sleep : returns_on K (sleep_milliseconds fuel SUPERVISOR_POLL_MILLISECONDS);
  resp_kill : returns_on K (sandbox_cgroup_kill fuel cgroup)
}.

(** ** Lemmas: waiting *)

Lemma naps_none tr new : Forall (λ e, is_nap e = false) new → naps (new ++ tr) = naps tr.
Proof. intros H. unfold naps. by rewrite count_events_app, (count_events_none _ new). Qed.

Lemma sleep_naps {G} K fuel ms (w : world ssys G) :
  wp K (sleep_milliseconds fuel ms) (post (λ r w', globals w' = globals w ∧
    naps (trace w') = naps (trace w) + (if r is Ok _ then 1 else 0))
    (λ h w', h = OutOfFuel ∧ naps (trace w') = naps (trace w))) w.
Proof.
  unfold sleep_milliseconds.
  apply (wp_loop_inv K (λ _ w', globals w' = globals w ∧ naps (trace w') = naps (trace w)));
    [|by intros ??[]|done].
  intros delay w' [Hg Hn]. unfold sleep_step. wp_steps.
  destruct (K _ _ (Nanosleep _ _)) as [|e sec nsec] eqn:E; [|destruct (is_eintr e)]; wp_steps;
    (split; [done|]); unfold naps in *; cbn [trace]; rewrite count_events_cons; cbn [is_nap]; lia.
Qed.

(** Calls that do not sleep. *)
Notation awake := (λ e : event ssys, is_nap e = false).

#[export] Instance awake_routine : Routine awake.
Proof.
  split; intros [T c x]; destruct c; unfold is_mutex, is_lock, is_log; simpl; tauto.
Qed.

Lemma signal_processes_emits P `{!Routine P} snapshot n b l st :
  (∀ t r, P (Ev (Kill t n) r)) → Emits P (signal_processes snapshot n b l st).
Proof.
  intros HP. revert st. induction l as [|p l IH]; intros st; cbn [signal_processes]; [apply _|].
  destruct st as [k r]. solve_emits.
Qed.
Lemma signal_workload_emits P `{!Routine P} fuel cgroup n :
  (∀ t r, P (Ev (Kill t n) r)) → Emits P (signal_workload fuel cgroup n).
Proof.
  intros HP. unfold signal_workload, signal_group.
  repeat first [by apply signal_processes_emits | emits_step].
Qed.
#[export] Instance signal_workload_awake fuel cgroup n :
  Emits awake (signal_workload fuel cgroup n).
Proof. by apply signal_workload_emits; try apply _. Qed.

Lemma wp_awake {A} (K : kernel ssys) (m : Controller A) (Q : outcome A → world ssys sandbox → Prop) w :
  Emits awake m → wp K m (λ o w', naps (trace w') = naps (trace w) → Q o w') w → wp K m Q w.
Proof.
  intros Hm H. eapply wp_mono; [apply wp_conj; [exact H|apply emits_wp, Hm]|].
  intros o w' [HQ (new & Htr & Hnew)]. apply HQ. rewrite Htr. by apply naps_none.
Qed.

(** ** Lemmas: programs that stop only for lack of fuel *)

#[export] Instance lock_state_fueled : Fueled lock_state.
Proof. unfold lock_state, set_state. solve_fueled. Qed.
#[export] Instance unlock_state_fueled : Fueled unlock_state.
Proof. unfold unlock_state. solve_fueled. Qed.
#[export] Instance snapshot_fueled : Fueled sandbox_state_snapshot.
Proof. unfold sandbox_state_snapshot. solve_fueled. Qed.
#[export] Instance request_fueled reason : Fueled (sandbox_state_request_termination reason).
Proof. unfold sandbox_state_request_termination, set_state. solve_fueled. Qed.
#[export] Instance mark_leader_fueled : Fueled sandbox_state_mark_leader_exited.
Proof. unfold sandbox_state_mark_leader_exited, set_state. solve_fueled. Qed.
#[export] Instance mark_workload_fueled : Fueled sandbox_state_mark_workload_exited.
Proof. unfold sandbox_state_mark_workload_exited, set_state. solve_fueled. Qed.
#[export] Instance sleep_fueled {G} fuel ms : Fueled (@sleep_milliseconds G fuel ms).
Proof. unfold sleep_milliseconds, sleep_step. solve_fueled. Qed.
#[export] Instance write_text_file_fueled {G} fuel d n v : Fueled (@write_text_file G fuel d n v).
Proof. unfold write_text_file, write_retry. solve_fueled. Qed.
#[export] Instance sample_fueled {G} fuel s c alive :
  Fueled (@process_tree_sample G fuel s c alive).
Proof.
  intros K w. pose proof (tree_sample_spec K fuel s c alive w) as H. unfold wp, post in H.
  destruct (process_tree_sample fuel s c alive K w).1 as [r|h]; [left; by eexists|right; by rewrite H].
Qed.
#[export] Instance reap_fueled fuel status : Fueled (reap_available_children fuel status).
Proof. unfold reap_available_children, reap_step. solve_fueled. Qed.
#[export] Instance poll_fueled fuel cgroup status : Fueled (poll_workload fuel cgroup status).
Proof. unfold poll_workload, observe_workload. solve_fueled. Qed.
#[export] Instance signal_processes_fueled snapshot n b l st :
  Fueled (signal_processes snapshot n b l st).
Proof.
  revert st. induction l as [|p l IH]; intros st; cbn [signal_processes]; [apply _|].
  destruct st as [k r]. solve_fueled.
Qed.
#[export] Instance signal_workload_fueled fuel cgroup n : Fueled (signal_workload fuel cgroup n).
Proof. unfold signal_workload, signal_group, sandbox_cgroup_kill. solve_fueled. Qed.
#[export] Instance wait_fueled fuel cgroup status t b :
  Fueled (wait_for_workload_exit fuel cgroup status t b).
Proof. unfold wait_for_workload_exit, wait_step. solve_fueled. Qed.
#[export] Instance terminate_fueled fuel cgroup reason status :
  Fueled (terminate_workload fuel cgroup reason status).
Proof. unfold terminate_workload. solve_fueled. Qed.
#[export] Instance supervise_fueled fuel cgroup status :
  Fueled (supervise_workload fuel cgroup status).
Proof. unfold supervise_workload, supervise_step, terminate_for, read_operator_signal. solve_fueled. Qed.

(** ** Lemmas: how long it waits *)

Section waiting.
Context (K : kernel ssys) (s c : Z) (fuel : nat) (cgroup : SandboxCgroup)
        (timeout_milliseconds : Z) (repeat_sigkill : bool).
Hypothesis Htimeout : 0 ≤ timeout_milliseconds ≤ FORCE_KILL_WAIT_MILLISECONDS.

(** The milliseconds slept since [w0]. *)
Definition time_slept (w0 w : world ssys sandbox) : Z :=
  SUPERVISOR_POLL_MILLISECONDS * (naps (trace w) - naps (trace w0)).

(** What the result of waiting since [w0] means. *)
Definition waited_result (w0 : world ssys sandbox) (r : Z) (w : world ssys sandbox) : Prop :=
  0 ≤ time_slept w0 w < timeout_milliseconds + SUPERVISOR_POLL_MILLISECONDS ∧
  (r = 0 ∧ workload_gone K fuel cgroup s c (trace w) ∨
   r = 1 ∧ timeout_milliseconds ≤ time_slept w0 w ∨ r = -1).

Definition waiting (w0 : world ssys sandbox) (st : Z * WorkloadStatus) (w : world ssys sandbox)
    : Prop :=
  informed s c st.2 w ∧ st.1 = time_slept w0 w ∧
  0 ≤ st.1 < timeout_milliseconds + SUPERVISOR_POLL_MILLISECONDS.

Lemma wait_step_slept w0 st w :
  waiting w0 st w →
  wp K (wait_step fuel cgroup timeout_milliseconds repeat_sigkill st) (post (λ r w',
    match r with
    | inl st' => waiting w0 st' w' ∧ st'.1 = st.1 + SUPERVISOR_POLL_MILLISECONDS
    | inr (_, r) => waited_result w0 r w'
    end) (λ _ _, True)) w.
Proof.
  destruct st as [waited st]. intros (Hw & Hwaited & Hbound). unfold wait_step. cbn [fst snd] in *.
  assert (∀ w', naps (trace w') = naps (trace w) → time_slept w0 w' = waited) as Hsame.
  { intros w' E. unfold time_slept in *. by rewrite E. }
  wp_steps. apply wp_awake; [apply _|]. eapply wp_mono; [by apply poll_spec|].
  intros [[st1 [[]|]]|h] w1; try done; intros (Hw1 & _ & Hgone) Hn1; wp_steps;
    (assert (time_slept w0 w1 = waited) as Hs1 by by apply Hsame);
    [|split; [by rewrite Hs1|auto]..].
  apply wp_awake; [destruct repeat_sigkill; solve_emits|].
  eapply (wp_proper _ _ _ _ _ st1); [apply within_repeat|exact Hw1|].
  intros [[]|h] w2 Hw2 _ Hn2; [|done].
  assert (time_slept w0 w2 = waited) as Hs2 by (apply Hsame; congruence).
  wp_decide Hlong; wp_steps; [split; [by rewrite Hs2|right; left; by rewrite Hs2]|].
  eapply wp_mono; [apply wp_conj; [apply sleep_naps|]|].
  { mild_run Hw2. intros o w3 _ Hw3 _. exact Hw3. }
  intros [[u|e]|h] w3 [[_ Hn3] Hw3]; wp_steps; [| |done].
  - unfold FORCE_KILL_WAIT_MILLISECONDS, SUPERVISOR_POLL_MILLISECONDS in *.
    rewrite Z.mod_small by lia. split; [|done]. split; [done|]. cbn [fst snd].
    unfold time_slept, SUPERVISOR_POLL_MILLISECONDS in *. lia.
  - apply wp_awake; [apply _|]. eapply wp_mono; [apply wp_true|]. intros [[]|h] w4 _ Hn4; [|done].
    wp_steps. unfold waited_result, time_slept, SUPERVISOR_POLL_MILLISECONDS in *.
    split; [lia|]. by right; right.
Qed.

Lemma waiting_start status w : informed s c status w → waiting w (0, status) w.
Proof.
  intros Hw. split; [done|]. unfold time_slept, SUPERVISOR_POLL_MILLISECONDS. cbn [fst]. lia.
Qed.

Lemma wait_slept status w :
  informed s c status w →
  wp K (wait_for_workload_exit fuel cgroup status timeout_milliseconds repeat_sigkill)
    (post (λ '(_, r) w', waited_result w r w') (λ h _, h = OutOfFuel)) w.
Proof.
  intros Hw. apply wp_fueled; [apply _|]. unfold wait_for_workload_exit.
  apply (wp_loop_inv K (waiting w)); [|done|by apply waiting_start].
  intros st w1 Hw1. eapply wp_mono; [by apply wait_step_slept|].
  intros [[st'|[st' r]]|h] w2; [|done|done]. by intros [? _].
Qed.

(** ** Lemmas: waiting ends *)

Lemma wp_returns_on {A} (m : Controller A) (Q : outcome A → world ssys sandbox → Prop) w :
  returns_on K m → (∀ a w', m K w = (Ret a, w') → Q (Ret a) w') → wp K m Q w.
Proof.
  intros Hm HQ. destruct (Hm w) as [a Ha]. unfold wp. rewrite Ha. apply HQ.
  by rewrite <- Ha; destruct (m K w).
Qed.

Lemma returns_on_returns {A} (m : Controller A) : Returns m → returns_on K m.
Proof. intros H w. apply H. Qed.

Lemma returns_on_bind {A B} (m : Controller A) (k : A → Controller B) :
  returns_on K m → (∀ a, returns_on K (k a)) → returns_on K (bind m k).
Proof.
  intros Hm Hk w. unfold bind. destruct (Hm w) as [a Ha].
  destruct (m K w) as [o w']; simpl in Ha; subst o. apply Hk.
Qed.

End waiting.

(** ** Lemmas: terminating ends *)

#[export] Instance lock_state_returns : Returns lock_state.
Proof. unfold lock_state, set_state. solve_returns. Qed.
#[export] Instance unlock_state_returns : Returns unlock_state.
Proof. unfold unlock_state. solve_returns. Qed.
#[export] Instance snapshot_returns : Returns sandbox_state_snapshot.
Proof. unfold sandbox_state_snapshot. solve_returns. Qed.
#[export] Instance request_returns reason : Returns (sandbox_state_request_termination reason).
Proof. unfold sandbox_state_request_termination, set_state. solve_returns. Qed.
#[export] Instance mark_leader_returns : Returns sandbox_state_mark_leader_exited.
Proof. unfold sandbox_state_mark_leader_exited, set_state. solve_returns. Qed.
#[export] Instance mark_workload_returns : Returns sandbox_state_mark_workload_exited.
Proof. unfold sandbox_state_mark_workload_exited, set_state. solve_returns. Qed.
#[export] Instance read_signal_returns : Returns read_operator_signal.
Proof. unfold read_operator_signal. solve_returns. Qed.
#[export] Instance signal_processes_returns snapshot n b l st :
  Returns (signal_processes snapshot n b l st).
Proof.
  revert st. induction l as [|p l IH]; intros st; cbn [signal_processes]; [apply _|].
  destruct st as [k r]. solve_returns.
Qed.

(** Every part returns on every kernel, or by hypothesis. *)
Ltac returns_on_step :=
  first [ assumption
        | apply returns_on_returns; solve [solve_returns]
        | apply returns_on_bind; [|intros ?]
        | match goal with |- context [match ?x with _ => _ end] => destruct x end ].

Lemma wp_returns_post {A} K (m : Controller A) (Q : A → world ssys sandbox → Prop) w :
  returns_on K m → wp K m (post Q (λ _ _, True)) w → wp K m (post Q (λ _ _, False)) w.
Proof. intros Hm. unfold wp. by destruct (Hm w) as [a ->]. Qed.

(** A signal went to the process group [c], between the traces. *)
Definition sent_since (c signal_number : Z) (tr0 tr : strace) : Prop :=
  ∃ new r, tr = new ++ tr0 ∧ Ev (Kill (- c) signal_number) r ∈ new.

(** The group got [SIGTERM] and, if the result says that it did not end,
    [SIGKILL] after that. *)
Definition signalled_in_turn (c : Z) (result : bool) (tr0 tr : strace) : Prop :=
  ∃ tr1, sent_since c SIGTERM tr0 tr1 ∧ extends tr1 tr ∧
    (result = false → sent_since c SIGKILL tr1 tr).

Lemma sent_since_later c n tr0 tr tr' :
  sent_since c n tr0 tr → extends tr tr' → sent_since c n tr0 tr'.
Proof.
  intros (new & r & -> & Hin) [new' ->]. exists (new' ++ new), r.
  rewrite (assoc_L app). split; [done|]. apply elem_of_app. by right.
Qed.

Lemma sent_since_earlier c n tr0 tr tr' :
  extends tr0 tr → sent_since c n tr tr' → sent_since c n tr0 tr'.
Proof.
  intros [new ->] (new' & r & -> & Hin). exists (new' ++ new), r.
  rewrite (assoc_L app). split; [done|]. apply elem_of_app. by left.
Qed.

Section ending.
Context (K : kernel ssys) (s c : Z) (fuel : nat) (cgroup : SandboxCgroup).
Hypothesis Hresp : responsive K fuel cgroup.

Lemma poll_returns status : returns_on K (poll_workload fuel cgroup status).
Proof.
  destruct Hresp as [Hreap Hsample _ _]. unfold poll_workload, observe_workload.
  repeat first [apply Hreap | apply Hsample | returns_on_step].
Qed.

Lemma signal_workload_returns n : returns_on K (signal_workload fuel cgroup n).
Proof.
  destruct Hresp as [_ Hsample _ Hkill]. unfold signal_workload, signal_group.
  repeat first [apply Hkill | apply Hsample | returns_on_step].
Qed.

Lemma wait_step_returns t b st : returns_on K (wait_step fuel cgroup t b st).
Proof.
  destruct Hresp as [_ _ Hsleep _]. unfold wait_step. destruct st as [waited st].
  repeat first [apply poll_returns | apply signal_workload_returns | apply Hsleep | returns_on_step].
Qed.

Lemma wait_ends t b status w :
  0 ≤ t ≤ FORCE_KILL_WAIT_MILLISECONDS →
  t + SUPERVISOR_POLL_MILLISECONDS ≤ SUPERVISOR_POLL_MILLISECONDS * Z.of_nat fuel →
  informed s c status w →
  wp K (wait_for_workload_exit fuel cgroup status t b) (post (λ '(_, r) w',
    waited_result K s c fuel cgroup t w r w') (λ _ _, False)) w.
Proof.
  intros Ht Hfuel Hw. unfold wait_for_workload_exit.
  apply (wp_loop K (λ i st w', waiting s c t w st w' ∧
    st.1 = SUPERVISOR_POLL_MILLISECONDS * Z.of_nat i)).
  - intros i st w1 Hi [Hw1 Hst]. eapply wp_mono.
    { apply wp_returns_post; [apply wait_step_returns|]. apply wait_step_slept; [done|exact Hw1]. }
    intros [[st'|[st' r]]|h] w2; [|done|done]. intros [Hw2 Hst']. split; [done|].
    unfold SUPERVISOR_POLL_MILLISECONDS in *. lia.
  - intros st w1 [(_ & _ & Hlt) Hst]. exfalso. unfold SUPERVISOR_POLL_MILLISECONDS in *. lia.
  - split; [by apply waiting_start|]. unfold SUPERVISOR_POLL_MILLISECONDS. cbn [fst]. lia.
Qed.

Lemma wait_ends_informed t b status w :
  0 ≤ t ≤ FORCE_KILL_WAIT_MILLISECONDS →
  t + SUPERVISOR_POLL_MILLISECONDS ≤ SUPERVISOR_POLL_MILLISECONDS * Z.of_nat fuel →
  informed s c status w →
  wp K (wait_for_workload_exit fuel cgroup status t b) (post (λ '(status', r) w',
    informed s c status' w' ∧ waited_result K s c fuel cgroup t w r w') (λ _ _, False)) w.
Proof.
  intros Ht Hfuel Hw.
  eapply wp_mono; [apply wp_conj; [by apply wait_ends|by apply (wait_spec K s c)]|].
  intros [[st r]|h] w' [H1 H2]; [|done]. simpl in *. tauto.
Qed.

(** The most milliseconds that [terminate_workload] sleeps. *)
Definition termination_milliseconds : Z :=
  TERMINATION_GRACE_MILLISECONDS + FORCE_KILL_WAIT_MILLISECONDS +
  2 * SUPERVISOR_POLL_MILLISECONDS.

(** A part that does not sleep, on the way. *)
Lemma awake_part {A} (m : Controller A) status w :
  Emits awake m → returns_on K m → Within K (supervises s c) (proper K s c) m →
  informed s c status w →
  wp K m (post (λ _ w', informed s c status w' ∧ naps (trace w') = naps (trace w))
    (λ _ _, False)) w.
Proof.
  intros He Hr Hm Hw. apply wp_returns_post; [done|]. apply wp_awake; [done|].
  eapply wp_proper; [exact Hm|exact Hw|]. intros [a|h] w' Hw' _; [|done]. intros Hn. by split.
Qed.

Lemma log_part level format args st w (k : stream) :
  informed s c st w →
  wp K (logger_write k level format args : Controller unit) (post (λ _ w',
    informed s c st w' ∧ naps (trace w') = naps (trace w)) (λ _ _, False)) w.
Proof.
  intros Hw. apply awake_part; [apply _|by apply returns_on_returns; apply _| |done].
  apply within_mild; [|apply _]. unfold logger_write, fprintf. solve_moves.
Qed.

Lemma signal_part n st w :
  informed s c st w →
  wp K (signal_workload fuel cgroup n) (post (λ _ w',
    informed s c st w' ∧ naps (trace w') = naps (trace w)) (λ _ _, False)) w.
Proof.
  intros Hw. apply awake_part; [apply _|apply signal_workload_returns| |done].
  apply within_signal_workload.
Qed.

Lemma terminate_slept reason status w :
  (101 ≤ fuel)%nat → informed s c status w →
  wp K (terminate_workload fuel cgroup reason status) (post (λ _ w',
    0 ≤ time_slept w w' < termination_milliseconds) (λ _ _, False)) w.
Proof.
  intros Hfuel Hw.
  unfold terminate_workload, time_slept, termination_milliseconds, TERMINATION_GRACE_MILLISECONDS,
    FORCE_KILL_WAIT_MILLISECONDS, SUPERVISOR_POLL_MILLISECONDS.
  wp_steps. eapply wp_mono; [by apply log_part|]. intros [[]|h] w1 H1; [|done].
  destruct H1 as [Hw1 E1]. wp_steps.
  eapply wp_mono; [by apply signal_part|]. intros [r2|h] w2 H2; [|done].
  destruct H2 as [Hw2 E2]. wp_steps.
  eapply wp_mono; [by apply log_part|]. intros [[]|h] w3 H3; [|done].
  destruct H3 as [Hw3 E3]. wp_steps.
  eapply wp_mono; [apply wait_ends_informed; [by vm_compute|unfold SUPERVISOR_POLL_MILLISECONDS; lia|done]|].
  intros [[st4 r4]|h] w4 H4; [|done]. destruct H4 as [Hw4 [B4 _]]. wp_steps.
  unfold time_slept, SUPERVISOR_POLL_MILLISECONDS in B4. case_bool_decide; wp_steps.
  { eapply wp_mono; [by apply log_part|]. intros [[]|h] w5 H5; [|done].
    destruct H5 as [_ E5]. wp_steps. cbn [post]. lia. }
  eapply wp_mono; [by apply log_part|]. intros [[]|h] w5 H5; [|done].
  destruct H5 as [Hw5 E5]. wp_steps.
  eapply wp_mono; [by apply signal_part|]. intros [r6|h] w6 H6; [|done].
  destruct H6 as [Hw6 E6]. wp_steps.
  eapply wp_mono; [apply wait_ends_informed; [by vm_compute| |done]|].
  { unfold SUPERVISOR_POLL_MILLISECONDS, FORCE_KILL_WAIT_MILLISECONDS. lia. }
  intros [[st7 r7]|h] w7 H7; [|done]. destruct H7 as [Hw7 [B7 _]].
  unfold time_slept, SUPERVISOR_POLL_MILLISECONDS, FORCE_KILL_WAIT_MILLISECONDS in B7. wp_steps.
  case_bool_decide; wp_steps; (eapply wp_mono; [by apply log_part|]); intros [[]|h] w8 H8;
    try done; destruct H8 as [_ E8]; wp_steps; cbn [post]; lia.
Qed.

(** A snapshot when the mutex works: the state the thread then has. *)
Lemma snapshot_works `{!Locking K} w :
  wp K sandbox_state_snapshot (post (λ r w', r = Some (sb_state (globals w')) ∧
    state_evolves (globals w) (globals w')) (λ _ _, False)) w.
Proof.
  apply wp_snapshot_locking; [done|]. intros cs. split; [done|]. apply changes_evolves.
Qed.

(** What happened goes on having happened. *)
Lemma wp_later {A T} (m : Controller A) (call : ssys T) r
    (Q : outcome A → world ssys sandbox → Prop) w :
  Within K (supervises s c) (proper K s c) m → supervises s c (globals w) →
  happened call r (trace w) → (∀ o w', happened call r (trace w') → Q o w') → wp K m Q w.
Proof.
  intros Hm Hw Hr HQ. eapply wp_mono; [by apply within_wp|].
  intros o w' (_ & new & Htr & _). apply HQ. eapply happened_extends; [|exact Hr]. by exists new.
Qed.

(** A part that has to do with the workload alone. *)
Lemma wp_within {A} (m : Controller A) (Q : outcome A → world ssys sandbox → Prop) w :
  Within K (supervises s c) (proper K s c) m → supervises s c (globals w) →
  (∀ o w', supervises s c (globals w') → extends (trace w) (trace w') → Q o w') → wp K m Q w.
Proof.
  intros Hm Hw HQ. eapply wp_mono; [by apply within_wp|].
  intros o w' (Hw' & new & Htr & _). apply HQ; [done|by exists new].
Qed.

Lemma signal_group_sends snapshot n w :
  0 < c → child_process_group_id snapshot = c → supervises s c (globals w) →
  wp K (signal_group fuel cgroup snapshot n)
    (post (λ _ w', sent_since c n (trace w) (trace w')) (λ _ _, True)) w.
Proof.
  intros Hc E Hw. unfold signal_group. rewrite E, wp_bind.
  eapply wp_within; [mild_part|exact Hw|]. intros [result|h] w1 Hw1 He1; [|done].
  rewrite bool_decide_true by done. rewrite wp_bind, wp_call. set (r := K _ (trace w1) _).
  assert (sent_since c n (trace w) (Ev (Kill (- c) n) r :: trace w1)) as Hsent.
  { destruct He1 as [new ->]. exists (Ev (Kill (- c) n) r :: new), r. split; [done|by left]. }
  destruct r as [u|e]; [by wp_steps|].
  eapply wp_within; [mild_part|exact Hw1|]. intros [a|h] w2 _ He2; [|done].
  by eapply sent_since_later.
Qed.

Lemma signal_workload_sends `{!Locking K} n w :
  0 < c → supervises s c (globals w) →
  wp K (signal_workload fuel cgroup n)
    (post (λ _ w', sent_since c n (trace w) (trace w')) (λ _ _, True)) w.
Proof.
  intros Hc Hw. unfold signal_workload. rewrite wp_bind.
  eapply wp_mono; [apply wp_conj; [apply snapshot_works|
    apply (accounts_extends K sandbox_state_snapshot), _]|].
  intros [r|h] w1 [H1 He1]; [|done]. destruct H1 as (-> & Hev).
  pose proof (supervises_evolves _ _ _ _ Hev Hw) as Hw1.
  pose proof Hw1 as (E1 & E2 & E3 & _). rewrite wp_bind.
  eapply wp_mono; [apply wp_conj; [by apply signal_group_sends|]|].
  { apply (within_wp K (supervises s c) (proper K s c)); [by apply within_signal_group|done]. }
  intros [[b r]|h] w2 [Hsent [Hw2 _]]; [|done].
  assert (sent_since c n (trace w) (trace w2)) as Hsent2 by by eapply sent_since_earlier.
  rewrite E1, E2.
  eapply wp_within; [|exact Hw2|intros [a|h] w3 _ He3; [by eapply sent_since_later|done]].
  eapply within_bind_post; [intros w3 _; apply sample_workload|mild_part|].
  intros [sample|] Hsample; [|mild_part].
  apply within_bind; [by apply within_signal_processes; [|apply Hsample]|].
  intros [k r3]. mild_part.
Qed.

(** [SIGTERM] first, and [SIGKILL] unless that was enough. *)
Lemma terminate_sends `{!Locking K} reason status w :
  0 < c → informed s c status w →
  wp K (terminate_workload fuel cgroup reason status)
    (post (λ '(_, result) w', signalled_in_turn c result (trace w) (trace w')) (λ _ _, True)) w.
Proof.
  intros Hc [Hw _]. unfold terminate_workload. rewrite wp_bind.
  eapply wp_within; [mild_part|exact Hw|]. intros [[]|h] w1 Hw1 He1; [|done]. rewrite wp_bind.
  eapply wp_mono; [apply wp_conj; [by apply signal_workload_sends|
    apply (within_wp K (supervises s c) (proper K s c)); [apply within_signal_workload|done]]|].
  intros [r|h] w2 [Hsent [Hw2 _]]; [|done].
  assert (sent_since c SIGTERM (trace w) (trace w2)) as Hterm by by eapply sent_since_earlier.
  rewrite wp_bind. eapply wp_within; [mild_part|exact Hw2|]. intros [[]|h] w3 Hw3 He3; [|done].
  rewrite wp_bind. eapply wp_within; [apply within_wait|exact Hw3|].
  intros [[st4 r4]|h] w4 Hw4 He4; [|done].
  assert (extends (trace w2) (trace w4)) as He by by eapply extends_trans.
  case_bool_decide.
  { rewrite wp_bind. eapply wp_within; [mild_part|exact Hw4|]. intros [[]|h] w5 _ He5; [|done].
    rewrite wp_ret. exists (trace w2). split_and!; [done|by eapply extends_trans|done]. }
  rewrite wp_bind. eapply wp_within; [mild_part|exact Hw4|]. intros [[]|h] w5 Hw5 He5; [|done].
  rewrite wp_bind.
  eapply wp_mono; [apply wp_conj; [by apply signal_workload_sends|
    apply (within_wp K (supervises s c) (proper K s c)); [apply within_signal_workload|done]]|].
  intros [r6|h] w6 [Hsent6 [Hw6 _]]; [|done].
  assert (extends (trace w2) (trace w5)) as He25 by by eapply extends_trans.
  assert (sent_since c SIGKILL (trace w2) (trace w6)) as Hkill by by eapply sent_since_earlier.
  eapply wp_within; [|exact Hw6|].
  { apply within_bind; [apply within_wait|]. intros [st7 r7]. mild_part. }
  intros [[st7 r7]|h] w7 _ He7; [|done]. exists (trace w2). split; [done|].
  split; [|intros _; by eapply sent_since_later].
  eapply extends_trans; [|exact He7]. destruct Hkill as (new & r' & Htr & _). by exists new.
Qed.

End ending.

(** ** Lemmas: acting on a request *)

(** How a supervision ends that had a request to act on. *)
Definition acted (K : kernel ssys) (s c : Z) (fuel : nat) (cgroup : SandboxCgroup)
    (w : world ssys sandbox) (r : supervised) (w' : world ssys sandbox) : Prop :=
  let '(_, result, reason) := r in
  (result = true → workload_gone K fuel cgroup s c (trace w')) ∧
  (reason = TERMINATION_NONE ∧ result = true ∨
   reason ≠ TERMINATION_NONE ∧ signalled_in_turn c result (trace w) (trace w')).

Section acting.
Context (K : kernel ssys) (s c : Z) (fuel : nat) (cgroup : SandboxCgroup) `{!Locking K}.
Hypothesis Hresp : responsive K fuel cgroup.
Hypothesis Hc : 0 < c.
Hypothesis Hfuel : (101 ≤ fuel)%nat.
Notation informed := (informed s c).

(** Leaving the loop. *)
Definition left_acting (w0 : world ssys sandbox) (r : WorkloadStatus + supervised)
    (w : world ssys sandbox) : Prop :=
  match r with inl _ => False | inr r => acted K s c fuel cgroup w0 r w end.

Lemma terminate_for_acts w0 reason status w :
  informed status w → reason ≠ TERMINATION_NONE → extends (trace w0) (trace w) →
  wp K (terminate_for fuel cgroup reason status) (post (left_acting w0) (λ _ _, False)) w.
Proof.
  intros Hw Hr He. unfold terminate_for. wp_steps.
  eapply wp_mono; [apply wp_conj; [by apply (terminate_sends K s c)|apply wp_conj;
    [by apply (terminate_slept K s c)|by apply (terminate_spec K s c)]]|].
  intros [[st r]|h] w' (Hsent & H1 & H2); [|done]. destruct H2 as (_ & _ & Hgone). wp_steps.
  split; [done|]. right. split; [done|]. destruct Hsent as (tr1 & H & H').
  exists tr1. split; [by eapply sent_since_earlier|done].
Qed.

(** A part that returns and has no part in the outcome. *)
Lemma wp_mild_returns {A} (m : Controller A) (Q : outcome A → world ssys sandbox → Prop) status w :
  returns_on K m → Moves state_evolves m → Emits mild m → informed status w →
  (∀ a w', m K w = (Ret a, w') → informed status w' →
     state_evolves (globals w) (globals w') → extends (trace w) (trace w') → Q (Ret a) w') →
  wp K m Q w.
Proof.
  intros Hr Hm He Hw HQ. apply (wp_returns_on K); [done|]. intros a w' E.
  assert (wp K m (λ _ w', informed status w' ∧ extends (trace w) (trace w')) w) as [H1 H2]
    by (mild_run Hw; intros o w2 _ Hw2 Hg2; split; [done|by eapply grown_extends]).
  rewrite E in H1, H2. apply HQ; [done|done| |done].
  pose proof (moves (m := m) K w) as H. by rewrite E in H.
Qed.

Ltac quiet_run Hw :=
  wp_steps; eapply wp_mild_returns;
    [apply returns_on_returns; solve [solve_returns]|solve_moves|solve_emits|exact Hw|].

Lemma supervise_step_acts status w :
  informed status w → termination_requested (sb_state (globals w)) = true →
  wp K (supervise_step fuel cgroup status) (post (left_acting w) (λ _ _, False)) w.
Proof.
  intros Hw Hreq. unfold supervise_step.
  quiet_run Hw. intros n w1 _ Hw1 Hev1 He1. wp_decide Hn.
  { quiet_run Hw1. intros shown w2 _ Hw2 _ He2. quiet_run Hw2. intros [] w3 _ Hw3 _ He3.
    quiet_run Hw3. intros r w4 _ Hw4 _ He4. apply terminate_for_acts; [done|done|].
    do 3 (eapply extends_trans; [eassumption|]). done. }
  wp_steps. eapply wp_mono.
  { apply wp_returns_post; [by apply poll_returns|]. apply wp_conj_post; [by apply poll_spec|].
    apply (wp_moves_post state_evolves). apply _. }
  intros [[st r]|h] w2 H2; [|done]. destruct H2 as [(Hw2 & Hg2 & Hgone) Hev2].
  assert (extends (trace w) (trace w2)) as He2
    by (eapply extends_trans; [exact He1|by eapply grown_extends]).
  destruct r as [[]|]; wp_steps;
    [|by split; [intros _; apply Hgone|left]|by apply terminate_for_acts].
  assert (wp K sandbox_state_snapshot (λ _ w', informed st w' ∧ extends (trace w2) (trace w')) w2) as Hsn
    by (quiet_run Hw2; by intros r w3 _ Hw3 _ He3).
  eapply wp_mono; [apply wp_conj; [by apply snapshot_works|exact Hsn]|].
  intros [r|h] w3 H3; [|by destruct H3]. destruct H3 as [(-> & Hev3) [Hw3 He3]]. wp_steps.
  assert (Hev : state_evolves (globals w) (globals w3)) by (do 2 (etrans; [eassumption|]); done).
  destruct (evolves_requested _ _ Hev Hreq) as [-> Hreason].
  apply terminate_for_acts; [done| |by eapply extends_trans].
  pose proof (proj1 Hw) as (_ & _ & _ & Hok & _). rewrite Hreason. by apply Hok.
Qed.

Lemma supervise_acts status w :
  informed status w → termination_requested (sb_state (globals w)) = true →
  wp K (supervise_workload fuel cgroup status)
    (post (acted K s c fuel cgroup w) (λ _ _, False)) w.
Proof.
  intros Hw Hreq. unfold supervise_workload.
  apply (wp_loop K (λ i st w', i = 0%nat ∧ st = status ∧ w' = w)); [|intros ?? [? _]; lia|done].
  intros i st w1 _ (_ & -> & ->). eapply wp_mono; [by apply supervise_step_acts|].
  by intros [[st'|r]|h] w2.
Qed.

End acting.

(** ** Properties *)

(** The supervisor signals nobody but its workload: in any run of the
    supervision, whatever the environment answers, every signal goes to the
    process group of the leader or to one process that a reading of [/proc]
    showed to be the leader, a child of the controller or a descendant of one,
    never to the controller itself, to [init] or to a process group given by
    accident; and the identity of the workload stays what it was. *)
Theorem supervise_workload_signals K s c fuel cgroup status w :
  supervises s c (globals w) →
  wp K (supervise_workload fuel cgroup status) (λ _ w',
    supervises s c (globals w') ∧ grown (proper K s c) (trace w) (trace w')) w.
Proof. intros Hw. apply within_wp; [apply within_supervise|done]. Qed.

(** C12. Terminating the workload always ends: if the children that changed
    state, the entries of [/proc] and the interruptions of calls run out, then
    it returns, after less than 6.1 seconds of sleep, and reports success only
    if nothing of the workload was left. *)
Theorem terminate_workload_ends K s c fuel cgroup reason status w :
  responsive K fuel cgroup → (101 ≤ fuel)%nat → informed s c status w →
  wp K (terminate_workload fuel cgroup reason status) (post (λ '(_, r) w',
    (r = true → workload_gone K fuel cgroup s c (trace w')) ∧ 0 ≤ time_slept w w' < 6100)
    (λ _ _, False)) w.
Proof.
  intros Hresp Hfuel Hw. eapply wp_mono; [apply wp_conj;
    [by apply (terminate_slept K s c)|by apply (terminate_spec K s c)]|].
  intros [[st r]|h] w' [H1 H2]; [|done]. by destruct H2 as (_ & _ & Hgone).
Qed.

(** A recorded request for termination is acted upon at once, whatever the
    other threads do meanwhile: if the mutex works, a supervisor that finds a
    request ends in its first round, either because the workload is gone
    already or after having sent [SIGTERM] to its process group and, if that
    was not the end of it, [SIGKILL]; it reports success only if nothing of the
    workload was left. *)
Theorem supervise_workload_acts K s c fuel cgroup status w :
  Locking K → responsive K fuel cgroup → 0 < c → (101 ≤ fuel)%nat →
  informed s c status w → termination_requested (sb_state (globals w)) = true →
  wp K (supervise_workload fuel cgroup status)
    (post (acted K s c fuel cgroup w) (λ _ _, False)) w.
Proof. intros. by apply supervise_acts. Qed.

(** ** Examples *)

Definition no_leader_status : WorkloadStatus := Status None 0.

Definition requested : sandbox :=
  Sandbox (State 100 200 200 true true true TERMINATION_MEMORY_LIMIT) 0.

Lemma requested_informed : informed 100 200 no_leader_status (World requested []).
Proof. by split; [split_and!|]. Qed.

(** The kernel of [hungry], where the cgroup never empties and [/proc] is. *)
Lemma hungry_responsive : responsive hungry 101 hungry_cgroup.
Proof.
  split.
  - intros status w. by eexists.
  - intros s c alive w. unfold process_tree_sample. case_bool_decide; [by eexists|]. by eexists.
  - intros w. by eexists.
  - intros w. by eexists.
Qed.

Lemma terminate_workload_ends_witness :
  let r := terminate_workload 101 hungry_cgroup TERMINATION_MEMORY_LIMIT no_leader_status
             hungry (World requested []) in
  r.1 = Ret (no_leader_status, false) ∧ 0 ≤ time_slept (World requested []) r.2 < 6100.
Proof.
  intros r. assert (r.1 = Ret (no_leader_status, false)) as E by (vm_compute; reflexivity).
  split; [exact E|].
  pose proof (terminate_workload_ends hungry 100 200 101 hungry_cgroup TERMINATION_MEMORY_LIMIT
    no_leader_status (World requested []) hungry_responsive (le_n 101) requested_informed) as H.
  destruct (wp_run _ _ _ _ _ _ H E) as [_ Hs]. exact Hs.
Defined.

Lemma supervise_workload_acts_witness :
  let r := supervise_workload 101 hungry_cgroup no_leader_status hungry (World requested []) in
  r.1 = Ret (no_leader_status, false, TERMINATION_MEMORY_LIMIT) ∧
  acted hungry 100 200 101 hungry_cgroup (World requested [])
    (no_leader_status, false, TERMINATION_MEMORY_LIMIT) r.2.
Proof.
  intros r. assert (r.1 = Ret (no_leader_status, false, TERMINATION_MEMORY_LIMIT)) as E
    by (vm_compute; reflexivity).
  split; [exact E|].
  pose proof (supervise_workload_acts hungry 100 200 101 hungry_cgroup
    no_leader_status (World requested []) (scenario_locking _) hungry_responsive ltac:(lia) (le_n 101)
    requested_informed eq_refl) as H.
  exact (wp_run _ _ _ _ _ _ H E).
Defined.

(** A system with the leader 200 and a descendant 201 that left its group,
    until both get their [SIGKILL]. *)
Definition killed (tr : strace) : bool :=
  existsb (λ e, match e with Ev (Kill 201 9) _ => true | _ => false end) tr.

(** How many names were read since the directory was opened. *)
Fixpoint position (tr : strace) : nat :=
  match tr with
  | [] => 0
  | Ev (Opendir _) _ :: _ => 0
  | Ev Readdir _ :: tr' => S (position tr')
  | _ :: tr' => position tr'
  end.

Definition escaping : kernel ssys :=
  scenario_kernel (Scenario (λ _, []) (λ _, WaitNone) (λ _, (0, 0)) (λ _, [])
    (λ tr, if killed tr then None else [txt "1"; txt "200"; txt "201"] !! position tr)
    (λ _ path,
       if bool_decide (c_string path = txt "/proc/1/stat")
       then Some (txt "1 (init) S 0 1 1 0 -1 0 0 0 0 0 5 5" ++ [LF])
       else if bool_decide (c_string path = txt "/proc/200/stat")
       then Some (txt "200 (leader) S 100 200 1 0 -1 0 0 0 0 0 7 3" ++ [LF])
       else if bool_decide (c_string path = txt "/proc/201/stat")
       then Some (txt "201 (escapee) S 200 201 1 0 -1 0 0 0 0 0 7 3" ++ [LF]) else None) 200).

(** The signals of a run, oldest first. *)
Definition signals_sent (tr : strace) : list (Z * Z) :=
  rev (omap (λ e : event ssys, match e with Ev (Kill p n) _ => Some (p, n) | _ => None end) tr).

Lemma supervise_workload_signals_witness :
  let r := supervise_workload 101 (Cgroup no_path false) no_leader_status escaping
             (World requested []) in
  r.1 = Ret (no_leader_status, true, TERMINATION_MEMORY_LIMIT) ∧
  signals_sent (trace r.2) = [(-200, 15); (201, 15); (-200, 9); (201, 9)] ∧
  grown (proper escaping 100 200) [] (trace r.2).
Proof.
  intros r. split; [vm_compute; reflexivity|]. split; [vm_compute; reflexivity|].
  apply (supervise_workload_signals escaping 100 200 101 (Cgroup no_path false)
    no_leader_status (World requested [])). by split_and!.
Defined.
