(* ===== verification/SandboxMain.v ===== *)
(** * Sandbox.c: [main]

    The controller from the command line to its exit code.  [main] models both
    sides of [fork]: in the child it runs [run_sandbox_child], which never
    comes back. *)

From S2P Require Import Prelude.
From S2P Require Import CLib.
From S2P Require Import SandboxSys.
From S2P Require Import Logger.
From S2P Require Import SandboxOptions.
From S2P Require Import MonitorState.
From S2P Require Import ProcStat.
From S2P Require Import ProcessTree.
From S2P Require Import Cgroup.
From S2P Require Import SandboxChild.
From S2P Require Import Monitors.
From S2P Require Import Supervisor.
Local Open Scope Z_scope.

(** The local variables the code after the [cleanup] label looks at. *)
Record locals := Locals {
  l_cgroup : SandboxCgroup;
  workload_status : WorkloadStatus;
  l_termination_reason : SandboxTerminationReason;
  launch_pipe : option nat * option nat;
  child_started : bool;
  workload_finished : bool;
  timeout_monitor_started : bool;
  memory_monitor_started : bool;
  cpu_monitor_started : bool
}.

Definition no_status : WorkloadStatus := Status None 0.

(** The variables of a [main] that has not started its child. *)
Definition not_started (cgroup : SandboxCgroup) (pipe : option nat * option nat) : locals :=
  Locals cgroup no_status TERMINATION_NONE pipe false false false false false.

(** ** Cleaning up *)

Definition close_end {G} (fd : option nat) : prog ssys G unit :=
  match fd with
  | None => ret tt
  | Some fd => call (Close fd) ;;; ret tt
  end.

Definition join_monitor {G} (started : bool) (m : monitor) (message : string)
    : prog ssys G unit :=
  if started then
    let* join_result := call (Pthread_join m) in
    if bool_decide (join_result ≠ 0) then logger_error message [AErrno join_result] else ret tt
  else ret tt.

(** The last attempt to end an active workload: whether it has finished now,
    with its status and the reason. *)
Definition finish_workload (fuel : nat) (l : locals)
    : Controller (WorkloadStatus * bool * SandboxTerminationReason) :=
  if child_started l && negb (workload_finished l) then
    let termination_reason :=
      if bool_decide (l_termination_reason l = TERMINATION_NONE)
      then TERMINATION_SUPERVISOR_ERROR else l_termination_reason l in
    logger_warn "performing cleanup for an active workload tree" [] ;;;
    let* (status, finished) :=
      terminate_workload fuel (l_cgroup l) termination_reason (workload_status l) in
    ret (status, finished, termination_reason)
  else ret (workload_status l, workload_finished l, l_termination_reason l).

Definition final_report (l : locals) (status : WorkloadStatus) (finished : bool)
    (termination_reason : SandboxTerminationReason) : Controller Z :=
  match leader_status status with
  | Some leader_status =>
      if finished then
        logger_info "workload cleanup complete: reaped_processes=%lu"
          [AInt (reaped_processes status)] ;;;
        report_child_status leader_status termination_reason
      else
        (if child_started l
         then logger_error "original workload leader status was not collected" [] else ret tt) ;;;
        ret EXIT_FAILURE
  | None =>
      (if child_started l
       then logger_error "original workload leader status was not collected" [] else ret tt) ;;;
      ret EXIT_FAILURE
  end.

(** The code after the [cleanup] label; [state_initialized] is set on every
    way to it. *)
Definition main_cleanup (fuel : nat) (l : locals) : Controller Z :=
  close_end (launch_pipe l).1 ;;;
  close_end (launch_pipe l).2 ;;;
  let* (status, finished, termination_reason) := finish_workload fuel l in
  (if child_started l && finished
   then let* _ := sandbox_state_mark_workload_exited in ret tt else ret tt) ;;;
  join_monitor (timeout_monitor_started l) TimeoutMonitor
    "timeout monitor thread join failed: %s" ;;;
  join_monitor (memory_monitor_started l) MemoryMonitor
    "memory monitor thread join failed: %s" ;;;
  join_monitor (cpu_monitor_started l) CpuMonitor "CPU monitor thread join failed: %s" ;;;
  let* exit_code := final_report l status finished termination_reason in
  (if active (l_cgroup l)
   then let* _ := sandbox_cgroup_destroy (l_cgroup l) in ret tt else ret tt) ;;;
  let* _ := sandbox_state_destroy in
  ret exit_code.

(** ** Starting and supervising *)

(** What each thread runs, from the configurations [main] fills in. *)
Definition monitor_program (cpu_percent : Z → Z → Z → list byte) (fuel : nat)
    (options : SandboxOptions) (cgroup : SandboxCgroup) (m : monitor) : Controller unit :=
  match m with
  | TimeoutMonitor =>
      timeout_monitor_thread fuel (timeout_seconds options) MONITOR_POLL_MILLISECONDS
  | MemoryMonitor =>
      memory_monitor_thread fuel cgroup (memory_limit_kilobytes options)
        MEMORY_POLL_MILLISECONDS
  | CpuMonitor => cpu_monitor_thread cpu_percent fuel CPU_POLL_MILLISECONDS
  end.

(** Whether the thread was created. *)
Definition start_monitor (m : monitor) (message : string) : Controller bool :=
  let* thread_result := call (Pthread_create m) in
  if bool_decide (thread_result ≠ 0) then
    logger_error message [AErrno thread_result] ;;;
    let* _ := sandbox_state_request_termination TERMINATION_MONITOR_ERROR in
    ret false
  else ret true.

(** The set-up of the child in its parent, from [setpgid] to the byte that
    releases it; [None] is the [goto cleanup] of a child that was reaped
    again, otherwise the reason not to go on. *)
Definition set_up_child (fuel : nat) (cgroup : SandboxCgroup) (launch_write : nat)
    (child_pid : Z) : Controller (option SandboxTerminationReason) :=
  let* r := call (Setpgid child_pid child_pid) in
  let* termination_reason :=
    match r with
    | Err e =>
        if bool_decide (e ≠ EACCES) && bool_decide (e ≠ ESRCH) then
          logger_error "parent setpgid(%ld) failed: %s" [AInt child_pid; AErrno e] ;;;
          ret TERMINATION_SUPERVISOR_ERROR
        else ret TERMINATION_NONE
    | Ok _ => ret TERMINATION_NONE
    end in
  let* r := sandbox_state_set_workload child_pid child_pid in
  if bool_decide (r ≠ 0) then
    logger_error "unable to initialize workload process-tree state" [] ;;;
    let* _ := call (Kill child_pid SIGKILL) in
    let* _ := call (Waitpid child_pid) in
    ret None
  else
  let* termination_reason :=
    (if active cgroup then
       let* r := sandbox_cgroup_attach fuel cgroup child_pid in
       match r with
       | Err e =>
           logger_error "could not attach PID %ld to sandbox cgroup: %s"
             [AInt child_pid; AErrno e] ;;;
           ret TERMINATION_SUPERVISOR_ERROR
       | Ok _ => ret termination_reason
       end
     else ret termination_reason) in
  let* operator_signal := read_operator_signal in
  let* termination_reason :=
    (if bool_decide (operator_signal ≠ 0) then
       let* shown := read_operator_signal in
       logger_warn "operator signal %d received during workload setup" [AInt shown] ;;;
       ret TERMINATION_OPERATOR_SIGNAL
     else ret termination_reason) in
  if bool_decide (termination_reason = TERMINATION_NONE) then
    let* r := release_child fuel launch_write in
    match r with
    | Err e =>
        logger_error "could not release isolated child: %s" [AErrno e] ;;;
        ret (Some TERMINATION_SUPERVISOR_ERROR)
    | Ok _ => ret (Some TERMINATION_NONE)
    end
  else ret (Some termination_reason).

(** The supervision or, when the set-up failed, the termination. *)
Definition end_workload (fuel : nat) (cgroup : SandboxCgroup)
    (termination_reason : SandboxTerminationReason) : Controller supervised :=
  if bool_decide (termination_reason ≠ TERMINATION_NONE) then
    let* (status, result) := terminate_workload fuel cgroup termination_reason no_status in
    ret (status, result, termination_reason)
  else supervise_workload fuel cgroup no_status.

(** From the creation of the threads to the [cleanup] label. *)
Definition monitor_and_supervise (fuel : nat) (options : SandboxOptions)
    (cgroup : SandboxCgroup) (termination_reason : SandboxTerminationReason)
    : Controller locals :=
  let* timeout_started :=
    start_monitor TimeoutMonitor "timeout monitor thread creation failed: %s" in
  let* memory_started :=
    (if bool_decide (0 < memory_limit_kilobytes options)
     then start_monitor MemoryMonitor "memory monitor thread creation failed: %s"
     else ret false) in
  let* cpu_started := start_monitor CpuMonitor "CPU monitor thread creation failed: %s" in
  let* (status, finished, termination_reason) :=
    end_workload fuel cgroup termination_reason in
  ret (Locals cgroup status termination_reason (None, None) true finished
         timeout_started memory_started cpu_started).

(** The parent from [fork] to the [cleanup] label: the variables there. *)
Definition main_parent (fuel : nat) (options : SandboxOptions) (cgroup : SandboxCgroup)
    (launch_read launch_write : nat) (child_pid : Z) : Controller locals :=
  call (Close launch_read) ;;;
  let* r := set_up_child fuel cgroup launch_write child_pid in
  match r with
  | None => ret (not_started cgroup (None, Some launch_write))
  | Some termination_reason =>
      call (Close launch_write) ;;;
      let* self := call Getpid in
      logger_info "supervising workload: leader PID=%ld PGID=%ld subreaper PID=%ld membership=%s"
        [AInt child_pid; AInt child_pid; AInt self;
         AStr (txt (if active cgroup then "cgroup v2" else "process-tree ancestry"))] ;;;
      logger_info "child hardening active: Landlock filesystem allowlist, seccomp network deny, minimal environment, closed FDs, PR_SET_PDEATHSIG=SIGKILL" [] ;;;
      monitor_and_supervise fuel options cgroup termination_reason
  end.

(** From the state's initialization to the [cleanup] label. *)
Definition main_run (fuel : nat) (options : SandboxOptions) (supervisor_pid : Z)
    : Controller locals :=
  let no_cgroup := Cgroup no_path false in
  let* subreaper := enable_child_subreaper in
  if negb subreaper then ret (not_started no_cgroup (None, None)) else
  let* r := install_operator_signal_handlers in
  match r with
  | Err e =>
      logger_error "operator signal handler setup failed: %s" [AErrno e] ;;;
      ret (not_started no_cgroup (None, None))
  | Ok _ =>
      logger_info "sandbox controller starting: target=%s timeout=%u seconds memory_limit=%lu kB"
        [AStr (target_path options); AInt (timeout_seconds options);
         AInt (memory_limit_kilobytes options)] ;;;
      let* (_, cgroup) := sandbox_cgroup_prepare fuel (memory_limit_kilobytes options) in
      let* r := call Pipe2 in
      match r with
      | Err e =>
          logger_error "launch synchronization pipe failed: %s" [AErrno e] ;;;
          ret (not_started cgroup (None, None))
      | Ok (launch_read, launch_write) =>
          let* r := call Fork in
          match r with
          | Err e =>
              logger_error "fork() failed: %s" [AErrno e] ;;;
              ret (not_started cgroup (Some launch_read, Some launch_write))
          | Ok child_pid =>
              (if bool_decide (child_pid = 0)
               then run_sandbox_child fuel options launch_read launch_write supervisor_pid
               else ret tt) ;;;
              main_parent fuel options cgroup launch_read launch_write child_pid
          end
      end
  end.

Definition main (fuel : nat) (argv : list (list byte)) : Controller Z :=
  let* supervisor_pid := call Getpid in
  let* options := parse_options argv in
  match options with
  | None => print_usage (default [] (argv !! 0%nat)) ;;; ret EXIT_FAILURE
  | Some options =>
      let* r := sandbox_state_init in
      if bool_decide (r ≠ 0) then ret EXIT_FAILURE else
      let* l := main_run fuel options supervisor_pid in
      main_cleanup fuel l
  end.
