(* ===== verification/ControllerHistory.v ===== *)
(** * The controller's part in the history of the shared state

    Which changes each operation of the controller publishes, and that its
    state is the outcome of its history. *)

From S2P Require Import Prelude.
From S2P Require Import CLib.
From S2P Require Import SandboxSys.
From S2P Require Import Logger.
From S2P Require Import SandboxOptions.
From S2P Require Import MonitorState.
From S2P Require Import History.
From S2P Require Import ProcStat.
From S2P Require Import ProcessTree.
From S2P Require Import Cgroup.
From S2P Require Import SandboxChild.
From S2P Require Import Monitors.
From S2P Require Import Supervisor.
From S2P Require Import Supervision.
From S2P Require Import SandboxMain.
Local Open Scope Z_scope.

Definition controller_changes (c : state_change) : Prop :=
  match c with
  | Request reason =>
      reason = TERMINATION_MONITOR_ERROR ∨ reason = TERMINATION_OPERATOR_SIGNAL
  | Mark_leader_exited | Mark_workload_exited => True
  end.

(** The controller may record what happened to its workload. *)
Class Marks (P : state_change → Prop) : Prop := {
  marks_leader : P Mark_leader_exited;
  marks_workload : P Mark_workload_exited
}.

#[export] Instance controller_marks : Marks controller_changes.
Proof. by split. Qed.

#[export] Instance other_than_marks R : Marks (λ c, c ≠ Request R).
Proof. by split. Qed.

(** ** Lemmas: what the controller publishes *)

Section publishes.
Context (P : state_change → Prop) `{!Marks P}.

#[export] Instance mark_leader_publishes_ : Emits (publishes P) sandbox_state_mark_leader_exited.
Proof. apply mark_leader_publishes, marks_leader. Qed.
#[export] Instance mark_workload_publishes_ :
  Emits (publishes P) sandbox_state_mark_workload_exited.
Proof. apply mark_workload_publishes, marks_workload. Qed.
#[export] Instance read_signal_publishes : Emits (publishes P) read_operator_signal.
Proof. unfold read_operator_signal. solve_emits. Qed.
#[export] Instance reap_publishes fuel status :
  Emits (publishes P) (reap_available_children fuel status).
Proof. unfold reap_available_children, reap_step. solve_emits. Qed.
#[export] Instance observe_publishes fuel cgroup snapshot :
  Emits (publishes P) (observe_workload fuel cgroup snapshot).
Proof. unfold observe_workload. solve_emits. Qed.
#[export] Instance poll_publishes fuel cgroup status :
  Emits (publishes P) (poll_workload fuel cgroup status).
Proof. unfold poll_workload. solve_emits. Qed.
#[export] Instance cgroup_kill_publishes {G} fuel cgroup :
  Emits (publishes P) (@sandbox_cgroup_kill G fuel cgroup).
Proof. unfold sandbox_cgroup_kill. solve_emits. apply file_publishes, _. Qed.
#[export] Instance signal_group_publishes fuel cgroup snapshot n :
  Emits (publishes P) (signal_group fuel cgroup snapshot n).
Proof. unfold signal_group. solve_emits. Qed.
#[export] Instance signal_processes_publishes snapshot n b l st :
  Emits (publishes P) (signal_processes snapshot n b l st).
Proof.
  revert st. induction l as [|p l IH]; intros st; cbn [signal_processes]; [apply _|].
  destruct st as [k r]. solve_emits.
Qed.
#[export] Instance signal_workload_publishes fuel cgroup n :
  Emits (publishes P) (signal_workload fuel cgroup n).
Proof. unfold signal_workload. solve_emits. Qed.
#[export] Instance wait_publishes fuel cgroup status t b :
  Emits (publishes P) (wait_for_workload_exit fuel cgroup status t b).
Proof. unfold wait_for_workload_exit, wait_step. solve_emits. Qed.
#[export] Instance terminate_publishes fuel cgroup reason status :
  Emits (publishes P) (terminate_workload fuel cgroup reason status).
Proof. unfold terminate_workload. solve_emits. Qed.
#[export] Instance terminate_for_publishes fuel cgroup reason status :
  Emits (publishes P) (terminate_for fuel cgroup reason status).
Proof. unfold terminate_for. solve_emits. Qed.

Lemma supervise_publishes fuel cgroup status :
  P (Request TERMINATION_OPERATOR_SIGNAL) →
  Emits (publishes P) (supervise_workload fuel cgroup status).
Proof.
  intros HP. unfold supervise_workload, supervise_step. solve_emits. by apply request_publishes.
Qed.

Lemma start_monitor_publishes m message :
  P (Request TERMINATION_MONITOR_ERROR) → Emits (publishes P) (start_monitor m message).
Proof. intros HP. unfold start_monitor. solve_emits. by apply request_publishes. Qed.

End publishes.

#[export] Instance monitored_publishes fuel options cgroup :
  Emits (publishes controller_changes)
    (monitor_and_supervise fuel options cgroup TERMINATION_NONE).
Proof.
  assert (∀ m s, Emits (publishes controller_changes) (start_monitor m s))
    by (intros; apply start_monitor_publishes; by left).
  unfold monitor_and_supervise, end_workload.
  rewrite (bool_decide_false (TERMINATION_NONE ≠ TERMINATION_NONE)) by (intros Hne; by apply Hne).
  solve_emits. apply supervise_publishes; [apply _|by right].
Qed.

(** ** Lemmas: the controller's histories *)

#[export] Instance read_signal_accounts : Accounts read_operator_signal.
Proof.
  intros K w. exists [Ev Pending_signals (K _ (trace w) Pending_signals)]. split; [done|].
  cbn [history enacted_by app]. unfold read_operator_signal, bind, call, modify, get. simpl.
  by rewrite handle_signals_state.
Qed.
#[export] Instance reap_accounts fuel status : Accounts (reap_available_children fuel status).
Proof. unfold reap_available_children, reap_step. solve_accounts. Qed.
#[export] Instance observe_accounts fuel cgroup snapshot :
  Accounts (observe_workload fuel cgroup snapshot).
Proof. unfold observe_workload. solve_accounts. Qed.
#[export] Instance poll_accounts fuel cgroup status : Accounts (poll_workload fuel cgroup status).
Proof. unfold poll_workload. solve_accounts. Qed.
#[export] Instance cgroup_kill_accounts fuel cgroup : Accounts (sandbox_cgroup_kill fuel cgroup).
Proof.
  unfold sandbox_cgroup_kill. apply (accounts_quiet is_file); [solve_emits|apply _|apply file_enacts].
Qed.
#[export] Instance signal_group_accounts fuel cgroup snapshot n :
  Accounts (signal_group fuel cgroup snapshot n).
Proof. unfold signal_group. solve_accounts. Qed.
#[export] Instance signal_processes_accounts snapshot n b l st :
  Accounts (signal_processes snapshot n b l st).
Proof.
  revert st. induction l as [|p l IH]; intros st; cbn [signal_processes]; [apply _|].
  destruct st as [k r]. solve_accounts.
Qed.
#[export] Instance signal_workload_accounts fuel cgroup n : Accounts (signal_workload fuel cgroup n).
Proof. unfold signal_workload. solve_accounts. Qed.
#[export] Instance wait_accounts fuel cgroup status t b :
  Accounts (wait_for_workload_exit fuel cgroup status t b).
Proof. unfold wait_for_workload_exit, wait_step. solve_accounts. Qed.
#[export] Instance terminate_accounts fuel cgroup reason status :
  Accounts (terminate_workload fuel cgroup reason status).
Proof. unfold terminate_workload. solve_accounts. Qed.
#[export] Instance supervise_step_accounts fuel cgroup status :
  Accounts (supervise_step fuel cgroup status).
Proof. unfold supervise_step, terminate_for. solve_accounts. Qed.
#[export] Instance supervise_accounts fuel cgroup status :
  Accounts (supervise_workload fuel cgroup status).
Proof. unfold supervise_workload. solve_accounts. Qed.
#[export] Instance monitored_accounts fuel options cgroup reason :
  Accounts (monitor_and_supervise fuel options cgroup reason).
Proof. unfold monitor_and_supervise, start_monitor, end_workload. solve_accounts. Qed.
