(* ===== verification/Grounds.v ===== *)
(** * What the reasons for a termination rest on

    Each reason has its grounds in what the threads saw: the clock, the
    memory, the signals, the troubles.  They are stated of the traces alone;
    the lemmas show that each thread requests or reports a reason only when
    its grounds are there. *)

From S2P Require Import Prelude.
From S2P Require Import CLib.
From S2P Require Import SandboxSys.
From S2P Require Import Logger.
From S2P Require Import SandboxOptions.
From S2P Require Import MonitorState.
From S2P Require Import History.
From S2P Require Import ProcStat.
From S2P Require Import ProcessTree.
From S2P Require Import Cgroup.
From S2P Require Import Trouble.
From S2P Require Import SandboxChild.
From S2P Require Import Monitors.
From S2P Require Import Supervisor.
From S2P Require Import Supervision.
From S2P Require Import SandboxMain.
From S2P Require Import ControllerHistory.
Local Open Scope Z_scope.

(** A reading of the clock, seconds and nanoseconds, as one number. *)
Definition nanoseconds (t : Z * Z) : Z := t.1 * 10 ^ 9 + t.2.

(** [CLOCK_MONOTONIC] does not go back. *)
Definition clock_monotonic (K : kernel ssys) : Prop :=
  ∀ tr tr' start current, extends tr tr' →
    K _ tr Clock_gettime = Ok start → K _ tr' Clock_gettime = Ok current →
    nanoseconds start ≤ nanoseconds current.

(** The clock was read twice, with the limit in between but for less than a
    millisecond: the code counts whole milliseconds. *)
Definition time_exceeded (timeout_seconds : Z) (tr : strace) : Prop :=
  ∃ start current before between after,
    tr = after ++ Ev Clock_gettime (Ok current) :: between ++
      Ev Clock_gettime (Ok start) :: before ∧
    timeout_seconds * 10 ^ 9 - 10 ^ 6 < nanoseconds current - nanoseconds start.

(** The memory was measured and is at least the limit, in kilobytes: what the
    cgroup's [memory.current] said, in bytes, or the sum over the workload of
    what the files of [/proc] said, in a reading of all of it. *)
Definition memory_exceeded (cgroup : SandboxCgroup) (supervisor leader limit : Z)
    (tr : strace) : Prop :=
  if active cgroup then
    ∃ content fails,
      file_read (cgroup_file (cg_path cgroup) "memory.current") content fails tr ∧
      ∀ bytes, memory_current_shows content bytes → limit * 1024 ≤ bytes
  else
    ∃ before new after all alive sample, tr = after ++ new ++ before ∧
      proc_read_whole new all ∧ sample_of new all supervisor leader alive sample ∧
      limit ≤ memory_kilobytes sample.

(** The controller was sent a signal. *)
Definition got_signal (tr : strace) : Prop :=
  ∃ signals, signals ≠ [] ∧ happened Pending_signals signals tr.

(** A monitor could not be started. *)
Definition creation_failed (tr : strace) : Prop :=
  ∃ m r, r ≠ 0 ∧ happened (Pthread_create m) r tr.

(** Something went wrong since [tr0], or the files of the cgroup cannot be
    named. *)
Definition hindered (cgroup : SandboxCgroup) (tr0 tr : strace) : Prop :=
  trouble_since tr0 tr ∨ active cgroup = true ∧ too_long cgroup.

(** ** Lemmas: grounds remain *)

Lemma time_exceeded_later timeout_seconds t new :
  time_exceeded timeout_seconds t → time_exceeded timeout_seconds (new ++ t).
Proof.
  intros (start & current & before & between & after & -> & Hle).
  exists start, current, before, between, (new ++ after). by rewrite <- (assoc_L app).
Qed.

Lemma memory_exceeded_later cgroup supervisor leader limit t new :
  memory_exceeded cgroup supervisor leader limit t →
  memory_exceeded cgroup supervisor leader limit (new ++ t).
Proof.
  unfold memory_exceeded. destruct (active cgroup).
  - intros (content & fails & H & Hle). exists content, fails. split; [|done].
    eapply file_read_extends; [by exists new|done].
  - intros (before & new0 & after & all & alive & sample & -> & H).
    exists before, new0, (new ++ after), all, alive, sample. by rewrite <- (assoc_L app).
Qed.

Lemma got_signal_later t new : got_signal t → got_signal (new ++ t).
Proof.
  intros (signals & Hne & H). exists signals. split; [done|].
  eapply happened_extends; [|exact H]. by exists new.
Qed.

Lemma creation_failed_later t new : creation_failed t → creation_failed (new ++ t).
Proof.
  intros (m & r & Hne & H). exists m, r. split; [done|].
  eapply happened_extends; [by exists new|done].
Qed.

Lemma hindered_later cgroup tr0 t new : hindered cgroup tr0 t → hindered cgroup tr0 (new ++ t).
Proof. intros [H|H]; [left; by apply trouble_later|by right]. Qed.

Lemma hindered_extends cgroup tr0 tr tr' :
  extends tr tr' → hindered cgroup tr0 tr → hindered cgroup tr0 tr'.
Proof. intros [new ->]. apply hindered_later. Qed.

Lemma hindered_earlier cgroup tr0 tr tr' :
  extends tr0 tr → hindered cgroup tr tr' → hindered cgroup tr0 tr'.
Proof. intros He [H|H]; [left; by eapply trouble_earlier|by right]. Qed.

Lemma troubled_now cgroup tr0 tr e :
  extends tr0 tr → troubled e → hindered cgroup tr0 (e :: tr).
Proof.
  intros [new ->] He. left. exists (e :: new). split; [done|]. by left.
Qed.

Lemma extends_nil (tr : strace) : extends [] tr.
Proof. exists tr. by rewrite app_nil_r. Qed.

(** ** Lemmas: the time *)

(** The milliseconds the code computes are more than the time that passed by
    less than one, if the time did not go back. *)
Lemma elapsed_bound start current :
  nanoseconds start ≤ nanoseconds current →
  elapsed_milliseconds start current * 10 ^ 6 - 10 ^ 6 < nanoseconds current - nanoseconds start.
Proof.
  unfold nanoseconds, elapsed_milliseconds. destruct start as [s n], current as [s' n']. cbn [fst snd].
  intros Hle. pose proof (Z.quot_rem' (n' - n) 1000000) as Hq.
  pose proof (Z.rem_bound_abs (n' - n) 1000000 ltac:(lia)) as Hr.
  set (d := (s' - s) * 1000 + Z.quot (n' - n) 1000000) in *.
  assert (0 ≤ d) by lia. pose proof (Z.mod_le d (2 ^ 64) ltac:(done) ltac:(lia)). lia.
Qed.

(** The last part of an iteration, which requests [R] and returns. *)
Lemma wp_last_request {A} K R (needs : strace → Prop) (m : Controller A) w :
  (∀ e t, needs t → needs (e :: t)) → needs (trace w) →
  Emits (publishes (λ _, True)) m → guarded_by (asks R) needs (trace w) →
  wp K m (λ _ w', guarded_by (asks R) needs (trace w') ∧ extends (trace w) (trace w')) w.
Proof.
  intros Hmono Hn Hm Hg. eapply wp_emitting; [exact Hm|]. intros o w' new -> _.
  split; [by apply guarded_by_unlocked|by exists new].
Qed.

(** The timeout monitor requests the timeout only after it passed. *)
Lemma timeout_guarded K fuel timeout_seconds poll g :
  clock_monotonic K →
  wp K (timeout_monitor_thread fuel timeout_seconds poll) (λ _ w',
    guarded_by (asks TERMINATION_TIMEOUT) (time_exceeded timeout_seconds) (trace w'))
    (World g []).
Proof.
  intros Hclock.
  assert (∀ f a, Emits (other_than TERMINATION_TIMEOUT) (monitor_error f a)) as Herror.
  { intros f a. by apply monitor_error_publishes. }
  unfold timeout_monitor_thread. wp_steps.
  destruct (K _ _ Clock_gettime) as [start|e] eqn:Estart.
  2:{ eapply wp_guarded; [apply Herror|done|]. by intros o w1 Hw1 _. }
  set (t0 := [Ev Clock_gettime (Ok start)]).
  wp_steps. eapply wp_guarded; [apply _|done|]. intros [[]|h] w1 Hw1 He1; [|done].
  apply (wp_loop_inv K (λ _ w, guarded_by (asks TERMINATION_TIMEOUT) (time_exceeded timeout_seconds)
    (trace w) ∧ extends t0 (trace w))); [|by intros ? ? []|by split].
  intros [] w [Hw Hst]. unfold timeout_step. wp_steps.
  eapply wp_guarded; [apply _|exact Hw|]. intros [[sn|]|h] w2 Hw2 He2; wp_steps; [|done..].
  assert (extends t0 (trace w2)) as Hst2 by by eapply extends_trans.
  destruct (K _ (trace w2) Clock_gettime) as [current|e] eqn:Ecur.
  2:{ wp_steps. eapply wp_guarded; [apply Herror|by apply guarded_by_cons; [|exact Hw2]|]. intros [[]|h] w3 Hw3 _; [|done]. by wp_steps. }
  wp_decide Hexc.
  - eapply wp_mono; [apply (wp_last_request K TERMINATION_TIMEOUT (time_exceeded timeout_seconds))|].
    + intros e t. apply (time_exceeded_later _ t [e]).
    + destruct Hst2 as [between Hbetween]. exists start, current, [], between, [].
      cbn [trace]. rewrite Hbetween. split; [done|].
      pose proof (elapsed_bound start current
        (Hclock _ _ _ _ (extends_nil (trace w2)) Estart Ecur)). lia.
    + solve_emits. by apply request_publishes.
    + by apply guarded_by_cons; [|exact Hw2].
    + intros [[[]|[]]|h] w3 [Hw3 He3]; [|done..]. split; [done|].
      eapply extends_trans; [|exact He3]. eapply extends_trans; [exact Hst2|]. by eexists [_].
  - eapply (wp_guarded K TERMINATION_TIMEOUT); [by apply monitor_sleep_publishes|by apply guarded_by_cons; [|exact Hw2]|].
    intros [[[]|[]]|h] w3 Hw3 He3; [|done..]. split; [done|].
    eapply extends_trans; [|exact He3]. eapply extends_trans; [exact Hst2|]. by eexists [_].
Qed.

(** ** Lemmas: on the way *)

(** The thread knows whose workload it watches, and its requests for [R] so far
    had their grounds. *)
Record steady (R : SandboxTerminationReason) (needs : strace → Prop) (supervisor leader : Z)
    (w : world ssys sandbox) : Prop := {
  steady_guarded : guarded_by (asks R) needs (trace w);
  steady_supervisor : supervisor_pid (sb_state (globals w)) = supervisor;
  steady_leader : child_pid (sb_state (globals w)) = leader
}.

Section steady.
Context (K : kernel ssys) (R : SandboxTerminationReason) (needs : strace → Prop)
  (supervisor leader : Z).
Notation steady := (steady R needs supervisor leader).

Lemma steady_evolves w w' :
  steady w → state_evolves (globals w) (globals w') →
  guarded_by (asks R) needs (trace w') → steady w'.
Proof.
  intros [_ Hs Hl] Hev Hg. destruct (evolves_ids _ _ Hev) as (E1 & E2 & _).
  split; [done|by rewrite E1|by rewrite E2].
Qed.

(** A part that does not request [R]. *)
Lemma wp_steady {A} (m : Controller A) (Q : outcome A → world ssys sandbox → Prop) w :
  Emits (other_than R) m → Moves state_evolves m → steady w →
  (∀ o w', m K w = (o, w') → steady w' → extends (trace w) (trace w') → Q o w') → wp K m Q w.
Proof.
  intros He Hm Hw HQ.
  assert (wp K m (λ _ w', guarded_by (asks R) needs (trace w') ∧ extends (trace w) (trace w')) w)
    as [Hg Hx] by (eapply wp_guarded; [exact He|apply Hw|by intros]).
  apply HQ; [by destruct (m K w)|by eapply steady_evolves; [|apply Hm|]|done].
Qed.

Lemma steady_cons w e : steady w → asks R e = false → steady (World (globals w) (e :: trace w)).
Proof. intros [Hg Hs Hl] He. split; [|done..]. apply guarded_by_cons; [by rewrite He|done]. Qed.

(** What a look at the state shows is the state. *)
Lemma still_supervised_steady (Q : outcome (option SandboxStateSnapshot) → world ssys sandbox → Prop) w :
  steady w →
  (∀ w', steady w' → extends (trace w) (trace w') → Q (Ret None) w') →
  (∀ sn w', steady w' → supervisor_pid sn = supervisor → child_pid sn = leader →
    extends (trace w) (trace w') → Q (Ret (Some sn)) w') →
  wp K still_supervised Q w.
Proof.
  intros Hw Hnone Hsome. unfold still_supervised. wp_steps. apply wp_snapshot.
  intros s' sn new Hnew Hev Hsn. set (w' := World _ _).
  assert (steady w') as Hw'.
  { eapply steady_evolves; [exact Hw|exact Hev|]. apply guarded_by_app; [|apply Hw].
    eapply Forall_impl; [exact Hnew|]. intros e He. by apply other_than_asks, lock_publishes. }
  assert (extends (trace w) (trace w')) as He by by exists new.
  destruct Hw' as [Hg Hs Hl]. cbn [globals sb_state] in *.
  destruct Hsn as [->| ->]; wp_steps; [by apply Hnone|].
  destruct (negb (workload_alive s') || termination_requested s'); wp_steps;
    [by apply Hnone|by apply Hsome].
Qed.

End steady.

(** ** Lemmas: the memory *)

(** The end of an iteration of the memory monitor. *)
Lemma check_memory_guarded K fuel limit poll m source last (needs : strace → Prop) w :
  (∀ e t, needs t → needs (e :: t)) → (limit ≤ m → needs (trace w)) →
  guarded_by (asks TERMINATION_MEMORY_LIMIT) needs (trace w) →
  wp K (check_memory fuel limit poll m source last) (λ _ w',
    guarded_by (asks TERMINATION_MEMORY_LIMIT) needs (trace w')) w.
Proof.
  intros Hmono Hn Hg. unfold check_memory. wp_decide Hle.
  - eapply wp_mono; [apply (wp_last_request K TERMINATION_MEMORY_LIMIT needs); [done|by apply Hn| |done]|].
    { solve_emits. by apply request_publishes. }
    by intros o w' [].
  - eapply (wp_guarded K TERMINATION_MEMORY_LIMIT); [by apply monitor_sleep_publishes|done|]. by intros o w' Hw' _.
Qed.

(** A measurement that reaches the limit shows that the workload does. *)
Lemma measure_exceeded K fuel cgroup snapshot limit (w : world ssys sandbox) :
  wp K (measure_memory fuel cgroup snapshot) (post (λ r w', ∀ m n source,
    r = Some (m, n, source) → limit ≤ m →
    memory_exceeded cgroup (supervisor_pid snapshot) (child_pid snapshot) limit (trace w'))
    (λ _ _, True)) w.
Proof.
  assert (∀ format args w1, wp K (monitor_error format args ;;; ret (@None (Z * Z * string)))
    (post (λ r w', ∀ m n source, r = Some (m, n, source) → limit ≤ m →
      memory_exceeded cgroup (supervisor_pid snapshot) (child_pid snapshot) limit (trace w'))
      (λ _ _, True)) w1) as Herror.
  { intros. wp_steps. eapply wp_mono; [apply wp_true|]. by intros [u|h] w2 _; wp_steps. }
  unfold measure_memory, memory_exceeded in *. destruct (active cgroup) eqn:Ha; wp_steps.
  - eapply wp_mono; [apply wp_true|]. intros [[populated|e]|h] w1 _; [|apply Herror|done]. wp_steps.
    eapply wp_mono; [by apply memory_kilobytes_read|].
    intros [[kB|e]|h] w2; [|intros _; apply Herror|done]. intros (new & Htr & content & fails & Hread & Hshow).
    destruct populated; cbn [negb]; wp_steps; [|done].
    intros m n source [= -> _ _] Hle. exists content, fails. split.
    + destruct Hread as (b & Hb & H). exists b. split; [done|]. rewrite Htr. apply elem_of_app. by left.
    + intros bytes Hb. specialize (Hshow bytes Hb).
      pose proof (Z.mul_div_le bytes 1024 ltac:(done)). lia.
  - eapply wp_mono; [apply tree_sample_spec|]. intros [[sample|]|h] w1; [|intros _; apply Herror|done].
    intros H. destruct (H sample eq_refl) as (new & all & Htr & _ & Hwhole & Hsample).
    wp_decide Hz; wp_steps; [done|]. intros m n source [= <- _ _] Hle.
    exists (trace w), new, [], all, (leader_alive snapshot), sample. by split_and!.
Qed.

(** The memory monitor requests the memory limit only after a measurement of
    at least the limit. *)
Lemma memory_guarded K fuel cgroup limit poll g :
  let exceeded := memory_exceeded cgroup (supervisor_pid (sb_state g)) (child_pid (sb_state g)) limit in
  wp K (memory_monitor_thread fuel cgroup limit poll) (λ _ w',
    guarded_by (asks TERMINATION_MEMORY_LIMIT) exceeded (trace w')) (World g []).
Proof.
  intros exceeded. set (ok := steady TERMINATION_MEMORY_LIMIT exceeded
    (supervisor_pid (sb_state g)) (child_pid (sb_state g))).
  assert (∀ e t, exceeded t → exceeded (e :: t)) as Hmono.
  { intros e t. apply (memory_exceeded_later _ _ _ _ t [e]). }
  unfold memory_monitor_thread. wp_steps.
  eapply (wp_steady _ _ exceeded); [apply _|solve_moves|by split|]. intros [[]|h] w1 _ Hw1 _; [|by apply Hw1].
  cbn [globals] in Hw1.
  apply (wp_mono K _ _ (λ _ w', ok w')); [|by intros o w' [Hw' _ _]].
  apply (wp_loop_inv K (λ _ w', ok w')); [|done|exact Hw1].
  intros last w Hw. unfold memory_monitor_step. wp_steps.
  eapply still_supervised_steady; [exact Hw|by intros w2 Hw2 _; wp_steps|].
  intros sn w2 Hw2 Hs Hl _. wp_steps.
  eapply wp_mono; [apply wp_conj; [apply (measure_exceeded K fuel cgroup sn limit)|]|].
  { eapply wp_steady; [| |exact Hw2|]; [by apply measure_memory_publishes|apply _|].
    intros o w3 _ Hw3 _. exact Hw3. }
  intros o w3 [Hexc Hw3]. destruct o as [[[[m n] source]|]|h]; wp_steps; [|done..].
  assert (∀ t, extends (trace w3) t → limit ≤ m → exceeded t) as Hlimit.
  { intros t [new ->] Hle. apply memory_exceeded_later. rewrite <- Hs, <- Hl. by eapply Hexc. }
  assert (∀ last' w4, ok w4 → extends (trace w3) (trace w4) →
    wp K (check_memory fuel limit poll m source last') (post (λ r w', match r with inl _ => ok w' | inr _ => ok w' end)
      (λ _ w', ok w')) w4) as Hcheck.
  { intros last' w4 Hw4 He4. eapply wp_mono; [apply wp_conj; [apply (wp_moves state_evolves)|
      apply check_memory_guarded; [exact Hmono|by apply Hlimit|apply Hw4]]|].
    { unfold check_memory. solve_moves. }
    intros o w5 [Hev Hg]. assert (ok w5) by by eapply steady_evolves.
    by destruct o as [[]|]. }
  wp_decide Hlog; wp_steps; [|by apply Hcheck].
  eapply wp_steady; [apply _|solve_moves|exact Hw3|]. intros [[]|h] w4 _ Hw4 He4; wp_steps; [|done].
  by apply Hcheck.
Qed.

(** ** Lemmas: the troubles of a monitor *)

Section errors.
Context (K : kernel ssys) (fuel : nat) (cgroup : SandboxCgroup) (supervisor leader : Z).
Hypothesis Hsupervisor : 0 < supervisor.
Hypothesis Hfuel : Z.of_nat fuel ≤ 2 ^ 50.
Notation needs := (hindered cgroup []).
Notation ok := (steady TERMINATION_MONITOR_ERROR needs supervisor leader).

(** A part whose bad results come from trouble. *)
Lemma wp_hindered {A} (m : Controller A) (bad : A → Prop)
    (Q : outcome A → world ssys sandbox → Prop) w :
  Emits (other_than TERMINATION_MONITOR_ERROR) m → Moves state_evolves m → ok w →
  wp K m (post (λ r w', bad r → hindered cgroup (trace w) (trace w')) (λ _ _, True)) w →
  (∀ r w', ok w' → (bad r → needs (trace w')) → Q (Ret r) w') →
  (∀ h w', ok w' → Q (Halt h) w') → wp K m Q w.
Proof.
  intros He Hm Hw Hbad HQ Hh. eapply wp_mono; [apply wp_conj; [exact Hbad|]|].
  { eapply wp_steady; [exact He|exact Hm|exact Hw|]. intros o w' _ Hw' _. exact Hw'. }
  intros [r|h] w' [H Hw']; [|by apply Hh]. apply HQ; [done|]. intros Hr.
  eapply hindered_earlier; [apply extends_nil|]. by apply H.
Qed.

Lemma error_steady format args w :
  ok w → needs (trace w) → wp K (monitor_error format args) (λ _ w', ok w') w.
Proof.
  intros Hw Hn. eapply wp_mono; [apply wp_conj; [apply (wp_moves state_evolves), _|
    apply (wp_last_request K TERMINATION_MONITOR_ERROR needs)]|].
  - intros e t. apply (hindered_later _ _ t [e]).
  - exact Hn.
  - by apply monitor_error_publishes.
  - apply Hw.
  - intros o w' [Hev [Hg _]]. by eapply steady_evolves.
Qed.

(** The same before the return. *)
Lemma error_return {A} format args (a : A) w :
  ok w → needs (trace w) →
  wp K (monitor_error format args ;;; ret a : Controller A) (λ _ w', ok w') w.
Proof.
  intros Hw Hn. wp_steps. eapply wp_mono; [by apply error_steady|].
  by intros [[]|h] w' Hw'; wp_steps.
Qed.

Lemma monitor_sleep_steady {S} poll message (s : S) w :
  ok w → wp K (monitor_sleep fuel poll message s) (λ _ w', ok w') w.
Proof.
  intros Hw. unfold monitor_sleep. wp_steps.
  eapply (wp_hindered _ (λ r, ∃ e, r = Err e)); [apply _|apply moves_keeps; apply _|exact Hw| | |done].
  - eapply wp_mono; [apply sleep_troubled|]. intros [r|h] w'; [|done]. intros H [e He].
    left. by apply (H e).
  - intros [u|e] w' Hw' Hn; [by wp_steps|]. apply error_return; [done|]. apply Hn. by exists e.
Qed.

Lemma wp_sample_steady s c alive (Q : outcome (option ProcessTreeSample) → world ssys sandbox → Prop) w :
  ok w → s = supervisor →
  (∀ r w', ok w' → (r = None → needs (trace w')) → Q (Ret r) w') →
  (∀ h w', ok w' → Q (Halt h) w') →
  wp K (process_tree_sample fuel s c alive) Q w.
Proof.
  intros Hw -> HQ Hh.
  eapply (wp_hindered _ (λ r, r = None)); [apply _|apply moves_keeps; apply _|exact Hw| |done|done].
  eapply wp_mono; [by apply sample_troubled|]. intros [r|h] w'; [|done]. intros H Hr. left. by apply H.
Qed.

Lemma measure_steady sn w :
  ok w → supervisor_pid sn = supervisor →
  wp K (measure_memory fuel cgroup sn) (λ _ w', ok w') w.
Proof.
  intros Hw Hs. unfold measure_memory. destruct (active cgroup) eqn:Ha; wp_steps.
  - eapply (wp_hindered _ (λ r, ∃ e, r = Err e)); [apply _|apply moves_keeps; apply _|exact Hw| | |done].
    { eapply wp_mono; [apply populated_troubled|]. intros [[b|e]|h] w1; [|intros (new & Htr & H) _|done].
      - by intros _ [? [=]].
      - destruct H as [H|H]; [by right|left]. by exists new. }
    intros [populated|e] w1 Hw1 H1; [|by apply error_return; [|apply H1; eexists]]. wp_steps.
    eapply (wp_hindered _ (λ r, ∃ e, r = Err e)); [apply _|apply moves_keeps; apply _|exact Hw1| | |done].
    { eapply wp_mono; [by apply memory_kilobytes_read|]. intros [[b|e]|h] w2; [|intros (new & Htr & H) _|done].
      - by intros _ [? [=]].
      - destruct H as [H|H]; [by right|left]. by exists new. }
    intros [kB|e] w2 Hw2 H2; [|by apply error_return; [|apply H2; eexists]].
    by destruct populated; cbn [negb]; wp_steps.
  - apply wp_sample_steady; [done|done| |done]. intros [sample|] w1 Hw1 H1.
    + by case_bool_decide; wp_steps.
    + apply error_return; [done|by apply H1].
Qed.

(** A loop that looks at the state first. *)
Lemma supervised_loop_steady {S} n (body : SandboxStateSnapshot → S → Controller (S + unit)) s w :
  ok w →
  (∀ sn s w, ok w → supervisor_pid sn = supervisor → wp K (body sn s) (λ _ w', ok w') w) →
  wp K (loop n (λ s, let* supervised := still_supervised in
                     match supervised with
                     | None => ret (inr tt)
                     | Some snapshot => body snapshot s
                     end) s) (λ _ w', ok w') w.
Proof.
  intros Hw Hbody. apply (wp_loop_inv K (λ _ w', ok w')); [|done|done].
  intros s' w1 Hw1. wp_steps.
  eapply still_supervised_steady; [exact Hw1|by intros w2 Hw2 _; wp_steps|].
  intros sn w2 Hw2 Hs _ _. wp_steps. eapply wp_mono; [by apply Hbody|].
  by intros [[]|] w3.
Qed.

(** An error that ends the thread. *)
Ltac fail_with tac :=
  wp_steps; eapply wp_mono; [apply error_steady; [tac|]|by intros [[]|h] ? ?; wp_steps].

Ltac steady_run Hw :=
  wp_steps; eapply wp_steady; [| |exact Hw|];
    [first [solve [solve_emits] | by apply request_publishes]|solve_moves|].

Lemma timeout_errors limit poll g :
  ok (World g []) →
  wp K (timeout_monitor_thread fuel limit poll) (λ _ w', ok w') (World g []).
Proof.
  intros Hw. unfold timeout_monitor_thread. wp_steps.
  destruct (K _ _ Clock_gettime) as [start|e] eqn:E.
  2:{ wp_steps. apply error_steady; [by apply (steady_cons _ _ _ _ _ _ Hw)|]. by apply troubled_now. }
  set (w1 := World _ _). assert (ok w1) as Hw1 by by apply (steady_cons _ _ _ _ _ _ Hw).
  steady_run Hw1. intros [[]|h] w2 _ Hw2 _; [|done]. wp_steps.
  apply (supervised_loop_steady fuel (λ snapshot _, _)); [done|]. intros sn [] w3 Hw3 Hs.
  wp_steps. destruct (K _ (trace w3) Clock_gettime) as [current|e] eqn:E'.
  2:{ fail_with ltac:(by apply steady_cons). apply troubled_now; [apply extends_nil|done]. }
  set (w4 := World _ _). assert (ok w4) as Hw4 by by apply steady_cons.
  wp_decide Hexc; [|by apply monitor_sleep_steady].
  steady_run Hw4. intros [r|h] w5 _ Hw5 _; [|done]. wp_decide Hr; [|by wp_steps].
  steady_run Hw5. intros [[]|h] w6 _ Hw6 _; by wp_steps.
Qed.

Lemma memory_errors limit poll g :
  ok (World g []) →
  wp K (memory_monitor_thread fuel cgroup limit poll) (λ _ w', ok w') (World g []).
Proof.
  intros Hw. unfold memory_monitor_thread.
  steady_run Hw. intros [[]|h] w1 _ Hw1 _; [|done]. wp_steps.
  apply (supervised_loop_steady fuel (λ snapshot last, _)); [done|]. intros sn last w2 Hw2 Hs.
  wp_steps. eapply wp_mono; [by apply measure_steady|].
  assert (∀ m source last' w3, ok w3 →
    wp K (check_memory fuel limit poll m source last') (λ _ w', ok w') w3) as Hcheck.
  { intros m source last' w3 Hw3. unfold check_memory. wp_decide Hle; [|by apply monitor_sleep_steady].
    steady_run Hw3. intros [r|h] w4 _ Hw4 _; [|done]. wp_decide Hr; [|by wp_steps].
    steady_run Hw4. intros [[]|h] w5 _ Hw5 _; by wp_steps. }
  intros [[[[m n] source]|]|h] w3 Hw3; wp_steps; [|done..].
  wp_decide Hlog; wp_steps; [|by apply Hcheck].
  steady_run Hw3. intros [[]|h] w4 _ Hw4 _; wp_steps; [by apply Hcheck|done].
Qed.

Lemma cpu_errors percent poll g :
  ok (World g []) →
  wp K (cpu_monitor_thread percent fuel poll) (λ _ w', ok w') (World g []).
Proof.
  intros Hw. unfold cpu_monitor_thread. wp_steps.
  set (w1 := World _ _). assert (ok w1) as Hw1 by by apply (steady_cons _ _ _ _ _ _ Hw).
  wp_decide Hticks.
  { apply error_steady; [done|]. apply troubled_now; [apply extends_nil|done]. }
  steady_run Hw1. intros [[]|h] w2 _ Hw2 _; [|done]. wp_steps.
  apply (supervised_loop_steady fuel (λ snapshot previous, _)); [done|]. intros sn previous w3 Hw3 Hs.
  wp_steps. apply wp_sample_steady; [done|done| |done]. intros [sample|] w4 Hw4 H4.
  2:{ fail_with ltac:(exact Hw4). by apply H4. }
  wp_decide Hz; wp_steps; [done|].
  destruct (K _ (trace w4) Clock_gettime) as [current|e] eqn:E'.
  2:{ fail_with ltac:(by apply steady_cons). apply troubled_now; [apply extends_nil|done]. }
  set (w5 := World _ _). assert (ok w5) as Hw5 by by apply steady_cons.
  steady_run Hw5. intros [[]|h] w6 _ Hw6 _; [|done]. wp_steps. by apply monitor_sleep_steady.
Qed.

End errors.

(** A monitor reports an error only on trouble. *)
Lemma monitor_errors K percent fuel options cgroup m g :
  0 < supervisor_pid (sb_state g) → Z.of_nat fuel ≤ 2 ^ 50 →
  wp K (monitor_program percent fuel options cgroup m) (λ _ w',
    guarded_by (asks TERMINATION_MONITOR_ERROR) (hindered cgroup []) (trace w')) (World g []).
Proof.
  intros Hs Hf.
  eapply (wp_mono K _ _ (λ _ w', steady TERMINATION_MONITOR_ERROR (hindered cgroup [])
    (supervisor_pid (sb_state g)) (child_pid (sb_state g)) w')); [|by intros o w' [Hw' _ _]].
  destruct m; [by apply timeout_errors|by apply memory_errors|by apply cpu_errors].
Qed.

(** ** Lemmas: the troubles of the controller *)

Section polling.
Context (K : kernel ssys) (fuel : nat) (cgroup : SandboxCgroup).
Hypothesis Hfuel : Z.of_nat fuel ≤ 2 ^ 50.

Lemma reap_troubled status w :
  wp K (reap_available_children fuel status) (post (λ r w',
    r.2 = false → trouble_since (trace w) (trace w')) (λ _ _, True)) w.
Proof.
  unfold reap_available_children.
  apply (wp_loop_inv K (λ _ w', extends (trace w) (trace w'))); [|done|apply extends_refl].
  intros st w1 He.
  eapply wp_mono; [apply wp_conj; [|apply (accounts_extends K (reap_step st)); unfold reap_step; solve_accounts]|].
  { instantiate (1 := post (λ r w', match r with
      | inr (_, false) => trouble_since (trace w1) (trace w')
      | _ => True
      end) (λ _ _, True)).
    unfold reap_step. wp_steps. destruct (K _ _ Waitpid_any) as [p n| |e] eqn:E; wp_steps; [| done|].
    - case_match; wp_steps; (eapply wp_mono; [apply wp_true|]); intros [?|?] ? _; wp_steps; try done.
      eapply wp_mono; [apply wp_true|]. intros [?|?] ? _; by wp_steps.
    - destruct (is_eintr e) eqn:Ei; wp_steps; [done|]. wp_decide He'; wp_steps; [done|].
      apply wp_logger_write. intros logs Hlogs. wp_steps.
      exists (logs ++ [Ev Waitpid_any (WaitErr e)]). rewrite <- (assoc_L app). split; [done|].
      apply Exists_app. right. left. exists e. split; [done|]. split; [|done].
      unfold is_eintr in Ei. by apply bool_decide_eq_false in Ei. }
  intros [[st'|[st' b]]|h] w2 [H He2]; cbn [post] in *; [by eapply extends_trans| |done].
  destruct b; [done|]. intros _. by eapply trouble_earlier.
Qed.

Lemma observe_troubled snapshot w :
  0 < supervisor_pid snapshot →
  wp K (observe_workload fuel cgroup snapshot) (post (λ r w',
    r = None → hindered cgroup (trace w) (trace w')) (λ _ _, True)) w.
Proof.
  intros Hs. unfold observe_workload. destruct (active cgroup) eqn:Ha; wp_steps.
  - eapply wp_mono; [apply populated_troubled|]. intros [[b|e]|h] w1; [| |done]; intros (new & Htr & H).
    + wp_steps. eapply wp_mono; [apply wp_true|]. by intros [[]|h] w2 _; wp_steps.
    + wp_steps. apply wp_logger_write. intros logs _. wp_steps. intros _. apply hindered_later.
      destruct H as [H|H]; [by right|left]. by exists new.
  - eapply wp_mono; [by apply sample_troubled|]. intros [[sample|]|h] w1 H; [| |done].
    + wp_steps. eapply wp_mono; [apply wp_true|]. by intros [[]|h] w2 _; wp_steps.
    + wp_steps. apply wp_logger_write. intros logs _. wp_steps. intros _. apply hindered_later.
      left. by apply H.
Qed.

Lemma poll_troubled status w :
  0 < supervisor_pid (sb_state (globals w)) →
  wp K (poll_workload fuel cgroup status) (post (λ r w',
    r.2 = None → hindered cgroup (trace w) (trace w')) (λ _ _, True)) w.
Proof.
  intros Hs. unfold poll_workload. wp_steps.
  eapply wp_mono; [apply wp_conj; [apply reap_troubled|apply wp_conj;
    [apply (wp_moves state_evolves), _|apply accounts_extends, _]]|].
  intros [[st b]|h] w1 (Hreap & Hev & He); [|done]. destruct (evolves_ids _ _ Hev) as (Es & _).
  destruct b; cbn [negb] in *; wp_steps; [|intros _; left; by apply Hreap].
  apply wp_snapshot_troubled. intros s' sn new Hev2 _ Hsn.
  set (w2 := World _ _). assert (extends (trace w) (trace w2)) as He2.
  { eapply extends_trans; [exact He|]. by exists new. }
  destruct sn as [sn|]; wp_steps.
  - subst sn. destruct (evolves_ids _ _ Hev2) as (Es2 & _).
    eapply wp_mono; [apply (observe_troubled s'); by rewrite Es2, Es|].
    intros [r|h] w3 H; wp_steps; [|done]. intros Hr. eapply hindered_earlier; [exact He2|]. by apply H.
  - intros _. eapply hindered_earlier; [exact He|]. left. by exists new.
Qed.

(** Waiting gives up with an error only on trouble. *)
Lemma wait_troubled status timeout_milliseconds repeat_sigkill w :
  0 < supervisor_pid (sb_state (globals w)) →
  wp K (wait_for_workload_exit fuel cgroup status timeout_milliseconds repeat_sigkill)
    (post (λ '(_, r) w', r = -1 → hindered cgroup (trace w) (trace w')) (λ _ _, True)) w.
Proof.
  intros Hs. unfold wait_for_workload_exit.
  apply (wp_loop_inv K (λ _ w', state_evolves (globals w) (globals w') ∧
    extends (trace w) (trace w'))); [|done|split; [done|apply extends_refl]].
  intros [waited st] w1 [Hev1 He1]. destruct (evolves_ids _ _ Hev1) as (E1 & _).
  unfold wait_step. wp_steps.
  eapply wp_mono; [apply wp_conj; [apply poll_troubled; by rewrite E1|apply wp_conj;
    [apply (wp_moves state_evolves), _|apply accounts_extends, _]]|].
  intros [[st' r]|h] w2 (Hbad & Hev2 & He2); [|done]. cbn [post snd] in Hbad.
  destruct r as [[]|]; wp_steps; [|done|intros _; by eapply hindered_earlier; [|apply Hbad]].
  assert (state_evolves (globals w) (globals w2)) as Hev by by etrans.
  eapply wp_mono; [apply wp_conj; [apply (wp_moves state_evolves); destruct repeat_sigkill; solve_moves|
    apply accounts_extends; destruct repeat_sigkill; solve_accounts]|].
  intros [[]|h] w3 [Hev3 He3]; [|done]. wp_decide Hlong; wp_steps; [done|].
  eapply wp_mono; [apply wp_conj; [apply sleep_troubled|apply wp_conj;
    [apply (wp_moves state_evolves), moves_keeps; apply _|apply accounts_extends, _]]|].
  intros [[u|e]|h] w4 (Hslept & Hev4 & He4); [| |done]; wp_steps.
  - split; [by do 2 (etrans; [eassumption|])|]. do 3 (eapply extends_trans; [eassumption|]). done.
  - apply wp_logger_write. intros logs _. wp_steps. intros _. apply hindered_later. left.
    eapply trouble_earlier; [|by eapply Hslept]. do 2 (eapply extends_trans; [eassumption|]). done.
Qed.

End polling.

(** ** Lemmas: what the controller reports *)

#[export] Instance set_state_keeps_signal f :
  Keeps operator_signal_number (set_state f).
Proof. apply _. Qed.
#[export] Instance lock_keeps_signal : Keeps operator_signal_number lock_state.
Proof. unfold lock_state. solve_keeps. Qed.
#[export] Instance snapshot_keeps_signal : Keeps operator_signal_number sandbox_state_snapshot.
Proof. unfold sandbox_state_snapshot. solve_keeps. Qed.
#[export] Instance mark_leader_keeps_signal :
  Keeps operator_signal_number sandbox_state_mark_leader_exited.
Proof. unfold sandbox_state_mark_leader_exited. solve_keeps. Qed.
#[export] Instance mark_workload_keeps_signal :
  Keeps operator_signal_number sandbox_state_mark_workload_exited.
Proof. unfold sandbox_state_mark_workload_exited. solve_keeps. Qed.
#[export] Instance request_keeps_signal reason :
  Keeps operator_signal_number (sandbox_state_request_termination reason).
Proof. unfold sandbox_state_request_termination. solve_keeps. Qed.

#[export] Instance reap_keeps_signal fuel status :
  Keeps operator_signal_number (reap_available_children fuel status).
Proof. unfold reap_available_children, reap_step. solve_keeps. Qed.
#[export] Instance observe_keeps_signal fuel cgroup snapshot :
  Keeps operator_signal_number (observe_workload fuel cgroup snapshot).
Proof. unfold observe_workload. solve_keeps; apply keeps_part, _. Qed.
#[export] Instance poll_keeps_signal fuel cgroup status :
  Keeps operator_signal_number (poll_workload fuel cgroup status).
Proof. unfold poll_workload. solve_keeps. Qed.
#[export] Instance start_monitor_keeps_signal m message :
  Keeps operator_signal_number (start_monitor m message).
Proof. unfold start_monitor. solve_keeps. Qed.

#[export] Instance wait_moves fuel cgroup status t b :
  Moves state_evolves (wait_for_workload_exit fuel cgroup status t b).
Proof. unfold wait_for_workload_exit, wait_step. solve_moves. Qed.
#[export] Instance terminate_moves fuel cgroup reason status :
  Moves state_evolves (terminate_workload fuel cgroup reason status).
Proof. unfold terminate_workload. solve_moves. Qed.

Section shown.
Context (K : kernel ssys) (fuel : nat) (cgroup : SandboxCgroup) (tr0 : strace)
  (supervisor leader : Z).
Hypothesis Hsupervisor : 0 < supervisor.
Hypothesis Hfuel : Z.of_nat fuel ≤ 2 ^ 50.

(** A reason that has its grounds, or that the state has. *)
Definition shown (reason : SandboxTerminationReason) (w : world ssys sandbox) : Prop :=
  reason = TERMINATION_NONE ∨
  reason = TERMINATION_SUPERVISOR_ERROR ∧ hindered cgroup tr0 (trace w) ∨
  reason = TERMINATION_OPERATOR_SIGNAL ∧ got_signal (trace w) ∨
  termination_requested (sb_state (globals w)) = true ∧
  termination_reason (sb_state (globals w)) = reason.

(** The controller requests an end for a signal only when it got one. *)
Notation honest := (guarded_by (asks TERMINATION_OPERATOR_SIGNAL) got_signal).

(** It goes on waiting, and got no signal so far. *)
Record attentive (w : world ssys sandbox) : Prop := {
  attentive_steady : steady TERMINATION_OPERATOR_SIGNAL got_signal supervisor leader w;
  attentive_signal : operator_signal_number (globals w) = 0;
  attentive_since : extends tr0 (trace w)
}.

Lemma wp_read_signal (Q : outcome Z → world ssys sandbox → Prop) w :
  (∀ signals g, sb_state g = sb_state (globals w) → (signals = [] → g = globals w) →
     Q (Ret (operator_signal_number g)) (World g (Ev Pending_signals signals :: trace w))) →
  wp K read_operator_signal Q w.
Proof.
  intros HQ. unfold read_operator_signal. wp_steps. apply HQ; [apply handle_signals_state|].
  by intros ->.
Qed.

(** A part that publishes no request for a signal. *)
Lemma wp_attentive {A} (m : Controller A) (Q : outcome A → world ssys sandbox → Prop) w :
  Emits (other_than TERMINATION_OPERATOR_SIGNAL) m → Moves state_evolves m →
  Keeps operator_signal_number m → attentive w →
  (∀ o w', attentive w' → extends (trace w) (trace w') → Q o w') → wp K m Q w.
Proof.
  intros He Hm Hk [Hw H0 Hx] HQ.
  eapply wp_mono; [apply wp_conj; [|apply (keeps_wp operator_signal_number), Hk]|].
  { eapply wp_steady; [exact He|exact Hm|exact Hw|]. intros o w' _ Hw' Hx'. exact (conj Hw' Hx'). }
  intros o w' [[Hw' Hx'] Hs]. apply HQ; [|done]. split; [done|by rewrite Hs|by eapply extends_trans].
Qed.

Lemma terminate_for_shown reason status w :
  honest (trace w) → shown reason w →
  wp K (terminate_for fuel cgroup reason status) (post (λ r w', match r with
    | inl _ => False
    | inr (_, _, r) => shown r w' ∧ honest (trace w')
    end) (λ _ _, True)) w.
Proof.
  intros Hh Hs. unfold terminate_for. wp_steps.
  eapply wp_mono; [apply wp_conj; [|apply (wp_moves state_evolves), _]|].
  { eapply (wp_guarded K TERMINATION_OPERATOR_SIGNAL); [apply _|exact Hh|].
    intros o w' Hh' Hx. exact (conj Hh' Hx). }
  intros [[st b]|h] w' [[Hh' Hx] Hev]; [|done]. wp_steps. split; [|done].
  unfold shown in *. destruct Hs as [->|[[-> Hs]|[[-> Hs]|[Hr Hs]]]]; [by auto|..].
  - right; left. split; [done|]. by eapply hindered_extends.
  - right; right; left. split; [done|]. destruct Hx as [new ->]. by apply got_signal_later.
  - right; right; right. unfold state_evolves in Hev.
    apply evolves_requested in Hev as [-> ->]; [|done]. done.
Qed.

(** What the supervisor gives as the reason. *)
Lemma supervise_step_shown status w :
  attentive w →
  wp K (supervise_step fuel cgroup status) (post (λ r w', match r with
    | inl _ => attentive w'
    | inr (_, _, r) => shown r w' ∧ honest (trace w')
    end) (λ _ _, True)) w.
Proof.
  intros Hw. unfold supervise_step. wp_steps.
  assert (∀ reason st w', honest (trace w') → shown reason w' →
    wp K (terminate_for fuel cgroup reason st) (post (λ r w', match r with
      | inl _ => attentive w'
      | inr (_, _, r) => shown r w' ∧ honest (trace w')
      end) (λ _ _, True)) w') as Hend.
  { intros reason st w' Hw' Hs. eapply wp_mono; [by apply terminate_for_shown|].
    by intros [[?|[[? ?] ?]]|h] w''. }
  pose proof Hw as [[Hh Hsup Hlead] H0 Hx].
  apply wp_read_signal. intros signals g Hg Hnil.
  assert (honest (Ev Pending_signals signals :: trace w)) as Hh1 by by apply guarded_by_cons.
  wp_decide Hn.
  - assert (got_signal (Ev Pending_signals signals :: trace w)) as Hsig.
    { exists signals. split; [|apply happened_here]. intros ->. by rewrite Hnil in Hn. }
    wp_steps. apply wp_read_signal. intros signals' g' Hg' _. wp_steps.
    apply wp_logger_write. intros logs Hlogs. cbn [globals trace]. wp_steps.
    eapply wp_mono; [apply (wp_last_request K TERMINATION_OPERATOR_SIGNAL got_signal)|].
    + intros e t. apply (got_signal_later t [e]).
    + apply got_signal_later. by apply (got_signal_later _ [_]).
    + by apply request_publishes.
    + apply guarded_by_app; [|by apply guarded_by_cons].
      eapply Forall_impl; [exact Hlogs|]. intros e He. by apply other_than_asks, log_publishes.
    + intros [r|h] w2 [Hh2 [new Htr]]; [|done]. apply Hend; [done|]. right; right; left.
      split; [done|]. rewrite Htr. apply got_signal_later, got_signal_later.
      by apply (got_signal_later _ [_]).
  - apply dec_stable in Hn. wp_steps. set (w1 := World g _).
    assert (attentive w1) as Hw1.
    { split; [|done|by apply extends_cons]. split; [done|by cbn; rewrite Hg..]. }
    eapply wp_mono; [apply wp_conj; [apply (poll_troubled K fuel cgroup Hfuel status w1);
      by rewrite (steady_supervisor _ _ _ _ _ (attentive_steady _ Hw1))|]|].
    { eapply wp_attentive; [apply _|apply _|apply _|exact Hw1|]. intros o w2 Hw2 _. exact Hw2. }
    intros [[st r]|h] w2 [Hbad Hw2]; [|done]. cbn [post snd] in Hbad.
    assert (honest (trace w2)) as Hh2 by apply Hw2.
    destruct r as [[]|]; wp_steps; [|by split; [left|]|].
    2:{ apply Hend; [done|]. right; left. split; [done|].
        eapply hindered_earlier; [apply Hw1|by apply Hbad]. }
    apply wp_snapshot_troubled. intros s' sn new Hev Hnew Hsn. set (w3 := World _ _).
    assert (attentive w3) as Hw3.
    { destruct Hw2 as [Hw2 Hz He]. split; [|done|eapply extends_trans; [exact He|by exists new]].
      eapply steady_evolves; [exact Hw2|exact Hev|]. apply guarded_by_app; [|done].
      eapply Forall_impl; [exact Hnew|]. intros e He'. by apply other_than_asks, lock_publishes. }
    destruct sn as [sn|]; wp_steps.
    2:{ apply Hend; [apply Hw3|]. right; left. split; [done|]. left.
        eapply trouble_earlier; [apply Hw2|]. by exists new. }
    subst sn. destruct (termination_requested s') eqn:Er; wp_steps.
    { apply Hend; [apply Hw3|]. by right; right; right. }
    eapply wp_mono; [apply wp_conj; [apply sleep_troubled|]|].
    { eapply wp_attentive; [apply _|apply moves_keeps; apply _|apply _|exact Hw3|].
      intros o w4 Hw4 _. exact Hw4. }
    intros [[u|e]|h] w4 [Hslept Hw4]; wp_steps; [done| |done].
    apply wp_logger_write. intros logs Hlogs. wp_steps. apply Hend.
    + apply guarded_by_app; [|apply Hw4]. eapply Forall_impl; [exact Hlogs|].
      intros e' He'. by apply other_than_asks, log_publishes.
    + right; left. split; [done|]. apply hindered_later. left.
      eapply trouble_earlier; [apply Hw3|]. by eapply Hslept.
Qed.

Lemma supervise_shown status w :
  attentive w →
  wp K (supervise_workload fuel cgroup status) (post (λ '(_, _, r) w',
    shown r w' ∧ honest (trace w')) (λ _ _, True)) w.
Proof.
  intros Hw. unfold supervise_workload.
  apply (wp_loop_inv K (λ _ w, attentive w)); [|done..].
  intros st w' Hw'. eapply wp_mono; [by apply supervise_step_shown|].
  by intros [[?|[[? ?] ?]]|h] w''.
Qed.

(** Starting the monitors requests an end only when one could not be started. *)
Lemma start_monitor_guarded m message (w : world ssys sandbox) :
  guarded_by (asks TERMINATION_MONITOR_ERROR) creation_failed (trace w) →
  wp K (start_monitor m message) (λ _ w',
    guarded_by (asks TERMINATION_MONITOR_ERROR) creation_failed (trace w')) w.
Proof.
  intros Hg. unfold start_monitor. wp_steps. wp_decide Hr; wp_steps; [|by apply guarded_by_cons].
  apply wp_logger_write. intros logs Hlogs. wp_steps.
  eapply wp_mono; [apply (wp_last_request K TERMINATION_MONITOR_ERROR creation_failed)|].
  - intros e t. apply (creation_failed_later t [e]).
  - apply creation_failed_later. eexists m, _. split; [exact Hr|apply happened_here].
  - by apply request_publishes.
  - apply guarded_by_app; [|by apply guarded_by_cons].
    eapply Forall_impl; [exact Hlogs|]. intros e He. by apply other_than_asks, log_publishes.
  - intros [r|h] w' [Hg' _]; wp_steps; done.
Qed.

Lemma monitored_guarded options (w : world ssys sandbox) :
  guarded_by (asks TERMINATION_MONITOR_ERROR) creation_failed (trace w) →
  wp K (monitor_and_supervise fuel options cgroup TERMINATION_NONE) (λ _ w',
    guarded_by (asks TERMINATION_MONITOR_ERROR) creation_failed (trace w')) w.
Proof.
  intros Hg. unfold monitor_and_supervise. wp_steps.
  eapply wp_mono; [by apply start_monitor_guarded|]. intros [t|h] w1 H1; [|done]. wp_steps.
  eapply (wp_mono K _ _ (λ _ w', guarded_by (asks TERMINATION_MONITOR_ERROR) creation_failed (trace w'))).
  { case_bool_decide; [by apply start_monitor_guarded|by wp_steps]. }
  intros [m|h] w2 H2; [|done]. wp_steps.
  eapply wp_mono; [by apply start_monitor_guarded|]. intros [p|h] w3 H3; [|done].
  unfold end_workload. rewrite (bool_decide_false (TERMINATION_NONE ≠ TERMINATION_NONE))
    by (intros Hne; by apply Hne).
  wp_steps. eapply (wp_guarded K TERMINATION_MONITOR_ERROR); [by apply supervise_publishes; [apply _|]|exact H3|].
  intros [[[st b] r]|h] w4 H4 _; by wp_steps.
Qed.

Lemma monitored_shown options (w : world ssys sandbox) :
  attentive w →
  wp K (monitor_and_supervise fuel options cgroup TERMINATION_NONE) (post (λ l w',
    shown (l_termination_reason l) w' ∧ honest (trace w')) (λ _ _, True)) w.
Proof.
  intros Hw. unfold monitor_and_supervise.
  assert (∀ m s, Emits (other_than TERMINATION_OPERATOR_SIGNAL) (start_monitor m s)) as Hstart
    by (intros; by apply start_monitor_publishes).
  assert (∀ m s, Moves state_evolves (start_monitor m s)) as Hmoves
    by (intros; unfold start_monitor; solve_moves).
  wp_steps. eapply wp_attentive; [apply _|apply _|apply _|exact Hw|].
  intros [t|h] w1 Hw1 _; [|done]. wp_steps.
  eapply wp_attentive; [case_bool_decide; apply _|case_bool_decide; apply _|case_bool_decide; apply _|exact Hw1|].
  intros [m|h] w2 Hw2 _; [|done]. wp_steps.
  eapply wp_attentive; [apply _|apply _|apply _|exact Hw2|].
  intros [p|h] w3 Hw3 _; [|done].
  unfold end_workload. rewrite (bool_decide_false (TERMINATION_NONE ≠ TERMINATION_NONE))
    by (intros Hne; by apply Hne).
  wp_steps. eapply wp_mono; [by apply supervise_shown|].
  intros [[[st b] r]|h] w4 H4; by wp_steps.
Qed.

End shown.

(** ** Properties *)

(** C40. Waiting for the workload keeps its promise: it returns, never having
    slept for a polling interval longer than the timeout; it reports 0 only if
    nothing of the workload was left, gives up with 1 only after having slept
    for the whole timeout, and reports an error only if a call failed or a
    file it read was not what the kernel writes. *)
Theorem wait_for_workload_exit_result K s c fuel cgroup timeout_milliseconds repeat_sigkill
    status w :
  responsive K fuel cgroup → 0 < s → Z.of_nat fuel ≤ 2 ^ 50 →
  0 ≤ timeout_milliseconds ≤ 5000 → timeout_milliseconds + 50 ≤ 50 * Z.of_nat fuel →
  informed s c status w →
  wp K (wait_for_workload_exit fuel cgroup status timeout_milliseconds repeat_sigkill)
    (post (λ '(_, r) w',
       0 ≤ time_slept w w' < timeout_milliseconds + 50 ∧
       (r = 0 ∧ workload_gone K fuel cgroup s c (trace w') ∨
        r = 1 ∧ timeout_milliseconds ≤ time_slept w w' ∨
        r = -1 ∧ hindered cgroup (trace w) (trace w')))
     (λ _ _, False)) w.
Proof.
  intros Hresp Hs Hmax Ht Hfuel Hw. eapply wp_mono; [apply wp_conj;
    [by apply (wait_ends K s c fuel cgroup Hresp timeout_milliseconds repeat_sigkill)|
     apply (wait_troubled K fuel cgroup Hmax)]|].
  - by rewrite (proj1 (proj1 Hw)).
  - intros [[st r]|h] w' [H1 H2]; [|done]. destruct H1 as [H1 [H|[H| ->]]]; (split; [done|]); auto.
Qed.

Lemma wait_for_workload_exit_result_witness :
  let r := wait_for_workload_exit 101 hungry_cgroup no_leader_status 1000 false hungry
             (World requested []) in
  r.1 = Ret (no_leader_status, 1) ∧ 1000 ≤ time_slept (World requested []) r.2 < 1050.
Proof.
  intros r. assert (r.1 = Ret (no_leader_status, 1)) as E by (vm_compute; reflexivity).
  split; [exact E|].
  pose proof (wait_for_workload_exit_result hungry 100 200 101 hungry_cgroup 1000 false
    no_leader_status (World requested []) hungry_responsive ltac:(lia) ltac:(discriminate)
    ltac:(lia) ltac:(discriminate) requested_informed) as H.
  destruct (wp_run _ _ _ _ _ _ H E) as [Hs [[Hz _]|[[_ Hr]|[Hz _]]]]; [discriminate Hz| |discriminate Hz].
  split; [exact Hr|exact (proj2 Hs)].
Defined.
