(* ===== verification/Deadline.v ===== *)
(** * How long the controller supervises

    The supervisor goes on as long as nobody asks for the end of its workload.
    Here: once its history of the shared state has a request, it signals the
    workload, with [SIGTERM] and then with [SIGKILL], and returns, in bounded
    time; a workload that dies of [SIGKILL] is gone then. *)

From S2P Require Import Prelude.
From S2P Require Import CLib.
From S2P Require Import SandboxSys.
From S2P Require Import Logger.
From S2P Require Import SandboxOptions.
From S2P Require Import MonitorState.
From S2P Require Import History.
From S2P Require Import ProcStat.
From S2P Require Import ProcessTree.
From S2P Require Import Cgroup.
From S2P Require Import SandboxChild.
From S2P Require Import Monitors.
From S2P Require Import Supervisor.
From S2P Require Import Supervision.
From S2P Require Import SandboxMain.
From S2P Require Import ControllerHistory.
Local Open Scope Z_scope.

(** The change ends the time in which a request is possible. *)
Definition ends (c : state_change) : bool :=
  match c with
  | Request reason => bool_decide (reason ≠ TERMINATION_NONE)
  | Mark_leader_exited => false
  | Mark_workload_exited => true
  end.

Definition closed (h : list enacted) : Prop :=
  Exists (λ x, ends (enacted_change x) = true) h.

(** Whoever got the mutex after [n] sleeps found the state closed. *)
Fixpoint pressed (n : Z) (tr : strace) : Prop :=
  match tr with
  | [] => True
  | e :: before =>
      match e with
      | Ev Mutex_lock (Ok _) => n ≤ naps before → closed (history tr)
      | _ => True
      end ∧ pressed n before
  end.

#[export] Instance enacted_eq_dec : EqDecision enacted.
Proof. solve_decision. Defined.

#[export] Instance pressed_dec n tr : Decision (pressed n tr).
Proof.
  induction tr as [|[T c r] tr IH]; [apply _|]. apply and_dec; [|exact IH].
  destruct c; try apply _. destruct r; [|apply _]. unfold closed. apply _.
Defined.

(** No other thread declared the workload gone. *)
Definition unmarked (tr : strace) : Prop := Theirs Mark_workload_exited ∉ history tr.

(** The controller is at it: its state is the outcome of its history, and it
    did not see the workload gone. *)
Definition on_watch (s0 : SandboxState) (w : world ssys sandbox) : Prop :=
  sb_state (globals w) = replay (history (trace w)) s0 ∧
  Own Mark_workload_exited ∉ history (trace w).

(** [SIGKILL] went to the group [c], [delay] milliseconds of sleep ago. *)
Definition killed_for (delay c : Z) (tr : strace) : Prop :=
  ∃ after r before, tr = after ++ Ev (Kill (- c) SIGKILL) r :: before ∧
    delay ≤ SUPERVISOR_POLL_MILLISECONDS * naps after.

(** A workload that dies of [SIGKILL], on a system where looking at it and
    sleeping work: from [delay] milliseconds after the signal to its group on,
    its cgroup is empty or, without a cgroup, no process of it is listed. *)
Record mortal (K : kernel ssys) (s c : Z) (fuel : nat) (cgroup : SandboxCgroup) (delay : Z)
    : Prop := {
  mortal_reap status w : ∃ status', (reap_available_children fuel status K w).1 = Ret (status', true);
  mortal_sleep (w : world ssys sandbox) :
    (sleep_milliseconds fuel SUPERVISOR_POLL_MILLISECONDS K w).1 = Ret (Ok tt);
  mortal_cgroup (w : world ssys sandbox) : active cgroup = true →
    ∃ populated, (sandbox_cgroup_is_populated cgroup K w).1 = Ret (Ok populated) ∧
      (killed_for delay c (trace w) → populated = false);
  mortal_tree alive (w : world ssys sandbox) : active cgroup = false →
    ∃ sample, (process_tree_sample fuel s c alive K w).1 = Ret (Some sample) ∧
      (killed_for delay c (trace w) → processes sample = [])
}.

Notation not_marking := (publishes (λ c, c ≠ Mark_workload_exited)).

(** ** Lemmas: closed states *)

Lemma change_can_request c s :
  can_request (change c s) = can_request s && negb (ends c).
Proof.
  destruct c as [R| |]; simpl.
  - destruct (bool_decide (R ≠ TERMINATION_NONE)); simpl; [|by rewrite andb_true_r].
    destruct (can_request s) eqn:E; [|by rewrite E]. unfold can_request. simpl.
    by rewrite andb_false_r.
  - by rewrite andb_true_r.
  - by rewrite andb_false_r.
Qed.

Lemma changes_can_request cs s :
  can_request (changes cs s) = false ↔
  can_request s = false ∨ Exists (λ c, ends c = true) cs.
Proof.
  revert s. induction cs as [|c cs IH]; intros s.
  - rewrite Exists_nil. simpl. tauto.
  - change (changes (c :: cs) s) with (changes cs (change c s)).
    rewrite IH, change_can_request, Exists_cons, andb_false_iff, negb_false_iff. tauto.
Qed.

(** A state can no longer be asked for exactly if its history is closed. *)
Lemma replay_closed h s :
  can_request s = true → (can_request (replay h s) = false ↔ closed h).
Proof.
  intros Hs. unfold replay, closed. rewrite changes_can_request, Hs, Exists_fmap.
  split; [by intros [|]|by right].
Qed.

Lemma changes_alive cs s :
  workload_alive s = true → Mark_workload_exited ∉ cs → workload_alive (changes cs s) = true.
Proof.
  revert s. induction cs as [|c cs IH]; intros s Hs Hno; [done|].
  apply not_elem_of_cons in Hno as [Hc Hno].
  change (changes (c :: cs) s) with (changes cs (change c s)). apply IH; [|done].
  destruct c as [R| |]; simpl; [|done|done]. by destruct (_ && _).
Qed.

Lemma on_watch_alive s0 w :
  workload_alive s0 = true → on_watch s0 w → unmarked (trace w) →
  workload_alive (sb_state (globals w)) = true.
Proof.
  intros Hs [-> Hown] Htheirs. apply changes_alive; [done|].
  intros ([c|c] & Hc & Hin)%list_elem_of_fmap; simpl in Hc; subst c; [by apply Hown|by apply Htheirs].
Qed.

(** A closed state of a workload that is there has a request. *)
Lemma on_watch_requested s0 w :
  workload_alive s0 = true → on_watch s0 w → unmarked (trace w) →
  closed (history (trace w)) → termination_requested (sb_state (globals w)) = true.
Proof.
  intros Hs Hw Hno Hclosed. pose proof (on_watch_alive _ _ Hs Hw Hno) as Halive.
  destruct Hw as [E _]. assert (can_request (sb_state (globals w)) = false) as Hr.
  { rewrite E. unfold replay. apply changes_can_request. right. by apply Exists_fmap. }
  unfold can_request in Hr. rewrite Halive in Hr. by apply negb_false_iff in Hr.
Qed.

(** ** Lemmas: earlier moments *)

Lemma pressed_extends n tr tr' : extends tr tr' → pressed n tr' → pressed n tr.
Proof. intros [new ->]. induction new as [|e new IH]; [done|]. intros [_ H]. by apply IH. Qed.

Lemma unmarked_extends tr tr' : extends tr tr' → unmarked tr' → unmarked tr.
Proof.
  intros [new ->] H Hin. apply H. rewrite history_app. apply elem_of_app. by left.
Qed.

(** ** Lemmas: looking at the workload *)

#[export] Instance reap_not_marking fuel status :
  Emits not_marking (reap_available_children fuel status).
Proof.
  assert (Emits not_marking sandbox_state_mark_leader_exited) by by apply mark_leader_publishes.
  unfold reap_available_children, reap_step. solve_emits.
Qed.

(** A part with its changes, before what remains. *)
Lemma wp_grown {A} (K : kernel ssys) (P : event ssys → Prop) (m : Controller A)
    (Q : outcome A → world ssys sandbox → Prop) tr w :
  Emits P m → grown P tr (trace w) →
  (∀ o w', grown P tr (trace w') → Q o w') → wp K m Q w.
Proof.
  intros He Hw HQ. eapply wp_emitting; [exact He|]. intros o w' new Htr Hnew.
  apply HQ. etrans; [exact Hw|]. by exists new.
Qed.

Lemma observe_marks K fuel cgroup snapshot w :
  wp K (observe_workload fuel cgroup snapshot)
    (λ o w', o ≠ Ret (Some false) → grown not_marking (trace w) (trace w')) w.
Proof.
  unfold observe_workload.
  destruct (active cgroup); wp_steps; (eapply (wp_grown K not_marking); [apply _|done|]).
  - intros [[[]|e]|h] w1 H1; wp_steps; [by intros _| | |by intros _].
    + apply wp_returns_on; [apply returns_on_returns, _|]. by intros r w2 _; wp_steps.
    + eapply (wp_grown K not_marking); [apply _|exact H1|]. by intros [[]|h] w2 H2; wp_steps; intros _.
  - intros [[sample|]|h] w1 H1; wp_steps; [| |by intros _].
    + case_bool_decide; cbn [negb]; wp_steps; [by intros _|].
      apply wp_returns_on; [apply returns_on_returns, _|]. by intros r w2 _; wp_steps.
    + eapply (wp_grown K not_marking); [apply _|exact H1|]. by intros [[]|h] w2 H2; wp_steps; intros _.
Qed.

(** Polling tells of the end of the workload only with the answer that it is
    gone. *)
Lemma poll_marks K fuel cgroup status w :
  wp K (poll_workload fuel cgroup status)
    (λ o w', (∀ st, o ≠ Ret (st, Some false)) → grown not_marking (trace w) (trace w')) w.
Proof.
  unfold poll_workload. wp_steps. eapply (wp_grown K not_marking); [apply _|done|].
  intros [[st []]|h] w1 H1; wp_steps; [|by intros _..].
  eapply (wp_grown K not_marking); [apply _|exact H1|].
  intros [[snapshot|]|h] w2 H2; wp_steps; [|by intros _..].
  eapply wp_mono; [apply observe_marks|]. intros [r|h] w3 H3; wp_steps; intros Hr.
  - etrans; [exact H2|]. apply H3. intros [= ->]. by apply (Hr st).
  - etrans; [exact H2|]. by apply H3.
Qed.

(** ** Lemmas: one round *)

Section watching.
Context (K : kernel ssys) (s c : Z) (fuel : nat) (cgroup : SandboxCgroup) `{!Locking K}.
Context (s0 : SandboxState).
Hypothesis Hresp : responsive K fuel cgroup.
Hypothesis Hc : 0 < c.
Hypothesis Hfuel : (101 ≤ fuel)%nat.
Notation informed := (informed s c).

Lemma grown_watch new w w' :
  on_watch s0 w → trace w' = new ++ trace w →
  sb_state (globals w') = replay (history new) (sb_state (globals w)) →
  grown not_marking (trace w) (trace w') → on_watch s0 w'.
Proof.
  intros [Hs Hown] Htr Hs' (new' & Htr' & Hall).
  rewrite Htr in Htr'. apply (inj (.++ trace w)) in Htr' as <-. split.
  - by rewrite Hs', Htr, history_app, replay_app, Hs.
  - rewrite Htr, history_app. intros [?|Hin]%elem_of_app; [done|].
    apply elem_of_history in Hin as (e & He & [r ->]%own_enacted_by).
    rewrite Forall_forall in Hall. by apply (Hall _ He).
Qed.

(** A part that returns, does not sleep and has nothing to do with the end of
    the workload. *)
Lemma wp_part {A} (m : Controller A) (Q : outcome A → world ssys sandbox → Prop) status w :
  returns_on K m → Moves state_evolves m → Accounts m → Emits not_marking m →
  Emits awake m → informed status w → on_watch s0 w →
  (∀ a w', informed status w' → on_watch s0 w' → naps (trace w') = naps (trace w) →
     extends (trace w) (trace w') → Q (Ret a) w') → wp K m Q w.
Proof.
  intros Hr Hm Ha Hp Hn Hw Hon HQ. apply wp_returns_on; [done|]. intros a w' E.
  destruct (Ha K w) as (new & Htr & Hs). specialize (Hp K w). specialize (Hm K w).
  specialize (Hn K w) as (new' & Htr' & Hawake). rewrite E in Htr, Hs, Hp, Htr', Hm. simpl in *.
  assert (extends (trace w) (trace w')) as He by by exists new.
  apply HQ; [|exact (grown_watch new w w' Hon Htr Hs Hp)| |done].
  - eapply informed_later; [exact Hw| |done]. eapply supervises_evolves; [exact Hm|apply Hw].
  - rewrite Htr'. by apply naps_none.
Qed.

Lemma poll_watch status w :
  informed status w → on_watch s0 w →
  wp K (poll_workload fuel cgroup status) (post (λ '(st, r) w',
    informed st w' ∧ naps (trace w') = naps (trace w) ∧ extends (trace w) (trace w') ∧
    (r = Some false → workload_gone K fuel cgroup s c (trace w')) ∧
    (r ≠ Some false → on_watch s0 w')) (λ _ _, False)) w.
Proof.
  intros Hw Hon. apply wp_returns_post; [by apply poll_returns|].
  apply wp_awake; [apply _|].
  eapply wp_mono; [apply wp_conj; [by apply poll_spec|apply wp_conj; [apply poll_marks|apply wp_exactly]]|].
  intros [[st r]|h] w' [Hspec [Hmarks E]] Hn; [|done].
  destruct Hspec as (Hw' & Hg & Hgone). split_and!; try done; [by eapply grown_extends|].
  intros Hr. destruct (accounts (m := poll_workload fuel cgroup status) K w) as (new & Htr & Hs).
  rewrite E in Htr, Hs. eapply grown_watch; [done..|]. apply Hmarks. by intros st' [= -> ->].
Qed.

#[export] Instance read_signal_not_marking : Emits not_marking read_operator_signal.
Proof. unfold read_operator_signal. solve_emits. Qed.

#[export] Instance request_not_marking reason :
  Emits not_marking (sandbox_state_request_termination reason).
Proof. by apply request_publishes. Qed.

Ltac part_run Hw Hon :=
  wp_steps; eapply wp_part;
    [apply returns_on_returns; solve [solve_returns]|solve_moves|apply _|apply _|apply _
    |exact Hw|exact Hon|].

(** How a round ends that went on with [w]: either there is a next one, after
    a sleep and not too late, or it acted. *)
Definition round_end (n : Z) (w : world ssys sandbox) (r : WorkloadStatus + supervised)
    (w' : world ssys sandbox) : Prop :=
  match r with
  | inl st => informed st w' ∧ on_watch s0 w' ∧ naps (trace w') = naps (trace w) + 1 ∧
      (unmarked (trace w') → pressed n (trace w') → naps (trace w) < n)
  | inr r => acted K s c fuel cgroup w r w' ∧ 0 ≤ time_slept w w' < termination_milliseconds
  end.

Lemma terminate_for_slept reason status w :
  informed status w →
  wp K (terminate_for fuel cgroup reason status)
    (post (λ _ w', 0 ≤ time_slept w w' < termination_milliseconds) (λ _ _, False)) w.
Proof.
  intros Hw. unfold terminate_for. wp_steps.
  eapply wp_mono; [by apply (terminate_slept K s c)|]. by intros [[st r]|h] w' H; [wp_steps|].
Qed.

Lemma terminate_for_timed n reason status w w1 :
  informed status w1 → reason ≠ TERMINATION_NONE → naps (trace w1) = naps (trace w) →
  extends (trace w) (trace w1) →
  wp K (terminate_for fuel cgroup reason status) (post (round_end n w) (λ _ _, False)) w1.
Proof.
  intros Hw Hr Hn He. eapply wp_mono; [apply wp_conj;
    [by apply (terminate_for_acts K s c _ _ Hresp Hc Hfuel w)|by apply terminate_for_slept]|].
  intros [[st|r]|h] w' [Hacted Hs]; [done| |done]. split; [done|].
  unfold time_slept in *. by rewrite <- Hn.
Qed.

Lemma snapshot_watch st w :
  informed st w → on_watch s0 w →
  wp K sandbox_state_snapshot (post (λ r w', r = Some (sb_state (globals w')) ∧
    informed st w' ∧ on_watch s0 w' ∧
    ∃ cs, trace w' = Ev Mutex_unlock 0 :: Ev Mutex_lock (Ok cs) :: trace w) (λ _ _, False)) w.
Proof.
  intros Hw Hon. eapply wp_mono; [apply wp_conj|].
  - apply (wp_part sandbox_state_snapshot (λ _ w', informed st w' ∧ on_watch s0 w') st w);
      [apply returns_on_returns, _|apply _..|done|done|]. by intros.
  - apply (wp_snapshot_locking K (post (λ r w', r = Some (sb_state (globals w')) ∧
      ∃ cs, trace w' = Ev Mutex_unlock 0 :: Ev Mutex_lock (Ok cs) :: trace w) (λ _ _, False))).
    intros cs. split; [done|]. by exists cs.
  - by intros [r|h] w' [[Hw' Hon'] H]; [destruct H|].
Qed.

Lemma sleep_watch st w :
  informed st w → on_watch s0 w →
  wp K (sleep_milliseconds fuel SUPERVISOR_POLL_MILLISECONDS : Controller _) (post (λ r w',
    informed st w' ∧ on_watch s0 w' ∧ extends (trace w) (trace w') ∧
    naps (trace w') = naps (trace w) + (if r is Ok _ then 1 else 0)) (λ _ _, False)) w.
Proof.
  intros Hw Hon. eapply wp_mild_returns; [apply Hresp|solve_moves|solve_emits|exact Hw|].
  intros r w' E Hw' _ _. set (m := sleep_milliseconds _ _) in *.
  destruct (accounts (m := m) K w) as (new & Htr & Hs).
  pose proof (emits_wp not_marking m K w _) as Hp. pose proof (sleep_naps K _ _ w : wp K m _ w) as Hn.
  unfold wp in Hp, Hn. rewrite E in *. simpl in *.
  split_and!; [done|by eapply grown_watch|by exists new|apply Hn].
Qed.

(** Whoever goes on found the state open. *)
Lemma open_in_time n (w w' : world ssys sandbox) cs :
  workload_alive s0 = true → on_watch s0 w' →
  termination_requested (sb_state (globals w')) = false →
  trace w' = Ev Mutex_unlock 0 :: Ev Mutex_lock (Ok cs) :: trace w →
  unmarked (trace w') → pressed n (trace w') → naps (trace w) < n.
Proof.
  intros Halive Hon Hreq Htr Hno Hp. apply Z.nle_gt. intros Hn.
  assert (closed (history (trace w'))) as Hclosed.
  { rewrite Htr in *. destruct Hp as (_ & Hlock & _). cbn [history enacted_by] in *.
    rewrite app_nil_r. by apply Hlock. }
  by rewrite (on_watch_requested s0 w') in Hreq.
Qed.

Lemma supervise_round (Halive : workload_alive s0 = true) n status w :
  informed status w → on_watch s0 w →
  wp K (supervise_step fuel cgroup status) (post (round_end n w) (λ _ _, False)) w.
Proof.
  intros Hw Hon. unfold supervise_step.
  part_run Hw Hon. intros sig w1 Hw1 Hon1 Hn1 He1. wp_decide Hsig.
  { part_run Hw1 Hon1. intros shown w2 Hw2 Hon2 Hn2 He2. part_run Hw2 Hon2. intros [] w3 Hw3 Hon3 Hn3 He3.
    part_run Hw3 Hon3. intros r w4 Hw4 Hon4 Hn4 He4. apply terminate_for_timed; [done|done|congruence|].
    do 3 (eapply extends_trans; [eassumption|]). done. }
  wp_steps. eapply wp_mono; [by apply poll_watch|].
  intros [[st r]|h] w2 H2; [|done]. destruct H2 as (Hw2 & Hn2 & He2 & Hgone & Hon2).
  assert (naps (trace w2) = naps (trace w)) as Hn by congruence.
  assert (extends (trace w) (trace w2)) as He by by eapply extends_trans.
  destruct r as [[]|]; wp_steps; [| |by apply terminate_for_timed].
  2:{ split; [by split; [intros _; apply Hgone|left]|]. unfold time_slept. rewrite Hn, Z.sub_diag. by vm_compute. }
  specialize (Hon2 ltac:(done)).
  wp_steps. eapply wp_mono; [by apply snapshot_watch|].
  intros [r|h] w3 H3; [|done]. destruct H3 as (-> & Hw3 & Hon3 & cs & Htr). wp_steps.
  assert (naps (trace w3) = naps (trace w)) as Hn3.
  { rewrite Htr, <- Hn. by apply (naps_none _ [_; _]); repeat constructor. }
  assert (extends (trace w) (trace w3)) as He3.
  { eapply extends_trans; [exact He|]. rewrite Htr. by eexists [_; _]. }
  destruct (termination_requested (sb_state (globals w3))) eqn:Hreq; wp_steps.
  { apply terminate_for_timed; [done| |done|done].
    pose proof (proj1 Hw3) as (_ & _ & _ & Hok & _). by apply Hok. }
  eapply wp_mono; [by apply sleep_watch|].
  intros [[u|e]|h] w4 H4; [| |done]; destruct H4 as (Hw4 & Hon4 & He4 & Hn4); wp_steps.
  - split_and!; [done|done|congruence|]. intros Hno Hp. rewrite <- Hn.
    eapply (open_in_time n w2 w3); [done..| |];
      [by eapply unmarked_extends|by eapply pressed_extends].
  - part_run Hw4 Hon4. intros [] w5 Hw5 Hon5 Hn5 He5. apply terminate_for_timed; [done|done|lia|].
    do 2 (eapply extends_trans; [eassumption|]). done.
Qed.

Lemma acted_earlier w0 w1 r w' :
  extends (trace w0) (trace w1) → acted K s c fuel cgroup w1 r w' → acted K s c fuel cgroup w0 r w'.
Proof.
  destruct r as [[st result] reason]. intros He [H1 [H|(Hr & tr1 & H2 & H3)]]; (split; [done|]);
    [by left|right]. split; [done|]. exists tr1. split; [by eapply sent_since_earlier|done].
Qed.

Lemma supervise_pressed n status w :
  workload_alive s0 = true → informed status w → on_watch s0 w →
  naps (trace w) ≤ n < naps (trace w) + Z.of_nat fuel →
  wp K (supervise_workload fuel cgroup status) (λ o w',
    unmarked (trace w') → pressed n (trace w') →
    ∃ r, o = Ret r ∧ acted K s c fuel cgroup w r w' ∧
      0 ≤ time_slept w w' <
        SUPERVISOR_POLL_MILLISECONDS * (n - naps (trace w)) + termination_milliseconds) w.
Proof.
  intros Halive Hw Hon Hn. unfold supervise_workload.
  apply (wp_loop K (λ i st w1, informed st w1 ∧ on_watch s0 w1 ∧
    naps (trace w1) = naps (trace w) + Z.of_nat i ∧ extends (trace w) (trace w1) ∧
    (unmarked (trace w1) → pressed n (trace w1) → naps (trace w1) ≤ n))).
  - intros i st w1 _ (Hw1 & Hon1 & Hi & He1 & Hle). eapply wp_mono.
    { apply wp_conj; [by apply (supervise_round Halive n)|apply accounts_extends, _]. }
    intros [[st'|r]|h] w2 [H2 He]; [| |done].
    + destruct H2 as (Hw2 & Hon2 & Hn2 & Hlt). split_and!; [done|done|lia|by eapply extends_trans|].
      intros Hno Hp. specialize (Hlt Hno Hp). lia.
    + destruct H2 as [Hacted Hs]. intros Hno Hp. exists r. split_and!; [done|by eapply acted_earlier| |];
        specialize (Hle (unmarked_extends _ _ He Hno) (pressed_extends _ _ _ He Hp));
        unfold time_slept, SUPERVISOR_POLL_MILLISECONDS in *; lia.
  - intros st w1 (_ & _ & Hi & _ & Hle) Hno Hp. specialize (Hle Hno Hp). lia.
  - split_and!; [done|done|lia|apply extends_refl|]. intros _ _. lia.
Qed.

(** The same from the creation of the monitors on. *)
Lemma start_monitor_watch {A} m message (k : bool → Controller A)
    (Q : outcome A → world ssys sandbox → Prop) status w :
  informed status w → on_watch s0 w →
  (∀ b w', informed status w' → on_watch s0 w' → naps (trace w') = naps (trace w) →
     extends (trace w) (trace w') → wp K (k b) Q w') →
  wp K (let* b := start_monitor m message in k b) Q w.
Proof.
  intros Hw Hon HQ. rewrite wp_bind.
  eapply (wp_part _ _ status); [apply returns_on_returns| | | | |done|done|];
    [unfold start_monitor..|].
  - solve_returns.
  - solve_moves.
  - solve_accounts.
  - solve_emits.
  - solve_emits.
  - intros b w' ????. by apply HQ.
Qed.

Lemma start_monitors_watch options reason (Q : outcome locals → world ssys sandbox → Prop) w :
  informed no_status w → on_watch s0 w →
  (∀ (t m p : bool) w', informed no_status w' → on_watch s0 w' →
     naps (trace w') = naps (trace w) → extends (trace w) (trace w') →
     wp K (let* (status, finished, termination_reason) := end_workload fuel cgroup reason in
           ret (Locals cgroup status termination_reason (None, None) true finished t m p)) Q w') →
  wp K (monitor_and_supervise fuel options cgroup reason) Q w.
Proof.
  intros Hw Hon HQ. unfold monitor_and_supervise.
  eapply start_monitor_watch; [done..|]. intros b1 w1 Hw1 Hon1 Hn1 He1.
  match goal with |- wp _ (bind _ ?k) ?Q _ => assert (∀ b w2, informed no_status w2 →
    on_watch s0 w2 → naps (trace w2) = naps (trace w1) → extends (trace w1) (trace w2) →
    wp K (k b) Q w2) as Hrest end.
  { intros b2 w2 Hw2 Hon2 Hn2 He2. eapply start_monitor_watch; [done..|]. intros b3 w3 Hw3 Hon3 Hn3 He3.
    apply HQ; [done|done|congruence|]. do 2 (eapply extends_trans; [eassumption|]). done. }
  case_bool_decide; [by eapply start_monitor_watch|].
  rewrite wp_bind, wp_ret. exact (Hrest false w1 Hw1 Hon1 eq_refl (extends_refl _)).
Qed.

Lemma monitored_pressed n options w :
  workload_alive s0 = true → informed no_status w → on_watch s0 w →
  naps (trace w) ≤ n < naps (trace w) + Z.of_nat fuel →
  wp K (monitor_and_supervise fuel options cgroup TERMINATION_NONE) (λ o w',
    unmarked (trace w') → pressed n (trace w') →
    ∃ l, o = Ret l ∧
      acted K s c fuel cgroup w (workload_status l, workload_finished l, l_termination_reason l) w' ∧
      0 ≤ time_slept w w' <
        SUPERVISOR_POLL_MILLISECONDS * (n - naps (trace w)) + termination_milliseconds) w.
Proof.
  intros Halive Hw Hon Hn. apply start_monitors_watch; [done..|].
  intros t m p w3 Hw3 Hon3 Hn3 He3. unfold end_workload.
  rewrite (bool_decide_false (TERMINATION_NONE ≠ TERMINATION_NONE)) by (intros Hne; by apply Hne).
  wp_steps. eapply wp_mono; [apply (supervise_pressed n); [done..|by rewrite Hn3]|].
  intros [[[st b] r]|h] w4 H4; wp_steps; intros Hno Hp; destruct (H4 Hno Hp) as (r' & [=] & Ha & Hs).
  subst r'. eexists. split; [done|]. split; [by eapply acted_earlier|]. unfold time_slept in *. by rewrite <- Hn3.
Qed.

(** A workload whose set-up failed is terminated. *)
Lemma monitored_terminated options reason w :
  reason ≠ TERMINATION_NONE → informed no_status w → on_watch s0 w →
  wp K (monitor_and_supervise fuel options cgroup reason)
    (post (λ _ w', 0 ≤ time_slept w w' < termination_milliseconds) (λ _ _, False)) w.
Proof.
  intros Hr Hw Hon. apply start_monitors_watch; [done..|].
  intros t m p w3 Hw3 _ Hn3 _. unfold end_workload. rewrite bool_decide_true by done. wp_steps.
  eapply wp_mono; [by apply (terminate_slept K s c)|].
  intros [[st b]|h] w4 H4; wp_steps; [|done]. cbn [post]. unfold time_slept in *. by rewrite <- Hn3.
Qed.

End watching.

(** ** Lemmas: a workload that dies *)

Lemma killed_for_extends delay c tr tr' :
  extends tr tr' → killed_for delay c tr → killed_for delay c tr'.
Proof.
  intros [new ->] (after & r & before & -> & Hle). exists (new ++ after), r, before.
  rewrite <- (assoc_L app). split; [done|]. unfold SUPERVISOR_POLL_MILLISECONDS, naps in *.
  rewrite count_events_app. lia.
Qed.

(** The time slept since counts. *)
Lemma killed_for_slept c (w w' : world ssys sandbox) :
  extends (trace w) (trace w') → killed_for 0 c (trace w) →
  killed_for (time_slept w w') c (trace w').
Proof.
  intros [new E] (after & r & before & Htr & _). exists (new ++ after), r, before.
  unfold time_slept. rewrite E, Htr, <- (assoc_L app). split; [done|].
  unfold SUPERVISOR_POLL_MILLISECONDS, naps. rewrite !count_events_app. lia.
Qed.

Section dying.
Context (K : kernel ssys) (s c : Z) (fuel : nat) (cgroup : SandboxCgroup) (delay : Z) `{!Locking K}.
Hypothesis Hmortal : mortal K s c fuel cgroup delay.
Hypothesis Hc : 0 < c.
Hypothesis Hdelay : 0 ≤ delay ≤ FORCE_KILL_WAIT_MILLISECONDS.
Notation informed := (informed s c).

(** A look says whether something is left, and that it is not after the
    signal. *)
Lemma observe_mortal snapshot w :
  supervisor_pid snapshot = s → child_pid snapshot = c →
  wp K (observe_workload fuel cgroup snapshot) (post (λ r _, ∃ alive, r = Some alive ∧
    (killed_for delay c (trace w) → alive = false)) (λ _ _, True)) w.
Proof.
  intros Hs Hl. unfold observe_workload. destruct (active cgroup) eqn:Ha; wp_steps; [|rewrite Hs, Hl].
  - destruct (mortal_cgroup _ _ _ _ _ _ Hmortal w Ha) as (b & E & Hb).
    eapply wp_mono; [apply (wp_exactly K)|]. intros o w1 E1. rewrite E1 in E. simpl in E. subst o.
    wp_steps. eapply wp_mono; [apply wp_true|]. intros [[]|h] w2 _; wp_steps; [|done]. by exists b.
  - destruct (mortal_tree _ _ _ _ _ _ Hmortal (leader_alive snapshot) w Ha) as (sample & E & Hb).
    eapply wp_mono; [apply (wp_exactly K)|]. intros o w1 E1. rewrite E1 in E. simpl in E. subst o.
    wp_steps. eapply wp_mono; [apply wp_true|]. intros [[]|h] w2 _; wp_steps; [|done].
    eexists. split; [done|]. intros Hk. unfold process_count. by rewrite (Hb Hk).
Qed.

Lemma poll_mortal status w :
  informed status w →
  wp K (poll_workload fuel cgroup status) (post (λ '(_, r) _, ∃ alive, r = Some alive ∧
    (killed_for delay c (trace w) → alive = false)) (λ _ _, True)) w.
Proof.
  intros Hw. unfold poll_workload. wp_steps.
  destruct (mortal_reap _ _ _ _ _ _ Hmortal status w) as [st E].
  eapply wp_mono; [apply wp_conj; [apply (wp_exactly K)|apply wp_conj;
    [by apply (reap_spec K s c)|apply accounts_extends, _]]|].
  intros o w1 [E1 [Hw1 He1]]. rewrite E1 in E. simpl in E. subst o. destruct Hw1 as [Hw1 _].
  cbn [negb]. wp_steps.
  eapply wp_mono; [apply wp_conj; [by apply snapshot_works|
    apply (accounts_extends K sandbox_state_snapshot), _]|].
  intros [r|h] w2 [H2 He2]; [|done]. destruct H2 as [-> Hev]. wp_steps.
  destruct (supervises_evolves _ _ _ _ Hev (proj1 Hw1)) as (Es & Ec & _).
  eapply wp_mono; [by apply observe_mortal|]. intros [r|h] w3 H3; wp_steps; [|done].
  destruct H3 as (alive & -> & Hk). exists alive. split; [done|]. intros H. apply Hk.
  eapply killed_for_extends; [exact He2|]. by eapply killed_for_extends.
Qed.

(** Waiting goes on or ends with the workload gone. *)
Lemma wait_step_mortal w0 st w :
  waiting s c FORCE_KILL_WAIT_MILLISECONDS w0 st w → extends (trace w0) (trace w) →
  killed_for 0 c (trace w0) →
  wp K (wait_step fuel cgroup FORCE_KILL_WAIT_MILLISECONDS true st)
    (post (λ r _, match r with inl _ => True | inr (_, r) => r = 0 end) (λ _ _, True)) w.
Proof.
  destruct st as [waited st]. intros (Hw & Hwaited & _) He Hk. cbn [fst snd] in *.
  unfold wait_step. wp_steps. eapply wp_mono; [by apply poll_mortal|].
  intros [[st1 r]|h] w1 H1; [|done]. destruct H1 as (alive & -> & Halive).
  destruct alive; wp_steps; [|done].
  assert (waited < delay) as Hlt.
  { apply Z.nle_gt. intros Hle. assert (true = false) as [=]. apply Halive.
    destruct (killed_for_slept c _ _ He Hk) as (after & r & before & E & H).
    exists after, r, before. split; [done|]. lia. }
  eapply wp_mono; [apply wp_true|]. intros [r|h] w2 _; wp_steps; [|done].
  rewrite bool_decide_false by lia. wp_steps.
  pose proof (mortal_sleep _ _ _ _ _ _ Hmortal w2) as E.
  eapply wp_mono; [apply (wp_exactly K)|]. intros o w3 E3. rewrite E3 in E. simpl in E. subst o.
  by wp_steps.
Qed.

Lemma wait_mortal status w :
  informed status w → killed_for 0 c (trace w) →
  wp K (wait_for_workload_exit fuel cgroup status FORCE_KILL_WAIT_MILLISECONDS true)
    (post (λ '(_, r) _, r = 0) (λ _ _, True)) w.
Proof.
  intros Hw Hk. unfold wait_for_workload_exit.
  apply (wp_loop_inv K (λ st w', waiting s c FORCE_KILL_WAIT_MILLISECONDS w st w' ∧
    extends (trace w) (trace w'))); [|done|split; [by apply waiting_start|apply extends_refl]].
  intros st w1 [Hw1 He1].
  eapply wp_mono; [apply wp_conj; [by eapply wait_step_mortal|apply wp_conj;
    [by apply (wait_step_slept K s c fuel cgroup FORCE_KILL_WAIT_MILLISECONDS true ltac:(done))|
     apply (accounts_extends K (wait_step fuel cgroup _ true st)); unfold wait_step; solve_accounts]]|].
  intros [[st'|[st' r]]|h] w2 (H1 & H2 & H3); [|done|done]. split; [apply H2|by eapply extends_trans].
Qed.

Lemma terminate_mortal reason status w :
  informed status w →
  wp K (terminate_workload fuel cgroup reason status)
    (post (λ '(_, result) _, result = true) (λ _ _, True)) w.
Proof.
  intros Hw. unfold terminate_workload. rewrite wp_bind.
  eapply wp_proper; [mild_part|exact Hw|]. intros [[]|h] w1 Hw1 _; [|done]. rewrite wp_bind.
  eapply wp_proper; [apply within_signal_workload|exact Hw1|]. intros [r|h] w2 Hw2 _; [|done].
  rewrite wp_bind. eapply wp_proper; [mild_part|exact Hw2|]. intros [[]|h] w3 Hw3 _; [|done].
  rewrite wp_bind. eapply wp_mono; [by apply wait_spec|].
  intros [[st4 r4]|h] w4 H4; [|done]. destruct H4 as (Hw4 & _ & _). case_bool_decide.
  { rewrite wp_bind. eapply wp_proper; [mild_part|exact Hw4|]. by intros [[]|h] w5 _ _. }
  rewrite wp_bind. eapply wp_proper; [mild_part|exact Hw4|]. intros [[]|h] w5 Hw5 _; [|done].
  rewrite wp_bind. eapply wp_mono; [apply wp_conj; [by apply (signal_workload_sends K s c), Hw5|]|].
  { eapply wp_proper; [apply within_signal_workload|exact Hw5|]. intros o w6 Hw6 _. exact Hw6. }
  intros [r6|h] w6 [Hsent Hw6]; [|done]. rewrite wp_bind.
  eapply wp_mono; [apply wait_mortal; [exact Hw6|]|].
  { destruct Hsent as (new & answer & -> & (after & before & ->)%list_elem_of_split).
    exists after, answer, (before ++ trace w5). rewrite <- (assoc_L app). split; [done|].
    unfold SUPERVISOR_POLL_MILLISECONDS, naps. lia. }
  intros [[st7 r7]|h] w7 H7; [|done]. cbn [post] in H7. subst r7.
  rewrite bool_decide_true, wp_bind by done. eapply wp_mono; [apply wp_true|]. by intros [[]|h] w8 _.
Qed.

Lemma supervise_mortal status w :
  informed status w →
  wp K (supervise_workload fuel cgroup status)
    (post (λ '(_, result, _) _, result = true) (λ _ _, True)) w.
Proof.
  intros Hw. unfold supervise_workload.
  apply (wp_loop_inv K (λ st w', informed st w')); [|done..].
  intros st w1 Hw1. unfold supervise_step.
  assert (∀ reason st' w', informed st' w' → wp K (terminate_for fuel cgroup reason st')
    (post (λ r w', match r with inl st => informed st w' | inr (_, result, _) => result = true end)
      (λ _ _, True)) w') as Hend.
  { intros reason st' w' Hw'. unfold terminate_for. wp_steps.
    eapply wp_mono; [by apply terminate_mortal|]. by intros [[st2 r]|h] w2. }
  rewrite wp_bind. eapply wp_proper; [mild_part|exact Hw1|]. intros [sig|h] w2 Hw2 _; [|done].
  wp_decide Hsig.
  { rewrite wp_bind. eapply wp_proper; [mild_part|exact Hw2|]. intros [n|h] w3 Hw3 _; [|done].
    rewrite wp_bind. eapply wp_proper; [mild_part|exact Hw3|]. intros [[]|h] w4 Hw4 _; [|done].
    rewrite wp_bind. eapply wp_proper; [mild_part|exact Hw4|]. intros [r|h] w5 Hw5 _; [|done].
    eapply wp_mono; [by apply Hend|]. by intros [[?|[[??]?]]|h] w6. }
  rewrite wp_bind. eapply wp_mono; [by apply poll_spec|].
  intros [[st' r]|h] w3 H3; [|done]. destruct H3 as (Hw3 & _).
  destruct r as [[]|]; [|by wp_steps|eapply wp_mono; [by apply Hend|]; by intros [[?|[[??]?]]|h] w6].
  rewrite wp_bind. eapply wp_proper; [mild_part|exact Hw3|]. intros [[sn|]|h] w4 Hw4 _; [| |done].
  2:{ eapply wp_mono; [by apply Hend|]. by intros [[?|[[??]?]]|h] w6. }
  destruct (termination_requested sn).
  { eapply wp_mono; [by apply Hend|]. by intros [[?|[[??]?]]|h] w6. }
  rewrite wp_bind. eapply wp_proper; [mild_part|exact Hw4|]. intros [[u|e]|h] w5 Hw5 _; [| |done].
  { by wp_steps. }
  rewrite wp_bind. eapply wp_proper; [mild_part|exact Hw5|]. intros [[]|h] w6 Hw6 _; [|done].
  eapply wp_mono; [by apply Hend|]. by intros [[?|[[??]?]]|h] w7.
Qed.

End dying.

(** ** Properties *)

(** C11. The supervisor does not outlast a request, and neither does its
    workload: if the mutex works, the inner loops end and from some moment on,
    [n] sleeps after its start, whoever looks at the shared state finds a
    request in its history, then the supervision returns, whatever the threads
    do before and after.  Success means that nothing of the workload was left.
    Unless it found the workload gone, the supervisor sent [SIGTERM] to its
    process group and, if it did not see the end of it within its grace
    period, [SIGKILL] after that; and it succeeds if the workload is one that
    dies of a [SIGKILL] to its group within 5 seconds.  It has slept less than
    the [n] intervals and the 6.1 seconds of a termination. *)
Theorem supervise_workload_ends K s c fuel cgroup s0 n delay status w o w' :
  Locking K → responsive K fuel cgroup → 0 < c → (101 ≤ fuel)%nat →
  informed s c status w → workload_alive s0 = true → on_watch s0 w →
  naps (trace w) ≤ n < naps (trace w) + Z.of_nat fuel →
  supervise_workload fuel cgroup status K w = (o, w') →
  unmarked (trace w') → pressed n (trace w') → 0 ≤ delay ≤ 5000 →
  ∃ status' result reason, o = Ret (status', result, reason) ∧
    acted K s c fuel cgroup w (status', result, reason) w' ∧
    (mortal K s c fuel cgroup delay → result = true) ∧
    0 ≤ time_slept w w' < 50 * (n - naps (trace w)) + 6100.
Proof.
  intros HK Hresp Hc Hfuel Hw Halive Hon Hn E Hno Hp Hdelay.
  pose proof (supervise_pressed K s c fuel cgroup s0 Hresp Hc Hfuel n status w Halive Hw Hon Hn) as H.
  unfold wp in H. rewrite E in H.
  destruct (H Hno Hp) as ([[st result] reason] & Ho & Hacted & Hs). exists st, result, reason.
  split_and!; [done|done| |apply Hs..]. intros Hmortal.
  pose proof (supervise_mortal K s c fuel cgroup delay Hmortal Hc Hdelay status w Hw) as Hend.
  unfold wp in Hend. by rewrite E, Ho in Hend.
Qed.

(** ** An example *)

(** A workload that ignores [SIGTERM] and sleeps until it is killed; at the
    time [k] the controller locks the mutex it hears of the timeout. *)
Definition is_sigkill (e : event ssys) : bool :=
  match e with Ev (Kill _ n) _ => bool_decide (n = SIGKILL) | _ => false end.
Definition has_kill (tr : strace) : bool := existsb is_sigkill tr.

Definition interrupted_at (k : nat) : kernel ssys :=
  scenario_kernel (Scenario
    (λ tr, if bool_decide (locks tr = k) then [Request TERMINATION_TIMEOUT] else [])
    (λ _, WaitNone) (λ _, (0, 0)) (λ _, []) (λ _, None)
    (λ tr path,
      if bool_decide (path = txt "/sys/fs/cgroup/x/cgroup.events")
      then Some (txt (if has_kill tr then "populated 0" else "populated 1") ++ [LF])
      else None) 200).

Lemma interrupted_responsive k : responsive (interrupted_at k) 101 hungry_cgroup.
Proof.
  split.
  - intros status w. by eexists.
  - intros s c alive w. unfold process_tree_sample. case_bool_decide; by eexists.
  - intros w. by eexists.
  - intros w. by eexists.
Qed.

Lemma running_informed : informed 100 200 no_status (World running []).
Proof. by split; [split_and!|]. Qed.

Lemma running_on_watch : on_watch (sb_state running) (World running []).
Proof. split; [done|]. by intros ?%elem_of_nil. Qed.

Lemma killed_for_has_kill delay c tr : killed_for delay c tr → has_kill tr = true.
Proof.
  intros (after & r & before & -> & _). unfold has_kill. rewrite existsb_app. cbn [existsb is_sigkill].
  by rewrite bool_decide_true, orb_true_r.
Qed.

Lemma interrupted_populated k (w : world ssys sandbox) :
  (sandbox_cgroup_is_populated hungry_cgroup (interrupted_at k) w).1 =
    Ret (Ok (negb (has_kill (trace w)))).
Proof.
  change (wp (interrupted_at k) (sandbox_cgroup_is_populated hungry_cgroup)
    (λ o _, o = Ret (Ok (negb (has_kill (trace w))))) w).
  unfold sandbox_cgroup_is_populated. cbn [active hungry_cgroup negb].
  assert (print_path SANDBOX_CGROUP_PATH_CAPACITY
      "%s/cgroup.events" [AStr (cg_path hungry_cgroup)] =
    Some (txt "/sys/fs/cgroup/x/cgroup.events")) as -> by (vm_compute; reflexivity).
  wp_steps.
  assert (interrupted_at k _ (trace w) (Fopen (txt "/sys/fs/cgroup/x/cgroup.events")) =
    Ok (txt (if has_kill (trace w) then "populated 0" else "populated 1") ++ [LF], None)) as ->.
  { cbn [interrupted_at scenario_kernel scenario_answer sc_files]. by rewrite bool_decide_true. }
  wp_steps. destruct (has_kill (trace w)); vm_compute; reflexivity.
Qed.

Lemma interrupted_mortal k : mortal (interrupted_at k) 100 200 101 hungry_cgroup 0.
Proof.
  split.
  - intros status w. by eexists.
  - intros w. reflexivity.
  - intros w _. eexists. split; [apply interrupted_populated|].
    by intros ->%killed_for_has_kill.
  - intros alive w [=].
Qed.

Lemma supervise_workload_ends_witness :
  let r := supervise_workload 101 hungry_cgroup no_status (interrupted_at 6) (World running []) in
  r.1 = Ret (no_status, true, TERMINATION_TIMEOUT) ∧
  signalled_in_turn 200 true [] (trace r.2) ∧
  1000 ≤ time_slept (World running []) r.2 < 50 * 3 + 6100.
Proof.
  intros r. assert (r.1 = Ret (no_status, true, TERMINATION_TIMEOUT)) as E by (vm_compute; reflexivity).
  split; [exact E|].
  assert (r = (Ret (no_status, true, TERMINATION_TIMEOUT), r.2)) as Hr
    by (rewrite <- E; apply surjective_pairing).
  assert (unmarked (trace r.2)) as Hno by (apply (bool_decide_unpack _); vm_compute; exact I).
  assert (pressed 3 (trace r.2)) as Hp by (apply (bool_decide_unpack _); vm_compute; exact I).
  assert (naps (trace (World running [])) ≤ 3 < naps (trace (World running [])) + Z.of_nat 101) as Hn
    by (split; [discriminate|reflexivity]).
  assert (0 ≤ 0 ≤ 5000) as Hdelay by (split; discriminate).
  destruct (supervise_workload_ends (interrupted_at 6) 100 200 101 hungry_cgroup (sb_state running) 3 0
    no_status (World running []) _ r.2 (scenario_locking _) (interrupted_responsive 6)
    ltac:(lia) (le_n 101) running_informed eq_refl running_on_watch Hn Hr Hno Hp Hdelay)
    as (st & result & reason & Ho & Hacted & Hmortal & Hs).
  injection Ho as <- <- <-. assert (true = true) as _ by exact (Hmortal (interrupted_mortal 6)).
  split; [|split; [vm_compute; discriminate|exact (proj2 Hs)]].
  destruct Hacted as [_ [[Hnone _]|[_ Hsent]]]; [discriminate Hnone|exact Hsent].
Defined.
