(* ===== verification/SandboxRun.v ===== *)
(** * What a run of the controller guarantees

    The properties of [main] of the sandbox: what its success means, whom it
    signals, and that it gives back what it took. *)

From S2P Require Import Prelude.
From S2P Require Import CLib.
From S2P Require Import SandboxSys.
From S2P Require Import Logger.
From S2P Require Import SandboxOptions.
From S2P Require Import MonitorState.
From S2P Require Import NetworkFilter.
From S2P Require Import ProcStat.
From S2P Require Import ProcessTree.
From S2P Require Import Cgroup.
From S2P Require Import Hardening.
From S2P Require Import SandboxChild.
From S2P Require Import Monitors.
From S2P Require Import Supervisor.
From S2P Require Import Supervision.
From S2P Require Import SandboxMain.
From stdpp Require Import pretty.
Local Open Scope Z_scope.

(** ** What the controller holds *)

Inductive held : Type :=
  | Held_mutex
  | Held_thread (m : monitor)
  | Held_descriptor (fd : nat)
  | Held_cgroup (path : list byte).

Definition acquires (r : held) (e : event ssys) : bool :=
  match e with
  | Ev Mutex_init result =>
      match r with Held_mutex => bool_decide (result = 0) | _ => false end
  | Ev (Pthread_create m) result =>
      match r with Held_thread m' => bool_decide (m = m' ∧ result = 0) | _ => false end
  | Ev Pipe2 result =>
      match r, result with
      | Held_descriptor fd, Ok (a, b) => bool_decide (fd = a ∨ fd = b)
      | _, _ => false
      end
  | Ev (Mkdir path _) result =>
      match r, result with
      | Held_cgroup path', Ok _ => bool_decide (path = path')
      | _, _ => false
      end
  | _ => false
  end.

(** A call that tries to give something back, whatever it answers. *)
Definition releases (r : held) (e : event ssys) : bool :=
  match e with
  | Ev Mutex_destroy _ => match r with Held_mutex => true | _ => false end
  | Ev (Pthread_join m) _ =>
      match r with Held_thread m' => bool_decide (m = m') | _ => false end
  | Ev (Close fd) _ => match r with Held_descriptor fd' => bool_decide (fd = fd') | _ => false end
  | Ev (Rmdir path) _ => match r with Held_cgroup path' => bool_decide (path = path') | _ => false end
  | _ => false
  end.

Fixpoint holds (r : held) (tr : strace) : bool :=
  match tr with
  | [] => false
  | e :: before => acquires r e || negb (releases r e) && holds r before
  end.

(** A call that gives something back: it succeeded. *)
Definition frees (r : held) (e : event ssys) : bool :=
  match e with
  | Ev Mutex_destroy result =>
      match r with Held_mutex => bool_decide (result = 0) | _ => false end
  | Ev (Pthread_join m) result =>
      match r with Held_thread m' => bool_decide (m = m' ∧ result = 0) | _ => false end
  | Ev (Close fd) result =>
      match r, result with
      | Held_descriptor fd', Ok _ => bool_decide (fd = fd')
      | _, _ => false
      end
  | Ev (Rmdir path) result =>
      match r, result with
      | Held_cgroup path', Ok _ => bool_decide (path = path')
      | _, _ => false
      end
  | _ => false
  end.

(** What was taken and not given back since. *)
Fixpoint kept (r : held) (tr : strace) : bool :=
  match tr with
  | [] => false
  | e :: before => acquires r e || negb (frees r e) && kept r before
  end.

(** The kernel refused to take it back: the call that does was made while it
    was held, after it was taken for the last time, and answered an error. *)
Definition refused (r : held) (tr : strace) : Prop :=
  ∃ later e before, tr = later ++ e :: before ∧ Forall (λ e', acquires r e' = false) later ∧
    kept r before = true ∧ releases r e = true ∧ frees r e = false.

(** What the variables of [main] say is held at the [cleanup] label. *)
Definition recorded (l : locals) (r : held) : Prop :=
  match r with
  | Held_mutex => True
  | Held_thread TimeoutMonitor => timeout_monitor_started l = true
  | Held_thread MemoryMonitor => memory_monitor_started l = true
  | Held_thread CpuMonitor => cpu_monitor_started l = true
  | Held_descriptor fd => (launch_pipe l).1 = Some fd ∨ (launch_pipe l).2 = Some fd
  | Held_cgroup path => active (l_cgroup l) = true ∧ path = c_string (cg_path (l_cgroup l))
  end.

(** ** Whom the controller signals *)

Definition signalled (e : event ssys) : option Z :=
  match e with Ev (Kill target _) _ => Some target | _ => None end.

(** Nothing was signalled but the child the controller forked, its process
    group, and processes of its workload. *)
Definition signals_only_workload (K : kernel ssys) (tr : strace) : Prop :=
  ∀ e target, e ∈ tr → signalled e = Some target →
  ∃ s child, happened Getpid s tr ∧ happened Fork (Ok child) tr ∧
    (target = child ∨ 0 < child ∧ target = - child ∨ workload_process K s child target).

(** The cgroup, if any, is one the controller made, and the child was put
    into it. *)
Definition own_cgroup (cgroup : SandboxCgroup) (child : Z) (tr : strace) : Prop :=
  active cgroup = true →
  happened (Mkdir (c_string (cg_path cgroup)) 448) (Ok tt) tr ∧
  wrote_file (cgroup_file (cg_path cgroup) "cgroup.procs") (txt (pretty child)) tr.

(** A run whose success means something: the child forked by the controller
    exited with status 0, nothing of the workload was left at some moment,
    and nothing was ever signalled. *)
Definition clean_run (K : kernel ssys) (fuel : nat) (tr : strace) : Prop :=
  ∃ s child status cgroup,
    happened Getpid s tr ∧ happened Fork (Ok child) tr ∧ 0 < child ∧
    happened Waitpid_any (WaitChild child status) tr ∧
    WIFEXITED status = true ∧ WEXITSTATUS status = 0 ∧
    own_cgroup cgroup child tr ∧ workload_gone K fuel cgroup s child tr ∧
    Forall (λ e, signalled e = None) tr.

(** ** Lemmas: holding *)

(** What was tried to be given back is given back, unless it was refused. *)
Lemma holds_kept r tr : holds r tr = false → kept r tr = true → refused r tr.
Proof.
  induction tr as [|e tr IH]; [done|]. cbn [holds kept].
  intros [Ha Hh]%orb_false_iff. rewrite Ha. cbn [orb]. intros [Hf Hk]%andb_true_iff.
  destruct (releases r e) eqn:Er.
  - exists [], e, tr. split_and!; try done. by apply negb_true_iff in Hf.
  - destruct (IH Hh Hk) as (later & e' & before & -> & Hl & ?).
    exists (e :: later), e', before. split_and!; [done|by constructor|tauto..].
Qed.

Definition no_acquire (e : event ssys) : Prop := ∀ r, acquires r e = false.
Definition no_signal (e : event ssys) : Prop := signalled e = None.

Lemma mild_no_acquire e : mild e → no_acquire e.
Proof. intros He r. by destruct e as [T c x]; destruct c. Qed.

Lemma proper_no_acquire K s c e : proper K s c e → no_acquire e.
Proof. intros He r. by destruct e as [T call x]; destruct call. Qed.

Lemma mild_no_signal e : mild e → no_signal e.
Proof. by destruct e as [T c x]; destruct c. Qed.

Lemma holds_app r new tr :
  Forall no_acquire new → holds r (new ++ tr) = true → holds r tr = true.
Proof.
  induction 1 as [|e new He _ IH]; [done|]. cbn [app holds]. rewrite He. cbn [orb].
  intros [_ H]%andb_true_iff. by apply IH.
Qed.

Lemma holds_grown (P : event ssys → Prop) r tr tr' :
  (∀ e, P e → no_acquire e) → grown P tr tr' → holds r tr' = true → holds r tr = true.
Proof.
  intros HP (new & -> & Hnew). apply holds_app. eapply Forall_impl; [exact Hnew|exact HP].
Qed.

(** A call that gives back [r0] takes it off. *)
Lemma holds_release r0 e r tr :
  no_acquire e → releases r0 e = true → holds r (e :: tr) = true → holds r tr = true ∧ r ≠ r0.
Proof.
  intros He Hr0. cbn [holds]. rewrite He. cbn [orb]. intros [Hr H]%andb_true_iff.
  split; [done|]. intros ->. by rewrite Hr0 in Hr.
Qed.

Lemma routine_mild (P : event ssys → Prop) : (∀ e, mild e → P e) → Routine P.
Proof.
  intros H. split; intros e He; apply H;
    [by apply routine_mutex|by apply routine_file|by apply routine_proc|by apply routine_poll].
Qed.

#[export] Instance no_acquire_routine : Routine no_acquire.
Proof. apply routine_mild, mild_no_acquire. Qed.
#[export] Instance no_signal_routine : Routine no_signal.
Proof. apply routine_mild, mild_no_signal. Qed.

#[export] Instance set_actions_mild {G} l d : Emits mild (@set_actions G l d).
Proof. induction l as [|n l IH]; cbn [set_actions]; solve_emits. Qed.
#[export] Instance handlers_mild {G} : Emits mild (@install_operator_signal_handlers G).
Proof. unfold install_operator_signal_handlers. solve_emits. Qed.
#[export] Instance subreaper_mild {G} : Emits mild (@enable_child_subreaper G).
Proof. unfold enable_child_subreaper. solve_emits. Qed.
#[export] Instance set_actions_keeps {G B} (f : G → B) l d : Keeps f (@set_actions G l d).
Proof. induction l as [|n l IH]; cbn [set_actions]; solve_keeps. Qed.
#[export] Instance handlers_keeps {G B} (f : G → B) :
  Keeps f (@install_operator_signal_handlers G).
Proof. unfold install_operator_signal_handlers. solve_keeps. Qed.
#[export] Instance subreaper_keeps {G B} (f : G → B) : Keeps f (@enable_child_subreaper G).
Proof. unfold enable_child_subreaper. solve_keeps. Qed.
#[export] Instance mild_emits_no_acquire {G A} (m : prog ssys G A) :
  Emits mild m → Emits no_acquire m.
Proof. intros H. eapply emits_weaken; [exact H|apply mild_no_acquire]. Qed.
#[export] Instance mild_emits_no_signal {G A} (m : prog ssys G A) :
  Emits mild m → Emits no_signal m.
Proof. intros H. eapply emits_weaken; [exact H|apply mild_no_signal]. Qed.

#[export] Instance sleep_no_acquire {G} fuel ms : Emits no_acquire (@sleep_milliseconds G fuel ms).
Proof. eapply emits_weaken; [apply sleep_mild|apply mild_no_acquire]. Qed.
#[export] Instance signal_workload_no_acquire fuel cgroup n :
  Emits no_acquire (signal_workload fuel cgroup n).
Proof. by apply signal_workload_emits; [apply _|]. Qed.
#[export] Instance wait_no_acquire fuel cgroup status t b :
  Emits no_acquire (wait_for_workload_exit fuel cgroup status t b).
Proof. unfold wait_for_workload_exit, wait_step. solve_emits. Qed.
#[export] Instance terminate_no_acquire fuel cgroup reason status :
  Emits no_acquire (terminate_workload fuel cgroup reason status).
Proof. unfold terminate_workload. solve_emits. Qed.
#[export] Instance finish_no_acquire fuel l : Emits no_acquire (finish_workload fuel l).
Proof. unfold finish_workload. solve_emits. Qed.
#[export] Instance report_mutex {G} status reason :
  Emits is_mutex (@report_child_status G status reason).
Proof. unfold report_child_status. solve_emits. Qed.
#[export] Instance final_report_mutex l status finished reason :
  Emits is_mutex (final_report l status finished reason).
Proof. unfold final_report. solve_emits. Qed.

(** ** Lemmas: giving back *)

Section giving_back.
Context (K : kernel ssys).

(** All that is held is in [O]. *)
Definition owing (O : held → Prop) (w : world ssys sandbox) : Prop :=
  ∀ r, holds r (trace w) = true → O r.

Lemma wp_owing {A} O (m : Controller A) (Q : outcome A → world ssys sandbox → Prop) w :
  Emits no_acquire m → owing O w → (∀ o w', owing O w' → Q o w') → wp K m Q w.
Proof.
  intros Hm Hw HQ. destruct (Hm K w) as (new & Htr & Hnew). apply HQ.
  intros r Hr. rewrite Htr in Hr. apply Hw. by eapply holds_app.
Qed.

Lemma owing_release r0 (O O' : held → Prop) w (g : sandbox) e :
  no_acquire e → releases r0 e = true → owing O w → (∀ r, O r → r ≠ r0 → O' r) →
  owing O' (World g (e :: trace w)).
Proof.
  intros He Hr0 Hw HO r Hr. destruct (holds_release r0 e r (trace w)); auto.
Qed.

Lemma owing_weaken (O O' : held → Prop) w : (∀ r, O r → O' r) → owing O w → owing O' w.
Proof. intros H Hw r Hr. by apply H, Hw. Qed.

Lemma wp_close_end O fd (Q : outcome unit → world ssys sandbox → Prop) w :
  owing O w →
  (∀ w', owing (λ r, O r ∧ ∀ f, fd = Some f → r ≠ Held_descriptor f) w' → Q (Ret tt) w') →
  wp K (close_end fd) Q w.
Proof.
  intros Hw HQ. destruct fd as [f|]; cbn [close_end]; wp_steps; apply HQ.
  - apply (owing_release (Held_descriptor f) O); [done| |done|].
    + cbn [releases]. by rewrite bool_decide_true.
    + intros r Hr Hne. split; [done|]. by intros f' [= <-].
  - eapply owing_weaken; [|exact Hw]. by intros r Hr.
Qed.

Lemma wp_join_monitor O started m message (Q : outcome unit → world ssys sandbox → Prop) w :
  owing O w →
  (∀ w', owing (λ r, O r ∧ (started = true → r ≠ Held_thread m)) w' → Q (Ret tt) w') →
  wp K (join_monitor started m message) Q w.
Proof.
  intros Hw HQ. destruct started; cbn [join_monitor]; wp_steps; [|apply HQ; eapply owing_weaken; [|exact Hw]; by intros r Hr].
  set (w1 := World _ _).
  assert (owing (λ r, O r ∧ (true = true → r ≠ Held_thread m)) w1) as Hw1.
  { apply (owing_release (Held_thread m) O); [done| |done|].
    - cbn [releases]. by rewrite bool_decide_true.
    - intros r Hr Hne. by split. }
  clearbody w1. case_bool_decide; wp_steps; [|by apply HQ].
  apply wp_logger_write. intros new Hnew. apply HQ. intros r Hr. apply Hw1.
  eapply holds_app; [|exact Hr]. eapply Forall_impl; [exact Hnew|].
  intros e He. apply routine_mutex. by left; left.
Qed.

(** The last two things given back. *)
Lemma state_released (code : Z) w :
  owing (λ r, r = Held_mutex) w →
  wp K sandbox_state_destroy (λ o w', match o with
    | Ret _ => ∀ r, holds r (trace w') = false
    | Halt _ => True
    end) w.
Proof.
  intros Hw. unfold sandbox_state_destroy. wp_steps. set (w1 := World _ _).
  assert (owing (λ _, False) w1) as Hw1
    by (by apply (owing_release Held_mutex (λ r, r = Held_mutex))).
  clearbody w1. eapply wp_owing; [|exact Hw1|].
  { case_bool_decide; solve_emits. }
  intros [r|h] w2 Hw2; [|done]. intros r'. apply not_true_iff_false.
  intros Hr'. by apply Hw2 in Hr'.
Qed.

Lemma cgroup_released cgroup w :
  owing (λ r, r = Held_mutex ∨ active cgroup = true ∧
              r = Held_cgroup (c_string (cg_path cgroup))) w →
  wp K (if active cgroup then let* _ := sandbox_cgroup_destroy cgroup in ret tt else ret tt)
    (post (λ _ w', owing (λ r, r = Held_mutex) w') (λ _ _, True)) w.
Proof.
  intros Hw. unfold sandbox_cgroup_destroy. destruct (active cgroup); cbn [negb]; wp_steps.
  2:{ eapply owing_weaken; [|exact Hw]. by intros r [?|[? _]]. }
  set (w1 := World _ _). assert (owing (λ r, r = Held_mutex) w1) as Hw1.
  { eapply (owing_release (Held_cgroup (c_string (cg_path cgroup)))); [done| |exact Hw|].
    - cbn [releases]. by rewrite bool_decide_true.
    - by intros r [?|[_ ?]] Hne. }
  clearbody w1. destruct (K _ _ (Rmdir _)) as [u|e]; wp_steps; [done|].
  eapply wp_owing; [apply _|exact Hw1|]. intros [[]|h] w2 Hw2; by wp_steps.
Qed.

(** The return value is the report's, whatever it is. *)
Lemma cleanup_releases fuel l w :
  owing (recorded l) w →
  wp K (main_cleanup fuel l) (post (λ _ w', ∀ r, holds r (trace w') = false) (λ _ _, True)) w.
Proof.
  intros Hw. unfold main_cleanup. wp_steps.
  eapply wp_close_end; [exact Hw|]. intros w1 Hw1. wp_steps.
  eapply wp_close_end; [exact Hw1|]. intros w2 Hw2. wp_steps.
  eapply wp_owing; [apply _|exact Hw2|]. intros [[[status finished] reason]|h] w3 Hw3; [|done].
  wp_steps. eapply wp_owing; [|exact Hw3|].
  { destruct (_ && _); solve_emits. }
  intros [[]|h] w4 Hw4; [|done]. wp_steps.
  eapply wp_join_monitor; [exact Hw4|]. intros w5 Hw5. wp_steps.
  eapply wp_join_monitor; [exact Hw5|]. intros w6 Hw6. wp_steps.
  eapply wp_join_monitor; [exact Hw6|]. intros w7 Hw7. wp_steps.
  eapply wp_owing; [apply _|exact Hw7|]. intros [code|h] w8 Hw8; [|done]. wp_steps.
  assert (owing (λ r, r = Held_mutex ∨ active (l_cgroup l) = true ∧
                      r = Held_cgroup (c_string (cg_path (l_cgroup l)))) w8) as Hw9.
  { eapply owing_weaken; [|exact Hw8]. intros r (((((H1 & H2) & H3) & H4) & H5) & H6).
    destruct r as [|[]|fd|path]; simpl in H1; [by left|by destruct H4|by destruct H5|by destruct H6| |].
    - destruct H1 as [H1|H1]; [by destruct (H2 _ H1)|by destruct (H3 _ H1)].
    - destruct H1 as [H1 ->]. by right. }
  clear Hw8. eapply wp_mono; [by apply cgroup_released|]. intros [[]|h] w9; [|done]. intros Hw10.
  wp_steps. by apply state_released.
Qed.

(** ** Lemmas: taking *)

Lemma owing_acquire (O O' : held → Prop) w (g : sandbox) e :
  owing O w → (∀ r, O r → O' r) → (∀ r, acquires r e = true → O' r) →
  owing O' (World g (e :: trace w)).
Proof.
  intros Hw HO He r. cbn [trace holds]. intros [Ha|[_ Hr]%andb_true_iff]%orb_true_iff; auto.
Qed.

Lemma owing_event O w (g : sandbox) e :
  no_acquire e → owing O w → owing O (World g (e :: trace w)).
Proof.
  intros He Hw r. cbn [trace holds]. rewrite He. cbn [orb]. intros [_ Hr]%andb_true_iff. auto.
Qed.

Lemma wp_start_monitor O m message (Q : outcome bool → world ssys sandbox → Prop) w :
  owing O w →
  (∀ started w', owing (λ r, O r ∨ started = true ∧ r = Held_thread m) w' →
     Q (Ret started) w') →
  wp K (start_monitor m message) Q w.
Proof.
  intros Hw HQ. unfold start_monitor. wp_steps. case_bool_decide as Hr.
  - wp_steps. set (w1 := World _ _).
    assert (owing O w1) as Hw1.
    { eapply owing_acquire; [exact Hw|done|]. intros r. cbn [acquires]. destruct r; try done.
      by intros [_ ?]%bool_decide_eq_true. }
    clearbody w1. apply (wp_quiet is_log); try apply _. intros [] logs Hlogs.
    set (w2 := World _ _). assert (owing O w2) as Hw2.
    { intros r Hr'. apply Hw1. eapply holds_app; [|exact Hr']. eapply Forall_impl; [exact Hlogs|].
      intros e He. apply routine_mutex. by left; left. }
    clearbody w2. wp_steps. eapply (wp_returns_on K); [apply returns_on_returns; apply _|].
    intros b w3 E. wp_steps. apply HQ.
    pose proof (emits (P := no_acquire) (m := sandbox_state_request_termination
      TERMINATION_MONITOR_ERROR) K w2) as (new & Htr & Hnew). rewrite E in Htr. cbn [snd] in Htr.
    intros r Hr'. left. apply Hw2. rewrite Htr in Hr'. by eapply holds_app.
  - wp_steps. apply HQ. eapply owing_acquire; [exact Hw|by left|].
    intros r. cbn [acquires]. destruct r; try done. intros [-> _]%bool_decide_eq_true. by right.
Qed.

#[export] Instance supervise_no_acquire fuel cgroup status :
  Emits no_acquire (supervise_workload fuel cgroup status).
Proof. unfold supervise_workload, supervise_step, terminate_for. solve_emits. Qed.
#[export] Instance end_no_acquire fuel cgroup reason :
  Emits no_acquire (end_workload fuel cgroup reason).
Proof. unfold end_workload. solve_emits. Qed.
#[export] Instance set_workload_mutex pid pgid : Emits is_mutex (sandbox_state_set_workload pid pgid).
Proof. unfold sandbox_state_set_workload. solve_emits. Qed.
#[export] Instance cgroup_attach_file {G} fuel cgroup child :
  Emits is_file (@sandbox_cgroup_attach G fuel cgroup child).
Proof. unfold sandbox_cgroup_attach. solve_emits. Qed.
#[export] Instance release_child_file {G} fuel fd : Emits is_file (@release_child G fuel fd).
Proof. unfold release_child. solve_emits. Qed.
#[export] Instance set_up_no_acquire fuel cgroup fd child :
  Emits no_acquire (set_up_child fuel cgroup fd child).
Proof. unfold set_up_child. solve_emits. Qed.

(** The directory is removed again when its memory limit cannot be set. *)
Lemma wp_prepare_memory O fuel path limit w :
  owing (λ r, O r ∨ r = Held_cgroup path) w →
  wp K (prepare_memory fuel path limit : Controller bool) (λ o w', match o with
    | Ret true => owing (λ r, O r ∨ r = Held_cgroup path) w'
    | Ret false => owing O w'
    | Halt _ => True
    end) w.
Proof.
  intros Hw. unfold prepare_memory. case_bool_decide; [|by wp_steps]. wp_steps.
  eapply wp_owing; [apply _|exact Hw|]. intros [[u|e]|h] w1 Hw1; wp_steps; [| |done].
  - eapply wp_owing; [unfold prepare_optional; solve_emits|exact Hw1|].
    intros [[]|h] w2 Hw2; by wp_steps.
  - eapply wp_owing; [apply _|exact Hw1|]. intros [[]|h] w2 Hw2; [|done]. wp_steps.
    eapply (owing_release (Held_cgroup path)); [done| |exact Hw2|].
    + cbn [releases]. by rewrite bool_decide_true.
    + by intros r [?|?].
Qed.

Lemma wp_prepare O fuel limit (Q : outcome (Z * SandboxCgroup) → world ssys sandbox → Prop) w :
  owing O w →
  (∀ h w', Q (Halt h) w') →
  (∀ r cgroup w', owing (λ r, O r ∨ active cgroup = true ∧
       r = Held_cgroup (c_string (cg_path cgroup))) w' → Q (Ret (r, cgroup)) w') →
  wp K (sandbox_cgroup_prepare fuel limit) Q w.
Proof.
  intros Hw Hh HQ. unfold sandbox_cgroup_prepare. wp_steps.
  assert (Hlog : ∀ format args r cgroup w1, owing O w1 →
    wp K (logger_warn format args : Controller unit)
      (λ o w', match o with Ret _ => Q (Ret (r, cgroup)) w' | Halt h => Q (Halt h) w' end) w1).
  { intros format args r cgroup w1 Hw1. eapply wp_owing; [apply _|exact Hw1|].
    intros [[]|h] w2 Hw2; [|done]. apply HQ. eapply owing_weaken; [|exact Hw2]. by left. }
  eapply wp_owing; [apply _|exact Hw|]. intros [[parent|e]|h] w1 Hw1; [| |done]; wp_steps;
    [|by apply Hlog].
  case_bool_decide; wp_steps.
  { apply Hlog. by eapply owing_event. }
  set (path := c_string _).
  set (w2 := World (globals w1) (Ev Getpid (K _ (trace w1) Getpid) :: trace w1)).
  assert (owing O w2) as Hw2 by by apply owing_event.
  change (Ev Getpid _ :: trace w1) with (trace w2). change (globals w1) with (globals w2).
  clearbody w2. destruct (K _ _ (Mkdir path 448)) as [u|e]; wp_steps;
    [|apply Hlog; by apply owing_event; [intros []|]].
  set (w3 := World _ _).
  assert (owing (λ r, O r ∨ r = Held_cgroup path) w3) as Hw3.
  { eapply owing_acquire; [exact Hw2|by left|]. intros r. cbn [acquires]. destruct r; try done.
    intros ->%bool_decide_eq_true. by right. }
  clearbody w3. eapply wp_mono; [by apply wp_prepare_memory|].
  intros [[]|h] w4 Hw4; wp_steps; cbn [negb]; wp_steps; [| |done].
  - eapply wp_owing; [apply _|exact Hw4|]. intros [[]|h] w5 Hw5; [|done]. wp_steps. apply HQ.
    eapply owing_weaken; [|exact Hw5]. intros r [Hr|Hr]; [by left|by right].
  - apply HQ. eapply owing_weaken; [|exact Hw4]. by left.
Qed.

(** What [main] holds besides the ends of its pipe. *)
Definition basic (cgroup : SandboxCgroup) (r : held) : Prop :=
  r = Held_mutex ∨ active cgroup = true ∧ r = Held_cgroup (c_string (cg_path cgroup)).

Lemma basic_recorded cgroup r l : l_cgroup l = cgroup → basic cgroup r → recorded l r.
Proof. by intros <- [->|[? ->]]. Qed.

Lemma monitored_owing fuel options cgroup reason w :
  owing (basic cgroup) w →
  wp K (monitor_and_supervise fuel options cgroup reason)
    (post (λ l w', owing (recorded l) w') (λ _ _, True)) w.
Proof.
  intros Hw. unfold monitor_and_supervise. wp_steps.
  eapply wp_start_monitor; [exact Hw|]. intros t w7 Hw7. wp_steps.
  eapply (wp_mono _ _ _ (λ o w', match o with
    | Ret m => owing (λ r, (basic cgroup r ∨ t = true ∧ r = Held_thread TimeoutMonitor) ∨
                           m = true ∧ r = Held_thread MemoryMonitor) w'
    | Halt _ => True end)).
  { case_bool_decide; [by eapply wp_start_monitor|]. wp_steps.
    eapply owing_weaken; [|exact Hw7]. by left. }
  intros [m|h] w8 Hw8; [|done]. wp_steps.
  eapply wp_start_monitor; [exact Hw8|]. intros p w9 Hw9. wp_steps.
  eapply wp_owing; [apply _|exact Hw9|]. intros [[[st fin] reason']|h] w10 Hw10; [|done].
  wp_steps. intros r Hr. destruct (Hw10 r Hr) as [[[Hb|[-> ->]]|[-> ->]]|[-> ->]]; try done.
  by eapply basic_recorded.
Qed.

Lemma main_parent_owing fuel options cgroup launch_read launch_write child w :
  owing (λ r, basic cgroup r ∨ r = Held_descriptor launch_read ∨
              r = Held_descriptor launch_write) w →
  wp K (main_parent fuel options cgroup launch_read launch_write child)
    (post (λ l w', owing (recorded l) w') (λ _ _, True)) w.
Proof.
  intros Hw. unfold main_parent. rewrite wp_bind, wp_call. set (w1 := World _ _).
  assert (owing (λ r, basic cgroup r ∨ r = Held_descriptor launch_write) w1) as Hw1.
  { eapply (owing_release (Held_descriptor launch_read)); [done| |exact Hw|].
    - cbn [releases]. by rewrite bool_decide_true.
    - intros r [?|[->|?]] ?; by auto. }
  clearbody w1. rewrite wp_bind. eapply wp_owing; [apply _|exact Hw1|].
  intros [[reason|]|h] w2 Hw2; [| |done].
  2:{ rewrite wp_ret. intros r Hr. destruct (Hw2 r Hr) as [Hb| ->]; [|by right].
      by eapply basic_recorded. }
  rewrite wp_bind, wp_call. set (w3 := World _ _).
  assert (owing (basic cgroup) w3) as Hw3.
  { eapply (owing_release (Held_descriptor launch_write)); [done| |exact Hw2|].
    - cbn [releases]. by rewrite bool_decide_true.
    - by intros r [?| ->]. }
  clearbody w3. rewrite wp_bind, wp_call.
  assert (owing (basic cgroup) (World (globals w3) (Ev Getpid (K _ (trace w3) Getpid) :: trace w3)))
    as Hw4 by by apply owing_event. set (w4 := World _ _) in *. clearbody w4. wp_steps.
  eapply wp_owing; [apply _|exact Hw4|]. intros [[]|h] w5 Hw5; [|done]. wp_steps.
  eapply wp_owing; [apply _|exact Hw5|]. intros [[]|h] w6 Hw6; [|done]. wp_steps.
  by apply monitored_owing.
Qed.

(** The child never comes back from [run_sandbox_child]. *)
Definition never {A} (m : Controller A) : Prop := ∀ w, ∃ h, (m K w).1 = Halt h.

Lemma never_bind {A B} (m : Controller A) (k : A → Controller B) :
  (∀ a, never (k a)) → never (bind m k).
Proof.
  intros Hk w. unfold bind. destruct (m K w) as [[a|h] w']; [apply Hk|by exists h].
Qed.

Lemma child_never_returns fuel options fd wfd parent :
  never (run_sandbox_child fuel options fd wfd parent).
Proof.
  unfold run_sandbox_child. do 11 (apply never_bind; intros ?r).
  case_match; [|intros w; by eexists]. apply never_bind. intros _ w. by eexists.
Qed.

Lemma main_run_owing fuel options s w :
  owing (λ r, r = Held_mutex) w →
  wp K (main_run fuel options s) (post (λ l w', owing (recorded l) w') (λ _ _, True)) w.
Proof.
  intros Hw. unfold main_run. wp_steps.
  assert (Hdone : ∀ cgroup pipe w1, owing (basic cgroup) w1 →
    owing (recorded (not_started cgroup pipe)) w1).
  { intros cgroup pipe w1. apply owing_weaken. intros r. by apply basic_recorded. }
  assert (Hmutex : ∀ w1, owing (λ r, r = Held_mutex) w1 → ∀ cgroup, owing (basic cgroup) w1).
  { intros w1 Hw1 cgroup. eapply owing_weaken; [|exact Hw1]. by left. }
  eapply wp_owing; [apply _|exact Hw|].
  intros [[]|h] w1 Hw1; cbn [negb]; wp_steps; [| |done]; [|by apply Hdone, Hmutex].
  eapply wp_owing; [apply _|exact Hw1|].
  intros [[u|e]|h] w2 Hw2; wp_steps; [| |done].
  2:{ eapply wp_owing; [apply _|exact Hw2|]. intros [[]|h] w3 Hw3; [|done]. wp_steps.
      by apply Hdone, Hmutex. }
  eapply wp_owing; [apply _|exact Hw2|]. intros [[]|h] w3 Hw3; [|done]. wp_steps.
  eapply wp_prepare; [exact Hw3|done|]. intros r cgroup w4 Hw4. change (owing (basic cgroup) w4) in Hw4.
  rewrite wp_bind, wp_call. destruct (K _ (trace w4) Pipe2) as [[a b]|e] eqn:Epipe.
  2:{ set (w5 := World _ _). assert (owing (basic cgroup) w5) as Hw5
        by (apply owing_event; [by intros []|done]).
      clearbody w5. wp_steps. eapply wp_owing; [apply _|exact Hw5|].
      intros [[]|h] w6 Hw6; [|done]. wp_steps. by apply Hdone. }
  set (w5 := World _ _).
  assert (owing (λ r, basic cgroup r ∨ r = Held_descriptor a ∨ r = Held_descriptor b) w5) as Hw5.
  { eapply owing_acquire; [exact Hw4|by left|]. intros r'. cbn [acquires]. destruct r'; try done.
    intros [-> | ->]%bool_decide_eq_true; auto. }
  clearbody w5. rewrite wp_bind, wp_call. set (w6 := World _ _).
  assert (owing (λ r, basic cgroup r ∨ r = Held_descriptor a ∨ r = Held_descriptor b) w6) as Hw6
    by by apply owing_event.
  destruct (K _ (trace w5) Fork) as [child|e] eqn:Efork.
  - clearbody w6. rewrite wp_bind. case_bool_decide.
    + destruct (child_never_returns fuel options a b s w6) as [h Hh]. unfold wp. by rewrite Hh.
    + rewrite wp_ret. by apply main_parent_owing.
  - clearbody w6. wp_steps. eapply wp_owing; [apply _|exact Hw6|].
    intros [[]|h] w7 Hw7; [|done]. wp_steps. intros r' Hr'.
    destruct (Hw7 r' Hr') as [Hb|[-> | ->]]; [by eapply basic_recorded|by left|by right].
Qed.

#[export] Instance parse_options_mild {G} argv : Emits mild (@parse_options G argv).
Proof. unfold parse_options, parse_step, fprintf. solve_emits. Qed.
#[export] Instance print_usage_mild {G} name : Emits mild (@print_usage G name).
Proof. unfold print_usage, fprintf. solve_emits. Qed.

Lemma wp_state_init_owing w :
  owing (λ _, False) w →
  wp K sandbox_state_init (post (λ r w', owing (λ r', r' = Held_mutex ∧ r = 0) w')
    (λ _ _, True)) w.
Proof.
  intros Hw. unfold sandbox_state_init, set_state. rewrite wp_bind, wp_call, wp_bind, wp_modify.
  rewrite wp_bind, wp_call. cbn [trace globals]. set (result := K _ _ Mutex_init).
  assert (Hw1 : ∀ g, owing (λ r', r' = Held_mutex ∧ result = 0)
    (World g (Ev Mutex_init result :: Ev Getpid (K Z (trace w) Getpid) :: trace w))).
  { intros g. set (w0 := World g (Ev Getpid (K Z (trace w) Getpid) :: trace w)).
    apply (owing_acquire (λ _, False) _ w0); [by apply owing_event|done|].
    intros []; cbn [acquires]; try done. by intros ->%bool_decide_eq_true. }
  case_bool_decide as Hr; wp_steps.
  - eapply wp_owing; [apply _|apply Hw1|]. intros [[]|h] w2 Hw2; [|done]. wp_steps.
    intros r Hr2. by apply Hw2 in Hr2 as [_ ?].
  - intros r Hr2. apply Hw1 in Hr2. split; [|done]. by destruct Hr2.
Qed.

Lemma main_owing fuel argv g :
  wp K (main fuel argv) (post (λ _ w', ∀ r, holds r (trace w') = false) (λ _ _, True))
    (World g []).
Proof.
  unfold main. rewrite wp_bind, wp_call. cbn [globals trace]. set (w1 := World g (_ :: _)).
  assert (owing (λ _, False) w1) as Hw1
    by (by apply (owing_event _ (World g [])); [|intros ?]).
  assert (Hnone : ∀ w, owing (λ _, False) w → ∀ r, holds r (trace w) = false).
  { intros w Hw r. apply not_true_iff_false. intros Hr. by apply Hw in Hr. }
  clearbody w1. wp_steps.
  eapply wp_owing; [apply _|exact Hw1|]. intros [[options|]|h] w2 Hw2; wp_steps; [| |done].
  2:{ eapply wp_owing; [apply _|exact Hw2|]. intros [[]|h] w3 Hw3; [|done].
      wp_steps. exact (Hnone _ Hw3). }
  eapply wp_mono; [by apply wp_state_init_owing|]. intros [r|h] w3 Hw3; [|done]. wp_steps.
  case_bool_decide as Hr; wp_steps.
  { refine (Hnone w3 _). eapply owing_weaken; [|exact Hw3]. by intros r' [_ ?]. }
  eapply wp_mono; [apply main_run_owing; eapply owing_weaken; [|exact Hw3]; by intros r' [? _]|].
  intros [l|h] w4 Hw4; [|done]. by apply cleanup_releases.
Qed.

End giving_back.

(** ** Lemmas: what the results mean *)

Section meaning.
Context (K : kernel ssys) (fuel : nat).

(** What is known at the [cleanup] label and after it, from the variables
    there; [P] is what is known of the controller and its child besides. *)
Definition facts (P : Z → Z → Prop) (cgroup : SandboxCgroup) (started : bool)
    (status : WorkloadStatus) (finished : bool) (reason : SandboxTerminationReason)
    (tr : strace) : Prop :=
  signals_only_workload K tr ∧ (finished = true → started = true) ∧
  (started = true → ∃ s c, P s c ∧ happened Getpid s tr ∧ happened Fork (Ok c) tr ∧ 0 < c ∧
     tracked c status tr ∧
     (finished = true → workload_gone K fuel cgroup s c tr) ∧
     (reason = TERMINATION_NONE →
      finished = true ∧ Forall no_signal tr ∧ own_cgroup cgroup c tr)).

Lemma signals_grown s c tr tr' :
  signals_only_workload K tr → happened Getpid s tr → happened Fork (Ok c) tr →
  grown (proper K s c) tr tr' → signals_only_workload K tr'.
Proof.
  intros Htr Hs Hc Hg. pose proof (grown_extends _ _ _ Hg) as He.
  destruct Hg as (new & -> & Hnew). intros e target [Hin|Hin]%elem_of_app Ht.
  - exists s, c. split_and!; [by eapply happened_extends..|].
    rewrite Forall_forall in Hnew. apply Hnew in Hin. destruct e as [T call x].
    destruct call; simplify_eq/=. tauto.
  - destruct (Htr e target Hin Ht) as (s' & c' & ? & ? & ?). exists s', c'.
    split_and!; [by eapply happened_extends..|done].
Qed.

Lemma signals_quiet tr tr' :
  signals_only_workload K tr → grown no_signal tr tr' → signals_only_workload K tr'.
Proof.
  intros Htr Hg. pose proof (grown_extends _ _ _ Hg) as He.
  destruct Hg as (new & -> & Hnew). intros e target [Hin|Hin]%elem_of_app Ht.
  - rewrite Forall_forall in Hnew. apply Hnew in Hin. unfold no_signal in Hin. congruence.
  - destruct (Htr e target Hin Ht) as (s' & c' & ? & ? & ?). exists s', c'.
    split_and!; [by eapply happened_extends..|done].
Qed.

Lemma no_signal_signals tr : Forall no_signal tr → signals_only_workload K tr.
Proof.
  intros H. rewrite <- (app_nil_r tr). eapply signals_quiet; [|by exists tr].
  by intros e t Hin%elem_of_nil.
Qed.

Lemma own_cgroup_extends cgroup c tr tr' :
  extends tr tr' → own_cgroup cgroup c tr → own_cgroup cgroup c tr'.
Proof.
  intros He H Ha. destruct (H Ha). split;
    [by eapply happened_extends|by eapply wrote_file_extends].
Qed.

Lemma facts_quiet (P P' : Z → Z → Prop) cgroup started status finished reason tr tr' :
  (∀ s c, P s c → P' s c) → grown no_signal tr tr' →
  facts P cgroup started status finished reason tr →
  facts P' cgroup started status finished reason tr'.
Proof.
  intros HP Hg (Hsig & Hfin & Hstarted). pose proof (grown_extends _ _ _ Hg) as He.
  split; [by eapply signals_quiet|]. split; [done|]. intros Hs.
  destruct (Hstarted Hs) as (s & c & H1 & H2 & H3 & H4 & H5 & H6 & H7). exists s, c.
  split_and!; auto; [by eapply happened_extends..|by eapply tracked_extends| |].
  - intros Hf. eapply workload_gone_extends; [exact He|auto].
  - intros Hr. destruct (H7 Hr) as (? & ? & ?). split_and!; [done| |by eapply own_cgroup_extends].
    destruct Hg as (new & -> & Hnew). by apply Forall_app.
Qed.

(** A part that signals nobody, after which the controller's memory does not
    matter. *)
Lemma wp_facts {A} (m : Controller A) (Q : outcome A → world ssys sandbox → Prop)
    P cgroup started status finished reason w :
  Emits no_signal m → facts P cgroup started status finished reason (trace w) →
  (∀ o w', facts (λ _ _, True) cgroup started status finished reason (trace w') → Q o w') →
  wp K m Q w.
Proof.
  intros Hm Hw HQ. apply HQ. destruct (Hm K w) as (new & Htr & Hnew).
  eapply facts_quiet; [|by exists new|exact Hw]. done.
Qed.

Lemma final_report_spec l status finished reason w :
  wp K (final_report l status finished reason) (post (λ code _,
    code = EXIT_SUCCESS ∧ finished = true ∧ reason = TERMINATION_NONE ∧
      (∃ st, leader_status status = Some st ∧ WIFEXITED st = true ∧ WEXITSTATUS st = 0) ∨
    code = EXIT_FAILURE) (λ _ _, False)) w.
Proof.
  unfold final_report. assert (Hfail : ∀ w,
    wp K (let* _ := (if child_started l
            then logger_error "original workload leader status was not collected" [] else ret tt) in
          ret EXIT_FAILURE : Controller Z) (post (λ code _,
    code = EXIT_SUCCESS ∧ finished = true ∧ reason = TERMINATION_NONE ∧
      (∃ st, leader_status status = Some st ∧ WIFEXITED st = true ∧ WEXITSTATUS st = 0) ∨
    code = EXIT_FAILURE) (λ _ _, False)) w).
  { intros w0. wp_steps. destruct (child_started l); [|wp_steps; by right].
    apply wp_logger_write. intros new _. wp_steps. by right. }
  destruct (leader_status status) as [st|]; [destruct finished|]; try apply Hfail.
  wp_steps. apply wp_logger_write. intros new _. wp_steps. unfold report_child_status.
  destruct (WIFEXITED st) eqn:E1; [destruct (_ && _) eqn:E2|destruct (WIFSIGNALED st)];
    wp_steps; apply wp_logger_write; intros new' _; wp_steps; try by right.
  apply andb_true_iff in E2 as [E2%bool_decide_eq_true E3%bool_decide_eq_true].
  left. split_and!; try done. by exists st.
Qed.

(** The controller [s] still supervises [c]. *)
Definition live (w : world ssys sandbox) (s c : Z) : Prop := supervises s c (globals w).

Definition facts_at (l : locals) (w : world ssys sandbox) : Prop :=
  facts (live w) (l_cgroup l) (child_started l) (workload_status l) (workload_finished l)
        (l_termination_reason l) (trace w).

#[export] Instance close_end_no_signal {G} fd : Emits no_signal (@close_end G fd).
Proof. unfold close_end. solve_emits. Qed.
#[export] Instance close_end_keeps {G B} (f : G → B) fd : Keeps f (@close_end G fd).
Proof. unfold close_end. solve_keeps. Qed.
#[export] Instance join_no_signal {G} started m message :
  Emits no_signal (@join_monitor G started m message).
Proof. unfold join_monitor. solve_emits. Qed.

Lemma wp_live {A} (m : Controller A) (Q : outcome A → world ssys sandbox → Prop) l w :
  Emits no_signal m → Moves state_evolves m → facts_at l w →
  (∀ o w', facts_at l w' → Q o w') → wp K m Q w.
Proof.
  intros Hm Hmv Hw HQ. apply HQ. destruct (Hm K w) as (new & Htr & Hnew).
  eapply facts_quiet; [|by exists new|exact Hw].
  intros s c Hs. eapply supervises_evolves; [apply Hmv|exact Hs].
Qed.

Lemma finish_spec l w :
  facts_at l w →
  wp K (finish_workload fuel l) (post (λ '(status, finished, reason) w',
    facts (λ _ _, True) (l_cgroup l) (child_started l) status finished reason (trace w'))
    (λ _ _, True)) w.
Proof.
  intros Hw. unfold finish_workload.
  destruct (child_started l && negb (workload_finished l)) eqn:Eb; wp_steps.
  2:{ eapply facts_quiet; [|by exists []|exact Hw]. done. }
  apply andb_true_iff in Eb as [Es Ef%negb_true_iff].
  eapply wp_live; [apply _|solve_moves|exact Hw|]. intros [[]|h] w1 Hw1; [|done]. wp_steps.
  destruct Hw1 as (Hsig & _ & Hstarted).
  destruct (Hstarted Es) as (s & c & H1 & H2 & H3 & H4 & H5 & _ & H7).
  assert (l_termination_reason l ≠ TERMINATION_NONE) as Hr.
  { intros Hr. destruct (H7 Hr) as [Hfin _]. congruence. }
  rewrite bool_decide_false by done.
  eapply wp_mono; [apply wp_conj; [by apply (terminate_spec K s c)|
    apply within_wp; [apply (within_terminate K s c)|exact H1]]|].
  intros [[st fin]|h] w2 [H (_ & Hg)]; [|done]. destruct H as ([_ Ht] & He & Hgone). wp_steps.
  split; [by eapply signals_grown|]. split; [done|]. intros _. exists s, c.
  split_and!; try done; by eapply happened_extends.
Qed.

Lemma cleanup_spec l w :
  facts_at l w →
  wp K (main_cleanup fuel l) (post (λ code w',
    signals_only_workload K (trace w') ∧
    (code = EXIT_SUCCESS ∧ clean_run K fuel (trace w') ∨ code = EXIT_FAILURE))
    (λ _ _, True)) w.
Proof.
  intros Hw. unfold main_cleanup. wp_steps.
  eapply wp_live; [apply _|solve_moves|exact Hw|]. intros [[]|h] w1 Hw1; [|done]. wp_steps.
  eapply wp_live; [apply _|solve_moves|exact Hw1|]. intros [[]|h] w2 Hw2; [|done]. wp_steps.
  eapply wp_mono; [by apply finish_spec|].
  intros [[[status finished] reason]|h] w3 Hw3; [|done]. wp_steps.
  eapply wp_facts; [|exact Hw3|]. { destruct (_ && _); solve_emits. }
  intros [[]|h] w4 Hw4; [|done]. wp_steps.
  eapply wp_facts; [apply _|exact Hw4|]. intros [[]|h] w5 Hw5; [|done]. wp_steps.
  eapply wp_facts; [apply _|exact Hw5|]. intros [[]|h] w6 Hw6; [|done]. wp_steps.
  eapply wp_facts; [apply _|exact Hw6|]. intros [[]|h] w7 Hw7; [|done]. wp_steps.
  eapply wp_mono; [apply wp_conj; [apply final_report_spec|]|].
  { eapply wp_facts; [apply _|exact Hw7|]. intros o w8 Hw8. exact Hw8. }
  intros [code|h] w8 [Hcode Hw8]; [|done]. wp_steps.
  eapply wp_facts; [unfold sandbox_cgroup_destroy; solve_emits|exact Hw8|].
  intros [[]|h] w9 Hw9; [|done]. wp_steps.
  eapply wp_facts; [unfold sandbox_state_destroy; solve_emits|exact Hw9|].
  intros [r|h] w10 (Hsig & Hfin & Hstarted); [|done]. wp_steps. split; [done|].
  destruct Hcode as [(-> & Hf & -> & st & Hst & E1 & E2)| ->]; [left|by right].
  split; [done|]. destruct (Hstarted (Hfin Hf)) as (s & c & _ & H2 & H3 & H4 & H5 & H6 & H7).
  destruct (H7 eq_refl) as (_ & H8 & H9). exists s, c, st, (l_cgroup l).
  split_and!; auto.
Qed.

(** ** Lemmas: up to the [cleanup] label *)

(** The state before the workload is set. *)
Definition fresh (s : Z) (w : world ssys sandbox) : Prop :=
  supervisor_pid (sb_state (globals w)) = s ∧ state_ok (sb_state (globals w)).

Definition same_controller : relation sandbox := λ g g',
  supervisor_pid (sb_state g') = supervisor_pid (sb_state g) ∧
  (state_ok (sb_state g) → state_ok (sb_state g')).

#[local] Instance same_controller_preorder : PreOrder same_controller.
Proof.
  split; [by intros g|]. intros g1 g2 g3 [E1 H1] [E2 H2]. split; [congruence|auto].
Qed.

Lemma evolves_same g g' : state_evolves g g' → same_controller g g'.
Proof.
  intros H. unfold state_evolves in H. split; [by destruct (evolves_ids _ _ H)|by eapply evolves_ok].
Qed.

Lemma fresh_moves {A} s (m : Controller A) w :
  Moves state_evolves m → fresh s w → fresh s (m K w).2.
Proof.
  intros Hm [E Hok]. destruct (evolves_same _ _ (moves (m := m) K w)) as [E' Hok'].
  split; [congruence|auto].
Qed.

Lemma set_workload_spec s c w :
  fresh s w →
  wp K (sandbox_state_set_workload c c) (post (λ r w',
    grown mild (trace w) (trace w') ∧
    (r = 0 → 0 < c ∧ supervises s c (globals w'))) (λ _ _, True)) w.
Proof.
  intros [Es Hok].
  cut (wp K (sandbox_state_set_workload c c) (post (λ r w',
    r = 0 → 0 < c ∧ supervises s c (globals w')) (λ _ _, True)) w).
  { intros H. eapply wp_mono; [apply wp_conj; [exact H|apply (emits_wp mild), _]|].
    intros [r|h] w' [H1 H2]; [by split|done]. }
  unfold sandbox_state_set_workload. case_bool_decide as Hc; [by wp_steps|]. wp_steps.
  apply wp_lock_state; [intros new _; rewrite bool_decide_true by done; by wp_steps|].
  intros os _. rewrite bool_decide_false by auto. unfold set_state. wp_steps.
  apply wp_unlock_state. intros r new _ _ _. split; [lia|].
  pose proof (changes_evolves os (sb_state (globals w))) as Hev.
  apply evolves_ids in Hev as (E & _). unfold supervises. cbn [globals sb_state locked].
  simpl. split_and!; try done. by rewrite E.
Qed.

(** A part that is mild and moves the state along its transitions, in the
    set-up of the child. *)
Lemma wp_set_up {A} (m : Controller A) (Q : outcome A → world ssys sandbox → Prop) s c w :
  Moves state_evolves m → Emits mild m → supervises s c (globals w) →
  (∀ o w', m K w = (o, w') → supervises s c (globals w') → grown mild (trace w) (trace w') →
     Q o w') → wp K m Q w.
Proof.
  intros Hm He Hw HQ. apply HQ; [by destruct (m K w)| |apply He].
  eapply supervises_evolves; [apply Hm|exact Hw].
Qed.

Lemma attach_spec cgroup child (w : world ssys sandbox) :
  active cgroup = true →
  wp K (sandbox_cgroup_attach fuel cgroup child) (post (λ r w', ∀ u, r = Ok u →
    wrote_file (cgroup_file (cg_path cgroup) "cgroup.procs") (txt (pretty child)) (trace w'))
    (λ _ _, True)) w.
Proof.
  intros Ha. unfold sandbox_cgroup_attach. rewrite Ha. cbn [negb].
  replace (sprintf "%ld" [AInt child]) with (txt (pretty child)).
  2:{ unfold sprintf. change (txt "%ld") with [x25; x6c; x64]. rewrite format_ld.
      by rewrite app_nil_r. }
  eapply wp_mono; [apply write_text_file_spec; by apply (bool_decide_unpack _)|].
  intros [r|h] w'; [|done]. by intros (_ & _ & H).
Qed.

(** What [set_up_child] left in [w], started in [w0]. *)
Definition set_up (s c : Z) (cgroup : SandboxCgroup) (w0 : world ssys sandbox)
    (r : option SandboxTerminationReason) (w : world ssys sandbox) : Prop :=
  match r with
  | None => ∀ e target, e ∈ trace w → signalled e = Some target →
              e ∈ trace w0 ∨ target = c
  | Some reason =>
      0 < c ∧ supervises s c (globals w) ∧ grown mild (trace w0) (trace w) ∧
      (reason = TERMINATION_NONE → active cgroup = true →
       wrote_file (cgroup_file (cg_path cgroup) "cgroup.procs") (txt (pretty c)) (trace w))
  end.

(** The choice of a reason, and the release when there is none. *)
Lemma release_spec cgroup fd reason s c w0 w :
  0 < c → supervises s c (globals w) → grown mild (trace w0) (trace w) →
  (reason = TERMINATION_NONE → active cgroup = true →
   wrote_file (cgroup_file (cg_path cgroup) "cgroup.procs") (txt (pretty c)) (trace w)) →
  wp K (if bool_decide (reason = TERMINATION_NONE) then
          let* r := release_child fuel fd in
          match r with
          | Err e =>
              logger_error "could not release isolated child: %s" [AErrno e] ;;;
              ret (Some TERMINATION_SUPERVISOR_ERROR)
          | Ok _ => ret (Some TERMINATION_NONE)
          end
        else ret (Some reason)) (post (set_up s c cgroup w0) (λ _ _, True)) w.
Proof.
  intros Hc Hs Hg Hattach. case_bool_decide as Hr; [|by wp_steps]. wp_steps.
  eapply wp_set_up; [unfold release_child; solve_moves|apply _|exact Hs|].
  intros [[u|e]|h] w1 _ Hs1 Hg1; wp_steps; [| |done].
  - split_and!; [done|done|by etrans|]. intros _ Ha. eapply wrote_file_extends; [by eapply grown_extends|].
    by apply Hattach.
  - eapply wp_set_up; [solve_moves|apply _|exact Hs1|]. intros [[]|h] w2 _ Hs2 Hg2; [|done]. wp_steps.
    split_and!; [done|done| |done]. etrans; [done|]. by etrans.
Qed.

(** The reason after [setpgid]. *)
Lemma setpgid_spec s c w :
  fresh s w →
  wp K (let* r := call (Setpgid c c) in
        match r with
        | Err e =>
            if bool_decide (e ≠ EACCES) && bool_decide (e ≠ ESRCH) then
              logger_error "parent setpgid(%ld) failed: %s" [AInt c; AErrno e] ;;;
              ret TERMINATION_SUPERVISOR_ERROR
            else ret TERMINATION_NONE
        | Ok _ => ret TERMINATION_NONE
        end : Controller SandboxTerminationReason)
    (post (λ _ w', fresh s w' ∧ grown mild (trace w) (trace w')) (λ _ _, True)) w.
Proof.
  intros Hw. set (m := bind _ _). assert (Moves state_evolves m) as Hm by (subst m; solve_moves).
  assert (Emits mild m) as He by (subst m; solve_emits). clearbody m.
  pose proof (fresh_moves s m w Hm Hw) as H1. pose proof (He K w) as H2. unfold wp.
  by destruct (m K w) as [[r|h] w'].
Qed.

(** The child that is killed again because the state could not be set. *)
Lemma give_up_spec s c cgroup w0 w :
  grown mild (trace w0) (trace w) →
  wp K (logger_error "unable to initialize workload process-tree state" [] ;;;
        let* _ := call (Kill c SIGKILL) in
        let* _ := call (Waitpid c) in
        ret None)
    (post (set_up s c cgroup w0) (λ _ _, True)) w.
Proof.
  intros (new & Htr & Hnew). wp_steps. apply wp_logger_write. intros logs Hlogs. wp_steps.
  intros e target Hin Ht. cbn [trace] in Hin. rewrite Htr in Hin.
  apply elem_of_cons in Hin as [->|[->|[Hin|[Hin|Hin]%elem_of_app]%elem_of_app]%elem_of_cons].
  - done.
  - right. by injection Ht as <-.
  - rewrite Forall_forall in Hlogs. apply Hlogs in Hin.
    assert (no_signal e) as He by (apply mild_no_signal, routine_mutex; by left; left).
    unfold no_signal in He. congruence.
  - rewrite Forall_forall in Hnew. apply Hnew, mild_no_signal in Hin. unfold no_signal in Hin. congruence.
  - by left.
Qed.

Lemma set_up_spec s c cgroup fd w0 :
  fresh s w0 →
  wp K (set_up_child fuel cgroup fd c) (post (set_up s c cgroup w0) (λ _ _, True)) w0.
Proof.
  intros Hw0. unfold set_up_child.
  pose proof (setpgid_spec s c w0 Hw0) as Hpgid. rewrite wp_bind in Hpgid |- *.
  rewrite wp_call in Hpgid |- *. rewrite wp_bind.
  eapply wp_mono; [exact Hpgid|]. intros [reason|h] w1 H1; [|done]. destruct H1 as [Hw1 Hg1].
  rewrite wp_bind. eapply wp_mono; [by apply set_workload_spec|].
  intros [r|h] w2 H2; [|done]. destruct H2 as [Hg2 Hok].
  assert (grown mild (trace w0) (trace w2)) as Hg02 by by etrans.
  case_bool_decide as Hr; [by apply give_up_spec|].
  destruct (Hok ltac:(lia)) as [Hc Hs2]. rewrite wp_bind.
  eapply (wp_mono _ _ _ (post (λ reason w', supervises s c (globals w') ∧
    grown mild (trace w0) (trace w') ∧
    (reason = TERMINATION_NONE → active cgroup = true →
     wrote_file (cgroup_file (cg_path cgroup) "cgroup.procs") (txt (pretty c)) (trace w')))
    (λ _ _, True))).
  { destruct (active cgroup) eqn:Ea; [|wp_steps; by split_and!]. wp_steps.
    eapply wp_mono; [apply wp_conj; [by apply attach_spec|]|].
    { eapply wp_set_up; [apply moves_keeps; [apply _|]; unfold sandbox_cgroup_attach; solve_keeps
        |apply _|exact Hs2|]. intros o w3 _ Hs3 Hg3. exact (conj Hs3 Hg3). }
    intros [[u|e]|h] w3 [Hwrote [Hs3 Hg3]]; wp_steps; [| |done].
    - split_and!; [done|by etrans|]. intros _ _. by apply (Hwrote u).
    - eapply wp_set_up; [solve_moves|apply _|exact Hs3|]. intros [[]|h] w4 _ Hs4 Hg4; [|done].
      wp_steps. split_and!; [done| |done]. etrans; [done|]. by etrans. }
  intros [reason3|h] w3 H3; [|done]. destruct H3 as (Hs3 & Hg3 & Hwrote). wp_steps.
  eapply wp_set_up; [apply _|apply _|exact Hs3|]. intros [n|h] w4 _ Hs4 Hg4; [|done].
  assert (grown mild (trace w0) (trace w4)) as Hg04 by by etrans.
  rewrite wp_bind. eapply (wp_mono _ _ _ (post (λ reason w', supervises s c (globals w') ∧
    grown mild (trace w0) (trace w') ∧
    (reason = TERMINATION_NONE → active cgroup = true →
     wrote_file (cgroup_file (cg_path cgroup) "cgroup.procs") (txt (pretty c)) (trace w')))
    (λ _ _, True))).
  { case_bool_decide; wp_steps.
    - eapply wp_set_up; [apply _|apply _|exact Hs4|]. intros [shown|h] w5 _ Hs5 Hg5; [|done]. wp_steps.
      eapply wp_set_up; [solve_moves|apply _|exact Hs5|]. intros [[]|h] w6 _ Hs6 Hg6; [|done].
      wp_steps. split_and!; [done| |done]. etrans; [exact Hg04|]. by etrans.
    - split_and!; [done|done|]. intros E1 E2. eapply wrote_file_extends; [eapply grown_extends; exact Hg4|by apply Hwrote]. }
  intros [reason5|h] w5 H5; [|done]. destruct H5 as (Hs5 & Hg5 & Hwrote5).
  by apply release_spec.
Qed.

(** Starting a monitor signals nobody. *)
#[export] Instance start_monitor_no_signal m message : Emits no_signal (start_monitor m message).
Proof. unfold start_monitor. solve_emits. Qed.
#[export] Instance start_monitor_moves m message : Moves state_evolves (start_monitor m message).
Proof. unfold start_monitor. solve_moves. Qed.

(** What is known of a child that was set up, before its workload is ended. *)
Definition set_up_done (s c : Z) (cgroup : SandboxCgroup) (reason : SandboxTerminationReason)
    (w : world ssys sandbox) : Prop :=
  0 < c ∧ supervises s c (globals w) ∧ happened Getpid s (trace w) ∧
  happened Fork (Ok c) (trace w) ∧ Forall no_signal (trace w) ∧
  (reason = TERMINATION_NONE → own_cgroup cgroup c (trace w)).

Lemma wp_set_up_done {A} (m : Controller A) (Q : outcome A → world ssys sandbox → Prop)
    s c cgroup reason w :
  Emits no_signal m → Moves state_evolves m → set_up_done s c cgroup reason w →
  (∀ o w', set_up_done s c cgroup reason w' → Q o w') → wp K m Q w.
Proof.
  intros Hm Hmv (H1 & H2 & H3 & H4 & H5 & H6) HQ. apply HQ. destruct (Hm K w) as (new & Htr & Hnew).
  assert (extends (trace w) (trace (m K w).2)) as He by by exists new.
  split_and!; [done| |by eapply happened_extends..| |].
  - eapply supervises_evolves; [apply Hmv|exact H2].
  - rewrite Htr. by apply Forall_app.
  - intros Hr. eapply own_cgroup_extends; [exact He|auto].
Qed.

Lemma end_workload_spec s c cgroup reason w :
  set_up_done s c cgroup reason w →
  wp K (end_workload fuel cgroup reason) (post (λ '(status, finished, reason') w',
    ∀ pipe (t m p : bool),
    facts_at (Locals cgroup status reason' pipe true finished t m p) w') (λ _ _, True)) w.
Proof.
  intros (Hc & Hs & Hpid & Hfork & Hquiet & Hown).
  assert (informed s c no_status w) as Hw by by split.
  assert (Hfacts : ∀ status finished reason' w', informed s c status w' →
    grown (proper K s c) (trace w) (trace w') →
    (finished = true → workload_gone K fuel cgroup s c (trace w')) →
    (reason' = TERMINATION_NONE → reason = TERMINATION_NONE ∧ finished = true ∧
       grown mild (trace w) (trace w')) →
    ∀ pipe (t m p : bool),
    facts_at (Locals cgroup status reason' pipe true finished t m p) w').
  { intros status finished reason' w' [Hs' Ht] Hg Hgone Hnone pipe t m p.
    pose proof (grown_extends _ _ _ Hg) as He. unfold facts_at, facts. simpl.
    split; [eapply signals_grown; [by apply no_signal_signals|done..]|]. split; [done|].
    intros _. exists s, c. split_and!; try done; [by eapply happened_extends..|].
    intros Hr. destruct (Hnone Hr) as (Hr' & Hf & new & Htr & Hnew). split_and!; [done| |].
    - rewrite Htr. apply Forall_app. split; [|done].
      eapply Forall_impl; [exact Hnew|apply mild_no_signal].
    - eapply own_cgroup_extends; [exact He|auto]. }
  unfold end_workload. case_bool_decide as Hr.
  - wp_steps. eapply wp_mono; [apply wp_conj; [by apply (terminate_spec K s c)|
      apply within_wp; [apply (within_terminate K s c)|exact Hs]]|].
    intros [[st fin]|h] w' [H (_ & Hg)]; [|done]. destruct H as (Hw' & _ & Hgone). wp_steps.
    intros pipe t m p. by apply Hfacts.
  - subst reason.
    eapply wp_mono; [apply wp_conj; [by apply (supervise_spec K s c)|
      apply within_wp; [apply (within_supervise K s c)|exact Hs]]|].
    intros [[[st fin] reason']|h] w' [H (_ & Hg)]; [|done].
    destruct H as (Hw' & _ & Hgone & Hnone). intros pipe t m p. apply Hfacts; try done.
    intros Hr. split; [done|]. by apply Hnone.
Qed.

Lemma not_started_facts cgroup pipe (w : world ssys sandbox) :
  signals_only_workload K (trace w) → facts_at (not_started cgroup pipe) w.
Proof. intros H. by split_and!. Qed.

(** A step after the set-up. *)
Ltac done_part Hw :=
  cbn beta iota; rewrite wp_bind; eapply wp_set_up_done; [solve_emits|solve_moves|exact Hw|].

Lemma monitored_spec options cgroup reason s c w :
  set_up_done s c cgroup reason w →
  wp K (monitor_and_supervise fuel options cgroup reason) (post facts_at (λ _ _, True)) w.
Proof.
  intros Hw. unfold monitor_and_supervise.
  done_part Hw. intros [t|h] w1 Hw1; [|done]. done_part Hw1. intros [m|h] w2 Hw2; [|done].
  done_part Hw2. intros [p|h] w3 Hw3; [|done]. wp_steps.
  eapply wp_mono; [by eapply end_workload_spec|].
  intros [[[st fin] reason']|h] w4 H4; [|done]. wp_steps. apply H4.
Qed.

Lemma main_parent_spec options cgroup launch_read launch_write s c w :
  fresh s w → happened Getpid s (trace w) → happened Fork (Ok c) (trace w) →
  Forall no_signal (trace w) →
  (active cgroup = true →
   happened (Mkdir (c_string (cg_path cgroup)) 448) (Ok tt) (trace w)) →
  wp K (main_parent fuel options cgroup launch_read launch_write c)
    (post facts_at (λ _ _, True)) w.
Proof.
  intros Hw Hpid Hfork Hquiet Hdir. unfold main_parent. rewrite wp_bind, wp_call.
  set (w1 := World _ _). assert (Hext : extends (trace w) (trace w1)) by apply extends_cons, extends_refl.
  assert (Forall no_signal (trace w1)) as Hquiet1 by by constructor.
  assert (fresh s w1) as Hw1 by done.
  assert (happened Getpid s (trace w1) ∧ happened Fork (Ok c) (trace w1)) as [Hpid1 Hfork1]
    by (split; by eapply happened_extends).
  assert (Hdir1 : active cgroup = true →
    happened (Mkdir (c_string (cg_path cgroup)) 448) (Ok tt) (trace w1))
    by (intros Ha; eapply happened_extends; [exact Hext|auto]).
  clearbody w1. rewrite wp_bind. eapply wp_mono; [apply wp_conj; [by apply set_up_spec|]|].
  { apply (emits_wp (λ _, True)). eapply emits_weaken; [apply set_up_no_acquire|done]. }
  intros [[reason|]|h] w2 [H2 Hgrow]; [| |done].
  2:{ rewrite wp_ret. apply not_started_facts. intros e target Hin Ht.
      destruct (H2 e target Hin Ht) as [Hin1| ->].
      - rewrite Forall_forall in Hquiet1. apply Hquiet1 in Hin1. unfold no_signal in Hin1. congruence.
      - exists s, c. destruct Hgrow as (new & Htr & _). rewrite Htr.
        split_and!; [by eapply happened_extends; [exists new|]..|by left]. }
  destruct H2 as (Hc & Hs2 & (new & Htr & Hnew) & Hwrote).
  assert (set_up_done s c cgroup reason w2) as Hw2.
  { assert (extends (trace w1) (trace w2)) by by exists new.
    split_and!; [done|done|by eapply happened_extends..| |].
    - rewrite Htr. apply Forall_app. split; [|done].
      eapply Forall_impl; [exact Hnew|apply mild_no_signal].
    - intros Hr Ha. split; [by eapply happened_extends; [|apply Hdir1]|auto]. }
  clear Htr Hnew Hwrote Hgrow.
  done_part Hw2. intros [r|h] w3 Hw3; [|done]. done_part Hw3. intros [self|h] w4 Hw4; [|done].
  done_part Hw4. intros [[]|h] w5 Hw5; [|done]. done_part Hw5. intros [[]|h] w6 Hw6; [|done].
  cbn beta iota. by eapply monitored_spec.
Qed.

(** Preparing the cgroup signals nobody, and an active one was made. *)
Lemma prepare_signals limit (w : world ssys sandbox) :
  Forall no_signal (trace w) →
  wp K (sandbox_cgroup_prepare fuel limit) (post (λ '(_, cgroup) w',
    globals w' = globals w ∧ grown no_signal (trace w) (trace w') ∧
    (active cgroup = true →
     happened (Mkdir (c_string (cg_path cgroup)) 448) (Ok tt) (trace w'))) (λ _ _, True)) w.
Proof.
  intros Hw.
  cut (wp K (sandbox_cgroup_prepare fuel limit) (post (λ '(_, cgroup) w',
    active cgroup = true →
    happened (Mkdir (c_string (cg_path cgroup)) 448) (Ok tt) (trace w')) (λ _ _, True)) w).
  { intros H. eapply wp_mono; [apply wp_conj; [exact H|apply wp_conj;
      [apply (emits_wp no_signal)|apply (keeps_wp (λ g : sandbox, g))]]|].
    - unfold sandbox_cgroup_prepare, prepare_memory, prepare_optional. solve_emits.
    - unfold sandbox_cgroup_prepare, prepare_memory, prepare_optional. solve_keeps.
    - intros [[r cgroup]|h] w' (H1 & H2 & H3); [|done]. by split_and!. }
  unfold sandbox_cgroup_prepare. wp_steps.
  eapply wp_mono; [apply wp_true|]. intros [[parent|e]|h] w1 _; wp_steps; [| |done].
  2:{ eapply wp_mono; [apply wp_true|]. intros [[]|h] w2 _; [|done]. by wp_steps. }
  case_bool_decide; wp_steps.
  { eapply wp_mono; [apply wp_true|]. intros [[]|h] w2 _; [|done]. by wp_steps. }
  set (path := c_string _). destruct (K _ _ (Mkdir path 448)) as [[]|e] eqn:E; wp_steps.
  2:{ eapply wp_mono; [apply wp_true|]. intros [[]|h] w2 _; [|done]. by wp_steps. }
  set (w2 := World _ _). assert (happened (Mkdir path 448) (Ok tt) (trace w2)) as H2
    by apply happened_here. clearbody w2.
  eapply wp_mono; [apply (emits_wp (no_signal))|].
  { unfold prepare_memory, prepare_optional. solve_emits. }
  intros [[]|h] w3 (new3 & Htr3 & _); cbn [negb]; wp_steps; [|done..].
  apply wp_logger_write. intros logs _. wp_steps. intros _. rewrite Htr3.
  eapply happened_extends; [|exact H2]. exists (logs ++ new3). by rewrite (assoc_L app).
Qed.

(** A controller with a fresh state that signalled nobody so far. *)
Definition ready (s : Z) (w : world ssys sandbox) : Prop :=
  fresh s w ∧ happened Getpid s (trace w) ∧ Forall no_signal (trace w).

Lemma wp_ready {A} (m : Controller A) (Q : outcome A → world ssys sandbox → Prop) s w :
  Emits no_signal m → Moves state_evolves m → ready s w → (∀ o w', ready s w' → Q o w') →
  wp K m Q w.
Proof.
  intros Hm Hmv (H1 & H2 & H3) HQ. apply HQ. destruct (Hm K w) as (new & Htr & Hnew).
  split; [by apply fresh_moves|]. rewrite Htr. split; [|by apply Forall_app].
  eapply happened_extends; [|exact H2]. by exists new.
Qed.

Lemma ready_event s w e :
  no_signal e → ready s w → ready s (World (globals w) (e :: trace w)).
Proof.
  intros He (H1 & H2 & H3). split; [done|]. split; [|by constructor].
  eapply happened_extends; [|exact H2]. by exists [e].
Qed.

Lemma ready_facts s cgroup pipe w : ready s w → facts_at (not_started cgroup pipe) w.
Proof. intros (_ & _ & H). by apply not_started_facts, no_signal_signals. Qed.

Ltac ready_part Hw :=
  cbn beta iota; rewrite wp_bind; eapply wp_ready; [solve_emits|solve_moves|exact Hw|].

(** At the [cleanup] label, from a state that was just initialized. *)
Lemma main_run_spec options supervisor s w :
  ready s w → wp K (main_run fuel options supervisor) (post facts_at (λ _ _, True)) w.
Proof.
  intros Hw. unfold main_run.
  ready_part Hw. intros [[]|h] w1 Hw1; cbn [negb]; [|by eapply ready_facts|done].
  ready_part Hw1. intros [[u|e]|h] w2 Hw2; [| |done].
  2:{ ready_part Hw2. intros [[]|h] w3 Hw3; [|done]. by eapply ready_facts. }
  ready_part Hw2. intros [[]|h] w3 Hw3; [|done]. rewrite wp_bind.
  eapply wp_mono; [apply prepare_signals; apply Hw3|].
  intros [[r cgroup]|h] w4 H4; [|done]. destruct H4 as (Hg & (new & Htr & Hnew) & Hdir).
  assert (ready s w4) as Hw4.
  { destruct Hw3 as (H1 & H2 & H3). unfold ready, fresh in *. rewrite Hg, Htr.
    split; [done|]. split; [eapply happened_extends; [by exists new|done]|by apply Forall_app]. }
  clear Hg Htr Hnew. rewrite wp_bind, wp_call.
  set (w5 := World _ _). assert (ready s w5) as Hw5 by by apply ready_event.
  assert (active cgroup = true → happened (Mkdir (c_string (cg_path cgroup)) 448) (Ok tt) (trace w5))
    as Hdir5 by (intros Ha; eapply happened_extends; [apply extends_cons, extends_refl|auto]).
  destruct (K _ (trace w4) Pipe2) as [[a b]|e] eqn:Epipe; clearbody w5.
  2:{ ready_part Hw5. intros [[]|h] w6 Hw6; [|done]. by eapply ready_facts. }
  rewrite wp_bind, wp_call.
  set (w6 := World _ _). assert (ready s w6) as Hw6 by by apply ready_event.
  destruct (K _ (trace w5) Fork) as [child|e] eqn:Efork.
  2:{ clearbody w6. ready_part Hw6. intros [[]|h] w7 Hw7; [|done]. by eapply ready_facts. }
  rewrite wp_bind. case_bool_decide.
  - destruct (child_never_returns K fuel options a b supervisor w6) as [h Hh].
    unfold wp. by rewrite Hh.
  - rewrite wp_ret. destruct Hw6 as (H1 & H2 & H3).
    apply (main_parent_spec _ _ _ _ s); try done; [apply happened_here|].
    intros Ha. eapply happened_extends; [apply extends_cons, extends_refl|auto].
Qed.

Lemma state_init_ready w :
  Forall no_signal (trace w) →
  wp K sandbox_state_init (post (λ _ w', ∃ s, ready s w') (λ _ _, True)) w.
Proof.
  intros Hw. unfold sandbox_state_init, set_state. rewrite wp_bind, wp_call, wp_bind, wp_modify.
  cbn [globals trace]. set (s := K _ _ Getpid). set (w1 := World _ _).
  assert (ready s w1) as Hw1.
  { split; [by split|]. split; [apply happened_here|by constructor]. }
  clearbody w1. eapply wp_ready; [solve_emits|solve_moves|exact Hw1|].
  intros [r|h] w2 Hw2; [|done]. by exists s.
Qed.

Lemma main_run_meaning argv g :
  wp K (main fuel argv) (post (λ code w',
    signals_only_workload K (trace w') ∧
    (code = EXIT_SUCCESS ∧ clean_run K fuel (trace w') ∨ code = EXIT_FAILURE))
    (λ _ _, True)) (World g []).
Proof.
  unfold main.
  set (quiet := λ w : world ssys sandbox, Forall no_signal (trace w)).
  assert (Hpart : ∀ A (m : Controller A) (Q : outcome A → world ssys sandbox → Prop) w,
    Emits no_signal m → quiet w → (∀ o w', quiet w' → Q o w') → wp K m Q w).
  { intros A m Q w Hm Hw HQ. apply HQ. destruct (Hm K w) as (new & Htr & Hnew).
    unfold quiet. rewrite Htr. by apply Forall_app. }
  rewrite wp_bind. eapply Hpart; [solve_emits|by apply Forall_nil|].
  intros [self|h] w1 Hw1; [|done]. rewrite wp_bind. eapply Hpart; [apply _|exact Hw1|].
  intros [[options|]|h] w2 Hw2; [| |done].
  2:{ rewrite wp_bind. eapply Hpart; [apply _|exact Hw2|]. intros [[]|h] w3 Hw3; [|done].
      rewrite wp_ret. split; [by apply no_signal_signals|by right]. }
  rewrite wp_bind. eapply wp_mono; [by apply state_init_ready|].
  intros [r|h] w3 H3; [|done]. destruct H3 as [s Hw3]. case_bool_decide.
  { rewrite wp_ret. split; [apply no_signal_signals, Hw3|by right]. }
  rewrite wp_bind. eapply wp_mono; [by eapply main_run_spec|].
  intros [l|h] w4 Hw4; [|done]. by apply (cleanup_spec l).
Qed.

End meaning.

(** ** Properties *)

(** C5. The controller reports success only for a clean run: when [main] returns
    0, the child it forked was reaped with a normal exit of status 0, at some
    moment nothing of its workload was left, in the cgroup the controller made
    and put the child into or, without a cgroup, in the process tree, and no
    signal was ever sent; in every other case in which it returns, it
    returns 1. *)
Theorem sandbox_main_success K fuel argv g :
  wp K (main fuel argv) (post (λ code w',
    code = EXIT_SUCCESS ∧ clean_run K fuel (trace w') ∨ code = EXIT_FAILURE)
    (λ _ _, True)) (World g []).
Proof. eapply wp_mono; [apply main_run_meaning|]. intros [code|h] w'; [|done]. by intros [_ H]. Qed.

(** C6. The controller signals nobody but its workload: when [main] returns,
    every signal it sent in its run went to the child it forked, to the
    child's process group, or to one process that a reading of [/proc] showed
    to be the leader, a child of the controller or a descendant of one, and
    never to the controller itself. *)
Theorem sandbox_main_signals_only_workload K fuel argv g :
  wp K (main fuel argv) (post (λ _ w', signals_only_workload K (trace w'))
    (λ _ _, True)) (World g []).
Proof. eapply wp_mono; [apply main_run_meaning|]. intros [code|h] w'; [|done]. by intros [H _]. Qed.


(** ** Examples *)

(** The memory of a controller at its start. *)
Definition initial : sandbox :=
  Sandbox (State 0 0 0 false false false TERMINATION_NONE) 0.

Definition command : list (list byte) := [txt "Sandbox"; txt "/bin/true"].

Definition waits (tr : strace) : nat :=
  count_events (λ e, match e with Ev Waitpid_any _ => true | _ => false end) tr.

(** A child that is there to be reaped with status 0 the first time. *)
Definition exits_at_once (tr : strace) : waited :=
  if bool_decide (waits tr = 0%nat) then WaitChild 200 0 else WaitErr ECHILD.

Definition plain_run : kernel ssys :=
  scenario_kernel (Scenario (λ _, []) exits_at_once (λ _, (0, 0)) (λ _, []) (λ _, None)
    (λ _ _, None) 200).

Example plain_run_succeeds :
  (main 10 command plain_run (World initial [])).1 = Ret EXIT_SUCCESS.
Proof. vm_compute. reflexivity. Qed.

(** It keeps nothing. *)
Example plain_run_keeps_nothing :
  let tr := trace (main 10 command plain_run (World initial [])).2 in
  existsb (acquires Held_mutex) tr = true ∧
  existsb (acquires (Held_thread CpuMonitor)) tr = true ∧
  Forall (λ r, kept r tr = false)
    [Held_mutex; Held_thread TimeoutMonitor; Held_thread MemoryMonitor; Held_thread CpuMonitor;
     Held_descriptor 3; Held_descriptor 4].
Proof. split_and!; [vm_compute; reflexivity..|]. apply (bool_decide_unpack _). vm_compute. exact I. Qed.

Definition events_file : list byte :=
  txt "/sys/fs/cgroup/user.slice/st5039cmd-100/cgroup.events".

(** How often the membership of the cgroup was read. *)
Definition membership_reads (tr : strace) : nat :=
  count_events (λ e, match e with
    | Ev (Fopen path) _ => bool_decide (path = events_file)
    | _ => false
    end) tr.

(** A controller with a cgroup, whose child exits with status 0 after the
    controller looked for children to reap and before it looks into the
    cgroup, where a child that exited no longer counts. *)
Definition unlucky_run : kernel ssys :=
  scenario_kernel (Scenario (λ _, [])
    (λ tr, if bool_decide (membership_reads tr = 0%nat) then WaitNone else WaitChild 200 0)
    (λ _, (0, 0)) (λ _, []) (λ _, None)
    (λ _ path, if bool_decide (path = txt "/proc/self/cgroup")
               then Some (txt "0::/user.slice" ++ [LF])
               else if bool_decide (path = events_file)
               then Some (txt "populated 0" ++ [LF]) else None) 200).

(** The controller fails although the target ended normally and nothing was
    wrong: it does not reap again once the cgroup is empty, so the status of
    its child, still there to be collected, is not. *)
Example clean_exit_reported_as_failure :
  let r := main 10 command unlucky_run (World initial []) in
  r.1 = Ret EXIT_FAILURE ∧ signals_sent (trace r.2) = [] ∧
  termination_requested (sb_state (globals r.2)) = false ∧
  unlucky_run _ (trace r.2) Waitpid_any = WaitChild 200 0.
Proof. vm_compute. auto. Qed.

(** The timeout monitor's request comes just before the supervisor looks at the
    state, in the round in which it finds the workload gone. *)
Definition timed_out_run : kernel ssys :=
  scenario_kernel (Scenario
    (λ tr, if bool_decide (locks tr = 1%nat) then [Request TERMINATION_TIMEOUT] else [])
    exits_at_once (λ _, (0, 0)) (λ _, []) (λ _, None) (λ _ _, None) 200).

(** The controller reports success although a monitor's request for
    termination was recorded: it does not look at the request in the round in
    which it finds the workload gone. *)
Example timeout_reported_as_success :
  let r := main 10 command timed_out_run (World initial []) in
  r.1 = Ret EXIT_SUCCESS ∧
  termination_requested (sb_state (globals r.2)) = true ∧
  termination_reason (sb_state (globals r.2)) = TERMINATION_TIMEOUT.
Proof. vm_compute. auto. Qed.
