(* ===== verification/Termination.v ===== *)
(** * That the controller ends

    [main] of the sandbox returns, in bounded time, on a system that lets it:
    [Deadline] has the supervision, this file what comes before and after. *)

From S2P Require Import Prelude.
From S2P Require Import CLib.
From S2P Require Import SandboxSys.
From S2P Require Import Logger.
From S2P Require Import SandboxOptions.
From S2P Require Import MonitorState.
From S2P Require Import History.
From S2P Require Import ProcStat.
From S2P Require Import ProcessTree.
From S2P Require Import Cgroup.
From S2P Require Import SandboxChild.
From S2P Require Import Monitors.
From S2P Require Import Supervisor.
From S2P Require Import Supervision.
From S2P Require Import SandboxMain.
From S2P Require Import ControllerHistory.
From S2P Require Import Deadline.
From S2P Require Import SandboxRun.
Local Open Scope Z_scope.

Definition is_create (e : event ssys) : bool :=
  match e with Ev (Pthread_create _) _ => true | _ => false end.

(** What the controller asks of its system to be done some day: the mutex
    works, writing is not interrupted for ever, [fork] returns in the parent,
    the loops over children, directories and sleeps end, and nobody changes
    the shared state before there are other threads. *)
Record obliging (K : kernel ssys) (fuel : nat) : Prop := {
  obliging_locking : Locking K;
  obliging_reap status : returns_on K (reap_available_children fuel status);
  obliging_sample s c alive : returns_on K (process_tree_sample fuel s c alive);
  obliging_sleep : returns_on K (sleep_milliseconds fuel SUPERVISOR_POLL_MILLISECONDS);
  obliging_write tr fd data e : K _ tr (Write fd data) = Err e → is_eintr e = false;
  obliging_fork tr child : K _ tr Fork = Ok child → child ≠ 0;
  obliging_alone tr cs :
    existsb is_create tr = false → K _ tr Mutex_lock = Ok cs → cs = []
}.

(** What happens before there are other threads. *)
Definition early_event (e : event ssys) : Prop :=
  match e with
  | Ev Mutex_lock r => r = Ok []
  | Ev (Publish _) _ | Ev (Pthread_create _) _ | Ev (Nanosleep _ _) _ => False
  | _ => True
  end.

Definition early (w : world ssys sandbox) : Prop := Forall early_event (trace w).

(** ** Lemmas: early moments *)

Lemma early_history tr : Forall early_event tr → history tr = [].
Proof.
  induction 1 as [|[T c r] tr He _ IH]; [done|]. simpl. rewrite IH.
  destruct c; try done. simpl in *. by subst r.
Qed.

Lemma early_naps tr : Forall early_event tr → naps tr = 0.
Proof.
  intros H. unfold naps. rewrite count_events_none; [done|].
  eapply Forall_impl; [exact H|]. intros [T c r]. by destruct c.
Qed.

Lemma early_alone tr : Forall early_event tr → existsb is_create tr = false.
Proof.
  induction 1 as [|[T c r] tr He _ IH]; [done|]. simpl. rewrite IH. by destruct c.
Qed.

Lemma log_early e : is_log e → early_event e.
Proof. destruct e as [T c r]. by destruct c. Qed.
Lemma file_early e : is_file e → early_event e.
Proof. destruct e as [T c r]. by destruct c. Qed.

#[export] Instance logger_write_early {G} s level format args :
  Emits early_event (@logger_write G s level format args).
Proof. apply (emits_weaken is_log); [apply _|apply log_early]. Qed.
#[export] Instance logger_info_early {G} format args :
  Emits early_event (@logger_info G format args).
Proof. apply logger_write_early. Qed.
#[export] Instance logger_warn_early {G} format args :
  Emits early_event (@logger_warn G format args).
Proof. apply logger_write_early. Qed.
#[export] Instance logger_error_early {G} format args :
  Emits early_event (@logger_error G format args).
Proof. apply logger_write_early. Qed.
#[export] Instance read_signal_early : Emits early_event read_operator_signal.
Proof. unfold read_operator_signal. solve_emits. Qed.
#[export] Instance set_actions_early {G} l d : Emits early_event (@set_actions G l d).
Proof. induction l as [|n l IH]; cbn [set_actions]; solve_emits. Qed.
#[export] Instance handlers_early {G} : Emits early_event (@install_operator_signal_handlers G).
Proof. unfold install_operator_signal_handlers. solve_emits. Qed.
#[export] Instance subreaper_early {G} : Emits early_event (@enable_child_subreaper G).
Proof. unfold enable_child_subreaper. solve_emits. Qed.
#[export] Instance unlock_state_early : Emits early_event unlock_state.
Proof. unfold unlock_state. solve_emits. Qed.
#[export] Instance state_init_early : Emits early_event sandbox_state_init.
Proof. unfold sandbox_state_init, set_state. solve_emits. Qed.
#[export] Instance parse_options_early {G} argv : Emits early_event (@parse_options G argv).
Proof. unfold parse_options, parse_step, fprintf. solve_emits. Qed.
#[export] Instance write_text_file_early {G} fuel d n v :
  Emits early_event (@write_text_file G fuel d n v).
Proof. unfold write_text_file, write_retry. solve_emits. Qed.
#[export] Instance attach_early {G} fuel cgroup child :
  Emits early_event (@sandbox_cgroup_attach G fuel cgroup child).
Proof. unfold sandbox_cgroup_attach. solve_emits. Qed.
#[export] Instance release_child_early {G} fuel fd : Emits early_event (@release_child G fuel fd).
Proof. apply (emits_weaken is_file); [apply _|apply file_early]. Qed.
#[export] Instance prepare_early {G} fuel limit :
  Emits early_event (@sandbox_cgroup_prepare G fuel limit).
Proof.
  unfold sandbox_cgroup_prepare, prepare_memory, prepare_optional.
  assert (Emits early_event (@current_cgroup_directory G SANDBOX_CGROUP_PATH_CAPACITY)) as Hd
    by (apply (emits_weaken is_file); [apply _|apply file_early]).
  solve_emits.
Qed.

(** ** Lemmas: parts that return *)

#[export] Instance set_actions_returns {G} l d : Returns (@set_actions G l d).
Proof. induction l as [|n l IH]; cbn [set_actions]; solve_returns. Qed.
#[export] Instance handlers_returns {G} : Returns (@install_operator_signal_handlers G).
Proof. unfold install_operator_signal_handlers. solve_returns. Qed.
#[export] Instance subreaper_returns {G} : Returns (@enable_child_subreaper G).
Proof. unfold enable_child_subreaper. solve_returns. Qed.
#[export] Instance state_init_returns : Returns sandbox_state_init.
Proof. unfold sandbox_state_init, set_state. solve_returns. Qed.
#[export] Instance set_workload_returns pid pgid : Returns (sandbox_state_set_workload pid pgid).
Proof. unfold sandbox_state_set_workload, set_state. solve_returns. Qed.
#[export] Instance state_destroy_returns : Returns sandbox_state_destroy.
Proof. unfold sandbox_state_destroy. solve_returns. Qed.
#[export] Instance cgroup_destroy_returns {G} cgroup : Returns (@sandbox_cgroup_destroy G cgroup).
Proof. unfold sandbox_cgroup_destroy. solve_returns. Qed.
#[export] Instance close_end_returns {G} fd : Returns (@close_end G fd).
Proof. unfold close_end. solve_returns. Qed.
#[export] Instance join_monitor_returns {G} started m message :
  Returns (@join_monitor G started m message).
Proof. unfold join_monitor. solve_returns. Qed.
#[export] Instance report_returns {G} status reason : Returns (@report_child_status G status reason).
Proof. unfold report_child_status. solve_returns. Qed.
#[export] Instance final_report_returns l status finished reason :
  Returns (final_report l status finished reason).
Proof. unfold final_report. solve_returns. Qed.
#[export] Instance start_monitor_returns m message : Returns (start_monitor m message).
Proof. unfold start_monitor. solve_returns. Qed.

Section obliged.
Context (K : kernel ssys) (fuel : nat) (Hob : obliging K fuel).
Hypothesis Hfuel : (101 ≤ fuel)%nat.

(** The loops that repeat an interrupted write run once. *)
Lemma write_loop_returns fd data :
  returns_on K (loop fuel (λ _ : unit,
    let* r := call (Write fd data) in
    match r with
    | Err e => if is_eintr e then ret (inl tt) else ret (inr (Err e))
    | Ok n => ret (inr (Ok n))
    end) tt : Controller (res nat)).
Proof.
  intros w. destruct fuel as [|f]; [lia|]. cbn [loop]. unfold bind, call.
  destruct (K _ (trace w) (Write fd data)) as [n|e] eqn:E; [by eexists|].
  rewrite (obliging_write _ _ Hob _ _ _ _ E). by eexists.
Qed.

Lemma write_text_file_returns directory name value :
  returns_on K (write_text_file fuel directory name value : Controller _).
Proof.
  unfold write_text_file.
  repeat first [apply write_loop_returns | returns_on_step].
Qed.

Lemma release_child_returns fd : returns_on K (release_child fuel fd : Controller _).
Proof.
  unfold release_child. apply returns_on_bind; [apply write_loop_returns|intros r].
  repeat returns_on_step.
Qed.

Lemma attach_returns cgroup child :
  returns_on K (sandbox_cgroup_attach fuel cgroup child : Controller _).
Proof.
  unfold sandbox_cgroup_attach.
  repeat first [apply write_text_file_returns | returns_on_step].
Qed.

Lemma prepare_returns limit : returns_on K (sandbox_cgroup_prepare fuel limit : Controller _).
Proof.
  unfold sandbox_cgroup_prepare, prepare_memory, prepare_optional.
  repeat first [apply write_text_file_returns | returns_on_step].
Qed.

Lemma obliging_responsive cgroup : responsive K fuel cgroup.
Proof.
  split; [apply Hob..|]. unfold sandbox_cgroup_kill.
  repeat first [apply write_text_file_returns | returns_on_step].
Qed.

(** ** Lemmas: up to the monitors *)

(** A part before there are other threads. *)
Lemma wp_early {A} (m : Controller A) (Q : outcome A → world ssys sandbox → Prop) s w :
  returns_on K m → Emits early_event m → Emits no_signal m → Moves state_evolves m →
  ready s w → early w →
  (∀ a w', m K w = (Ret a, w') → ready s w' → early w' → Q (Ret a) w') → wp K m Q w.
Proof.
  intros Hr He Hn Hm Hw Hearly HQ. apply (wp_returns_on K); [done|]. intros a w' E.
  apply HQ; [done| |].
  - pose proof (wp_ready K m (λ _ w', ready s w') s w Hn Hm Hw ltac:(done)) as H.
    unfold wp in H. by rewrite E in H.
  - destruct (He K w) as (new & Htr & Hnew). rewrite E in Htr. simpl in Htr.
    unfold early. rewrite Htr. by apply Forall_app.
Qed.

(** The same while the child is set up. *)
Lemma wp_before {A} (m : Controller A) (Q : outcome A → world ssys sandbox → Prop) w :
  returns_on K m → Emits early_event m → Keeps sb_state m → early w →
  (∀ a w', early w' → sb_state (globals w') = sb_state (globals w) → Q (Ret a) w') → wp K m Q w.
Proof.
  intros Hr He Hk Hw HQ. apply (wp_returns_on K); [done|]. intros a w' E. apply HQ.
  - destruct (He K w) as (new & Htr & Hnew). rewrite E in Htr. simpl in Htr.
    unfold early. rewrite Htr. by apply Forall_app.
  - specialize (Hk K w). by rewrite E in Hk.
Qed.

#[export] Instance read_signal_keeps_state : Keeps sb_state read_operator_signal.
Proof.
  intros K' w'. unfold read_operator_signal, bind, call, modify, get. simpl.
  by rewrite handle_signals_state.
Qed.

Lemma set_workload_early c w :
  early w →
  wp K (sandbox_state_set_workload c c) (post (λ r w', early w' ∧
    (r = 0 → can_request (sb_state (globals w')) = true)) (λ _ _, False)) w.
Proof.
  intros Hw. unfold sandbox_state_set_workload, lock_state, unlock_state, set_state.
  case_bool_decide; wp_steps; [by split|].
  pose proof (obliging_locking _ _ Hob) as HK. destruct (locking_lock (trace w)) as [cs E].
  assert (cs = []) as -> by (eapply (obliging_alone _ _ Hob); [by apply early_alone|exact E]).
  rewrite E. wp_steps. rewrite bool_decide_false by auto. wp_steps.
  rewrite locking_unlock, bool_decide_false by auto. wp_steps.
  split; [|done]. unfold early. simpl. by repeat constructor.
Qed.

Ltac before Hw :=
  wp_steps; eapply wp_before;
    [first [apply release_child_returns | apply attach_returns
           | apply returns_on_returns; solve [solve_returns]]
    |solve_emits|first [apply _ | solve_keeps]|exact Hw|].

Lemma early_event_cons e (g : sandbox) w : early_event e → early w → early (World g (e :: trace w)).
Proof. intros He Hw. by constructor. Qed.

Lemma set_up_early cgroup fd c w :
  early w →
  wp K (set_up_child fuel cgroup fd c) (post (λ r w', early w' ∧
    (r ≠ None → can_request (sb_state (globals w')) = true)) (λ _ _, False)) w.
Proof.
  intros Hw. unfold set_up_child. wp_steps. set (w1 := World _ _).
  assert (early w1) as Hw1 by by apply early_event_cons. clearbody w1.
  before Hw1. intros reason w2 Hw2 _.
  wp_steps. eapply wp_mono; [by apply set_workload_early|].
  intros [r3|h] w3 H3; [|done]. destruct H3 as [Hw3 Halive].
  case_bool_decide as Hr3.
  { before Hw3. intros [] w4 Hw4 _. wp_steps. split; [|done].
    by do 2 constructor. }
  specialize (Halive ltac:(lia)).
  eapply wp_before; [|solve_emits| |exact Hw3|].
  - repeat first [ apply attach_returns | apply release_child_returns | returns_on_step ].
  - unfold sandbox_cgroup_attach, release_child. solve_keeps. apply keeps_part, _.
  - intros r4 w4 Hw4 E. split; [done|]. intros _. by rewrite E.
Qed.

(** ** Lemmas: from the set-up to the [cleanup] label *)

(** The time slept since the start of [main]. *)
Definition slept (w : world ssys sandbox) : Z := SUPERVISOR_POLL_MILLISECONDS * naps (trace w).

(** The thread was created. *)
Definition created (m : monitor) (tr : strace) : Prop := happened (Pthread_create m) 0 tr.

Definition creates (m : monitor) (e : event ssys) : bool :=
  match e with
  | Ev (Pthread_create m') r => bool_decide (m' = m ∧ r = 0)
  | _ => false
  end.

#[export] Instance created_dec m tr : Decision (created m tr).
Proof.
  unfold created, happened. destruct (existsb (creates m) tr) eqn:E; [left|right].
  - apply existsb_exists in E as ([T c r] & Hin%list_elem_of_In & He). destruct c; try done.
    simpl in He. apply bool_decide_eq_true in He as [-> ->]. exact Hin.
  - intros Hin. apply not_true_iff_false in E. apply E, existsb_exists.
    eexists. split; [by apply list_elem_of_In|]. simpl. by apply bool_decide_eq_true.
Defined.

(** If the timeout monitor was created, the controller finds the state closed
    after [n] sleeps. *)
Definition told (n : Z) (tr : strace) : Prop := created TimeoutMonitor tr → pressed n tr.

Definition ends_by (n : Z) {A} (o : outcome A) (w : world ssys sandbox) : Prop :=
  unmarked (trace w) → told n (trace w) →
  ∃ a, o = Ret a ∧ 0 ≤ slept w < SUPERVISOR_POLL_MILLISECONDS * n + termination_milliseconds.

Lemma told_extends n tr tr' : extends tr tr' → told n tr' → told n tr.
Proof.
  intros He H Hc. eapply pressed_extends; [exact He|]. apply H. by eapply happened_extends.
Qed.

Lemma closed_pressed t tr : naps t = 0 → closed (history t) → extends t tr → pressed 1 tr.
Proof.
  intros H0 Hc [new ->]. induction new as [|e new IH]; cbn [app].
  - clear Hc. revert H0. induction t as [|e t IH]; intros H0; [done|].
    assert (naps t = 0) as Ht.
    { unfold naps in *. rewrite count_events_cons in H0. lia. }
    split; [|by apply IH]. destruct e as [T c r]. destruct c; try done. destruct r; [|done].
    intros Hn. lia.
  - split; [|exact IH]. destruct e as [T c r]. destruct c; try done. destruct r; [|done].
    intros _. unfold closed in *. cbn [history]. rewrite history_app.
    apply Exists_app. left. apply Exists_app. by left.
Qed.

Lemma pressed_later n n' tr : n ≤ n' → pressed n tr → pressed n' tr.
Proof.
  intros Hle. induction tr as [|[T c r] tr IH]; [done|]. intros [H1 H2]. split; [|by apply IH].
  destruct c; try done. destruct r; [|done]. intros Hn. apply H1. lia.
Qed.

(** A monitor that cannot be created is a reason to end the workload. *)
Lemma start_monitor_closes m message w :
  naps (trace w) = 0 → can_request (sb_state (globals w)) = true →
  wp K (start_monitor m message) (λ _ w', created m (trace w') ∨
    naps (trace w') = 0 ∧ closed (history (trace w'))) w.
Proof.
  intros H0 Hs. pose proof (obliging_locking _ _ Hob) as HK. unfold start_monitor. wp_steps.
  set (r := K Z (trace w) (Pthread_create m)). wp_decide Hr; wp_steps.
  2:{ left. apply dec_stable in Hr. rewrite Hr. apply happened_here. }
  apply wp_logger_write. intros logs Hlogs. cbn [globals trace]. wp_steps.
  set (t := logs ++ _). assert (naps t = 0) as Ht.
  { subst t. rewrite naps_none; [|eapply Forall_impl; [exact Hlogs|]; by intros [? []]].
    rewrite <- H0. by apply (naps_none _ [_]); repeat constructor. }
  apply wp_request_locking; [done..| |]; cbn [globals trace].
  - intros cs r' _. wp_steps. right. split.
    + rewrite <- Ht. by apply (naps_none _ [_; _; _]); repeat constructor.
    + unfold closed. cbn [history enacted_by]. rewrite app_nil_r. apply Exists_app. right. by left.
  - intros cs Hcs. wp_steps. right. split.
    + rewrite <- Ht. by apply (naps_none _ [_; _]); repeat constructor.
    + unfold closed. cbn [history enacted_by]. rewrite app_nil_r. apply Exists_app. right.
      apply changes_can_request in Hcs as [Hcs|Hcs]; [congruence|]. by apply Exists_fmap.
Qed.

Lemma monitored_told options cgroup reason w :
  naps (trace w) = 0 → can_request (sb_state (globals w)) = true →
  wp K (monitor_and_supervise fuel options cgroup reason) (λ _ w',
    created TimeoutMonitor (trace w') ∨ pressed 1 (trace w')) w.
Proof.
  intros H0 Hs. unfold monitor_and_supervise. rewrite wp_bind.
  eapply wp_mono; [by apply start_monitor_closes|]. intros o w1 H1.
  assert (∀ tr, extends (trace w1) tr → created TimeoutMonitor tr ∨ pressed 1 tr) as Hrest.
  { intros tr He. destruct H1 as [H1|[H1 Hc]]; [left; by eapply happened_extends|].
    right. by eapply closed_pressed. }
  destruct o as [t|h]; [|by apply Hrest, extends_refl].
  eapply wp_mono; [apply accounts_extends; unfold start_monitor, end_workload; solve_accounts|].
  intros o w2 He. by apply Hrest.
Qed.

Lemma monitored_ends n options cgroup reason s c w :
  1 ≤ n < Z.of_nat fuel → 0 < c → supervises s c (globals w) → early w →
  can_request (sb_state (globals w)) = true →
  wp K (monitor_and_supervise fuel options cgroup reason) (ends_by n) w.
Proof.
  intros Hn Hc Hs Hw Hopen. pose proof Hopen as [Halive _]%can_request_true.
  pose proof (early_history _ Hw) as Hh. pose proof (early_naps _ Hw) as H0.
  assert (on_watch (sb_state (globals w)) w) as Hon.
  { split; rewrite Hh; [done|]. by intros ?%elem_of_nil. }
  assert (informed s c no_status w) as Hinf by by split.
  pose proof (obliging_locking _ _ Hob) as HK. pose proof (obliging_responsive cgroup) as Hresp.
  destruct (decide (reason = TERMINATION_NONE)) as [->|Hr].
  - eapply wp_mono; [apply wp_conj; [by apply (monitored_told options cgroup TERMINATION_NONE)|
      eapply (monitored_pressed K s c fuel cgroup (sb_state (globals w))) with (n := n);
      first [done|lia]]|].
    intros o w' [Htold H] Hno Hn'. assert (pressed n (trace w')) as Hp.
    { destruct Htold as [Hcr|Hp]; [by apply Hn'|]. eapply pressed_later; [|exact Hp]. lia. }
    destruct (H Hno Hp) as (l & Ho & _ & Hs'). exists l. split; [done|].
    unfold time_slept, slept in *. rewrite H0 in Hs'. lia.
  - eapply wp_mono; [by eapply (monitored_terminated K s c fuel cgroup (sb_state (globals w)))|].
    intros [l|h] w' H; [|done]. intros _ _. exists l. split; [done|].
    unfold slept, time_slept, SUPERVISOR_POLL_MILLISECONDS in *. simpl in H. rewrite H0 in H. lia.
Qed.

Lemma early_ends {A} n (a : A) w : 0 ≤ n → early w → ends_by n (Ret a) w.
Proof.
  intros Hn Hw _ _. exists a. split; [done|]. unfold slept. rewrite (early_naps _ Hw).
  unfold termination_milliseconds, TERMINATION_GRACE_MILLISECONDS, FORCE_KILL_WAIT_MILLISECONDS,
    SUPERVISOR_POLL_MILLISECONDS. lia.
Qed.

Lemma main_parent_ends n options cgroup launch_read launch_write s c w :
  1 ≤ n < Z.of_nat fuel → fresh s w → early w →
  wp K (main_parent fuel options cgroup launch_read launch_write c) (ends_by n) w.
Proof.
  intros Hn Hs Hw. unfold main_parent. rewrite wp_bind, wp_call. set (w1 := World _ _).
  assert (early w1) as Hw1 by by apply early_event_cons.
  assert (fresh s w1) as Hs1 by done. clearbody w1. rewrite wp_bind.
  eapply wp_mono; [apply wp_conj; [by apply (set_up_spec K fuel s)|by apply set_up_early]|].
  intros [[reason|]|h] w2 [Hup H2]; [| |done].
  2:{ rewrite wp_ret. apply early_ends; [lia|apply H2]. }
  destruct H2 as [Hw2 Halive], Hup as (Hc & Hs2 & _). specialize (Halive ltac:(done)).
  rewrite wp_bind, wp_call. set (w3 := World _ _).
  assert (early w3) as Hw3 by by apply early_event_cons.
  assert (sb_state (globals w3) = sb_state (globals w2)) as E3 by done. clearbody w3.
  rewrite wp_bind, wp_call. set (w4 := World _ _).
  assert (early w4) as Hw4 by by apply early_event_cons.
  assert (sb_state (globals w4) = sb_state (globals w2)) as E4 by done. clearbody w4.
  before Hw4. intros [] w5 Hw5 E5. before Hw5. intros [] w6 Hw6 E6. wp_steps.
  assert (sb_state (globals w6) = sb_state (globals w2)) as E by congruence.
  apply (monitored_ends n options cgroup reason s c); [done|done| |done|].
  - unfold supervises in *. by rewrite E.
  - by rewrite E.
Qed.

Ltac early_part Hw :=
  cbn beta iota; rewrite wp_bind; eapply wp_early;
    [first [apply prepare_returns | apply returns_on_returns; solve [solve_returns]]
    |solve_emits|solve_emits|solve_moves|apply Hw|apply Hw|].

Lemma main_run_ends n options supervisor s w :
  1 ≤ n < Z.of_nat fuel → ready s w ∧ early w →
  wp K (main_run fuel options supervisor) (ends_by n) w.
Proof.
  intros Hn Hw. unfold main_run.
  assert (Hdone : ∀ w1 cgroup pipe, early w1 → ends_by n (Ret (not_started cgroup pipe)) w1)
    by (intros; apply early_ends; [lia|done]).
  early_part Hw. intros [] w1 _ Hr1 He1; cbn [negb]; [|by apply Hdone].
  assert (ready s w1 ∧ early w1) as Hw1 by done.
  early_part Hw1. intros [u|e] w2 _ Hr2 He2; assert (ready s w2 ∧ early w2) as Hw2 by done.
  2:{ early_part Hw2. intros [] w3 _ _ He3. by apply Hdone. }
  early_part Hw2. intros [] w3 _ Hr3 He3. assert (ready s w3 ∧ early w3) as Hw3 by done.
  cbn beta iota. rewrite wp_bind.
  eapply wp_early; [by apply prepare_returns|apply _| |apply moves_keeps; [apply _|]|done|done|];
    [unfold sandbox_cgroup_prepare, prepare_memory, prepare_optional; solve [solve_emits]
    |unfold sandbox_cgroup_prepare, prepare_memory, prepare_optional; solve [solve_keeps]|].
  intros [r cgroup] w4 _ Hr4 He4. rewrite wp_bind, wp_call.
  set (w5 := World _ _).
  assert (ready s w5 ∧ early w5) as Hw5 by (split; [by apply ready_event|by apply early_event_cons]).
  destruct (K _ (trace w4) Pipe2) as [[a b]|e] eqn:Epipe; clearbody w5.
  2:{ early_part Hw5. intros [] w6 _ _ He6. by apply Hdone. }
  rewrite wp_bind, wp_call. set (w6 := World _ _).
  assert (ready s w6 ∧ early w6) as Hw6.
  { destruct Hw5. split; [by apply ready_event|by apply early_event_cons]. }
  destruct (K _ (trace w5) Fork) as [child|e] eqn:Efork; clearbody w6.
  2:{ early_part Hw6. intros [] w7 _ _ He7. by apply Hdone. }
  rewrite wp_bind, bool_decide_false by (by eapply (obliging_fork _ _ Hob)).
  rewrite wp_ret. by apply (main_parent_ends n _ _ _ _ s); [|apply Hw6..].
Qed.

(** ** Lemmas: after the [cleanup] label *)

(** A part that returns and does not sleep. *)
Lemma wp_awake_returns {A} (m : Controller A) (Q : outcome A → world ssys sandbox → Prop) w :
  Returns m → Emits awake m →
  (∀ a w', m K w = (Ret a, w') → naps (trace w') = naps (trace w) → Q (Ret a) w') → wp K m Q w.
Proof.
  intros Hr He HQ. apply (wp_returns_on K); [by apply returns_on_returns|]. intros a w' E.
  apply HQ; [done|]. destruct (He K w) as (new & Htr & Hnew). rewrite E in Htr. simpl in Htr.
  rewrite Htr. by apply naps_none.
Qed.

(** The same, with what is known of the workload. *)
Lemma wp_live_returns {A} (m : Controller A) (Q : outcome A → world ssys sandbox → Prop) l w :
  Returns m → Emits awake m → Emits no_signal m → Moves state_evolves m → facts_at K fuel l w →
  (∀ a w', facts_at K fuel l w' → naps (trace w') = naps (trace w) → Q (Ret a) w') → wp K m Q w.
Proof.
  intros Hr He Hn Hm Hw HQ. apply wp_awake_returns; [done|done|]. intros a w' E Hnaps.
  apply HQ; [|done].
  pose proof (wp_live K fuel m (λ _ w', facts_at K fuel l w') l w Hn Hm Hw ltac:(done)) as H.
  unfold wp in H. by rewrite E in H.
Qed.

Lemma finish_slept l w :
  facts_at K fuel l w →
  wp K (finish_workload fuel l)
    (post (λ _ w', 0 ≤ time_slept w w' < termination_milliseconds) (λ _ _, False)) w.
Proof.
  intros Hw. unfold finish_workload.
  destruct (child_started l && negb (workload_finished l)) eqn:Eb; wp_steps.
  2:{ cbn [post]. unfold time_slept. rewrite Z.sub_diag. by vm_compute. }
  apply andb_true_iff in Eb as [Es _].
  eapply wp_live_returns; [apply _|apply _|solve_emits|solve_moves|exact Hw|]. intros [] w1 Hw1 Hn1. wp_steps.
  destruct Hw1 as (_ & _ & Hstarted). destruct (Hstarted Es) as (s & c & Hs & _ & _ & Hc & Ht & _).
  eapply wp_mono; [eapply (terminate_slept K s c fuel (l_cgroup l)); [apply obliging_responsive|done|by split]|].
  intros [[st b]|h] w2 H2; wp_steps; [|done]. cbn [post]. unfold time_slept in *. by rewrite <- Hn1.
Qed.

#[local] Instance join_awake started m message :
  Emits awake (join_monitor started m message : Controller _).
Proof. unfold join_monitor. solve_emits. Qed.
#[local] Instance final_report_awake l status finished reason :
  Emits awake (final_report l status finished reason).
Proof. unfold final_report, report_child_status. solve_emits. Qed.
#[local] Instance destroy_awake cgroup :
  Emits awake (sandbox_cgroup_destroy cgroup : Controller _).
Proof. unfold sandbox_cgroup_destroy. solve_emits. Qed.
#[local] Instance state_destroy_awake : Emits awake sandbox_state_destroy.
Proof. unfold sandbox_state_destroy. solve_emits. Qed.

Ltac awake_part :=
  wp_steps; eapply wp_awake_returns; [solve [solve_returns]|solve_emits|].

Lemma cleanup_slept l w :
  facts_at K fuel l w →
  wp K (main_cleanup fuel l)
    (post (λ _ w', 0 ≤ time_slept w w' < termination_milliseconds) (λ _ _, False)) w.
Proof.
  intros Hw. unfold main_cleanup. wp_steps.
  eapply wp_live_returns; [apply _|unfold close_end; solve_emits|apply _|solve_moves|exact Hw|].
  intros [] w1 Hw1 Hn1. wp_steps.
  eapply wp_live_returns; [apply _|unfold close_end; solve_emits|apply _|solve_moves|exact Hw1|].
  intros [] w2 Hw2 Hn2. wp_steps.
  eapply wp_mono; [by apply finish_slept|].
  intros [[[status finished] reason]|h] w3 H3; [|done].
  cbn [post] in H3. unfold time_slept in *.
  awake_part. intros [] w4 _ Hn4. awake_part. intros [] w5 _ Hn5. awake_part. intros [] w6 _ Hn6.
  awake_part. intros [] w7 _ Hn7. awake_part. intros code w8 _ Hn8. awake_part. intros [] w9 _ Hn9.
  awake_part. intros r w10 _ Hn10. wp_steps. cbn [post].
  by rewrite Hn10, Hn9, Hn8, Hn7, Hn6, Hn5, Hn4, <- Hn1, <- Hn2.
Qed.

(** ** Lemmas: [main] *)

Definition opening (w : world ssys sandbox) : Prop :=
  early w ∧ Forall no_signal (trace w).

Lemma wp_opening {A} (m : Controller A) (Q : outcome A → world ssys sandbox → Prop) w :
  Returns m → Emits early_event m → Emits no_signal m → opening w →
  (∀ a w', m K w = (Ret a, w') → opening w' → Q (Ret a) w') → wp K m Q w.
Proof.
  intros Hr He Hn [H1 H2] HQ. apply (wp_returns_on K); [by apply returns_on_returns|].
  intros a w' E. apply HQ; [done|].
  destruct (He K w) as (new & Htr & Hnew), (Hn K w) as (new' & Htr' & Hnew').
  rewrite E in Htr, Htr'. simpl in Htr, Htr'.
  split; [unfold early; rewrite Htr|rewrite Htr']; by apply Forall_app.
Qed.

(** The controller's wait for its workload and the one while cleaning up. *)
Definition in_time (n : Z) (o : outcome Z) (w : world ssys sandbox) : Prop :=
  unmarked (trace w) → told n (trace w) →
  ∃ code, o = Ret code ∧
    0 ≤ slept w < SUPERVISOR_POLL_MILLISECONDS * n + 2 * termination_milliseconds.

Lemma early_in_time n code w : 0 ≤ n → early w → in_time n (Ret code) w.
Proof.
  intros Hn Hw Hno Hp. destruct (early_ends n code w Hn Hw Hno Hp) as (a & Ha & Hs).
  exists a. split; [done|]. unfold termination_milliseconds, TERMINATION_GRACE_MILLISECONDS,
    FORCE_KILL_WAIT_MILLISECONDS, SUPERVISOR_POLL_MILLISECONDS in *. lia.
Qed.

#[local] Instance close_end_accounts fd : Accounts (close_end fd).
Proof. unfold close_end. solve_accounts. Qed.
#[local] Instance cleanup_accounts l : Accounts (main_cleanup fuel l).
Proof.
  unfold main_cleanup, finish_workload, join_monitor, final_report, report_child_status,
    sandbox_cgroup_destroy, sandbox_state_destroy. solve_accounts.
Qed.

Lemma cleanup_in_time n l w :
  facts_at K fuel l w → ends_by n (Ret l) w → wp K (main_cleanup fuel l) (in_time n) w.
Proof.
  intros Hw Hl. eapply wp_mono; [apply wp_conj; [by apply cleanup_slept|apply accounts_extends, _]|].
  intros [code|h] w' [H He]; [|done]. intros Hno Hp. exists code. split; [done|].
  destruct (Hl (unmarked_extends _ _ He Hno) (told_extends _ _ _ He Hp)) as (_ & _ & Hs).
  cbn [post] in H. unfold slept, time_slept in *. lia.
Qed.

#[local] Instance parse_options_returns argv : Returns (parse_options argv : Controller _).
Proof.
  unfold parse_options. apply returns_bind; [|intros r; solve_returns].
  intros K' w. pose proof (parse_loop_spec K' argv w) as H. unfold wp, post in H.
  by destruct (loop _ _ _ K' w).1; [eexists|].
Qed.

Lemma main_in_time n argv g :
  1 ≤ n < Z.of_nat fuel → wp K (main fuel argv) (in_time n) (World g []).
Proof.
  intros Hn. unfold main. rewrite wp_bind, wp_call. set (w1 := World _ (_ :: _)).
  assert (opening w1) as Hw1 by (split; by repeat constructor). clearbody w1.
  rewrite wp_bind. eapply wp_opening; [apply _|apply _|apply _|exact Hw1|].
  intros [options|] w2 _ Hw2.
  2:{ rewrite wp_bind. eapply wp_opening; [unfold print_usage, fprintf; solve [solve_returns]
        |unfold print_usage, fprintf; solve [solve_emits]|apply _|exact Hw2|].
      intros [] w3 _ Hw3. rewrite wp_ret. apply early_in_time; [lia|apply Hw3]. }
  rewrite wp_bind. eapply wp_mono.
  { apply wp_conj; [apply state_init_ready, Hw2|].
    eapply (wp_opening sandbox_state_init (λ o w', (∃ a, o = Ret a) ∧ opening w')); [apply _|apply _|unfold sandbox_state_init, set_state; solve_emits|exact Hw2|].
    intros a w' _ Hw'. split; [by eexists|done]. }
  intros o w3 [Hs [[r ->] Hw3]]. destruct Hs as [s Hs]. case_bool_decide.
  { rewrite wp_ret. apply early_in_time; [lia|apply Hw3]. }
  rewrite wp_bind. eapply wp_mono; [apply wp_conj; [by eapply main_run_spec|
    apply (main_run_ends n options _ s); [done|split; [exact Hs|apply Hw3]]]|].
  intros [l|h] w4 [Hfacts Hends]; [by apply cleanup_in_time|].
  intros Hno Hp. by destruct (Hends Hno Hp) as (a & [=] & _).
Qed.

End obliged.

(** ** The end *)

(** The controller ends: on a system that obliges it, [main] returns 0 or
    1 whatever else happens, if, should it have created the timeout monitor,
    from some moment on, [n] of its sleeps after the start, the shared state
    whenever it looks has a request for termination.  Until then it slept less than the [n] intervals and the two
    terminations that it may try, of at most 6.1 seconds each. *)
Lemma main_ends K fuel argv n g o w' :
  obliging K fuel → (101 ≤ fuel)%nat → 1 ≤ n < Z.of_nat fuel →
  main fuel argv K (World g []) = (o, w') → unmarked (trace w') → told n (trace w') →
  (o = Ret EXIT_SUCCESS ∨ o = Ret EXIT_FAILURE) ∧ 0 ≤ slept w' < 50 * n + 12200.
Proof.
  intros Hob Hfuel Hn Hrun Hno Hp.
  pose proof (main_in_time K fuel Hob Hfuel n argv g Hn) as H.
  pose proof (main_run_meaning K fuel argv g) as Hcode. unfold wp in H, Hcode.
  rewrite Hrun in H, Hcode. cbn [fst snd post] in *. destruct (H Hno Hp) as (code & -> & Hs).
  split; [|exact Hs]. destruct Hcode as [_ [[-> _]| ->]]; auto.
Qed.

(** ** An example *)

(** A workload in a cgroup that sleeps until it is killed; the controller hears
    of the timeout after having locked the mutex [k] times. *)
Definition sleeping_workload (k : nat) : kernel ssys :=
  scenario_kernel (Scenario
    (λ tr, if bool_decide (locks tr = k) && existsb is_create tr
           then [Request TERMINATION_TIMEOUT] else [])
    (λ _, WaitNone) (λ _, (0, 0)) (λ _, []) (λ _, None)
    (λ tr path, if bool_decide (path = txt "/proc/self/cgroup")
                then Some (txt "0::/user.slice" ++ [LF])
                else if bool_decide (path = events_file)
                then Some (txt (if has_kill tr then "populated 0" else "populated 1") ++ [LF])
                else None) 200).

Lemma sleeping_obliging k : obliging (sleeping_workload k) 101.
Proof.
  split.
  - apply scenario_locking.
  - intros status w. by eexists.
  - intros s c alive w. unfold process_tree_sample. case_bool_decide; by eexists.
  - intros w. by eexists.
  - by intros.
  - by intros tr child [= <-].
  - intros tr cs Hno [= <-]. by rewrite Hno, andb_false_r.
Qed.
