(* ===== verification/Threads.v ===== *)
(** * The threads of the controller together

    [main] with its three monitors, as runs of four programs that agree on one
    order of their changes of the shared state.  What one thread relies on is
    what the others guarantee. *)

From S2P Require Import Prelude.
From S2P Require Import CLib.
From S2P Require Import SandboxSys.
From S2P Require Import Logger.
From S2P Require Import SandboxOptions.
From S2P Require Import MonitorState.
From S2P Require Import History.
From S2P Require Import ProcStat.
From S2P Require Import ProcessTree.
From S2P Require Import Cgroup.
From S2P Require Import SandboxChild.
From S2P Require Import Monitors.
From S2P Require Import Supervisor.
From S2P Require Import Supervision.
From S2P Require Import SandboxMain.
From S2P Require Import ControllerHistory.
From S2P Require Import Deadline.
From S2P Require Import SandboxRun.
From S2P Require Import Termination.
From S2P Require Import Grounds.
Local Open Scope Z_scope.

Inductive thread : Type :=
  | Controller_thread
  | Monitor_thread (m : monitor).

#[export] Instance thread_eq_dec : EqDecision thread.
Proof. solve_decision. Defined.

(** The changes of the shared state in their order, with who made them. *)
Notation schedule := (list (thread * state_change)).

(** A part of the schedule, as [t] sees it. *)
Definition view (t : thread) (part : schedule) : list enacted :=
  (λ x, if decide (x.1 = t) then Own x.2 else Theirs x.2) <$> part.

(** The thread [t] with the history [h] takes part in the schedule: it sees
    everything between its start and its last look, and has no part in the
    rest. *)
Definition takes_part (t : thread) (h : list enacted) (sched : schedule) : Prop :=
  ∃ before during after, sched = before ++ during ++ after ∧ h = view t during ∧
    Forall (λ x, x.1 ≠ t) (before ++ after).

(** The monitor with the trace [monitor_trace] is at most [lag] milliseconds
    behind the controller: a controller that slept for longer than the monitor
    did in all, and the lag, and gets the mutex with the trace [tr] so far,
    knows whatever the monitor knew. *)
Fixpoint keeps_up (lag : Z) (monitor_trace tr : strace) : Prop :=
  match tr with
  | [] => True
  | e :: before =>
      match e with
      | Ev Mutex_lock (Ok _) =>
          MONITOR_POLL_MILLISECONDS * sleeps monitor_trace + lag ≤
            SUPERVISOR_POLL_MILLISECONDS * naps before →
          Forall (λ x, enacted_change x ∈ enacted_change <$> history tr) (history monitor_trace)
      | _ => True
      end ∧ keeps_up lag monitor_trace before
  end.

#[export] Instance keeps_up_dec lag m tr : Decision (keeps_up lag m tr).
Proof.
  induction tr as [|[T c r] tr IH]; [apply _|]. apply and_dec; [|exact IH].
  destruct c; try apply _. destruct r; apply _.
Defined.

(** A kernel under which a monitor keeps time: its mutex and its sleeping work,
    and its clock shows the sleeps. *)
Record timekeeping (K : kernel ssys) : Prop := {
  timekeeping_lock : Locking K;
  timekeeping_sleep : sleeps_through K;
  timekeeping_clock : clock_advances K MONITOR_POLL_MILLISECONDS
}.

(** A thread that was never created. *)
Definition absent (t : thread) (sched : schedule) : Prop := Forall (λ x, x.1 ≠ t) sched.

(** ** What each thread changes *)

Definition monitor_changes (m : monitor) (c : state_change) : Prop :=
  c = Request TERMINATION_MONITOR_ERROR ∨
  match m with
  | TimeoutMonitor => c = Request TERMINATION_TIMEOUT
  | MemoryMonitor => c = Request TERMINATION_MEMORY_LIMIT
  | CpuMonitor => False
  end.

#[export] Instance monitor_publishes percent fuel options cgroup m :
  Emits (publishes (monitor_changes m)) (monitor_program percent fuel options cgroup m).
Proof.
  assert (monitor_changes m (Request TERMINATION_MONITOR_ERROR)) as Herror by by left.
  assert (∀ f a, Emits (publishes (monitor_changes m)) (monitor_error f a))
    by (intros; by apply monitor_error_publishes).
  assert (∀ S f p message (s : S), Emits (publishes (monitor_changes m)) (monitor_sleep f p message s))
    by (intros; by apply monitor_sleep_publishes).
  destruct m; cbn [monitor_program].
  - unfold timeout_monitor_thread, timeout_step. solve_emits.
    apply request_publishes. by right.
  - unfold memory_monitor_thread, memory_monitor_step, check_memory.
    assert (∀ sn, Emits (publishes (monitor_changes MemoryMonitor)) (measure_memory fuel cgroup sn))
      by (intros; by apply measure_memory_publishes).
    solve_emits. apply request_publishes. by right.
  - unfold cpu_monitor_thread, cpu_step. solve_emits.
Qed.

(** ** Lemmas: schedules *)

Lemma own_in_view t c part : Own c ∈ view t part → (t, c) ∈ part.
Proof.
  intros ([t' c'] & Heq & Hin)%list_elem_of_fmap. simpl in Heq.
  destruct (decide (t' = t)) as [->|]; [by injection Heq as ->|done].
Qed.

Lemma theirs_in_view t c part : Theirs c ∈ view t part → ∃ t', t' ≠ t ∧ (t', c) ∈ part.
Proof.
  intros ([t' c'] & Heq & Hin)%list_elem_of_fmap. simpl in Heq.
  destruct (decide (t' = t)); [done|]. injection Heq as ->. by exists t'.
Qed.

Lemma in_view_own t c part : (t, c) ∈ part → Own c ∈ view t part.
Proof. intros Hin. apply list_elem_of_fmap. exists (t, c). by rewrite decide_True. Qed.

Lemma takes_part_heard t h sched c :
  takes_part t h sched → Theirs c ∈ h → ∃ t', t' ≠ t ∧ (t', c) ∈ sched.
Proof.
  intros (before & during & after & -> & -> & _) (t' & Hne & Hin)%theirs_in_view.
  exists t'. split; [done|]. set_solver.
Qed.

(** Whatever a thread has in the schedule it published. *)
Lemma takes_part_own t h sched c :
  takes_part t h sched → (t, c) ∈ sched → Own c ∈ h.
Proof.
  intros (before & during & after & -> & -> & Hno) Hin. rewrite Forall_forall in Hno.
  apply in_view_own. apply elem_of_app in Hin as [Hin|[Hin|Hin]%elem_of_app]; [|done|];
    by destruct (Hno (t, c)); [set_solver|].
Qed.

Lemma own_published P c tr : Forall (publishes P) tr → Own c ∈ history tr → P c.
Proof.
  intros Hall (e & He & [r ->]%own_enacted_by)%elem_of_history.
  rewrite Forall_forall in Hall. apply (Hall _ He).
Qed.

(** ** The property *)

Section threads.
Context (K : thread → kernel ssys) (percent : Z → Z → Z → list byte) (fuel : nat)
  (options : SandboxOptions) (cgroup : SandboxCgroup) (start : monitor → sandbox).

(** The trace of a monitor that started with the memory [start m]. *)
Definition monitor_trace (m : monitor) : strace :=
  trace (monitor_program percent fuel options cgroup m (K (Monitor_thread m))
           (World (start m) [])).2.

(** The four runs agree on the schedule, in which a monitor has a part if the
    controller created it. *)
Definition agree (controller_trace : strace) (sched : schedule) : Prop :=
  takes_part Controller_thread (history controller_trace) sched ∧
  ∀ m, (created m controller_trace →
          takes_part (Monitor_thread m) (history (monitor_trace m)) sched) ∧
       (¬ created m controller_trace → absent (Monitor_thread m) sched).

(** The monitors watch over the workload of the controller [w0]. *)
Definition same_workload (w0 : world ssys sandbox) : Prop :=
  ∀ m, supervisor_pid (sb_state (start m)) = supervisor_pid (sb_state (globals w0)) ∧
       child_pid (sb_state (start m)) = child_pid (sb_state (globals w0)).

(** What a reason is worth, for a controller that began as [w0]. *)
Definition reason_true (w0 : world ssys sandbox) (reason : SandboxTerminationReason)
    (controller_trace : strace) : Prop :=
  match reason with
  | TERMINATION_NONE => True
  | TERMINATION_TIMEOUT =>
      created TimeoutMonitor controller_trace ∧
      time_exceeded (timeout_seconds options) (monitor_trace TimeoutMonitor)
  | TERMINATION_MEMORY_LIMIT =>
      created MemoryMonitor controller_trace ∧
      memory_exceeded cgroup (supervisor_pid (sb_state (globals w0)))
        (child_pid (sb_state (globals w0))) (memory_limit_kilobytes options)
        (monitor_trace MemoryMonitor)
  | TERMINATION_OPERATOR_SIGNAL => got_signal controller_trace
  | TERMINATION_MONITOR_ERROR =>
      creation_failed controller_trace ∨
      ∃ m, created m controller_trace ∧ hindered cgroup [] (monitor_trace m)
  | TERMINATION_SUPERVISOR_ERROR => hindered cgroup (trace w0) controller_trace
  end.

(** A monitor's change in the schedule is one that it makes. *)
Lemma scheduled_change tr sched m change :
  agree tr sched → (Monitor_thread m, change) ∈ sched →
  created m tr ∧ monitor_changes m change ∧ Own change ∈ history (monitor_trace m).
Proof.
  intros [_ Hmon] Hin. destruct (Hmon m) as [Ht Habs].
  destruct (decide (created m tr)) as [Hm|Hm]; [specialize (Ht Hm)|specialize (Habs Hm)].
  2:{ unfold absent in Habs. rewrite Forall_forall in Habs. by destruct (Habs _ Hin). }
  pose proof (takes_part_own _ _ _ _ Ht Hin) as Hown. split; [done|]. split; [|done].
  destruct (monitor_publishes percent fuel options cgroup m (K (Monitor_thread m))
    (World (start m) [])) as (new & Htr & Hall). rewrite app_nil_r in Htr.
  eapply own_published; [exact Hall|]. by rewrite <- Htr.
Qed.

(** A request in the schedule has its grounds. *)
Lemma scheduled_reason w0 tr sched m reason :
  clock_monotonic (K (Monitor_thread TimeoutMonitor)) → Z.of_nat fuel ≤ 2 ^ 50 →
  0 < supervisor_pid (sb_state (globals w0)) → same_workload w0 →
  agree tr sched → (Monitor_thread m, Request reason) ∈ sched → reason_true w0 reason tr.
Proof.
  intros Hclock Hfuel Hpos Hsame Hagree Hin.
  destruct (scheduled_change _ _ _ _ Hagree Hin) as (Hm & Hc & Hown). destruct Hc as [[= ->]|Hc].
  - right. exists m. split; [done|]. destruct (Hsame m) as [Es _].
    eapply (guarded_published _ (hindered cgroup [])); [|apply hindered_later|exact Hown].
    apply monitor_errors; [by rewrite Es|done].
  - destruct m; [| |done]; injection Hc as ->; (split; [exact Hm|]).
    + eapply (guarded_published _ (time_exceeded _)); [by apply timeout_guarded|apply time_exceeded_later|exact Hown].
    + destruct (Hsame MemoryMonitor) as [<- <-].
      eapply (guarded_published _ (memory_exceeded _ _ _ _));
        [apply memory_guarded|apply memory_exceeded_later|exact Hown].
Qed.

(** No monitor declares the workload gone. *)
Lemma agree_unmarked tr sched : agree tr sched → unmarked tr.
Proof.
  intros Hagree Hin.
  destruct (takes_part_heard _ _ _ _ (proj1 Hagree) Hin) as ([|m] & Hne & Hm); [done|].
  destruct (scheduled_change _ _ _ _ Hagree Hm) as (_ & [[=]|Hc] & _). by destruct m.
Qed.

End threads.

Lemma keeps_up_pressed lag n m tr :
  MONITOR_POLL_MILLISECONDS * sleeps m + lag ≤ SUPERVISOR_POLL_MILLISECONDS * n →
  closed (history m) → keeps_up lag m tr → pressed n tr.
Proof.
  intros Hn (x & Hx & He)%Exists_exists.
  induction tr as [|e tr IH]; [done|]. intros [Hlock Hbefore]. split; [|by apply IH].
  destruct e as [T c r]. destruct c; try done. destruct r as [cs|]; [|done].
  intros Hnaps. assert (Hlate : MONITOR_POLL_MILLISECONDS * sleeps m + lag ≤
    SUPERVISOR_POLL_MILLISECONDS * naps tr) by (unfold SUPERVISOR_POLL_MILLISECONDS in *; lia).
  specialize (Hlock Hlate). rewrite Forall_forall in Hlock.
  pose proof (Hlock _ Hx) as (y & Hxy & Hy)%list_elem_of_fmap.
  apply Exists_exists. exists y. by rewrite <- Hxy.
Qed.

(** The timeout monitor's history is closed in the end, and it slept for no
    longer than the limit. *)
Lemma timeout_closes K fuel timeout_seconds poll g :
  Locking K → sleeps_through K → clock_advances K poll → 0 < poll → 0 ≤ timeout_seconds →
  can_request (sb_state g) = true →
  timeout_seconds * 1000 ≤ poll * (Z.of_nat fuel - 1) → Z.of_nat fuel ≤ 2 ^ 50 →
  let tr := trace (timeout_monitor_thread fuel timeout_seconds poll K (World g [])).2 in
  closed (history tr) ∧ poll * sleeps tr < timeout_seconds * 1000 + poll.
Proof.
  intros HK Hsl Hcl Hp Ht Hg Hf Hw tr. subst tr.
  pose proof (timeout_monitor_ends K fuel timeout_seconds poll g HK Hsl Hcl Hp Ht Hg Hf Hw) as Hend.
  destruct (accounts (m := timeout_monitor_thread fuel timeout_seconds poll) K (World g []))
    as (new & Htr & Hst).
  unfold wp, post in Hend. destruct (timeout_monitor_thread _ _ _ K _) as [[[]|h] w']; [|done].
  simpl in *. rewrite app_nil_r in Htr. subst new.
  destruct Hend as [[Hend _] Hs]. split; [|exact Hs].
  apply (replay_closed _ (sb_state g)); [done|]. by rewrite <- Hst.
Qed.

Lemma no_history_guarded R needs tr : history tr = [] → guarded_by (asks R) needs tr.
Proof.
  induction tr as [|e tr IH]; [done|]. simpl. intros [Htr He]%app_eq_nil.
  split; [|by apply IH]. intros Ha. destruct e as [T c r]. by destruct c.
Qed.

(** The options of a command line, whatever the environment. *)
Definition parsed (argv : list (list byte)) (options : SandboxOptions) : Prop :=
  ∀ (K : kernel ssys) (w : world ssys sandbox), (parse_options argv K w).1 = Ret (Some options).

Lemma parsed_limits argv options : parsed argv options → 1 ≤ timeout_seconds options.
Proof.
  intros Hp. specialize (Hp (scenario_kernel nothing) (World initial [])).
  revert Hp. unfold parse_options, bind.
  pose proof (parse_loop_spec (scenario_kernel nothing) argv (World initial [])) as Hloop.
  unfold wp in Hloop. destruct (loop _ _ _ _ _) as [[[s|]|h] w']; [|done..].
  destruct (Hloop s eq_refl) as ([Hs _] & _).
  destruct (argv !! argument_index s); [|done]. case_bool_decide; [done|]. by intros [= <-].
Qed.

(** ** Properties *)

(** C9. The reason the controller gives for ending its workload is true, in
    every interleaving of the four threads that agrees on the order of the
    changes of the shared state: it says timeout only if it created the timeout
    monitor, which read its clock twice with the limit in between (less a millisecond at
    most), memory limit only if the kernel's files showed the memory monitor
    that the workload has at least the limit, operator signal only if a signal
    was delivered to the controller, monitor error only if a monitor could not
    be created, a call of one failed or a file it read was not what the kernel
    writes, and supervisor error only if that happened to the controller. *)
Theorem reported_reason_true K percent fuel options cgroup start sched w l w' :
  clock_monotonic (K (Monitor_thread TimeoutMonitor)) → Z.of_nat fuel ≤ 2 ^ 50 →
  0 < supervisor_pid (sb_state (globals w)) → same_workload start w →
  history (trace w) = [] → operator_signal_number (globals w) = 0 →
  termination_reason (sb_state (globals w)) = TERMINATION_NONE →
  monitor_and_supervise fuel options cgroup TERMINATION_NONE (K Controller_thread) w = (Ret l, w') →
  agree K percent fuel options cgroup start (trace w') sched →
  reason_true K percent fuel options cgroup start w (l_termination_reason l) (trace w').
Proof.
  intros Hclock Hfuel Hpos Hsame Hnone H0 Hreason Hrun Hagree. set (Kc := K Controller_thread) in *.
  assert (attentive (trace w) (supervisor_pid (sb_state (globals w)))
    (child_pid (sb_state (globals w))) w) as Hw.
  { split; [split; [by apply no_history_guarded|done..]|done|apply extends_refl]. }
  pose proof (monitored_shown Kc fuel cgroup (trace w) _ _ Hpos Hfuel options w Hw) as Hshown.
  pose proof (monitored_guarded Kc fuel cgroup options w (no_history_guarded _ _ _ Hnone)) as Herror.
  destruct (accounts (m := monitor_and_supervise fuel options cgroup TERMINATION_NONE) Kc w)
    as (new & Htr & Hst).
  destruct (monitored_publishes fuel options cgroup Kc w) as (new' & Htr' & Hpub).
  unfold wp in *. rewrite Hrun in *. cbn [fst snd] in *. destruct Hshown as [Hshown Hhonest].
  rewrite Htr in Htr'. apply (inj (.++ trace w)) in Htr' as <-.
  assert (history (trace w') = history new) as Hh by by rewrite Htr, history_app, Hnone.
  destruct Hshown as [->|[[-> Hs]|[[-> Hs]|[_ HR]]]]; [done|done|done|].
  destruct (decide (l_termination_reason l = TERMINATION_NONE)) as [->|Hne]; [done|].
  rewrite Hst in HR. apply replay_reason in HR as [Hown|Htheirs]; [| |congruence].
  - pose proof (own_published _ _ _ Hpub Hown) as [Hc|Hc]; rewrite Hc in Hown |- *.
    + left. eapply guarded_published; [exact Herror|apply creation_failed_later|by rewrite Hh].
    + eapply guarded_published; [exact Hhonest|apply got_signal_later|by rewrite Hh].
  - rewrite <- Hh in Htheirs.
    destruct (takes_part_heard _ _ _ _ (proj1 Hagree) Htheirs) as ([|m] & Hne' & Hin); [done|].
    by eapply scheduled_reason.
Qed.

(** C10. The sandbox does not outlast the timeout of its command line: on a
    system that obliges the controller and on which the timeout monitor, if
    the controller creates it, keeps time and is at most [lag] milliseconds
    behind, whatever the threads and the workload do, [main] returns 0 or 1,
    after having slept less than the timeout, the lag, an interval of 50
    milliseconds and two terminations of at most 6.1 seconds each. *)
Theorem timeout_ends_sandbox K percent fuel options cgroup start sched argv lag g o w' :
  parsed argv options →
  obliging (K Controller_thread) fuel → (101 ≤ fuel)%nat → 0 ≤ lag →
  timeout_seconds options * 1000 + lag + 50 ≤ 50 * Z.of_nat fuel → Z.of_nat fuel ≤ 2 ^ 50 →
  timekeeping (K (Monitor_thread TimeoutMonitor)) →
  can_request (sb_state (start TimeoutMonitor)) = true →
  main fuel argv (K Controller_thread) (World g []) = (o, w') →
  agree K percent fuel options cgroup start (trace w') sched →
  (created TimeoutMonitor (trace w') →
   keeps_up lag (monitor_trace K percent fuel options cgroup start TimeoutMonitor) (trace w')) →
  (o = Ret EXIT_SUCCESS ∨ o = Ret EXIT_FAILURE) ∧
  0 ≤ slept w' < timeout_seconds options * 1000 + lag + 12250.
Proof.
  intros Hparsed Hob Hfuel Hlag Henough Hwrap [HKt Hsleep Hclock] Hstart Hrun Hagree Hkeeps.
  pose proof (parsed_limits _ _ Hparsed) as Hlimit.
  set (n := (timeout_seconds options * 1000 + lag + 49) `div` 50).
  assert (50 * n ≤ timeout_seconds options * 1000 + lag + 49 < 50 * n + 50) as Hn.
  { subst n. pose proof (Z.div_mod (timeout_seconds options * 1000 + lag + 49) 50).
    pose proof (Z.mod_pos_bound (timeout_seconds options * 1000 + lag + 49) 50). lia. }
  destruct (main_ends (K Controller_thread) fuel argv n g o w') as [Ho Hs]; [done|done|lia|done|..].
  - by eapply agree_unmarked.
  - intros Hcreated. destruct (timeout_closes (K (Monitor_thread TimeoutMonitor)) fuel
      (timeout_seconds options) MONITOR_POLL_MILLISECONDS (start TimeoutMonitor)) as [Hclosed Hslept];
      [done|done|done|done|lia|done|unfold MONITOR_POLL_MILLISECONDS; lia|done|].
    eapply keeps_up_pressed; [|exact Hclosed|by apply Hkeeps].
    unfold MONITOR_POLL_MILLISECONDS, SUPERVISOR_POLL_MILLISECONDS in *. lia.
  - split; [exact Ho|lia].
Qed.

(** ** An example *)

(** A cgroup that is empty, and a monitor that finds it so. *)
Definition emptied : kernel ssys :=
  scenario_kernel (Scenario (λ _, []) (λ _, WaitNone) (λ _, (0, 0)) (λ _, []) (λ _, None)
    (λ _ path, Some (if bool_decide (path = txt "/sys/fs/cgroup/x/cgroup.events")
                     then txt "populated 0" ++ [LF] else txt "0" ++ [LF])) 200).

Definition sleeping_run (t : thread) : kernel ssys :=
  match t with
  | Controller_thread => interrupted_at 80
  | Monitor_thread TimeoutMonitor => ticking []
  | Monitor_thread MemoryMonitor => emptied
  | Monitor_thread CpuMonitor => scenario_kernel nothing
  end.

Definition timed_command : list (list byte) :=
  txt <$> ["Sandbox"; "--timeout"; "2"; "--"; "/bin/sleep"; "5"].

Definition two_seconds : SandboxOptions :=
  Options (txt "/bin/sleep") [txt "/bin/sleep"; txt "5"] 2 0.

Lemma two_seconds_parsed : parsed timed_command two_seconds.
Proof. intros K w. reflexivity. Qed.

(** The timeout monitor asks, and the controller marks what it sees. *)
Definition sleeping_schedule (marks : nat) : schedule :=
  (Monitor_thread TimeoutMonitor, Request TERMINATION_TIMEOUT) ::
  repeat (Controller_thread, Mark_workload_exited) marks.

Definition sleeping_history (marks : nat) : list enacted :=
  Theirs (Request TERMINATION_TIMEOUT) :: repeat (Own Mark_workload_exited) marks.

Lemma controller_marks_only t marks :
  t ≠ Controller_thread →
  Forall (λ x : thread * state_change, x.1 ≠ t) (repeat (Controller_thread, Mark_workload_exited) marks).
Proof. intros Ht. induction marks; by constructor. Qed.

(** A thread without a part in it. *)
Lemma sleeping_absent t marks :
  t ≠ Controller_thread → t ≠ Monitor_thread TimeoutMonitor →
  absent t (sleeping_schedule marks) ∧ takes_part t [] (sleeping_schedule marks).
Proof.
  intros Hc Ht. assert (absent t (sleeping_schedule marks)) as Habs
    by (constructor; [done|by apply controller_marks_only]).
  split; [exact Habs|]. by exists [], [], (sleeping_schedule marks).
Qed.

Lemma sleeping_agree K tr marks :
  (∀ m, K (Monitor_thread m) = sleeping_run (Monitor_thread m)) →
  history tr = sleeping_history marks → created TimeoutMonitor tr →
  agree K (λ _ _ _, []) 101 two_seconds hungry_cgroup (λ _, running) tr
    (sleeping_schedule marks).
Proof.
  intros HK Hh Htimeout. split.
  - rewrite Hh. exists [], (sleeping_schedule marks), []. split; [by rewrite app_nil_r|]. split; [|constructor].
    unfold view, sleeping_schedule, sleeping_history. rewrite fmap_cons. f_equal.
    clear Hh. induction marks as [|marks IH]; [done|].
    cbn [repeat]. rewrite fmap_cons. f_equal. exact IH.
  - intros m. destruct (decide (m = TimeoutMonitor)) as [->|Hm].
    + split; [intros _|done]. unfold monitor_trace. rewrite HK.
      exists [], (take 1 (sleeping_schedule marks)), (drop 1 (sleeping_schedule marks)).
      split; [done|]. split; [|by apply controller_marks_only]. vm_compute. reflexivity.
    + assert (history (monitor_trace K (λ _ _ _, []) 101 two_seconds hungry_cgroup (λ _, running) m)
        = []) as ->.
      { unfold monitor_trace. rewrite HK. by destruct m; [|vm_compute; reflexivity..]. }
      destruct (sleeping_absent (Monitor_thread m) marks) as [H1 H2]; [done|congruence|].
      by split.
Qed.

Notation sleeping_supervision :=
  (monitor_and_supervise 101 two_seconds hungry_cgroup TERMINATION_NONE
     (interrupted_at 80) (World running [])).

Definition sleeping_locals : locals :=
  Locals hungry_cgroup no_status TERMINATION_TIMEOUT (None, None) true true true false true.

Lemma sleeping_result : sleeping_supervision.1 = Ret sleeping_locals.
Proof. vm_compute. reflexivity. Qed.

Lemma sleeping_supervised : sleeping_supervision = (Ret sleeping_locals, sleeping_supervision.2).
Proof. rewrite <- sleeping_result. apply surjective_pairing. Qed.

Lemma ticking_monotonic os : clock_monotonic (ticking os).
Proof.
  intros tr tr' start current [new ->]. cbn [ticking scenario_kernel scenario_answer sc_clock].
  intros [= <-] [= <-]. unfold nanoseconds. cbn [fst snd].
  assert (sleeps tr ≤ sleeps (new ++ tr)).
  { unfold sleeps. rewrite count_events_app. lia. }
  pose proof (Z.div_mod (sleeps tr) 10). pose proof (Z.div_mod (sleeps (new ++ tr)) 10). lia.
Qed.

(** Two seconds pass, and the controller says so. *)
Lemma reported_reason_true_witness :
  let ticks := monitor_trace sleeping_run (λ _ _ _, []) 101 two_seconds hungry_cgroup
                 (λ _, running) TimeoutMonitor in
  sleeping_supervision.1 = Ret sleeping_locals ∧
  l_termination_reason sleeping_locals = TERMINATION_TIMEOUT ∧
  created TimeoutMonitor (trace sleeping_supervision.2) ∧ time_exceeded 2 ticks.
Proof.
  split; [exact sleeping_result|]. split; [reflexivity|].
  assert (history (trace sleeping_supervision.2) = sleeping_history 1) as Hh by (vm_compute; reflexivity).
  assert (created TimeoutMonitor (trace sleeping_supervision.2)) as Hc
    by (apply (bool_decide_unpack _); vm_compute; exact I).
  exact (reported_reason_true sleeping_run (λ _ _ _, []) 101 two_seconds hungry_cgroup
    (λ _, running) (sleeping_schedule 1) (World running []) sleeping_locals _
    (ticking_monotonic []) ltac:(discriminate) eq_refl (λ _, conj eq_refl eq_refl)
    eq_refl eq_refl eq_refl sleeping_supervised
    (sleeping_agree sleeping_run _ 1 (λ _, eq_refl) Hh Hc)).
Defined.

Lemma ticking_timekeeping : timekeeping (ticking []).
Proof. split; [apply _|done|apply ticking_advances]. Qed.

(** The workload is killed after two seconds: it hears of the timeout at its
    41st look, the controller's 82nd, and is done in the time of two
    terminations. *)
Definition sleeping_threads (t : thread) : kernel ssys :=
  match t with
  | Controller_thread => sleeping_workload 81
  | Monitor_thread m => sleeping_run (Monitor_thread m)
  end.

Lemma timeout_ends_sandbox_witness :
  let r := main 101 timed_command (sleeping_workload 81) (World initial []) in
  r.1 = Ret EXIT_FAILURE ∧ termination_reason (sb_state (globals r.2)) = TERMINATION_TIMEOUT ∧
  slept r.2 < 2 * 1000 + 100 + 12250.
Proof.
  intros r. assert (r.1 = Ret EXIT_FAILURE) as E by (vm_compute; reflexivity).
  split; [exact E|]. split; [vm_compute; reflexivity|].
  assert (r = (Ret EXIT_FAILURE, r.2)) as Hr by (rewrite <- E; apply surjective_pairing).
  assert (history (trace r.2) = sleeping_history 2) as Hh by (vm_compute; reflexivity).
  assert (created TimeoutMonitor (trace r.2)) as Hc
    by (apply (bool_decide_unpack _); vm_compute; exact I).
  assert (keeps_up 100 (monitor_trace sleeping_threads (λ _ _ _, []) 101 two_seconds
    hungry_cgroup (λ _, running) TimeoutMonitor) (trace r.2)) as Hkeeps
    by (apply (bool_decide_unpack _); vm_compute; exact I).
  destruct (timeout_ends_sandbox sleeping_threads (λ _ _ _, []) 101 two_seconds hungry_cgroup
    (λ _, running) (sleeping_schedule 2) timed_command 100 initial _ r.2 two_seconds_parsed
    (sleeping_obliging 81) (le_n 101) ltac:(discriminate) ltac:(discriminate) ltac:(discriminate)
    ticking_timekeeping eq_refl Hr
    (sleeping_agree sleeping_threads _ 2 (λ _, eq_refl) Hh Hc) (λ _, Hkeeps)) as [_ Hs].
  exact (proj2 Hs).
Defined.
